(* ===== verification/_CoqProject ===== *)
-Q . S2P
Prelude.v
Erasure.v
FileInfo.v
Quorum.v
Distribution.v
Bitrot.v
ParallelRead.v
ErasureIO.v
ObjectStream.v
LocalLocker.v
DSync.v
Restore.v
Inline.v
XLMeta.v
XLMerge.v
XLRead.v
XLFormat.v
Healing.v
HTTPRange.v
ObjectRead.v
XLStorage.v
ObjectInfo.v
ObjectMeta.v
ObjectWrite.v
PutGet.v
Calendar.v
SignV4.v
SignCheck.v
ChunkedReader.v
Topology.v
Lifecycle.v
Names.v
NSLock.v
ObjectLock.v
Scanner.v
