(* ===== verification/Prelude.v ===== *)
(** * uitstor: a verification development of the object store's core

    uitstor is an S3 object store.  An object is cut into blocks, every block is
    erasure coded into one shard per disk of an erasure set, every shard is stored
    with a checksum against bit rot, and every disk keeps the versions of the
    object in its own [xl.meta] journal.  A quorum of disks decides what a read
    returns and whether a write succeeded; read-write locks that a quorum of lock
    servers grants order the requests.  This library models that core in Go's own
    terms and proves what it promises.

    ** Parts, files and sources

    - [Prelude.v]: Go's 64-bit arithmetic, slices, errors, [result], byte streams,
      times, maps iterated in an unspecified order ([MapOrder]), counting.
    - [Erasure.v] ([cmd/erasure-coding.go], [cmd/erasure-utils.go]): the [Erasure]
      record, encoding and decoding of a block, shard sizes and offsets.  The
      Reed-Solomon code is a class with its documented laws.
    - [FileInfo.v] ([cmd/storage-datatypes.go], [cmd/erasure-metadata.go],
      [cmd/bucket-replication-utils.go]): the metadata of a version, parts,
      checksums, replication states.
    - [Quorum.v] ([cmd/erasure-metadata-utils.go], [cmd/erasure-metadata.go],
      [cmd/erasure-healing-common.go]): reduction of the disks' errors and metadata
      to one answer.
    - [Distribution.v] (the same files): which disk holds which shard, and writing
      metadata to all disks.
    - [Bitrot.v] ([cmd/bitrot.go], [cmd/bitrot-streaming.go],
      [cmd/bitrot-whole.go]): checksummed shard files.
    - [ParallelRead.v] and [ErasureIO.v] ([cmd/erasure-decode.go],
      [cmd/erasure-encode.go]): the goroutines of [parallelReader.Read] as
      interleaved steps, and [Decode], [Heal], [Encode] over readers and writers
      behind interfaces.
    - [ObjectStream.v]: their composition with the bitrot layer.
    - [LocalLocker.v] ([cmd/local-locker.go]): the lock server and the abstract
      lock table it implements.
    - [DSync.v] ([internal/dsync/drwmutex.go]): the distributed mutex over servers
      behind the interface [NetLocker], as a system of steps.
    - [Restore.v] ([cmd/bucket-lifecycle.go]): the restore status of tiered
      objects.
    - [Inline.v] ([cmd/xl-storage-meta-inline.go]): small objects inside
      [xl.meta], on the serialized bytes.
    - [XLMeta.v] ([cmd/xl-storage-format-v2.go],
      [cmd/xl-storage-free-version.go]): the journal of an object and every
      operation that changes it.
    - [XLMerge.v] ([mergeXLV2Versions]): merging the journals of the disks.
    - [XLRead.v] ([ToFileInfo], [ListVersions] and what they call): reading
      versions out of the journal.
    - [XLFormat.v] ([cmd/xl-storage-format-v2.go], its generated and legacy decoders
      and [cmd/xl-storage-format-utils.go]): the bytes of [xl.meta], and the readers
      that work on them without loading the journal.
    - [Healing.v] ([cmd/erasure-healing-common.go], [cmd/erasure-healing.go]): which
      disks hold a sound copy, which need healing, and when an object is dangling.
    - [HTTPRange.v] ([cmd/httprange.go], [cmd/copy-part-range.go]): parsing and
      resolving the byte ranges of requests.
    - [ObjectRead.v] and [ObjectInfo.v] ([cmd/erasure-object.go],
      [cmd/object-api-errors.go]): the read path of the object layer, which puts the
      parts above together: [getObjectFileInfo] finds the version a quorum agrees on
      and the disks that have it, [getObjectWithFileInfo] streams a range of it over
      all its parts.
    - [XLStorage.v] ([cmd/xl-storage.go]): what a drive does with the directory of an
      object: [RenameData], [DeleteVersion], [WriteMetadata], [UpdateMetadata] and
      [ReadVersion] over a file system whose calls fail, with every state the drive
      passes through.
    - [ObjectMeta.v] ([cmd/object-api-datatypes.go], [FileInfo.ToObjectInfo]): the
      description of a version that the features below work with.
    - [ObjectWrite.v] ([cmd/erasure-object.go], [cmd/erasure-multipart.go],
      [cmd/bitrot-streaming.go]): the write path: [putObject] chooses the parity,
      streams the shards to files or into the metadata, and renames the upload into
      place on every disk ([renameData]).  The disks are behind the interface
      [DiskWrites].
    - [PutGet.v]: the class [DiskStores] states what a disk promises to both paths;
      an upload over such disks composed with the reads after it.
    - [Calendar.v]: dates, and RFC 3339 printing and parsing, of the standard
      library.
    - [SignV4.v] ([cmd/signature-v4.go], [cmd/signature-v4-parser.go],
      [cmd/signature-v4-utils.go], parts of [cmd/auth-handler.go] and
      [internal/auth/credentials.go]): parsing and checking signatures of version 4
      over hashes and users behind interfaces; [SignCheck.v] has its theorems.
    - [ChunkedReader.v] ([cmd/streaming-signature-v4.go]): streamed uploads with
      signed chunks.
    - [Topology.v] ([cmd/endpoint-ellipses.go], [internal/config/storageclass],
      [cmd/format-erasure.go], parts of [cmd/erasure-sets.go]): how drives become
      erasure sets, their parity, the formats that keep every drive in its place,
      and the set of an object.
    - [Lifecycle.v] ([internal/bucket/lifecycle]): the lifecycle configuration of a
      bucket, its validation, and the action it asks for on a version.
    - [Names.v] ([cmd/object-api-utils.go], [cmd/object-api-input-checks.go], parts of
      [cmd/utils.go], [cmd/generic-handlers.go] and [cmd/xl-storage.go]): the checks
      on the names of buckets and objects, and the paths they become on a drive.
    - [NSLock.v] ([cmd/namespace-lock.go], [internal/lsync/lrwmutex.go]): the locks of
      one node: counted mutexes behind a map of pointers, and requests on them as
      interleaved threads.
    - [ObjectLock.v] ([internal/bucket/object/lock], [cmd/bucket-object-lock.go],
      parts of [cmd/auth-handler.go] and [cmd/object-handlers.go]): legal holds and
      retention, and the checks before deletes, overwrites and changes of retention.
    - [Scanner.v] ([cmd/data-scanner.go]): the lifecycle decisions of the scanner,
      over the two files above.

    ** Conventions

    A struct is a [Record] whose fields carry a prefix, a method is a function on
    it, and a function that changes state returns the new state.  [(T, error)] is
    [result T] or a pair with an [option error]; a run-time panic is [None] of an
    [option].  Integers are [Z] with the wrap-around of [int64] written out where
    the code can reach it.  A range over a map follows an order given by a
    [MapOrder] instance, so that a theorem holds for every order.  Goroutines are
    steps of a transition system, and theorems hold for every interleaving.
    Third-party and generated code (Reed-Solomon, hashes, MessagePack, UUIDs,
    calendar times) is a class, with its laws in a second class or as fields;
    every class has an instance that the witnesses use.

    ** What is proved

    - Objects: what [putObject] stored, [getObjectFileInfo] and
      [getObjectWithFileInfo] return, byte for byte, while enough of the disks that
      took it can be read ([putObject_getObject]).
    - Storage: what [Encode] wrote, any [DataBlocks] healthy disks give back through
      [Decode], for every range and schedule ([put_get]); the parallel reader has no
      deadlock and the same result as a sequential one; bit rot is detected.
    - Quorums: success is reported exactly when a quorum succeeded; the metadata
      picked is what a quorum agrees on; read and write quorums intersect; disk
      orders are permutations.
    - Locks: two holders of a resource are both readers, along every interleaving;
      the lock server refines a lock table; refreshed locks survive, released ones
      are gone; [Unlock] returns when the servers that granted the lock are reached
      and still have it ([Unlock_returns]).  On one node, holders exclude each other,
      no step panics and nothing is left behind ([namespace_locks_safe]), and
      requests that lock in order never deadlock ([namespace_locks_live]).
    - Journal: what [AddVersion] wrote is read back by [ToFileInfo] and nothing else
      changes; a delete removes exactly its version and never a data directory in
      use; versions stay in order along every sequence of operations; inline data
      refines a list of entries; disks agree on headers; a merge returns exactly the
      versions a quorum of disks has when the disks merely missed writes.
    - Metadata file: what is written is loaded back, the partial reader returns the
      file without its inline data, and the readers on bytes agree with the journal
      ([xl_meta_roundtrip], [xlMetaBuf_equivalent]).
    - Drive: an upload that is moved into place can be read, and no crash or failing
      call loses an older version, except where [RenameData_faults] shows it
      ([RenameData_ReadVersion], [RenameData_crash_safe]); a delete removes exactly
      its version and its data ([DeleteVersion_on_disk]).
    - Reading objects: the version that enough disks have is the one that is read,
      every answer has a quorum behind it, a read deletes only versions that cannot
      be recovered ([getObjectFileInfo_sees], [getObjectFileInfo_sound],
      [getObjectFileInfo_deletes]); the bytes of a range are delivered across parts,
      offline, failing and damaged disks ([getObject_range]).
    - Healing: every disk that answers without a sound copy is marked for healing
      ([heal_misses_no_disk]), and an object is purged only when fewer disks than
      its data needs can still hold it ([purge_only_unrecoverable]).
    - Ranges: a range header resolves to exactly the bytes RFC 7233 names, or to an
      error when there are none ([HTTPRange_correct]).
    - Lifecycle: an action is taken only when a rule that applies is due, and what is
      due is not overlooked ([ComputeAction_due]); validation accepts exactly the
      well-formed configurations; the announced expiry is the one that happens; the
      scanner spares locked versions and the newest noncurrent ones.
    - Object locks: compliance mode is write once, read many along every sequence of
      requests ([compliance_is_worm]); exactly who may delete a locked version; the
      default retention of a bucket protects what is written.
    - Sets: the drives are partitioned into sets of equal size
      ([GetAllSets_partition]), the parity fits them ([storage_class_bounds]), and
      drives keep their places when half of the formats can be read
      ([formats_place_drives]).
    - Names: an accepted name never leaves the directory of its bucket, and two
      names do not share a path, directory objects and their stored form apart
      ([accepted_names_confined], [accepted_names_distinct]).
    - Signatures: a signature binds the whole request up to collisions of the hashes
      ([signature_binds_request]); a link is good only in its time and as it was
      signed ([presigned_request_in_window]); what a client signs is accepted
      ([signed_request_accepted]); a streamed upload delivers exactly the signed
      chunks, and never a byte of another ([streamed_upload_delivered],
      [streamed_upload_authentic]).
    - Faults: theorems ending a group show inputs on which the code does not do what
      it means to ([preferReaders_misplaces_shard], [Unlock_never_returns],
      [delete_marker_quorums_disjoint], [merge_faults], [lifecycle_faults],
      [object_lock_faults], [newer_noncurrent_faults], [RenameData_faults],
      [free_version_hides_latest], [pool_parity_faults], [foreign_format_wins],
      [empty_read_loses_chunk], [presigned_payload_unchecked],
      [meta_prefix_escapes], [dir_object_collision]).

    ** Fuel

    Loops that are not structural take fuel that is proved enough: the rounds of
    [ForceUnlock] and of the merge have as many as there are entries, or versions,
    plus one; the block loops of [Decode] and [Encode] as many as there are blocks,
    the loop of [getObjectWithFileInfo] as many as there are parts in the range;
    the regular expression matcher of [XLRead.v] consumes a character a round.

    ** Not modelled

    Network I/O (RPC, gateways), the rest of the storage backend (volumes, shard
    file streams), the HTTP handlers, IAM, signatures of version 2 and web tokens,
    cryptography, configuration, events and metrics; the generated encoders of a
    version, and the memory they reuse between versions; multipart uploads, deletes and copies of the object layer, the
    rewriting of shards by [healObject], listing, and the versioning and
    replication configurations; the XML form of the lifecycle and
    lock configurations. *)

From stdpp Require Export base gmap strings list fin_maps sorting.
From Stdlib Require Export ZArith Lia.
From Stdlib Require Strings.Byte.

#[global] Open Scope string_scope.
#[global] Open Scope list_scope.
#[global] Open Scope Z_scope.

(** ** Fixed width integers

    Go's [int] and [int64] are 64-bit two's complement numbers; [/] and [%]
    truncate towards zero, which is [Z.quot] and [Z.rem]. *)

Definition wrap64 (z : Z) : Z := (z + 2 ^ 63) mod 2 ^ 64 - 2 ^ 63.

Definition int64_range (z : Z) : Prop := - 2 ^ 63 <= z < 2 ^ 63.

Definition wrapu8 (z : Z) : Z := z mod 2 ^ 8.
Definition wrapu32 (z : Z) : Z := z mod 2 ^ 32.

Lemma wrap64_id z : int64_range z -> wrap64 z = z.
Proof. unfold int64_range, wrap64; intros. rewrite Z.mod_small; lia. Qed.

Lemma wrap64_range z : int64_range (wrap64 z).
Proof.
  unfold int64_range, wrap64.
  pose proof (Z.mod_pos_bound (z + 2 ^ 63) (2 ^ 64) ltac:(lia)). lia.
Qed.

(** Arithmetic at width 64.  [quot64] and [rem64] are used where the source has
    excluded a zero divisor; a division that can meet zero is an explicit test
    for the panic. *)
Definition add64 (a b : Z) : Z := wrap64 (a + b).
Definition sub64 (a b : Z) : Z := wrap64 (a - b).
Definition mul64 (a b : Z) : Z := wrap64 (a * b).
Definition neg64 (a : Z) : Z := wrap64 (- a).
Definition quot64 (a b : Z) : Z := wrap64 (Z.quot a b).
Definition rem64 (a b : Z) : Z := Z.rem a b.

Declare Scope int64_scope.
Delimit Scope int64_scope with int64.
Arguments add64 (a b)%_int64_scope.
Arguments sub64 (a b)%_int64_scope.
Arguments mul64 (a b)%_int64_scope.
Arguments neg64 a%_int64_scope.
Arguments quot64 (a b)%_int64_scope.
Infix "+" := add64 : int64_scope.
Infix "-" := sub64 : int64_scope.
Infix "*" := mul64 : int64_scope.
Notation "- a" := (neg64 a) : int64_scope.
Infix "/" := quot64 : int64_scope.

(** ** Bytes *)

Abbreviation byte := Byte.byte.
Abbreviation bytes := (list Byte.byte).

#[global] Instance byte_eq_dec : EqDecision byte := Byte.byte_eq_dec.

(** Length of a slice as a Go [int]. *)
Abbreviation len l := (Z.of_nat (length l)).

(** Slicing [l[n:]] and [l[:n]] at an index known to be in range. *)
Definition slice_from {A} (l : list A) (n : Z) : list A := drop (Z.to_nat n) l.
Definition slice_to {A} (l : list A) (n : Z) : list A := take (Z.to_nat n) l.

(** Reading and writing [l[i]]: [None] is the panic on an index out of range. *)
Definition go_get {A} (l : list A) (i : Z) : option A :=
  if i <? 0 then None else l !! Z.to_nat i.
Definition go_set {A} (l : list A) (i : Z) (x : A) : option (list A) :=
  if (0 <=? i) && (i <? len l) then Some (<[Z.to_nat i := x]> l) else None.

Lemma go_set_in {A} (l : list A) i x : 0 <= i < len l ->
  go_set l i x = Some (<[Z.to_nat i := x]> l).
Proof.
  intros. unfold go_set. destruct (Z.leb_spec 0 i); [|lia]. by destruct (Z.ltb_spec i (len l)); [|lia].
Qed.

(** ** Time

    A [time.Time] is the number of nanoseconds since January 1 of year 1 UTC:
    the zero [time.Time{}] is [0] and [IsZero] tests for it; Unix times count
    from [unix_epoch]. *)

Definition time := Z.
Definition nanosecond : Z := 1.
Definition second : Z := 10 ^ 9.
Definition minute : Z := 60 * second.
Definition hour : Z := 60 * minute.

Definition unix_epoch : time := 62135596800 * second.
Definition time_IsZero (t : time) : bool := bool_decide (t = 0).
Definition time_Unix_nano (n : Z) : time := unix_epoch + n.
Definition time_UnixNano (t : time) : Z := wrap64 (t - unix_epoch).
(** [time.Time.Sub] saturates at the bounds of a [Duration]. *)
Definition time_Sub (t u : time) : Z := Z.max (- 2 ^ 63) (Z.min (2 ^ 63 - 1) (t - u)).

(** ** Errors

    An [error] is an interface value compared with [==]: a [StorageErr] is a
    string type, so it is compared by content; the value of [errors.New] or
    [fmt.Errorf] is a pointer, so it is compared by identity ([ptr]); [ErrWrap]
    is [fmt.Errorf] with [%w].  [nil] is [None : option error]. *)

Inductive error : Type :=
| StorageErr (s : string)
| ErrNew (s : string)
| Errorf (ptr : N) (s : string)
| ErrWrap (ptr : N) (s : string) (e : error).

#[global] Instance error_eq_dec : EqDecision error.
Proof. solve_decision. Defined.

Definition error_encode : error -> gen_tree (string + N) :=
  fix go e := match e with
  | StorageErr s => GenNode 0 [GenLeaf (inl s)]
  | ErrNew s => GenNode 1 [GenLeaf (inl s)]
  | Errorf p s => GenNode 2 [GenLeaf (inr p); GenLeaf (inl s)]
  | ErrWrap p s e => GenNode 3 [GenLeaf (inr p); GenLeaf (inl s); go e]
  end.

Definition error_decode : gen_tree (string + N) -> option error :=
  fix go t := match t with
  | GenNode 0 [GenLeaf (inl s)] => Some (StorageErr s)
  | GenNode 1 [GenLeaf (inl s)] => Some (ErrNew s)
  | GenNode 2 [GenLeaf (inr p); GenLeaf (inl s)] => Some (Errorf p s)
  | GenNode 3 [GenLeaf (inr p); GenLeaf (inl s); t] => ErrWrap p s <$> go t
  | _ => None
  end.

Lemma error_decode_encode e : error_decode (error_encode e) = Some e.
Proof. induction e as [| | |p s e IH]; simpl; [done..|]. by rewrite IH. Qed.

#[global] Instance error_countable : Countable error :=
  inj_countable error_encode error_decode error_decode_encode.

(** [errors.Is(err, target)]: [err] or something it wraps is [target]. *)
Fixpoint error_Is (e target : error) : bool :=
  bool_decide (e = target) ||
  match e with ErrWrap _ _ e' => error_Is e' target | _ => false end.

(** [errors.Is] on interface values: [nil] is only [nil]. *)
Definition errors_Is (e target : option error) : bool :=
  match e, target with
  | None, None => true
  | Some e, Some t => error_Is e t
  | _, _ => false
  end.

Definition Canceled : error := ErrNew "context canceled".

(** ** Fallible code

    A Go function that returns [(T, error)] returns a [result T]; a run-time
    panic (an index out of range, a nil dereference) is [None] of an
    [option]. *)

Inductive result (A : Type) : Type :=
| Ok (a : A)
| Err (e : error).
Arguments Ok {A} a.
Arguments Err {A} e.

Definition result_bind {A B} (r : result A) (k : A -> result B) : result B :=
  match r with Ok a => k a | Err e => Err e end.

Declare Scope go_scope.
Delimit Scope go_scope with go.

Notation "'let*' x ':=' c 'in' k" := (result_bind c (fun x => k))
  (at level 10, x pattern, k at level 200) : go_scope.
Notation "'let?' x ':=' c 'in' k" := (mbind (M := option) (fun x => k) c)
  (at level 10, x pattern, k at level 200) : go_scope.

(** ** Streams

    An [io.Reader]: the bytes it still delivers and the error it then returns. *)

Record stream := mkStream { st_data : bytes; st_end : error }.

Definition EOF : error := ErrNew "EOF".
Definition ErrUnexpectedEOF : error := ErrNew "unexpected EOF".
Definition ErrShortWrite : error := ErrNew "short write".

(** [io.ReadFull(r, buf)] with [len(buf) = n]: the stream it leaves, the bytes
    read and the error. *)
Definition ReadFull (r : stream) (n : nat) : stream * bytes * option error :=
  if (n <=? length (st_data r))%nat then
    (mkStream (drop n (st_data r)) (st_end r), take n (st_data r), None)
  else
    (mkStream [] (st_end r), st_data r,
     Some (if negb (bool_decide (st_data r = [])) && bool_decide (st_end r = EOF)
           then ErrUnexpectedEOF else st_end r)).

(** ** Consecutive blocks

    [chunks n size l] cuts [n] pieces off [l]; [blocks_of size l] cuts it all,
    the last block being shorter when the size does not divide the length. *)

Fixpoint chunks {A} (n : nat) (size : nat) (l : list A) : list (list A) :=
  match n with
  | O => []
  | S n => take size l :: chunks n size (drop size l)
  end.

Definition blocks_of {A} (size : nat) (l : list A) : list (list A) :=
  chunks ((length l + size - 1) / size) size l.

Section Chunks.
Context {A : Type}.
Implicit Types l : list A.

Lemma length_chunks n size l : length (chunks n size l) = n.
Proof. revert l. induction n; intros; simpl; auto. Qed.

Lemma concat_chunks n size l : concat (chunks n size l) = take (n * size) l.
Proof.
  revert l. induction n as [|n IH]; intros l; simpl; [done|].
  by rewrite IH, take_take_drop.
Qed.

Lemma chunks_size n size l : (n * size <= length l)%nat ->
  Forall (fun b => length b = size) (chunks n size l).
Proof.
  revert l. induction n as [|n IH]; intros l Hl; simpl in *; constructor.
  - rewrite length_take. lia.
  - apply IH. rewrite length_drop. lia.
Qed.

Lemma blocks_of_nil size : (0 < size)%nat -> blocks_of size ([] : list A) = [].
Proof. intros Hs. unfold blocks_of. simpl. rewrite Nat.div_small by lia. done. Qed.

Lemma blocks_of_cons size l : (0 < size)%nat -> l <> [] ->
  blocks_of size l = take size l :: blocks_of size (drop size l).
Proof.
  intros Hs Hl. unfold blocks_of. rewrite length_drop.
  assert (0 < length l)%nat by (destruct l; [done|simpl; lia]).
  destruct (decide (length l <= size)%nat).
  - replace ((length l + size - 1) / size)%nat with 1%nat.
    2:{ apply (Nat.div_unique _ _ _ (length l - 1)); lia. }
    replace ((length l - size + size - 1) / size)%nat with 0%nat; [done|].
    symmetry. apply Nat.div_small. lia.
  - replace (length l + size - 1)%nat with ((length l - size + size - 1) + 1 * size)%nat by lia.
    rewrite Nat.div_add by lia. rewrite Nat.add_1_r. done.
Qed.

Lemma blocks_ind size (P : list A -> Prop) : (0 < size)%nat ->
  P [] -> (forall l, l <> [] -> P (drop size l) -> P l) -> forall l, P l.
Proof.
  intros Hs Hnil Hcons l. remember (length l) as n eqn:En. revert l En.
  induction n as [n IH] using (well_founded_ind Nat.lt_wf_0). intros l ->.
  destruct l as [|x l]; [done|]. apply Hcons; [done|]. eapply IH; [|reflexivity].
  rewrite length_drop. simpl. lia.
Qed.

Lemma concat_blocks_of size l : (0 < size)%nat -> concat (blocks_of size l) = l.
Proof.
  intros Hs. revert l. apply (blocks_ind size); [done|by rewrite blocks_of_nil|intros l Hl IH].
  rewrite blocks_of_cons by done. simpl. rewrite IH. apply take_drop.
Qed.
End Chunks.

(** ** Maps iterated in an unspecified order

    [for k, v := range m] visits the entries of a map once each, in an order
    the language leaves open.  A function that ranges over a map takes the
    order as an instance of this class. *)

Class MapOrder := {
  range_order : forall {A : Type}, list A -> list A;
  range_order_perm : forall {A : Type} (l : list A), range_order l ≡ₚ l
}.

(** The order in which the entries happen to be stored. *)
#[global] Program Instance insertion_order : MapOrder | 100 :=
  {| range_order A l := l |}.
Next Obligation. done. Qed.

Definition range_map `{MapOrder} {K V} `{Countable K} (m : gmap K V) : list (K * V) :=
  range_order (map_to_list m).

Lemma elem_of_range_map `{MapOrder} {K V} `{Countable K} (m : gmap K V) k v :
  (k, v) ∈ range_map m <-> m !! k = Some v.
Proof. unfold range_map. rewrite range_order_perm. apply elem_of_map_to_list. Qed.

Lemma NoDup_range_map `{MapOrder} {K V} `{Countable K} (m : gmap K V) :
  NoDup (range_map m).*1.
Proof. unfold range_map. rewrite range_order_perm. apply NoDup_fst_map_to_list. Qed.

(** ** Sums and counts over lists *)

Fixpoint Zsum (l : list Z) : Z := match l with [] => 0 | x :: l => x + Zsum l end.

Lemma Zsum_app l k : Zsum (l ++ k) = Zsum l + Zsum k.
Proof. induction l; simpl; lia. Qed.

Lemma Zsum_replicate n x : Zsum (replicate n x) = Z.of_nat n * x.
Proof. induction n; simpl; [done|]. rewrite IHn. lia. Qed.

Lemma Zsum_lengths {A} (l : list (list A)) : Zsum ((fun b => len b) <$> l) = len (concat l).
Proof. induction l; csimpl; [done|]. rewrite length_app, IHl. lia. Qed.

(** Number of elements that satisfy a test. *)
Definition count {A} (p : A -> bool) (l : list A) : nat := length (List.filter p l).

Section Count.
Context {A : Type}.
Implicit Types (p q : A -> bool) (l : list A).

Lemma count_nil p : count p [] = 0%nat.
Proof. done. Qed.

Lemma count_cons p x l : count p (x :: l) = ((if p x then 1 else 0) + count p l)%nat.
Proof. unfold count. simpl. by destruct (p x). Qed.

Lemma count_app p l k : count p (l ++ k) = (count p l + count p k)%nat.
Proof. unfold count. by rewrite List.filter_app, length_app. Qed.

Lemma count_le_length p l : (count p l <= length l)%nat.
Proof. induction l; [done|]. rewrite count_cons. simpl. destruct (p a); lia. Qed.

Lemma count_mono p q l : (forall x, x ∈ l -> p x -> q x) -> (count p l <= count q l)%nat.
Proof.
  induction l as [|x l IH]; intros H; [done|]. rewrite !count_cons.
  pose proof (H x ltac:(left)). specialize (IH ltac:(intros; apply H; [by right|done])).
  destruct (p x), (q x); simpl in *; [lia|naive_solver|lia..].
Qed.

Lemma count_ext p q l : (forall x, x ∈ l -> p x = q x) -> count p l = count q l.
Proof.
  intros H. apply Nat.le_antisymm; apply count_mono; intros x Hx; rewrite (H x Hx); done.
Qed.

Lemma count_pos p l : (0 < count p l)%nat -> exists x, x ∈ l /\ p x = true.
Proof.
  induction l as [|x l IH]; [rewrite count_nil; lia|]. rewrite count_cons.
  destruct (p x) eqn:E; [exists x; split; [left|done]|].
  intros H. destruct IH as (y & Hy & Hp); [lia|]. exists y. split; [by right|done].
Qed.

(** Two tests that together hold more often than there are elements hold
    together somewhere: the core of every quorum intersection. *)
Lemma count_overlap p q l :
  (length l < count p l + count q l)%nat -> exists x, x ∈ l /\ p x = true /\ q x = true.
Proof.
  induction l as [|x l IH]; [rewrite !count_nil; simpl; lia|]. rewrite !count_cons. simpl.
  destruct (p x) eqn:Ep, (q x) eqn:Eq; intros Hlt;
    try (exists x; split; [left|done]).
  all: destruct IH as (y & Hy & ? & ?); [lia|exists y; split; [by right|done]].
Qed.

Lemma count_insert p l i x y : l !! i = Some y ->
  (count p (<[i := x]> l) + (if p y then 1 else 0) = count p l + (if p x then 1 else 0))%nat.
Proof.
  revert i. induction l as [|z l IH]; intros [|i] Hi; try done; simpl in Hi.
  - injection Hi as ->. change (<[0%nat := x]> (y :: l)) with (x :: l). rewrite !count_cons. lia.
  - change (<[S i := x]> (z :: l)) with (z :: <[i := x]> l). rewrite !count_cons.
    specialize (IH i Hi). lia.
Qed.

Lemma count_Permutation p l k : l ≡ₚ k -> count p l = count p k.
Proof.
  induction 1; [done|rewrite !count_cons; lia|rewrite !count_cons; lia|congruence].
Qed.

(** Distinct elements that satisfy the test are among those counted. *)
Lemma count_NoDup p l (k : list A) : NoDup k -> (forall x, x ∈ k -> x ∈ l /\ p x = true) ->
  (length k <= count p l)%nat.
Proof.
  intros Hnd Hk. unfold count. apply submseteq_length, NoDup_submseteq; [done|].
  intros x Hx. destruct (Hk x Hx). rewrite list_elem_of_In in *. by apply List.filter_In.
Qed.

#[global] Instance count_Proper p : Proper ((≡ₚ) ==> eq) (count p).
Proof. intros l k. apply count_Permutation. Qed.
End Count.

(** Distinct indexes below [n], [n] of them, are all the indexes. *)
Lemma NoDup_indexes (l : list nat) n : length l = n -> NoDup l -> Forall (fun b => b < n)%nat l ->
  l ≡ₚ seq 0 n.
Proof.
  intros Hl Hnd Hlt. apply submseteq_length_Permutation; [|rewrite length_seq; lia].
  apply NoDup_submseteq; [done|]. intros x Hx. rewrite elem_of_seq.
  rewrite Forall_forall in Hlt. specialize (Hlt x Hx). lia.
Qed.

(** ** Counting maps

    The pattern [m[key]++] over a slice. *)

Definition incr {K} `{Countable K} (k : K) (m : gmap K nat) : gmap K nat :=
  <[k := S (default 0%nat (m !! k))]> m.

Section Tally.
Context {A K : Type} `{Countable K} (key : A -> option K).

Definition tally_step (m : gmap K nat) (x : A) : gmap K nat :=
  match key x with None => m | Some k => incr k m end.

Definition multiplicity (l : list A) (k : K) : nat :=
  count (fun x => bool_decide (key x = Some k)) l.

Lemma tally_from l m k :
  default 0%nat (fold_left tally_step l m !! k)
    = (default 0%nat (m !! k) + multiplicity l k)%nat /\
  (fold_left tally_step l m !! k = Some 0%nat -> m !! k = Some 0%nat).
Proof.
  revert m. induction l as [|x l IH]; intros m; cbn [fold_left].
  { unfold multiplicity. rewrite count_nil. split; [lia|done]. }
  destruct (IH (tally_step m x)) as [-> Hz]. clear IH.
  unfold multiplicity. rewrite count_cons. unfold tally_step, incr in *.
  destruct (key x) as [k'|].
  2:{ rewrite (bool_decide_eq_false_2 (None = Some k)) by done. split; [lia|exact Hz]. }
  rewrite lookup_insert in Hz. rewrite lookup_insert.
  destruct (decide (k' = k)) as [->|Hne].
  - rewrite bool_decide_eq_true_2 by done. split; [simpl; lia|]. intros Hf. by specialize (Hz Hf).
  - rewrite bool_decide_eq_false_2 by congruence. split; [lia|exact Hz].
Qed.

Lemma tally_lookup l k :
  fold_left tally_step l ∅ !! k =
    if (multiplicity l k =? 0)%nat then None else Some (multiplicity l k).
Proof.
  destruct (tally_from l ∅ k) as [Hd Hz]. rewrite lookup_empty in *. simpl in Hd.
  destruct (fold_left tally_step l ∅ !! k) as [c|] eqn:E; simpl in Hd; subst.
  - destruct (Nat.eqb_spec (multiplicity l k) 0) as [E0|]; [|done].
    rewrite E0 in Hz. by specialize (Hz eq_refl).
  - by rewrite <-Hd.
Qed.

(** The entries met when the counting map is visited. *)
Lemma elem_of_range_tally `{MapOrder} l k c :
  (k, c) ∈ range_map (fold_left tally_step l ∅) <-> multiplicity l k = c /\ (0 < c)%nat.
Proof.
  rewrite elem_of_range_map, tally_lookup.
  destruct (Nat.eqb_spec (multiplicity l k) 0); split.
  - done.
  - intros [<- ?]. lia.
  - intros [= <-]. lia.
  - by intros [<- ?].
Qed.

Lemma multiplicity_pair l k k' : k <> k' ->
  (multiplicity l k + multiplicity l k' <= length l)%nat.
Proof.
  intros Hk. destruct (decide (length l < multiplicity l k + multiplicity l k')%nat)
    as [Hlt|]; [|lia].
  apply count_overlap in Hlt as (x & _ & H1 & H2).
  apply bool_decide_eq_true in H1, H2. congruence.
Qed.
End Tally.

Lemma fold_left_ext {A B} (f g : A -> B -> A) l a :
  (forall a b, f a b = g a b) -> fold_left f l a = fold_left g l a.
Proof. intros Hfg. revert a. induction l; intros; simpl; [done|]. by rewrite Hfg. Qed.

(** ** Automation *)

Create HintDb uitstor discriminated.
Create Rewrite HintDb uitstor.
#[export] Hint Resolve wrap64_range : uitstor.
#[export] Hint Rewrite @count_nil @count_cons @count_app : uitstor.

(** Case analysis on every boolean comparison of a hypothesis or the goal. *)
Ltac bdestruct :=
  repeat match goal with
  | H : context [bool_decide ?P] |- _ => destruct (bool_decide_reflect P)
  | |- context [bool_decide ?P] => destruct (bool_decide_reflect P)
  | H : context [Z.leb ?a ?b] |- _ => destruct (Z.leb_spec a b)
  | |- context [Z.leb ?a ?b] => destruct (Z.leb_spec a b)
  | H : context [Z.ltb ?a ?b] |- _ => destruct (Z.ltb_spec a b)
  | |- context [Z.ltb ?a ?b] => destruct (Z.ltb_spec a b)
  | H : context [Z.eqb ?a ?b] |- _ => destruct (Z.eqb_spec a b)
  | |- context [Z.eqb ?a ?b] => destruct (Z.eqb_spec a b)
  end.

(** Split a conjunction of booleans that holds. *)
Ltac btrue :=
  repeat match goal with
  | H : (_ && _) = true |- _ => apply andb_true_iff in H as [? ?]
  | H : negb _ = true |- _ => apply negb_true_iff in H
  | H : negb _ = false |- _ => apply negb_false_iff in H
  | H : (_ || _) = false |- _ => apply orb_false_iff in H as [? ?]
  end.

(** Remove the wrap-around of every 64-bit operation whose exact result fits:
    the bounds are found by [lia] from the context. *)
Ltac int64_exact :=
  unfold add64, sub64, mul64, neg64, quot64, rem64 in *;
  repeat match goal with
  | |- context [wrap64 ?z] => rewrite (wrap64_id z) by (unfold int64_range in *; lia)
  | H : context [wrap64 ?z] |- _ =>
      rewrite (wrap64_id z) in H by (unfold int64_range in *; lia)
  end.
