(* ===== verification/Erasure.v ===== *)
(** * Erasure coding of one block

    Models [cmd/erasure-coding.go] and [cmd/erasure-utils.go]: the [Erasure]
    parameters, the shard size arithmetic, [EncodeData], [DecodeDataBlocks],
    [DecodeDataAndParityBlocks] and [writeDataBlocks].  The Reed-Solomon codec
    is the third-party package [klauspost/reedsolomon]: it is the parameter
    [RSLibrary] and what its documentation promises is [RSLaws]. *)

From S2P Require Import Prelude.

(** ** Shard arithmetic *)

(** [ceilFrac] of [cmd/utils.go]. *)
Definition ceilFrac (numerator denominator : Z) : Z :=
  if denominator =? 0 then 0 else
  let '(numerator, denominator) :=
    if denominator <? 0 then (neg64 numerator, neg64 denominator)
    else (numerator, denominator) in
  let ceil := quot64 numerator denominator in
  if (0 <? numerator) && negb (rem64 numerator denominator =? 0)
  then add64 ceil 1 else ceil.

Record Erasure := mkErasure {
  dataBlocks : Z;
  parityBlocks : Z;
  blockSize : Z
}.

Definition ErrInvShardNum : error := ErrNew "reedsolomon.ErrInvShardNum".
Definition ErrMaxShardNum : error := ErrNew "reedsolomon.ErrMaxShardNum".
Definition ErrTooFewShards : error := ErrNew "reedsolomon.ErrTooFewShards".
Definition ErrShortData : error := ErrNew "reedsolomon.ErrShortData".
Definition errUnexpected : error := StorageErr "unexpected error, please report this issue at https://github.com/uitstor/uitstor/issues".

(** [NewErasure]: the parameters are checked here, the codec is built when it
    is first used. *)
Definition NewErasure (data parity bsize : Z) : result Erasure :=
  if (data <=? 0) || (parity <? 0) then Err ErrInvShardNum
  else if 256 <? add64 data parity then Err ErrMaxShardNum
  else Ok (mkErasure data parity bsize).

Definition ShardSize (e : Erasure) : Z := ceilFrac (blockSize e) (dataBlocks e).

(** [None] is the division by a zero block size. *)
Definition ShardFileSize (e : Erasure) (totalLength : Z) : option Z :=
  if totalLength =? 0 then Some 0
  else if totalLength =? -1 then Some (-1)
  else if blockSize e =? 0 then None
  else
    let numShards := quot64 totalLength (blockSize e) in
    let lastBlockSize := rem64 totalLength (blockSize e) in
    let lastShardSize := ceilFrac lastBlockSize (dataBlocks e) in
    Some (numShards * ShardSize e + lastShardSize)%int64.

Definition ShardFileOffset (e : Erasure) (startOffset length totalLength : Z) : option Z :=
  let shardSize := ShardSize e in
  match ShardFileSize e totalLength with
  | None => None
  | Some shardFileSize =>
      if blockSize e =? 0 then None else
      let endShard := ((startOffset + length) / blockSize e)%int64 in
      let tillOffset := (endShard * shardSize + shardSize)%int64 in
      Some (if shardFileSize <? tillOffset then shardFileSize else tillOffset)
  end.

(** ** The codec *)

(** The methods of [reedsolomon.Encoder] this code calls.  Those that fill in
    shards in place return the shards they leave. *)
Record Encoder := {
  Split : bytes -> result (list bytes);
  Encode : list bytes -> result (list bytes);
  ReconstructData : list bytes -> result (list bytes);
  Reconstruct : list bytes -> result (list bytes)
}.

Class RSLibrary := { rs_New : Z -> Z -> result Encoder }.

(** Zero-padded equal shards of the data, [k] of them. *)
Definition shard_len (k : nat) (data : bytes) : nat :=
  Z.to_nat (ceilFrac (len data) (Z.of_nat k)).

Definition pad (k : nat) (data : bytes) : bytes :=
  data ++ replicate (k * shard_len k data - length data) Byte.x00.

Definition data_shards (k : nat) (data : bytes) : list bytes :=
  chunks k (shard_len k data) (pad k data).

(** A damaged copy of a codeword: some shards are gone (empty). *)
Definition erased (s s' : bytes) : Prop := s' = s \/ s' = [].
Definition present (s : bytes) : bool := negb (bool_decide (s = [])).

(** The documented contract of the codec for [d] data and [p] parity shards. *)
Class RSLaws (L : RSLibrary) (d p : Z) := {
  rs_parity : list bytes -> list bytes;
  rs_encoder : Encoder;
  rs_New_ok : rs_New d p = Ok rs_encoder;
  rs_parity_shape : forall ds s, Forall (fun b => length b = s) ds ->
    length ds = Z.to_nat d ->
    length (rs_parity ds) = Z.to_nat p /\ Forall (fun b => length b = s) (rs_parity ds);
  rs_Split : forall data, data <> [] ->
    exists ps, length ps = Z.to_nat p /\
      Forall (fun b => length b = shard_len (Z.to_nat d) data) ps /\
      Split rs_encoder data = Ok (data_shards (Z.to_nat d) data ++ ps);
  rs_Encode : forall ds ps s,
    length ds = Z.to_nat d -> length ps = Z.to_nat p -> (0 < s)%nat ->
    Forall (fun b => length b = s) (ds ++ ps) ->
    Encode rs_encoder (ds ++ ps) = Ok (ds ++ rs_parity ds);
  rs_ReconstructData : forall ds s shards,
    length ds = Z.to_nat d -> (0 < s)%nat -> Forall (fun b => length b = s) ds ->
    Forall2 erased (ds ++ rs_parity ds) shards ->
    (Z.to_nat d <= count present shards)%nat ->
    exists rest, ReconstructData rs_encoder shards = Ok (ds ++ rest);
  rs_Reconstruct : forall ds s shards,
    length ds = Z.to_nat d -> (0 < s)%nat -> Forall (fun b => length b = s) ds ->
    Forall2 erased (ds ++ rs_parity ds) shards ->
    (Z.to_nat d <= count present shards)%nat ->
    Reconstruct rs_encoder shards = Ok (ds ++ rs_parity ds)
}.

Section Codec.
Context {L : RSLibrary}.

(** [e.encoder()]: panics when the library refuses the parameters. *)
Definition encoder (e : Erasure) : option Encoder :=
  match rs_New (dataBlocks e) (parityBlocks e) with
  | Ok enc => Some enc
  | Err _ => None
  end.

(** [make] of a negative length panics. *)
Definition EncodeData (e : Erasure) (data : bytes) : option (result (list bytes)) :=
  if bool_decide (data = []) then
    if dataBlocks e + parityBlocks e <? 0 then None
    else Some (Ok (replicate (Z.to_nat (dataBlocks e + parityBlocks e)) []))
  else
    enc ← encoder e;
    match Split enc data with
    | Err err => Some (Err err)
    | Ok encoded => Some (Encode enc encoded)
    end.

(** The loop stops at the first empty shard. *)
Fixpoint isZero_loop (data : list bytes) : Z :=
  match data with
  | [] => 0
  | b :: data => if bool_decide (b = []) then 1 else isZero_loop data
  end.

Definition DecodeDataBlocks (e : Erasure) (data : list bytes) : option (result (list bytes)) :=
  let isZero := isZero_loop data in
  if (isZero =? 0) || (isZero =? len data) then Some (Ok data)
  else enc ← encoder e; Some (ReconstructData enc data).

Definition DecodeDataAndParityBlocks (e : Erasure) (data : list bytes)
  : option (result (list bytes)) :=
  enc ← encoder e; Some (Reconstruct enc data).
End Codec.

(** ** Writing the data blocks out *)

(** The destination of a copy: [io.Writer] with its state, and what [io.Copy]
    into it returns. *)
Record Writer := {
  wstate : Type;
  wcopy : wstate -> bytes -> wstate * result Z
}.

(** A [bytes.Buffer]: never fails, returns the number of bytes. *)
Definition Buffer : Writer :=
  {| wstate := bytes; wcopy w b := (w ++ b, Ok (len b)) |}.

Definition getDataBlockLen (enBlocks : list bytes) (data : Z) : Z :=
  fold_left (fun size block => size + len block) (slice_to enBlocks data) 0.

(** The loop over [enBlocks[:dataBlocks]]: [offset] and [write] count down,
    [totalWritten] up. *)
Fixpoint write_blocks (W : Writer) (dst : wstate W) (blocks : list bytes)
    (offset write totalWritten : Z) : wstate W * result Z :=
  match blocks with
  | [] => (dst, Ok totalWritten)
  | block :: blocks =>
      if len block <=? offset then
        write_blocks W dst blocks (offset - len block) write totalWritten
      else
        let block := slice_from block offset in
        if write <? len block then
          match wcopy W dst (slice_to block write) with
          | (dst, Err e) => (dst, Err e)
          | (dst, Ok n) => (dst, Ok (totalWritten + n))
          end
        else
          match wcopy W dst block with
          | (dst, Err e) => (dst, Err e)
          | (dst, Ok n) => write_blocks W dst blocks 0 (write - n) (totalWritten + n)
          end
  end.

(** [None] is the slice [enBlocks[:dataBlocks]] at a negative bound. *)
Definition writeDataBlocks (W : Writer) (dst : wstate W) (enBlocks : list bytes)
    (data offset length : Z) : option (wstate W * result Z) :=
  if (offset <? 0) || (length <? 0) then Some (dst, Err errUnexpected)
  else if len enBlocks <? data then Some (dst, Err ErrTooFewShards)
  else if data <? 0 then None
  else if getDataBlockLen enBlocks data <? length then Some (dst, Err ErrShortData)
  else Some (write_blocks W dst (slice_to enBlocks data) offset length 0).

(** ** Shard arithmetic is exact *)

Lemma ceilFrac_ceil n d : 0 < d -> 0 <= n < 2 ^ 63 -> d < 2 ^ 63 ->
  ceilFrac n d = (n + d - 1) / d.
Proof.
  intros Hd Hn Hd'. unfold ceilFrac.
  destruct (Z.eqb_spec d 0); [lia|]. destruct (Z.ltb_spec d 0); [lia|].
  unfold quot64, rem64, add64.
  rewrite Z.quot_div_nonneg, Z.rem_mod_nonneg by lia.
  pose proof (Z.div_mod n d ltac:(lia)). pose proof (Z.mod_pos_bound n d ltac:(lia)).
  assert (0 <= n / d <= n) by (split; [apply Z.div_pos; lia|apply Z.div_le_upper_bound; nia]).
  rewrite (wrap64_id (n / d)) by (unfold int64_range; lia).
  destruct (Z.ltb_spec 0 n), (Z.eqb_spec (n mod d) 0); simpl.
  - apply (Z.div_unique_pos _ _ _ (d - 1)); lia.
  - rewrite wrap64_id.
    + apply (Z.div_unique_pos _ _ _ (n mod d - 1)); lia.
    + unfold int64_range. assert (n / d < n); [|lia].
      assert (d = 1 \/ 2 <= d) as [->|?] by lia; [rewrite Z.mod_1_r in *; lia|].
      apply Z.div_lt_upper_bound; nia.
  - replace n with 0 by lia. simpl. symmetry. apply Z.div_small. lia.
  - replace n with 0 in * by lia. rewrite Z.mod_0_l in *; lia.
Qed.

Lemma ceilFrac_bounds n d : 0 < d -> 0 <= n < 2 ^ 63 -> d < 2 ^ 63 ->
  0 <= ceilFrac n d <= n /\ n <= d * ceilFrac n d /\ d * ceilFrac n d < n + d.
Proof.
  intros. rewrite ceilFrac_ceil by lia.
  pose proof (Z.div_mod (n + d - 1) d ltac:(lia)).
  pose proof (Z.mod_pos_bound (n + d - 1) d ltac:(lia)).
  split_and!; [apply Z.div_pos; lia| |lia|lia].
  apply Z.lt_succ_r, Z.div_lt_upper_bound; nia.
Qed.

(** Well-formed parameters: what [NewErasure] accepts, with a positive block. *)
Definition erasure_wf (e : Erasure) : Prop :=
  0 < dataBlocks e /\ 0 <= parityBlocks e /\ dataBlocks e + parityBlocks e <= 256 /\
  0 < blockSize e < 2 ^ 63.

Lemma NewErasure_wf d p b e :
  0 < b < 2 ^ 63 -> d + p < 2 ^ 63 ->
  NewErasure d p b = Ok e -> erasure_wf e /\ e = mkErasure d p b.
Proof.
  unfold NewErasure, add64. intros Hb Hdp.
  destruct (Z.leb_spec d 0), (Z.ltb_spec p 0); simpl; try done.
  rewrite wrap64_id by (unfold int64_range; lia).
  destruct (Z.ltb_spec 256 (d + p)); [done|]. intros [= <-].
  unfold erasure_wf; simpl. split; [lia|done].
Qed.

(** The blocks an object of [total] bytes is cut into. *)
Definition block_lengths (bs total : Z) : list Z :=
  replicate (Z.to_nat (total / bs)) bs ++ (if total mod bs =? 0 then [] else [total mod bs]).

Lemma block_lengths_sum bs total : 0 < bs -> 0 <= total -> Zsum (block_lengths bs total) = total.
Proof.
  intros. unfold block_lengths. rewrite Zsum_app, Zsum_replicate.
  pose proof (Z.div_mod total bs ltac:(lia)). pose proof (Z.div_pos total bs ltac:(lia) ltac:(lia)).
  rewrite Z2Nat.id by lia. destruct (Z.eqb_spec (total mod bs) 0); simpl; lia.
Qed.

Section ShardSizes.
Context (e : Erasure) (Hwf : erasure_wf e).

Lemma ShardSize_bounds :
  0 < ShardSize e <= blockSize e /\ blockSize e <= dataBlocks e * ShardSize e.
Proof.
  destruct Hwf as (?&?&?&?). unfold ShardSize.
  destruct (ceilFrac_bounds (blockSize e) (dataBlocks e)) as ([??]&?&?); [lia..|].
  split; [nia|lia].
Qed.

Lemma ShardFileSize_exact total : 0 <= total < 2 ^ 63 ->
  ShardFileSize e total =
    Some (total / blockSize e * ShardSize e
          + ceilFrac (total mod blockSize e) (dataBlocks e)) /\
  0 <= total / blockSize e * ShardSize e
          + ceilFrac (total mod blockSize e) (dataBlocks e) <= total.
Proof.
  intros Ht. destruct Hwf as (?&?&?&?). unfold ShardFileSize.
  destruct (Z.eqb_spec total 0) as [->|?].
  { rewrite Z.div_0_l, Z.mod_0_l by lia. rewrite ceilFrac_ceil, Z.div_small by lia. done. }
  destruct (Z.eqb_spec total (-1)); [lia|]. destruct (Z.eqb_spec (blockSize e) 0); [lia|].
  unfold quot64, rem64. rewrite Z.quot_div_nonneg, Z.rem_mod_nonneg by lia.
  pose proof (Z.div_mod total (blockSize e) ltac:(lia)).
  pose proof (Z.mod_pos_bound total (blockSize e) ltac:(lia)).
  pose proof (Z.div_pos total (blockSize e) ltac:(lia) ltac:(lia)).
  destruct ShardSize_bounds as [??].
  destruct (ceilFrac_bounds (total mod blockSize e) (dataBlocks e)) as ([??]&?&?); [lia..|].
  assert (total / blockSize e * ShardSize e <= total / blockSize e * blockSize e) by nia.
  int64_exact. split; [done|nia].
Qed.

Lemma ceilFrac_0_shard : ceilFrac 0 (dataBlocks e) = 0.
Proof. destruct Hwf as (?&?&?&?). rewrite ceilFrac_ceil, Z.div_small; lia. Qed.

Lemma ShardFileSize_sum total : 0 <= total < 2 ^ 63 ->
  ShardFileSize e total =
    Some (Zsum ((fun n => ceilFrac n (dataBlocks e)) <$> block_lengths (blockSize e) total)).
Proof.
  intros Ht. destruct (ShardFileSize_exact total Ht) as [-> _]. f_equal.
  destruct Hwf as (?&?&?&?). unfold block_lengths. rewrite fmap_app, Zsum_app.
  rewrite fmap_replicate, Zsum_replicate.
  rewrite Z2Nat.id by (apply Z.div_pos; lia). unfold ShardSize at 1. f_equal.
  destruct (Z.eqb_spec (total mod blockSize e) 0) as [->|?]; simpl;
    [apply ceilFrac_0_shard|lia].
Qed.

(** The end of the last shard read covers the shards of every block that
    holds a byte of the range, and stays inside the shard file. *)
Lemma ShardFileOffset_exact start length total :
  0 <= start -> 0 <= length -> start + length <= total -> total < 2 ^ 62 ->
  blockSize e < 2 ^ 62 ->
  exists size till, ShardFileSize e total = Some size /\
    ShardFileOffset e start length total = Some till /\
    till = Z.min size (((start + length) / blockSize e + 1) * ShardSize e).
Proof.
  intros ??? Ht Hbs. destruct Hwf as (?&?&?&?).
  destruct (ShardFileSize_exact total ltac:(lia)) as [Hs ?].
  eexists _, _. split; [done|]. unfold ShardFileOffset. rewrite Hs.
  destruct (Z.eqb_spec (blockSize e) 0); [lia|].
  destruct ShardSize_bounds as [??].
  assert (0 <= (start + length) / blockSize e) by (apply Z.div_pos; lia).
  assert (blockSize e * ((start + length) / blockSize e) <= start + length)
    by (apply Z.mul_div_le; lia).
  assert ((start + length) / blockSize e * ShardSize e <= start + length) by nia.
  assert ((start + length) / blockSize e <= start + length) by nia.
  unfold add64, quot64, mul64. rewrite (wrap64_id (start + length)) by (unfold int64_range; lia).
  rewrite Z.quot_div_nonneg by lia.
  rewrite (wrap64_id ((start + length) / blockSize e)) by (unfold int64_range; lia).
  rewrite (wrap64_id (_ * ShardSize e)) by (unfold int64_range; lia).
  rewrite wrap64_id by (unfold int64_range; lia).
  split; [done|].
  replace ((start + length) / blockSize e * ShardSize e + ShardSize e)
    with (((start + length) / blockSize e + 1) * ShardSize e) by lia.
  case_match; [rewrite Z.min_l|rewrite Z.min_r]; lia.
Qed.
End ShardSizes.

(** ** Splitting into shards *)

Lemma shard_len_bounds k data : (0 < k)%nat -> Z.of_nat k < 2 ^ 63 -> len data < 2 ^ 63 ->
  (length data <= k * shard_len k data)%nat /\ (data <> [] -> 0 < shard_len k data)%nat.
Proof.
  intros Hk Hk' Hd. unfold shard_len.
  destruct (ceilFrac_bounds (len data) (Z.of_nat k)) as ([? ?]&Hc&?); [lia..|].
  split; [nia|]. destruct data; [done|]. simpl length in *. nia.
Qed.

Lemma data_shards_spec k data : (0 < k)%nat -> Z.of_nat k < 2 ^ 63 -> len data < 2 ^ 63 ->
  length (data_shards k data) = k /\
  Forall (fun b => length b = shard_len k data) (data_shards k data) /\
  concat (data_shards k data) = pad k data.
Proof.
  intros Hk Hk' Hd. destruct (shard_len_bounds k data Hk Hk' Hd) as [Hle _].
  assert (length (pad k data) = k * shard_len k data)%nat as Hpad.
  { unfold pad. rewrite length_app, length_replicate. lia. }
  unfold data_shards. split_and!.
  - apply length_chunks.
  - apply chunks_size. lia.
  - rewrite concat_chunks, take_ge; [done|lia].
Qed.

(** ** What [writeDataBlocks] writes *)

Lemma getDataBlockLen_concat blocks d :
  getDataBlockLen blocks d = len (concat (slice_to blocks d)).
Proof.
  unfold getDataBlockLen. generalize (slice_to blocks d) as l. intros l.
  assert (forall (l : list bytes) acc, fold_left (fun size (block : bytes) => size + len block) l acc
    = acc + len (concat l)) as Hfold.
  { clear. induction l as [|b l IH]; intros acc; simpl; [lia|].
    rewrite IH, length_app. lia. }
  rewrite Hfold. lia.
Qed.

Lemma write_blocks_Buffer blocks : forall dst offset write total,
  0 <= offset -> 0 <= write ->
  let out := slice_to (slice_from (concat blocks) offset) write in
  write_blocks Buffer dst blocks offset write total = (dst ++ out, Ok (total + len out)).
Proof.
  unfold slice_to, slice_from.
  induction blocks as [|b blocks IH]; intros dst offset write total Ho Hw; simpl.
  { rewrite drop_nil, take_nil, app_nil_r. simpl. do 3 f_equal. lia. }
  destruct (Z.leb_spec (len b) offset) as [Hskip|Hin].
  { rewrite IH by lia. rewrite drop_app_ge by lia.
    replace (Z.to_nat (offset - len b)) with (Z.to_nat offset - length b)%nat by lia. done. }
  rewrite drop_app_le by lia. unfold slice_to, slice_from.
  rewrite length_drop.
  destruct (Z.ltb_spec write (Z.of_nat (length b - Z.to_nat offset))) as [Hlast|Hall]; simpl.
  { rewrite take_app_le by (rewrite length_drop; lia). done. }
  rewrite IH by lia. rewrite take_app_ge by (rewrite length_drop; lia).
  rewrite length_drop, !length_app, length_drop, <-app_assoc.
  replace (Z.to_nat (write - Z.of_nat (length b - Z.to_nat offset)))
    with (Z.to_nat write - (length b - Z.to_nat offset))%nat by lia.
  simpl. rewrite drop_0. do 2 f_equal. lia.
Qed.

(** The bytes at [offset .. offset+length) of the concatenated data blocks. *)
Lemma writeDataBlocks_Buffer dst blocks d offset length :
  0 <= d <= len blocks -> 0 <= offset -> 0 <= length ->
  length <= len (concat (slice_to blocks d)) ->
  let out := slice_to (slice_from (concat (slice_to blocks d)) offset) length in
  writeDataBlocks Buffer dst blocks d offset length = Some (dst ++ out, Ok (len out)).
Proof.
  intros. unfold writeDataBlocks.
  destruct (Z.ltb_spec offset 0); [lia|]. destruct (Z.ltb_spec length 0); [lia|]. simpl.
  destruct (Z.ltb_spec (len blocks) d); [lia|]. destruct (Z.ltb_spec d 0); [lia|].
  rewrite getDataBlockLen_concat.
  destruct (Z.ltb_spec (len (concat (slice_to blocks d))) length); [lia|].
  by rewrite write_blocks_Buffer.
Qed.

(** ** One block through the codec *)

Section Roundtrip.
Context {L : RSLibrary} (e : Erasure) (Hwf : erasure_wf e).
Context {LL : RSLaws L (dataBlocks e) (parityBlocks e)}.

(** The shards of a block, as they are stored. *)
Definition codeword (data : bytes) : list bytes :=
  let ds := data_shards (Z.to_nat (dataBlocks e)) data in
  ds ++ rs_parity ds.

Lemma encoder_ok : encoder e = Some rs_encoder.
Proof. unfold encoder. by rewrite rs_New_ok. Qed.

Lemma data_shards_ok data : len data < 2 ^ 63 ->
  let k := Z.to_nat (dataBlocks e) in
  length (data_shards k data) = k /\
  Forall (fun b => length b = shard_len k data) (data_shards k data) /\
  concat (data_shards k data) = pad k data.
Proof. destruct Hwf as (?&?&?&?). intros. apply data_shards_spec; lia. Qed.

Lemma shard_len_pos data : data <> [] -> len data < 2 ^ 63 ->
  (0 < shard_len (Z.to_nat (dataBlocks e)) data)%nat.
Proof.
  intros Hne Hd. destruct Hwf as (?&?&?&?).
  apply (shard_len_bounds (Z.to_nat (dataBlocks e)) data); [lia..|done].
Qed.

Lemma codeword_shape data : len data < 2 ^ 63 ->
  length (codeword data) = Z.to_nat (dataBlocks e + parityBlocks e) /\
  Forall (fun b => length b = shard_len (Z.to_nat (dataBlocks e)) data) (codeword data).
Proof.
  intros Hd. destruct Hwf as (?&?&?&?). destruct (data_shards_ok data Hd) as (Hlen&Hall&_).
  destruct (rs_parity_shape _ _ Hall Hlen) as [Hp Hpall].
  unfold codeword. rewrite length_app, Hlen, Hp. split; [lia|]. by apply Forall_app.
Qed.

Lemma EncodeData_codeword data : data <> [] -> len data < 2 ^ 63 ->
  EncodeData e data = Some (Ok (codeword data)).
Proof.
  intros Hne Hd. unfold EncodeData. rewrite bool_decide_eq_false_2 by done.
  rewrite encoder_ok. simpl. destruct (rs_Split data Hne) as (ps & Hps & Hall & ->).
  destruct (data_shards_ok data Hd) as (Hlen&Hdall&_). unfold codeword. f_equal.
  eapply (rs_Encode _ ps); [done|done|by apply shard_len_pos|by apply Forall_app].
Qed.

(** Any [dataBlocks] shards give the data shards back. *)
Lemma DecodeDataBlocks_codeword data shards :
  data <> [] -> len data < 2 ^ 63 ->
  Forall2 erased (codeword data) shards ->
  dataBlocks e <= Z.of_nat (count present shards) ->
  exists rest, DecodeDataBlocks e shards =
    Some (Ok (data_shards (Z.to_nat (dataBlocks e)) data ++ rest)).
Proof.
  intros Hne Hd Her Hcnt. destruct Hwf as (?&?&?&?).
  destruct (data_shards_ok data Hd) as (Hlen&Hall&_).
  destruct (codeword_shape data Hd) as [Hclen Hcall].
  pose proof (Forall2_length _ _ _ Her) as Hslen.
  pose proof (shard_len_pos data Hne Hd) as Hpos. unfold DecodeDataBlocks.
  assert ((isZero_loop shards = 0 /\ shards = codeword data) \/
          (isZero_loop shards = 1 /\ (count present shards < length shards)%nat)) as Hz.
  { clear Hcnt Hslen Hclen. induction Her as [|c s cs ss Hcs _ IH]; [by left|].
    simpl. rewrite count_cons. inversion Hcall as [|? ? Hc Hcall' E]; subst.
    unfold present at 1. case_bool_decide as Hs; simpl.
    { right. split; [done|]. pose proof (count_le_length present ss). lia. }
    destruct Hcs as [->|?]; [|done].
    destruct (IH Hcall') as [[-> ->]|[-> ?]]; [by left|right; split; [done|lia]]. }
  destruct Hz as [[-> ->]|[-> Hlt]].
  { eexists. unfold codeword. reflexivity. }
  change (1 =? 0) with false. cbn [orb].
  destruct (Z.eqb_spec 1 (len shards)) as [E|_]; [lia|].
  rewrite encoder_ok. simpl.
  destruct (rs_ReconstructData _ _ shards Hlen Hpos Hall Her) as [rest ->]; [lia|].
  by exists rest.
Qed.

(** And all shards, for healing. *)
Lemma DecodeDataAndParityBlocks_codeword data shards :
  data <> [] -> len data < 2 ^ 63 ->
  Forall2 erased (codeword data) shards ->
  dataBlocks e <= Z.of_nat (count present shards) ->
  DecodeDataAndParityBlocks e shards = Some (Ok (codeword data)).
Proof.
  intros Hne Hd Her Hcnt. destruct (data_shards_ok data Hd) as (Hlen&Hall&_).
  unfold DecodeDataAndParityBlocks. rewrite encoder_ok. simpl. f_equal.
  eapply rs_Reconstruct; [done|by apply shard_len_pos|done|done|lia].
Qed.
End Roundtrip.

(** ** A codec

    Two data shards and their exclusive or: a code for which the contract can be
    checked by hand. *)

Definition byte_xor (a b : byte) : byte :=
  let '(a0, (a1, (a2, (a3, (a4, (a5, (a6, a7))))))) := Byte.to_bits a in
  let '(b0, (b1, (b2, (b3, (b4, (b5, (b6, b7))))))) := Byte.to_bits b in
  Byte.of_bits (xorb a0 b0, (xorb a1 b1, (xorb a2 b2, (xorb a3 b3,
    (xorb a4 b4, (xorb a5 b5, (xorb a6 b6, xorb a7 b7))))))).

Definition xor_bytes : bytes -> bytes -> bytes := zip_with byte_xor.

Lemma byte_xor_cancel a b : byte_xor (byte_xor a b) b = a.
Proof.
  unfold byte_xor. rewrite <-(Byte.of_bits_to_bits a) at 2.
  destruct (Byte.to_bits a) as (a0&a1&a2&a3&a4&a5&a6&a7).
  destruct (Byte.to_bits b) as (b0&b1&b2&b3&b4&b5&b6&b7).
  rewrite Byte.to_bits_of_bits. repeat rewrite xorb_assoc, xorb_nilpotent, xorb_false_r.
  by rewrite ?xorb_assoc, ?xorb_nilpotent, ?xorb_false_r.
Qed.

Lemma byte_xor_comm a b : byte_xor a b = byte_xor b a.
Proof.
  unfold byte_xor. destruct (Byte.to_bits a) as (a0&a1&a2&a3&a4&a5&a6&a7).
  destruct (Byte.to_bits b) as (b0&b1&b2&b3&b4&b5&b6&b7).
  by rewrite (xorb_comm a0), (xorb_comm a1), (xorb_comm a2), (xorb_comm a3), (xorb_comm a4),
    (xorb_comm a5), (xorb_comm a6), (xorb_comm a7).
Qed.

Lemma xor_bytes_cancel a b : length a = length b -> xor_bytes (xor_bytes a b) b = a.
Proof.
  revert b. induction a as [|x a IH]; intros [|y b] Hl; simpl in *; try done.
  by rewrite byte_xor_cancel, IH by lia.
Qed.

Lemma xor_bytes_comm a b : xor_bytes a b = xor_bytes b a.
Proof.
  revert b. induction a as [|x a IH]; intros [|y b]; simpl; try done.
  by rewrite byte_xor_comm, IH.
Qed.

Definition xor_fix (shards : list bytes) : result (list bytes) :=
  match shards with
  | [a; b; p] =>
      if present a && present b then Ok [a; b; xor_bytes a b]
      else if present a && present p then Ok [a; xor_bytes p a; p]
      else if present b && present p then Ok [xor_bytes p b; b; p]
      else Err ErrTooFewShards
  | _ => Err ErrTooFewShards
  end.

Definition xor_encoder : Encoder := {|
  Split data := Ok (data_shards 2 data ++ [replicate (shard_len 2 data) Byte.x00]);
  Encode shards := match shards with
                   | [a; b; _] => Ok [a; b; xor_bytes a b]
                   | _ => Err ErrTooFewShards
                   end;
  ReconstructData := xor_fix;
  Reconstruct := xor_fix
|}.

#[global] Instance xor_library : RSLibrary | 100 :=
  {| rs_New d p := if (d =? 2) && (p =? 1) then Ok xor_encoder else Err ErrInvShardNum |}.

Lemma xor_fix_ok a b shards s : (0 < s)%nat -> length a = s -> length b = s ->
  Forall2 erased [a; b; xor_bytes a b] shards -> (2 <= count present shards)%nat ->
  xor_fix shards = Ok [a; b; xor_bytes a b].
Proof.
  intros Hs Ha Hb Her Hc.
  assert (forall c : bytes, length c = s -> present c = true) as Hp.
  { intros c Hc'. unfold present. rewrite bool_decide_eq_false_2; [done|]. intros ->. simpl in Hc'. lia. }
  assert (length (xor_bytes a b) = s) as Hx by (unfold xor_bytes; rewrite length_zip_with; lia).
  repeat match goal with H : Forall2 erased _ _ |- _ => inversion H; clear H; subst end.
  rewrite !count_cons, count_nil in Hc. unfold xor_fix.
  repeat match goal with H : erased _ _ |- _ => destruct H as [->| ->] end;
    change (present []) with false in *;
    rewrite ?(Hp a), ?(Hp b), ?(Hp (xor_bytes a b)) in * by done; cbn [andb] in *; try lia; try done.
  all: first [ by rewrite xor_bytes_cancel by lia
    | rewrite (xor_bytes_comm a b) at 1; by rewrite xor_bytes_cancel by lia ].
Qed.

#[global] Instance xor_laws : RSLaws xor_library 2 1 | 100.
Proof.
  refine {| rs_parity ds := match ds with [a; b] => [xor_bytes a b] | _ => [] end;
            rs_encoder := xor_encoder |}; [done|..].
  - intros ds s Hall Hl. destruct ds as [|a [|b [|c ds]]]; try done. split; [done|].
    apply Forall_cons in Hall as [Ha Hall]. rewrite Forall_singleton in Hall.
    rewrite Forall_singleton. unfold xor_bytes. rewrite length_zip_with. lia.
  - intros data Hne. eexists. split_and!; [|..|reflexivity]; [done|].
    rewrite Forall_singleton. apply length_replicate.
  - intros ds ps s Hd Hp _ _. destruct ds as [|a [|b [|c ds]]]; try done.
    destruct ps as [|x [|y ps]]; done.
  - intros ds s shards Hd Hs Hall Her Hc. destruct ds as [|a [|b [|c ds]]]; try done.
    apply Forall_cons in Hall as [Ha Hall]. rewrite Forall_singleton in Hall.
    exists [xor_bytes a b]. by eapply xor_fix_ok.
  - intros ds s shards Hd Hs Hall Her Hc. destruct ds as [|a [|b [|c ds]]]; try done.
    apply Forall_cons in Hall as [Ha Hall]. rewrite Forall_singleton in Hall.
    by eapply xor_fix_ok.
Defined.

(** ** Properties *)

(** The arithmetic of shard files is exact at 64 bits: for the parameters
    [NewErasure] accepts, the size of a shard file is the sum over the blocks of
    the object of the size of one shard of the block, and the end offset a range
    read opens a shard file to never passes its size and covers the shards of
    every block that holds a byte of the range. *)
Theorem ShardFile_arithmetic d p bsize e total start length :
  NewErasure d p bsize = Ok e -> d + p < 2 ^ 63 -> 0 < bsize < 2 ^ 62 ->
  0 <= start -> 0 <= length -> start + length <= total -> total < 2 ^ 62 ->
  exists size till,
    ShardFileSize e total = Some size /\
    size = Zsum ((fun n => ceilFrac n d) <$> block_lengths bsize total) /\
    ShardFileOffset e start length total = Some till /\ till <= size /\
    (till = size \/ ((start + length) / bsize + 1) * ShardSize e <= till).
Proof.
  intros Hnew Hdp Hb Hs Hl Hin Ht. apply NewErasure_wf in Hnew as [Hwf ->]; [|lia|lia].
  destruct (ShardFileOffset_exact _ Hwf start length total) as (size & till & Hsz & Htill & ->);
    try (simpl; lia).
  exists size, (Z.min size (((start + length) / bsize + 1) * ShardSize (mkErasure d p bsize))).
  split_and!; [done| |done|lia|lia].
  rewrite (ShardFileSize_sum _ Hwf) in Hsz by lia. by injection Hsz as <-.
Qed.

Lemma ShardFile_arithmetic_witness :
  exists size till, ShardFileSize (mkErasure 2 1 4) 10 = Some size /\
    size = Zsum ((fun n => ceilFrac n 2) <$> block_lengths 4 10) /\
    ShardFileOffset (mkErasure 2 1 4) 1 5 10 = Some till /\ till <= size.
Proof.
  destruct (ShardFile_arithmetic 2 1 4 (mkErasure 2 1 4) 10 1 5)
    as (size & till & H1 & H2 & H3 & H4 & _); [done..|].
  exists size, till. split_and!; assumption.
Defined.
