(* ===== verification/FileInfo.v ===== *)
(** * File metadata

    The [FileInfo] of an object version as the storage layer exchanges it
    ([cmd/storage-datatypes.go], [cmd/xl-storage-format-v1.go]), the methods on
    it ([cmd/erasure-metadata.go], [cmd/erasure-healing.go]) and the replication
    state it carries ([cmd/bucket-replication-utils.go]).  Nil and empty Go maps
    behave alike for every operation modelled here and are both the empty
    [gmap]. *)

From S2P Require Import Prelude Erasure.

(** ** Replication state *)

(** [replication.StatusType] and [VersionPurgeStatusType] are string types. *)
Definition Replication_Pending : string := "PENDING".
Definition Replication_Completed : string := "COMPLETED".
Definition Replication_Failed : string := "FAILED".
Definition Replication_Replica : string := "REPLICA".
Definition Purge_Pending : string := "PENDING".
Definition Purge_Complete : string := "COMPLETE".
Definition Purge_Failed : string := "FAILED".

Definition Status_Empty (s : string) : bool := bool_decide (s = "").

Record ReplicationState := mkReplicationState {
  rs_ReplicaTimeStamp : time;
  rs_ReplicaStatus : string;
  rs_DeleteMarker : bool;
  rs_ReplicationTimeStamp : time;
  rs_ReplicationStatusInternal : string;
  rs_VersionPurgeStatusInternal : string;
  rs_ReplicateDecisionStr : string;
  rs_Targets : gmap string string;
  rs_PurgeTargets : gmap string string;
  rs_ResetStatusesMap : gmap string string
}.

Definition zero_ReplicationState : ReplicationState :=
  mkReplicationState 0 "" false 0 "" "" "" ∅ ∅ ∅.

Definition ReplicationState_Equal (rs o : ReplicationState) : bool :=
  bool_decide (rs_ReplicaStatus rs = rs_ReplicaStatus o) &&
  bool_decide (rs_ReplicaTimeStamp rs = rs_ReplicaTimeStamp o) &&
  bool_decide (rs_ReplicationTimeStamp rs = rs_ReplicationTimeStamp o) &&
  bool_decide (rs_ReplicationStatusInternal rs = rs_ReplicationStatusInternal o) &&
  bool_decide (rs_VersionPurgeStatusInternal rs = rs_VersionPurgeStatusInternal o).

(** The loop of [getCompositeReplicationStatus] and of
    [getCompositeVersionPurgeStatus]: [inl] is the early return. *)
Fixpoint composite_loop (failed done : string) (vs : list string) (completed : Z) : string + Z :=
  match vs with
  | [] => inr completed
  | v :: vs =>
      if bool_decide (v = failed) then inl failed
      else composite_loop failed done vs (if bool_decide (v = done) then completed + 1 else completed)
  end.

Section Composite.
Context `{MapOrder}.

Definition getCompositeReplicationStatus (m : gmap string string) : string :=
  if bool_decide (m = ∅) then "" else
  match composite_loop Replication_Failed Replication_Completed (range_map m).*2 0 with
  | inl s => s
  | inr completed =>
      if completed =? Z.of_nat (size m) then Replication_Completed else Replication_Pending
  end.

Definition getCompositeVersionPurgeStatus (m : gmap string string) : string :=
  if bool_decide (m = ∅) then "" else
  match composite_loop Purge_Failed Purge_Complete (range_map m).*2 0 with
  | inl s => s
  | inr completed =>
      if completed =? Z.of_nat (size m) then Purge_Complete else Purge_Pending
  end.

(** [time.Unix(0, 0)] of [cmd/erasure-healing-common.go]. *)
Definition timeSentinel : time := time_Unix_nano 0.

Definition CompositeReplicationStatus (rs : ReplicationState) : string :=
  if negb (bool_decide (rs_ReplicationStatusInternal rs = "")) then
    if bool_decide (rs_ReplicationStatusInternal rs ∈
         [Replication_Pending; Replication_Completed; Replication_Failed; Replication_Replica])
    then rs_ReplicationStatusInternal rs
    else
      let replStatus := getCompositeReplicationStatus (rs_Targets rs) in
      if negb (bool_decide (rs_ReplicaTimeStamp rs = timeSentinel)) &&
         bool_decide (replStatus = Replication_Completed) &&
         (rs_ReplicationTimeStamp rs <? rs_ReplicaTimeStamp rs)
      then rs_ReplicaStatus rs
      else replStatus
  else if negb (Status_Empty (rs_ReplicaStatus rs)) then rs_ReplicaStatus rs
  else "".

Definition CompositeVersionPurgeStatus (rs : ReplicationState) : string :=
  if bool_decide (rs_VersionPurgeStatusInternal rs ∈
       [Purge_Pending; Purge_Complete; Purge_Failed])
  then rs_VersionPurgeStatusInternal rs
  else getCompositeVersionPurgeStatus (rs_PurgeTargets rs).
End Composite.

(** ** FileInfo *)

Record ObjectPartInfo := mkPart {
  pt_ETag : string;
  pt_Number : Z;
  pt_Size : Z;
  pt_ActualSize : Z;
  pt_ModTime : time;
  pt_Index : bytes
}.

Record ChecksumInfo := mkChecksum {
  ck_PartNumber : Z;
  ck_Algorithm : Z;
  ck_Hash : bytes
}.

Record ErasureInfo := mkErasureInfo {
  ei_Algorithm : string;
  ei_DataBlocks : Z;
  ei_ParityBlocks : Z;
  ei_BlockSize : Z;
  ei_Index : Z;
  ei_Distribution : list Z;
  ei_Checksums : list ChecksumInfo
}.

Record FileInfo := mkFileInfo {
  fi_Volume : string;
  fi_Name : string;
  fi_VersionID : string;
  fi_IsLatest : bool;
  fi_Deleted : bool;
  fi_TransitionStatus : string;
  fi_TransitionedObjName : string;
  fi_TransitionTier : string;
  fi_TransitionVersionID : string;
  fi_ExpireRestored : bool;
  fi_DataDir : string;
  fi_XLV1 : bool;
  fi_ModTime : time;
  fi_Size : Z;
  fi_Mode : Z;
  fi_WrittenByVersion : Z;
  fi_Metadata : gmap string string;
  fi_Parts : list ObjectPartInfo;
  fi_Erasure : ErasureInfo;
  fi_MarkDeleted : bool;
  fi_ReplicationState : ReplicationState;
  fi_Data : bytes;
  fi_NumVersions : Z;
  fi_SuccessorModTime : time;
  fi_Fresh : bool;
  fi_Idx : Z;
  fi_DiskMTime : time
}.

Definition zero_ErasureInfo : ErasureInfo := mkErasureInfo "" 0 0 0 0 [] [].

(** [FileInfo{}]. *)
Definition zero_FileInfo : FileInfo :=
  mkFileInfo "" "" "" false false "" "" "" "" false "" false 0 0 0 0 ∅ [] zero_ErasureInfo
    false zero_ReplicationState [] 0 0 false 0 0.

(** Updates of one field. *)
Definition ei_with_Index (e : ErasureInfo) (i : Z) : ErasureInfo :=
  mkErasureInfo (ei_Algorithm e) (ei_DataBlocks e) (ei_ParityBlocks e) (ei_BlockSize e) i
    (ei_Distribution e) (ei_Checksums e).
Definition ei_with_Checksums (e : ErasureInfo) (cs : list ChecksumInfo) : ErasureInfo :=
  mkErasureInfo (ei_Algorithm e) (ei_DataBlocks e) (ei_ParityBlocks e) (ei_BlockSize e)
    (ei_Index e) (ei_Distribution e) cs.

Definition fi_with_Parts (f : FileInfo) (ps : list ObjectPartInfo) : FileInfo :=
  match f with
  | mkFileInfo v n vid il d ts ton tr tv er dd x1 mt sz md wv meta _ ei mk rs da nv sm fr ix dm =>
    mkFileInfo v n vid il d ts ton tr tv er dd x1 mt sz md wv meta ps ei mk rs da nv sm fr ix dm
  end.
Definition fi_with_Metadata (f : FileInfo) (meta : gmap string string) : FileInfo :=
  match f with
  | mkFileInfo v n vid il d ts ton tr tv er dd x1 mt sz md wv _ ps ei mk rs da nv sm fr ix dm =>
    mkFileInfo v n vid il d ts ton tr tv er dd x1 mt sz md wv meta ps ei mk rs da nv sm fr ix dm
  end.
Definition fi_with_Erasure (f : FileInfo) (ei : ErasureInfo) : FileInfo :=
  match f with
  | mkFileInfo v n vid il d ts ton tr tv er dd x1 mt sz md wv meta ps _ mk rs da nv sm fr ix dm =>
    mkFileInfo v n vid il d ts ton tr tv er dd x1 mt sz md wv meta ps ei mk rs da nv sm fr ix dm
  end.

(** ** Methods *)

Fixpoint AddChecksum_loop (cs : list ChecksumInfo) (c : ChecksumInfo) : option (list ChecksumInfo) :=
  match cs with
  | [] => None
  | sum :: cs =>
      if bool_decide (ck_PartNumber sum = ck_PartNumber c) then Some (c :: cs)
      else (sum ::.) <$> AddChecksum_loop cs c
  end.

Definition AddChecksumInfo (e : ErasureInfo) (c : ChecksumInfo) : ErasureInfo :=
  match AddChecksum_loop (ei_Checksums e) c with
  | Some cs => ei_with_Checksums e cs
  | None => ei_with_Checksums e (ei_Checksums e ++ [c])
  end.

Definition GetChecksumInfo (e : ErasureInfo) (partNumber : Z) : ChecksumInfo :=
  match List.find (fun sum => bool_decide (ck_PartNumber sum = partNumber)) (ei_Checksums e) with
  | Some sum => sum
  | None => mkChecksum 0 0 []
  end.

(** [ErasureInfo] has its own copy of the shard arithmetic of [Erasure]. *)
Definition ErasureInfo_ShardSize (e : ErasureInfo) : Z :=
  ceilFrac (ei_BlockSize e) (ei_DataBlocks e).

Definition ErasureInfo_ShardFileSize (e : ErasureInfo) (totalLength : Z) : option Z :=
  if totalLength =? 0 then Some 0
  else if totalLength =? -1 then Some (-1)
  else if ei_BlockSize e =? 0 then None
  else
    let numShards := quot64 totalLength (ei_BlockSize e) in
    let lastBlockSize := rem64 totalLength (ei_BlockSize e) in
    let lastShardSize := ceilFrac lastBlockSize (ei_DataBlocks e) in
    Some (numShards * ErasureInfo_ShardSize e + lastShardSize)%int64.

Definition FileInfo_IsValid (fi : FileInfo) : bool :=
  if fi_Deleted fi then true
  else
    let data := ei_DataBlocks (fi_Erasure fi) in
    let parity := ei_ParityBlocks (fi_Erasure fi) in
    let correctIndexes :=
      (0 <? ei_Index (fi_Erasure fi)) &&
      (ei_Index (fi_Erasure fi) <=? add64 data parity) &&
      (len (ei_Distribution (fi_Erasure fi)) =? add64 data parity) in
    (parity <=? data) && (0 <? data) && (0 <=? parity) && correctIndexes.

Definition GetDataDir (fi : FileInfo) : string :=
  if fi_Deleted fi then "delete-marker"
  else if fi_XLV1 fi && bool_decide (fi_DataDir fi = "") then "legacy"
  else fi_DataDir fi.

Definition TransitionInfoEquals (fi ofi : FileInfo) : bool :=
  if negb (bool_decide (fi_TransitionStatus fi = fi_TransitionStatus ofi)) ||
     negb (bool_decide (fi_TransitionTier fi = fi_TransitionTier ofi)) ||
     negb (bool_decide (fi_TransitionedObjName fi = fi_TransitionedObjName ofi)) ||
     negb (bool_decide (fi_TransitionVersionID fi = fi_TransitionVersionID ofi))
  then false else true.

Section Equality.
Context `{MapOrder}.

Definition MetadataEquals (fi ofi : FileInfo) : bool :=
  if negb (bool_decide (size (fi_Metadata fi) = size (fi_Metadata ofi))) then false
  else forallb (fun '(k, v) => bool_decide (fi_Metadata ofi !! k = Some v))
         (range_map (fi_Metadata fi)).

Definition ReplicationInfoEquals (fi ofi : FileInfo) : bool :=
  if negb (Bool.eqb (fi_MarkDeleted fi) (fi_MarkDeleted ofi)) ||
     negb (ReplicationState_Equal (fi_ReplicationState fi) (fi_ReplicationState ofi))
  then false else true.

Definition FileInfo_Equals (fi ofi : FileInfo) : bool :=
  if negb (MetadataEquals fi ofi) then false
  else if negb (ReplicationInfoEquals fi ofi) then false
  else if negb (TransitionInfoEquals fi ofi) then false
  else bool_decide (fi_ModTime fi = fi_ModTime ofi).
End Equality.

Fixpoint objectPartIndex_loop (parts : list ObjectPartInfo) (partNumber i : Z) : Z :=
  match parts with
  | [] => -1
  | part :: parts =>
      if partNumber =? pt_Number part then i else objectPartIndex_loop parts partNumber (i + 1)
  end.

Definition objectPartIndex (parts : list ObjectPartInfo) (partNumber : Z) : Z :=
  objectPartIndex_loop parts partNumber 0.

Definition part_le (a b : ObjectPartInfo) : Prop := pt_Number a <= pt_Number b.
#[global] Instance part_le_dec : RelDecision part_le := fun a b => Z_le_dec _ _.

Fixpoint replace_part (parts : list ObjectPartInfo) (p : ObjectPartInfo)
  : option (list ObjectPartInfo) :=
  match parts with
  | [] => None
  | part :: parts =>
      if bool_decide (pt_Number p = pt_Number part) then Some (p :: parts)
      else (part ::.) <$> replace_part parts p
  end.

(** [sort.Sort] leaves the parts in the order of their numbers; the result is
    determined when the numbers are distinct. *)
Definition AddObjectPart (fi : FileInfo) (partNumber : Z) (partETag : string)
    (partSize actualSize : Z) (modTime : time) (idx : bytes) : FileInfo :=
  let partInfo := mkPart partETag partNumber partSize actualSize modTime idx in
  match replace_part (fi_Parts fi) partInfo with
  | Some parts => fi_with_Parts fi parts
  | None => fi_with_Parts fi (merge_sort part_le (fi_Parts fi ++ [partInfo]))
  end.

Definition InvalidRange : error := ErrNew "InvalidRange".

Fixpoint part_offset_loop (parts : list ObjectPartInfo) (i partOffset : Z) : result (Z * Z) :=
  match parts with
  | [] => Err InvalidRange
  | part :: parts =>
      if partOffset <? pt_Size part then Ok (i, partOffset)
      else part_offset_loop parts (i + 1) (sub64 partOffset (pt_Size part))
  end.

Definition ObjectToPartOffset (fi : FileInfo) (offset : Z) : result (Z * Z) :=
  if offset =? 0 then Ok (0, 0) else part_offset_loop (fi_Parts fi) 0 offset.

(** Metadata keys. *)
Definition ReservedMetadataPrefixLower : string := "x-uitstor-internal-".
Definition tierFVIDKey : string := "x-uitstor-internal-tier-free-versionID".
Definition tierFVMarkerKey : string := "x-uitstor-internal-tier-free-marker".
Definition dataShardFixKey : string := "x-uitstor-internal-data-shard-fix".
Definition erasureUpgradedKey : string := "x-uitstor-internal-erasure-upgraded".
Definition AmzStorageClass : string := "x-amz-storage-class".

Definition SetTierFreeVersionID (fi : FileInfo) (versionID : string) : FileInfo :=
  fi_with_Metadata fi (<[tierFVIDKey := versionID]> (fi_Metadata fi)).
(** Reading a missing key of a Go map gives the zero value. *)
Definition TierFreeVersionID (fi : FileInfo) : string :=
  default "" (fi_Metadata fi !! tierFVIDKey).
Definition SetTierFreeVersion (fi : FileInfo) : FileInfo :=
  fi_with_Metadata fi (<[tierFVMarkerKey := ""]> (fi_Metadata fi)).
Definition TierFreeVersion (fi : FileInfo) : bool :=
  bool_decide (is_Some (fi_Metadata fi !! tierFVMarkerKey)).
Definition DataShardFixed (fi : FileInfo) : bool :=
  bool_decide (default "" (fi_Metadata fi !! dataShardFixKey) = "true").

Definition AcceptableDelta (fi : FileInfo) (maxTime : time) (delta : Z) : bool :=
  let diff := time_Sub maxTime (fi_DiskMTime fi) in
  let diff := if diff <? 0 then neg64 diff else diff in
  diff <? delta.

Definition VersionPurgeStatus `{MapOrder} (fi : FileInfo) : string :=
  CompositeVersionPurgeStatus (fi_ReplicationState fi).

Definition DeleteMarkerReplicationStatus `{MapOrder} (fi : FileInfo) : string :=
  if fi_Deleted fi then CompositeReplicationStatus (fi_ReplicationState fi) else "".

(** ** Facts *)

(** The status over all targets does not depend on the order the map is
    visited in: one failure is a failure, and only all completed is completed. *)
Lemma composite_loop_spec failed done vs c :
  failed <> done ->
  composite_loop failed done vs c =
    if bool_decide (failed ∈ vs) then inl failed
    else inr (c + Z.of_nat (count (fun v => bool_decide (v = done)) vs)).
Proof.
  intros Hne. revert c. induction vs as [|v vs IH]; intros c; cbn [composite_loop].
  { rewrite bool_decide_eq_false_2 by (intros []%elem_of_nil). rewrite count_nil. f_equal. lia. }
  rewrite IH, count_cons. destruct (decide (v = failed)) as [->|Hv].
  { rewrite bool_decide_eq_true_2 by done. by rewrite bool_decide_eq_true_2 by left. }
  rewrite (bool_decide_eq_false_2 (v = failed)) by done.
  rewrite (bool_decide_ext (failed ∈ v :: vs) (failed ∈ vs)) by (rewrite elem_of_cons; naive_solver).
  case_bool_decide; [done|]. f_equal. case_bool_decide; lia.
Qed.

Lemma count_full {A} (p : A -> bool) l : count p l = length l <-> Forall (fun x => p x = true) l.
Proof.
  induction l as [|x l IH]; [by split|]. rewrite count_cons, Forall_cons, <-IH. simpl.
  pose proof (count_le_length p l). destruct (p x); split; intros; intuition lia.
Qed.

Lemma range_map_values `{MapOrder} (m : gmap string string) v :
  v ∈ (range_map m).*2 <-> exists k, m !! k = Some v.
Proof.
  rewrite list_elem_of_fmap. split.
  - intros ([k v'] & -> & Hin). exists k. by apply elem_of_range_map.
  - intros [k Hk]. exists (k, v). by rewrite elem_of_range_map.
Qed.

Lemma length_range_map `{MapOrder} (m : gmap string string) : length (range_map m) = size m.
Proof. unfold range_map. rewrite range_order_perm. apply length_map_to_list. Qed.

Section CompositeFacts.
Context `{MapOrder}.

(** The three-way specification both statuses follow. *)
Definition composite_of (failed done pending : string) (m : gmap string string) (s : string) : Prop :=
  (m = ∅ /\ s = "") \/
  (m <> ∅ /\ (exists k, m !! k = Some failed) /\ s = failed) \/
  (m <> ∅ /\ (forall k v, m !! k = Some v -> v = done) /\ s = done) \/
  (m <> ∅ /\ ~ (exists k, m !! k = Some failed) /\
    (exists k v, m !! k = Some v /\ v <> done) /\ s = pending).

Lemma composite_select failed done pending m :
  failed <> done ->
  composite_of failed done pending m
    (if bool_decide (m = ∅) then "" else
     match composite_loop failed done (range_map m).*2 0 with
     | inl s => s
     | inr completed => if completed =? Z.of_nat (size m) then done else pending
     end).
Proof.
  intros Hne. unfold composite_of. case_bool_decide as Hm; [by left|right].
  rewrite composite_loop_spec by done. case_bool_decide as Hf.
  { left. split_and!; [done| |done]. by apply range_map_values. }
  right. rewrite range_map_values in Hf.
  rewrite <-length_range_map, <-(length_fmap snd).
  destruct (Z.eqb_spec (0 + Z.of_nat (count (fun v => bool_decide (v = done)) (range_map m).*2))
    (len (range_map m).*2)) as [Hall|Hnall].
  - left. split_and!; [done| |done]. intros k v Hk.
    assert (Forall (fun v => bool_decide (v = done) = true) (range_map m).*2) as HF
      by (apply count_full; lia).
    rewrite Forall_forall in HF. apply (bool_decide_eq_true (v = done)), HF, range_map_values. eauto.
  - right. split_and!; [done|done| |done].
    destruct (decide (Exists (fun v => v <> done) (range_map m).*2)) as [HE|HE].
    + apply Exists_exists in HE as (v & [k Hk]%range_map_values & Hv). eauto.
    + exfalso. apply Hnall. rewrite Z.add_0_l. f_equal. apply count_full.
      rewrite Forall_forall. intros v Hv. apply bool_decide_eq_true.
      destruct (decide (v = done)) as [?|Hvd]; [done|]. destruct HE.
      apply Exists_exists. eauto.
Qed.

Lemma getCompositeReplicationStatus_spec m :
  composite_of Replication_Failed Replication_Completed Replication_Pending m
    (getCompositeReplicationStatus m).
Proof. by apply composite_select. Qed.

Lemma getCompositeVersionPurgeStatus_spec m :
  composite_of Purge_Failed Purge_Complete Purge_Pending m (getCompositeVersionPurgeStatus m).
Proof. by apply composite_select. Qed.

Lemma composite_of_functional failed done pending m s s' :
  failed <> done -> composite_of failed done pending m s ->
  composite_of failed done pending m s' -> s = s'.
Proof.
  unfold composite_of. intros Hne Hs Hs'.
  destruct (decide (m = ∅)) as [->|Hm].
  { destruct Hs as [[_ ->]|[[? _]|[[? _]|[? _]]]]; [|done..].
    by destruct Hs' as [[_ ->]|[[? _]|[[? _]|[? _]]]]. }
  destruct Hs as [[? _]|[(_ & [k Hk] & ->)|[(_ & Hall & ->)|(_ & Hnf & (k & v & Hk & Hv) & ->)]]];
    [done| | |];
  destruct Hs' as [[? _]|[(_ & [k' Hk'] & ->)|[(_ & Hall' & ->)|(_ & Hnf' & (k' & v' & Hk' & Hv') & ->)]]];
    try done.
  - by apply Hall' in Hk.
  - destruct Hnf'. eauto.
  - by apply Hall in Hk'.
  - by apply Hall in Hk'.
  - destruct Hnf. eauto.
  - by apply Hall' in Hk.
Qed.

Lemma MetadataEquals_iff fi ofi :
  MetadataEquals fi ofi = true <-> fi_Metadata fi = fi_Metadata ofi.
Proof.
  unfold MetadataEquals. case_bool_decide as Hsz; simpl.
  2:{ split; [done|]. intros E. by rewrite E in Hsz. }
  rewrite List.forallb_forall. setoid_rewrite <-list_elem_of_In. split.
  - intros Hall. apply map_subseteq_size_eq; [|by rewrite Hsz].
    apply map_subseteq_spec. intros k v Hk.
    specialize (Hall (k, v) ltac:(by apply elem_of_range_map)).
    by apply bool_decide_eq_true in Hall.
  - intros <- [k v] Hin. apply bool_decide_eq_true. by apply elem_of_range_map.
Qed.
End CompositeFacts.

(** ** Parts *)

(** Invariant of [fi.Parts]: strictly increasing part numbers. *)
Definition parts_sorted (l : list ObjectPartInfo) : Prop :=
  StronglySorted (fun a b => pt_Number a < pt_Number b) l.

Definition find_part (n : Z) (l : list ObjectPartInfo) : option ObjectPartInfo :=
  List.find (fun p => pt_Number p =? n) l.

Lemma parts_sorted_NoDup l : parts_sorted l -> NoDup (pt_Number <$> l).
Proof.
  unfold parts_sorted. induction 1 as [|x l _ IH Hx]; csimpl; constructor; [|done].
  intros (y & Hy & Hin)%list_elem_of_fmap. rewrite Forall_forall in Hx.
  specialize (Hx y Hin). lia.
Qed.

Lemma find_part_Some n l p : NoDup (pt_Number <$> l) ->
  find_part n l = Some p <-> p ∈ l /\ pt_Number p = n.
Proof.
  induction l as [|x l IH]; csimpl; intros Hnd.
  { split; [done|]. intros [[]%elem_of_nil _]. }
  apply NoDup_cons in Hnd as [Hx Hnd]. rewrite elem_of_cons. unfold find_part in *. simpl.
  destruct (Z.eqb_spec (pt_Number x) n) as [<-|Hne].
  - split; [intros [= ->]; auto|]. intros [[->|Hin] E]; [done|].
    destruct Hx. rewrite <-E. by apply list_elem_of_fmap_2.
  - rewrite (IH Hnd). split; [intros [? ?]; auto|]. intros [[->|?] ?]; [done|auto].
Qed.

Lemma find_part_Permutation n l k : NoDup (pt_Number <$> l) -> l ≡ₚ k ->
  find_part n l = find_part n k.
Proof.
  intros Hnd Hp. assert (NoDup (pt_Number <$> k)) as Hnd' by (by rewrite <-Hp).
  destruct (find_part n k) as [p|] eqn:E.
  - apply find_part_Some in E as [Hin <-]; [|done].
    apply find_part_Some; [done|]. by rewrite Hp.
  - destruct (find_part n l) as [p|] eqn:E'; [|done].
    apply find_part_Some in E'; [|done]. rewrite Hp in E'.
    apply (find_part_Some n k) in E'; congruence.
Qed.

Lemma replace_part_None l p :
  replace_part l p = None <-> pt_Number p ∉ pt_Number <$> l.
Proof.
  induction l as [|x l IH]; csimpl; [by split; [intros _ []%elem_of_nil|]|].
  rewrite not_elem_of_cons. case_bool_decide as E; [naive_solver|].
  destruct (replace_part l p); simpl; naive_solver.
Qed.

Lemma replace_part_spec l p l' : replace_part l p = Some l' ->
  (pt_Number <$> l') = (pt_Number <$> l) /\
  forall n, find_part n l' = if n =? pt_Number p then Some p else find_part n l.
Proof.
  revert l'. induction l as [|x l IH]; intros l'; simpl; [done|].
  case_bool_decide as E.
  - intros [= <-]. csimpl. split; [by rewrite E|]. intros n. unfold find_part. simpl.
    rewrite E, Z.eqb_sym. by destruct (n =? pt_Number x).
  - destruct (replace_part l p) as [l0|]; simpl; [|done]. intros [= <-].
    destruct (IH _ eq_refl) as [IH1 IH2]. csimpl. rewrite IH1. split; [done|].
    intros n. unfold find_part in *. simpl. rewrite IH2.
    destruct (Z.eqb_spec (pt_Number x) n), (Z.eqb_spec n (pt_Number p)); [lia|done..].
Qed.

#[global] Instance part_le_total : Total part_le.
Proof. intros a b. unfold part_le. lia. Qed.
#[global] Instance part_le_trans : Transitive part_le.
Proof. intros a b c. unfold part_le. lia. Qed.

Lemma sorted_le_lt l : NoDup (pt_Number <$> l) -> StronglySorted part_le l -> parts_sorted l.
Proof.
  unfold parts_sorted. induction 2 as [|x l Hs IH Hx]; [constructor|]. csimpl in *.
  apply NoDup_cons in H as [Hnx Hnd]. constructor; [auto|].
  rewrite Forall_forall in *. intros y Hy. specialize (Hx y Hy). unfold part_le in Hx.
  assert (pt_Number x <> pt_Number y); [|lia].
  intros E. destruct Hnx. rewrite E. by apply list_elem_of_fmap_2.
Qed.

Lemma parts_sorted_numbers l l' :
  (pt_Number <$> l') = (pt_Number <$> l) -> parts_sorted l -> parts_sorted l'.
Proof.
  unfold parts_sorted. revert l'. induction l as [|x l IH]; intros [|y l']; csimpl; try done.
  intros [= E1 E2] [Hs Hx]%StronglySorted_inv. constructor; [auto|].
  assert (Forall (fun n => pt_Number x < n) (pt_Number <$> l)) as HF by (by apply Forall_fmap).
  rewrite <-E2, Forall_fmap, <-E1 in HF. exact HF.
Qed.

Lemma fi_Parts_with_Parts f ps : fi_Parts (fi_with_Parts f ps) = ps.
Proof. by destruct f. Qed.

(** Adding a part keeps the numbers in order, stores the part under its number
    and leaves the other parts alone. *)
Lemma AddObjectPart_spec fi n etag sz asz mt idx :
  parts_sorted (fi_Parts fi) ->
  let p := mkPart etag n sz asz mt idx in
  let fi' := AddObjectPart fi n etag sz asz mt idx in
  parts_sorted (fi_Parts fi') /\
  forall m, find_part m (fi_Parts fi') = if m =? n then Some p else find_part m (fi_Parts fi).
Proof.
  intros Hs p fi'. subst fi'. unfold AddObjectPart. fold p.
  pose proof (parts_sorted_NoDup _ Hs) as Hnd.
  destruct (replace_part (fi_Parts fi) p) as [parts|] eqn:E; rewrite fi_Parts_with_Parts.
  - destruct (replace_part_spec _ _ _ E) as [Hnum Hfind].
    split; [by apply (parts_sorted_numbers (fi_Parts fi))|done].
  - apply replace_part_None in E.
    assert (fi_Parts fi ++ [p] ≡ₚ p :: fi_Parts fi) as Hp by (rewrite Permutation_app_comm; done).
    assert (NoDup (pt_Number <$> fi_Parts fi ++ [p])) as Hnd' by (rewrite Hp; by constructor).
    assert (merge_sort part_le (fi_Parts fi ++ [p]) ≡ₚ fi_Parts fi ++ [p]) as Hms
      by apply merge_sort_Permutation.
    split.
    + apply sorted_le_lt; [by rewrite Hms|]. apply (StronglySorted_merge_sort _).
    + intros m. rewrite (find_part_Permutation m _ (p :: fi_Parts fi)); [|by rewrite Hms|by rewrite Hms].
      unfold find_part. simpl. by rewrite Z.eqb_sym.
Qed.

(** ** Offsets in parts *)

Lemma part_offset_loop_spec parts : forall i offset,
  Forall (fun p => 0 <= pt_Size p) parts -> 0 <= offset < 2 ^ 63 ->
  match part_offset_loop parts i offset with
  | Ok (j, o) => exists part, i <= j /\ parts !! Z.to_nat (j - i) = Some part /\
      0 <= o < pt_Size part /\
      Zsum (pt_Size <$> take (Z.to_nat (j - i)) parts) + o = offset
  | Err e => e = InvalidRange /\ Zsum (pt_Size <$> parts) <= offset
  end.
Proof.
  induction parts as [|p parts IH]; intros i offset Hsz Ho; csimpl; [split; [done|lia]|].
  apply Forall_cons in Hsz as [Hp Hsz].
  destruct (Z.ltb_spec offset (pt_Size p)) as [Hlt|Hge].
  { exists p. rewrite Z.sub_diag. simpl. split_and!; [lia|done|lia|lia|lia]. }
  unfold sub64. rewrite wrap64_id by (unfold int64_range; lia).
  specialize (IH (i + 1) (offset - pt_Size p) Hsz ltac:(lia)).
  destruct (part_offset_loop parts (i + 1) (offset - pt_Size p)) as [[j o]|e].
  - destruct IH as (part & Hij & Hl & Ho' & Hsum). exists part.
    replace (Z.to_nat (j - i)) with (S (Z.to_nat (j - (i + 1)))) by lia.
    csimpl. split_and!; [lia|done|lia|lia|lia].
  - destruct IH as [-> ?]. split; [done|]. csimpl. lia.
Qed.

(** ** Properties *)

(** The replication status and the version purge status of an object over all
    its targets do not depend on the order in which the target map is visited:
    one failed target makes the whole failed, all completed make it completed,
    anything else is pending, no target is empty. *)
Theorem composite_status_order_free (o1 o2 : MapOrder) m :
  @getCompositeReplicationStatus o1 m = @getCompositeReplicationStatus o2 m /\
  @getCompositeVersionPurgeStatus o1 m = @getCompositeVersionPurgeStatus o2 m /\
  composite_of Replication_Failed Replication_Completed Replication_Pending m
    (@getCompositeReplicationStatus o1 m) /\
  composite_of Purge_Failed Purge_Complete Purge_Pending m
    (@getCompositeVersionPurgeStatus o1 m).
Proof.
  pose proof (@getCompositeReplicationStatus_spec o1 m) as H1.
  pose proof (@getCompositeReplicationStatus_spec o2 m) as H2.
  pose proof (@getCompositeVersionPurgeStatus_spec o1 m) as H3.
  pose proof (@getCompositeVersionPurgeStatus_spec o2 m) as H4.
  split_and!; [| |done|done].
  - eapply composite_of_functional; [|exact H1|exact H2]. done.
  - eapply composite_of_functional; [|exact H3|exact H4]. done.
Qed.

(** [AddObjectPart] keeps the parts of an object in strictly increasing part
    number, afterwards finds the new part under its number whether it replaced
    one or was inserted, and leaves every other part as it was. *)
Theorem AddObjectPart_correct fi n etag sz asz mt idx :
  parts_sorted (fi_Parts fi) ->
  let fi' := AddObjectPart fi n etag sz asz mt idx in
  parts_sorted (fi_Parts fi') /\
  forall m, find_part m (fi_Parts fi') =
    if m =? n then Some (mkPart etag n sz asz mt idx) else find_part m (fi_Parts fi).
Proof. apply AddObjectPart_spec. Qed.

Definition sample_parts : list ObjectPartInfo := [mkPart "a" 1 10 10 0 []; mkPart "c" 3 20 20 0 []].

Lemma sample_parts_sorted : parts_sorted sample_parts.
Proof. repeat constructor; simpl; lia. Qed.

Lemma AddObjectPart_correct_witness :
  find_part 3 (fi_Parts (AddObjectPart (fi_with_Parts zero_FileInfo sample_parts) 2 "b" 5 5 0 []))
    = Some (mkPart "c" 3 20 20 0 []).
Proof.
  rewrite (proj2 (AddObjectPart_correct (fi_with_Parts zero_FileInfo sample_parts) 2 "b" 5 5 0 []
    sample_parts_sorted)). reflexivity.
Defined.

(** [ObjectToPartOffset] maps an offset into the object to the part that holds
    it and the offset inside that part: the sizes of the parts before it and the
    inner offset add up to the offset; [InvalidRange] is returned only for an
    offset at or past the end. *)
Theorem ObjectToPartOffset_correct fi offset :
  Forall (fun p => 0 <= pt_Size p) (fi_Parts fi) -> 0 < offset < 2 ^ 63 ->
  match ObjectToPartOffset fi offset with
  | Ok (j, o) => exists part, 0 <= j /\ fi_Parts fi !! Z.to_nat j = Some part /\
      0 <= o < pt_Size part /\
      Zsum (pt_Size <$> take (Z.to_nat j) (fi_Parts fi)) + o = offset
  | Err e => e = InvalidRange /\ Zsum (pt_Size <$> fi_Parts fi) <= offset
  end.
Proof.
  intros Hsz Ho. unfold ObjectToPartOffset. destruct (Z.eqb_spec offset 0); [lia|].
  pose proof (part_offset_loop_spec (fi_Parts fi) 0 offset Hsz ltac:(lia)) as Hs.
  destruct (part_offset_loop (fi_Parts fi) 0 offset) as [[j o]|e]; [|done].
  by rewrite Z.sub_0_r in Hs.
Qed.

Lemma ObjectToPartOffset_correct_witness :
  ObjectToPartOffset (fi_with_Parts zero_FileInfo sample_parts) 12 = Ok (1, 2) /\
  exists part, sample_parts !! 1%nat = Some part /\ 2 < pt_Size part.
Proof.
  split; [done|].
  destruct (ObjectToPartOffset_correct (fi_with_Parts zero_FileInfo sample_parts) 12)
    as (part & _ & Hp & [_ Hlt] & _); [repeat constructor; done|done|].
  by exists part.
Defined.
