(* ===== verification/Quorum.v ===== *)
(** * Quorums over drives

    Models [cmd/erasure-metadata-utils.go], the quorum half of
    [cmd/erasure-metadata.go] and [cmd/erasure-healing-common.go]: how the
    answers of the drives of an erasure set (errors, [xl.meta] contents,
    modification times) are reduced to one answer, and how drives are ordered by
    an erasure distribution. *)

From stdpp Require Import pretty.
From S2P Require Import Prelude Erasure FileInfo.

(** ** Errors *)

Definition errDiskNotFound : error := StorageErr "disk not found".
Definition errFaultyDisk : error := StorageErr "disk is faulty".
Definition errFaultyRemoteDisk : error := StorageErr "remote disk is faulty".
Definition errDiskAccessDenied : error := StorageErr "disk access denied".
Definition errUnformattedDisk : error := StorageErr "unformatted disk found".
Definition errFileNotFound : error := StorageErr "file not found".
Definition errFileVersionNotFound : error := StorageErr "file version not found".
Definition errFileCorrupt : error := StorageErr "file is corrupted".
Definition errLessData : error := StorageErr "less data available than what was requested".
Definition errCorruptedFormat : error := StorageErr "corrupted backend format, specified disk mount has unexpected previous content".
Definition errErasureReadQuorum : error :=
  ErrNew "Read failed. Insufficient number of disks online".
Definition errErasureWriteQuorum : error :=
  ErrNew "Write failed. Insufficient number of disks online".
Definition errInvalidArgument : error := ErrNew "Invalid arguments specified".
Definition errPartSizeZero : error := ErrNew "Part size cannot be zero".
Definition errPartSizeIndex : error := ErrNew "Part index cannot be smaller than 1".

Definition baseIgnoredErrs : list error := [errDiskNotFound; errFaultyDisk; errFaultyRemoteDisk].
Definition objectOpIgnoredErrs : list error :=
  baseIgnoredErrs ++ [errDiskAccessDenied; errUnformattedDisk].

(** [IsErr] and [IsErrIgnored] of [cmd/utils.go]. *)
Definition IsErr (err : option error) (errs : list error) : bool :=
  existsb (fun exactErr => errors_Is err (Some exactErr)) errs.

Definition IsErrIgnored (err : option error) (ignored : list error) : bool := IsErr err ignored.

(** [countErrs] of [cmd/format-erasure.go]. *)
Definition countErrs (errs : list (option error)) (err : option error) : Z :=
  Z.of_nat (count (fun err1 => bool_decide (err1 = err) || errors_Is err1 err) errs).

(** ** Reducing errors *)

Definition count_error (ignored : list error) (m : gmap (option error) nat) (err : option error)
  : gmap (option error) nat :=
  if IsErrIgnored err ignored then m
  else if errors_Is err (Some Canceled) then incr (Some Canceled) m
  else incr err m.

Definition errorCounts (errs : list (option error)) (ignored : list error)
  : gmap (option error) nat :=
  fold_left (count_error ignored) errs ∅.

Definition select_error (acc : nat * option error) (e : option error * nat) : nat * option error :=
  let '(max, maxErr) := acc in
  let '(err, cnt) := e in
  if (max <? cnt)%nat then (cnt, err)
  else if (max =? cnt)%nat && bool_decide (err = None) then (max, err)
  else (max, maxErr).

Section Reduce.
Context `{MapOrder}.

Definition reduceErrs (errs : list (option error)) (ignored : list error) : nat * option error :=
  fold_left select_error (range_map (errorCounts errs ignored)) (0%nat, None).

(** [canceled]: the context is already canceled. *)
Definition reduceQuorumErrs (canceled : bool) (errs : list (option error))
    (ignored : list error) (quorum : Z) (quorumErr : error) : option error :=
  if canceled then Some Canceled
  else
    let '(maxCount, maxErr) := reduceErrs errs ignored in
    if quorum <=? Z.of_nat maxCount then maxErr else Some quorumErr.

Definition reduceReadQuorumErrs (canceled : bool) (errs : list (option error))
    (ignored : list error) (readQuorum : Z) : option error :=
  reduceQuorumErrs canceled errs ignored readQuorum errErasureReadQuorum.

Definition reduceWriteQuorumErrs (canceled : bool) (errs : list (option error))
    (ignored : list error) (writeQuorum : Z) : option error :=
  reduceQuorumErrs canceled errs ignored writeQuorum errErasureWriteQuorum.
End Reduce.

(** The error an entry counts as: nothing when it is ignored. *)
Definition err_key (ignored : list error) (err : option error) : option (option error) :=
  if IsErrIgnored err ignored then None
  else if errors_Is err (Some Canceled) then Some (Some Canceled)
  else Some err.

Definition mult (ignored : list error) (errs : list (option error)) (k : option error) : nat :=
  multiplicity (err_key ignored) errs k.

Lemma errorCounts_tally errs ignored :
  errorCounts errs ignored = fold_left (tally_step (err_key ignored)) errs ∅.
Proof.
  apply fold_left_ext. intros m e. unfold count_error, tally_step, err_key.
  by destruct (IsErrIgnored e ignored), (errors_Is e (Some Canceled)).
Qed.

(** What the selection loop keeps, whatever the order. *)
Definition selected (l : list (option error * nat)) (max : nat) (e : option error) : Prop :=
  Forall (fun x => x.2 <= max)%nat l /\
  (max = 0%nat /\ e = None \/ (e, max) ∈ l) /\
  ((None, max) ∈ l -> e = None).

Lemma select_error_selected l :
  NoDup l.*1 -> Forall (fun x => 0 < x.2)%nat l ->
  let '(max, e) := fold_left select_error l (0%nat, None) in selected l max e.
Proof.
  induction l as [|[err cnt] l IH] using rev_ind; intros Hnd Hpos; simpl.
  { split_and!; [constructor|by left|intros []%elem_of_nil]. }
  rewrite fold_left_app. simpl. rewrite fmap_app in Hnd.
  apply NoDup_app in Hnd as (Hnd & Hdis & _). apply Forall_app in Hpos as [Hpos Hcnt].
  rewrite Forall_singleton in Hcnt. simpl in Hcnt.
  specialize (IH Hnd Hpos). destruct (fold_left select_error l (0%nat, None)) as [max e].
  destruct IH as (Hall & Hin & Hnil). unfold select_error.
  destruct (Nat.ltb_spec max cnt) as [Hlt|Hge].
  { split_and!.
    - apply Forall_app. split; [|by rewrite Forall_singleton].
      eapply Forall_impl; [exact Hall|]. simpl. lia.
    - right. rewrite elem_of_app, list_elem_of_singleton. by right.
    - rewrite elem_of_app, list_elem_of_singleton. intros [Hl|[= <-]]; [|done].
      rewrite Forall_forall in Hall. specialize (Hall _ Hl). simpl in Hall. lia. }
  destruct ((max =? cnt)%nat && bool_decide (err = None)) eqn:E.
  - btrue. apply Nat.eqb_eq in H. apply bool_decide_eq_true in H0. subst.
    split_and!; [apply Forall_app; split; [done|by rewrite Forall_singleton]| |done].
    right. rewrite elem_of_app, list_elem_of_singleton. by right.
  - split_and!.
    + apply Forall_app; split; [done|by rewrite Forall_singleton].
    + destruct Hin as [?|?]; [by left|right]. rewrite elem_of_app. by left.
    + rewrite elem_of_app, list_elem_of_singleton. intros [?|[= <- <-]]; [auto|].
      rewrite Nat.eqb_refl in E. done.
Qed.

Lemma reduceErrs_spec `{MapOrder} errs ignored :
  let '(max, e) := reduceErrs errs ignored in
  (forall k, mult ignored errs k <= max)%nat /\
  (max = 0%nat /\ e = None \/ (0 < max)%nat /\ mult ignored errs e = max) /\
  (mult ignored errs None = max -> e = None).
Proof.
  unfold reduceErrs. set (l := range_map (errorCounts errs ignored)).
  assert (forall k c, (k, c) ∈ l <-> mult ignored errs k = c /\ (0 < c)%nat) as Hl
    by (intros k c; unfold l; rewrite errorCounts_tally; apply elem_of_range_tally).
  pose proof (select_error_selected l (NoDup_range_map _)) as Hsel.
  destruct (fold_left select_error l (0%nat, None)) as [max e].
  destruct Hsel as (Hall & Hin & Hnil).
  { apply Forall_forall. intros [k c] Hk. by apply Hl in Hk as [_ ?]. }
  rewrite Forall_forall in Hall. split_and!.
  - intros k. destruct (decide (mult ignored errs k = 0%nat)); [lia|].
    apply (Hall (k, mult ignored errs k)), Hl. split; [done|lia].
  - destruct Hin as [?|Hin]; [by left|right]. apply Hl in Hin. lia.
  - intros Hm. destruct (decide (max = 0%nat)) as [->|?].
    + destruct Hin as [[_ ?]|Hin]; [done|]. apply Hl in Hin. lia.
    + apply Hnil, Hl. lia.
Qed.

(** With a quorum of at least half of the drives, success is reported exactly
    when a quorum of drives succeeded, in whatever order the map is visited. *)
Lemma reduceQuorumErrs_nil `{MapOrder} errs ignored quorum qerr :
  1 <= quorum -> len errs <= 2 * quorum ->
  reduceQuorumErrs false errs ignored quorum qerr = None <->
  quorum <= Z.of_nat (mult ignored errs None).
Proof.
  intros Hq Hn. unfold reduceQuorumErrs.
  pose proof (reduceErrs_spec errs ignored) as Hspec.
  destruct (reduceErrs errs ignored) as [max e]. destruct Hspec as (Hall & Hin & Hnil).
  destruct (Z.leb_spec quorum (Z.of_nat max)) as [Hle|Hgt].
  - split.
    + intros ->. destruct Hin as [[-> _]|[_ <-]]; [lia|done].
    + intros Hm. apply Hnil. specialize (Hall None).
      destruct Hin as [[? ?]|[? Hmax]]; [lia|]. destruct e as [e|]; [|done].
      pose proof (multiplicity_pair (err_key ignored) errs None (Some e) ltac:(done)).
      unfold mult in *. lia.
  - split; [done|]. specialize (Hall None). lia.
Qed.

(** ** Most common time *)

Definition groupable (nano group k : Z) : bool :=
  negb (k =? nano) &&
  (let diff := sub64 k nano in
   let diff := if diff <? 0 then neg64 diff else diff in
   diff <? group).

Definition count_time (group : Z) (m : gmap Z nat) (t : time) : gmap Z nat :=
  if bool_decide (t = timeSentinel) || time_IsZero t then m
  else
    let nano := time_UnixNano t in
    let m := if 0 <? group
             then map_imap (fun k c => Some (if groupable nano group k then S c else c)) m
             else m in
    incr nano m.

Definition select_time (acc : nat * Z) (e : Z * nat) : nat * Z :=
  let '(maxima, latest) := acc in
  let '(nano, cnt) := e in
  if (cnt <? maxima)%nat then acc
  else if (maxima <? cnt)%nat || (latest <? nano) then (cnt, nano)
  else acc.

Section CommonTime.
Context `{MapOrder}.

Definition commonTimeAndOccurence (times : list time) (group : Z) : time * nat :=
  let timeOccurenceMap := fold_left (count_time group) times ∅ in
  let '(maxima, latest) := fold_left select_time (range_map timeOccurenceMap) (0%nat, 0) in
  (time_Unix_nano latest, maxima).

Definition commonTime (modTimes : list time) : time := (commonTimeAndOccurence modTimes 0).1.
End CommonTime.

(** The key a time counts under when times are not grouped. *)
Definition time_key (t : time) : option Z :=
  if bool_decide (t = timeSentinel) || time_IsZero t then None else Some (time_UnixNano t).

Definition occurrences (times : list time) (nano : Z) : nat := multiplicity time_key times nano.

Lemma count_time_tally times :
  fold_left (count_time 0) times ∅ = fold_left (tally_step time_key) times ∅.
Proof.
  apply fold_left_ext. intros m t. unfold count_time, tally_step, time_key.
  by destruct (bool_decide (t = timeSentinel) || time_IsZero t).
Qed.

Lemma select_time_spec l :
  Forall (fun x => 0 < x.2)%nat l ->
  let '(maxima, latest) := fold_left select_time l (0%nat, 0) in
  (l = [] /\ maxima = 0%nat /\ latest = 0) \/
  ((latest, maxima) ∈ l /\
   forall n c, (n, c) ∈ l -> (c < maxima)%nat \/ (c = maxima /\ n <= latest)).
Proof.
  induction l as [|[n c] l IH] using rev_ind; intros Hpos; simpl; [by left|].
  rewrite fold_left_app. simpl. apply Forall_app in Hpos as [Hpos Hc].
  rewrite Forall_singleton in Hc. simpl in Hc. specialize (IH Hpos).
  destruct (fold_left select_time l (0%nat, 0)) as [maxima latest].
  unfold select_time. destruct IH as [(-> & -> & ->)|[Hin Hall]].
  { destruct (Nat.ltb_spec c 0); [lia|]. destruct (Nat.ltb_spec 0 c); [|lia]. simpl. right.
    setoid_rewrite list_elem_of_singleton. split; [done|]. intros n' c' [= -> ->]. by right. }
  destruct (Nat.ltb_spec c maxima); [|destruct (Nat.ltb_spec maxima c); simpl;
    [|destruct (Z.ltb_spec latest n)]].
  all: right; setoid_rewrite elem_of_app; setoid_rewrite list_elem_of_singleton.
  all: split; [auto|]; intros n' c' [Hl|[= -> ->]]; [apply Hall in Hl|]; lia.
Qed.

(** The most frequent modification time, the latest of those that are equally
    frequent: independent of the order the map is visited in. *)
Lemma commonTime_spec `{MapOrder} times :
  let '(t, maxima) := commonTimeAndOccurence times 0 in
  exists nano, t = time_Unix_nano nano /\
    ((maxima = 0%nat /\ nano = 0 /\ forall n, occurrences times n = 0%nat) \/
     ((0 < maxima)%nat /\ occurrences times nano = maxima /\
      forall n, (occurrences times n < maxima)%nat \/
                (occurrences times n = maxima /\ n <= nano))).
Proof.
  unfold commonTimeAndOccurence. set (l := range_map _).
  assert (forall n c, (n, c) ∈ l <-> occurrences times n = c /\ (0 < c)%nat) as Hl
    by (intros n c; unfold l; rewrite count_time_tally; apply elem_of_range_tally).
  pose proof (select_time_spec l) as Hsel.
  destruct (fold_left select_time l (0%nat, 0)) as [maxima latest]. exists latest. split; [done|].
  destruct Hsel as [(Hnil & -> & ->)|[Hin Hall]].
  { apply Forall_forall. intros [n c] Hn. by apply Hl in Hn as [_ ?]. }
  - left. split_and!; [done|done|]. intros n.
    destruct (decide (occurrences times n = 0%nat)) as [|Hne]; [done|].
    assert ((n, occurrences times n) ∈ l) as Hn by (apply Hl; lia).
    rewrite Hnil in Hn. by apply elem_of_nil in Hn.
  - right. apply Hl in Hin as [? ?]. split_and!; [done|done|]. intros n.
    destruct (decide (occurrences times n = 0%nat)) as [|Hne]; [left; lia|].
    apply Hall, Hl. split; [done|lia].
Qed.

(** ** Choosing one [FileInfo] *)

Definition bootModtimes (diskCount : nat) : list time := replicate diskCount timeSentinel.

(** [errs[index]] panics when the slice is shorter. *)
Definition listObjectModtimes (partsMetadata : list FileInfo) (errs : list (option error))
  : option (list time) :=
  if (length errs <? length partsMetadata)%nat then None
  else Some (zip_with (fun boot '(m, e) => match e with Some _ => boot | None => fi_ModTime m end)
               (bootModtimes (length partsMetadata)) (zip partsMetadata errs)).

Definition listObjectDiskMtimes (partsMetadata : list FileInfo) : list time :=
  zip_with (fun boot m => if FileInfo_IsValid m then fi_DiskMTime m else boot)
    (bootModtimes (length partsMetadata)) partsMetadata.

Section Disks.
(** A drive; [nil] (offline) is [None]. *)
Context {D : Type}.
Implicit Types disks : list (option D).

Definition diskCount disks : Z := Z.of_nat (count (fun d => bool_decide (is_Some d)) disks).

(** [None] when a slice is indexed past its end. *)
Definition filterOnlineDisksInplace (fi : FileInfo) (partsMetadata : list FileInfo) disks
  : option (list (option D)) :=
  if (length disks <? length partsMetadata)%nat then None
  else Some (zip_with (fun m d => if Bool.eqb (fi_XLV1 fi) (fi_XLV1 m) then d else None)
               partsMetadata disks ++ drop (length partsMetadata) disks).

Definition evalDisks disks (errs : list (option error)) : list (option D) :=
  if negb (length errs =? length disks)%nat then []
  else zip_with (fun e d => match e with None => d | Some _ => None end) errs disks.
End Disks.

Definition fmt_bool (b : bool) : string := if b then "true" else "false".
(** [%v] of a slice of integers. *)
Definition fmt_ints (l : list Z) : string :=
  "[" +:+ String.concat " " (pretty <$> l) +:+ "]".

Section Select.
Context `{MapOrder}.

Definition pickValidDiskTimeWithQuorum (delta : Z) (metaArr : list FileInfo) (quorum : Z) : time :=
  let diskMTimes := listObjectDiskMtimes metaArr in
  let '(diskMTime, diskMaxima) := commonTimeAndOccurence diskMTimes delta in
  if quorum <=? Z.of_nat diskMaxima then diskMTime else timeSentinel.

Definition listOnlineDisks {D} (disks : list (option D)) (partsMetadata : list FileInfo)
    (errs : list (option error)) : option (list (option D) * time) :=
  modTimes ← listObjectModtimes partsMetadata errs;
  let modTime := commonTime modTimes in
  if (length disks <? length modTimes)%nat then None
  else Some (zip_with (fun '(m, t) d =>
               if FileInfo_IsValid m && bool_decide (t = modTime) then d else None)
               (zip partsMetadata modTimes) disks
             ++ replicate (length disks - length modTimes) None,
             modTime).

(** The loop that keeps the last valid entry with the common time, and counts
    them. *)
Definition latest_step (modTime : time) (acc : FileInfo * Z) (x : FileInfo * time) : FileInfo * Z :=
  let '(meta, t) := x in
  if FileInfo_IsValid meta && bool_decide (t = modTime) then (meta, acc.2 + 1) else acc.

Definition getLatestFileInfo (canceled : bool) (partsMetadata : list FileInfo)
    (errs : list (option error)) : option (result FileInfo) :=
  match reduceReadQuorumErrs canceled errs objectOpIgnoredErrs (len partsMetadata / 2) with
  | Some e => Some (Err e)
  | None =>
      modTimes ← listObjectModtimes partsMetadata errs;
      let modTime := commonTime modTimes in
      if time_IsZero modTime || bool_decide (modTime = timeSentinel)
      then Some (Err errErasureReadQuorum)
      else
        let '(latestFileInfo, cnt) :=
          fold_left (latest_step modTime) (zip partsMetadata modTimes) (zero_FileInfo, 0) in
        if negb (FileInfo_IsValid latestFileInfo) then Some (Err errErasureReadQuorum)
        else if cnt <? ei_DataBlocks (fi_Erasure latestFileInfo)
        then Some (Err errErasureReadQuorum)
        else Some (Ok latestFileInfo)
  end.

(** [scParity] is [globalStorageClass.GetParityForSC]. *)
Definition objectQuorumFromMeta (scParity : string -> Z) (canceled : bool)
    (partsMetaData : list FileInfo) (errs : list (option error)) (defaultParityCount : Z)
  : option (result (Z * Z)) :=
  if defaultParityCount =? 0 then Some (Ok (1, 1)) else
  latest ← getLatestFileInfo canceled partsMetaData errs;
  match latest with
  | Err e => Some (Err e)
  | Ok fi =>
      if fi_Deleted fi then
        let readQuorum := len partsMetaData / 2 in
        Some (Ok (readQuorum, readQuorum + 1))
      else
        let parityBlocks := scParity (default "" (fi_Metadata fi !! AmzStorageClass)) in
        let parityBlocks := if parityBlocks <? 0 then defaultParityCount else parityBlocks in
        let parityBlocks :=
          match fi_Metadata fi !! erasureUpgradedKey with
          | Some _ => if negb (ei_ParityBlocks (fi_Erasure fi) =? 0)
                      then ei_ParityBlocks (fi_Erasure fi) else parityBlocks
          | None => parityBlocks
          end in
        let dataBlocks := ei_DataBlocks (fi_Erasure fi) in
        let dataBlocks := if dataBlocks =? 0 then len partsMetaData - parityBlocks else dataBlocks in
        let writeQuorum := if dataBlocks =? parityBlocks then dataBlocks + 1 else dataBlocks in
        Some (Ok (dataBlocks, writeQuorum))
  end.

(** [sha256_hex] is the hexadecimal SHA-256 of the text written to the hash,
    [formatHTTP] is [Time.Format(http.TimeFormat)]. *)
Context (sha256_hex : string -> string) (formatHTTP : time -> string).

Definition meta_text (m : FileInfo) : string :=
  let rs := fi_ReplicationState m in
  let meta k := default "" (fi_Metadata m !! k) in
  fmt_bool (fi_XLV1 m) +:+ GetDataDir m +:+
  String.concat "" ((fun p => "part." +:+ pretty (pt_Number p)) <$> fi_Parts m) +:+
  fmt_ints (ei_Distribution (fi_Erasure m)) +:+
  fi_TransitionStatus m +:+ fi_TransitionTier m +:+ fi_TransitionedObjName m +:+
  fi_TransitionVersionID m +:+
  fmt_bool (fi_MarkDeleted m) +:+
  meta (rs_ReplicaStatus rs) +:+
  meta (formatHTTP (rs_ReplicationTimeStamp rs)) +:+
  meta (formatHTTP (rs_ReplicaTimeStamp rs)) +:+
  meta (rs_ReplicationStatusInternal rs) +:+
  meta (rs_VersionPurgeStatusInternal rs).

Definition meta_hash (modTime : time) (m : FileInfo) : string :=
  if FileInfo_IsValid m && bool_decide (fi_ModTime m = modTime)
  then sha256_hex (meta_text m) else "".

Definition hash_key (h : string) : option string := if bool_decide (h = "") then None else Some h.

Definition select_hash (acc : nat * string) (e : string * nat) : nat * string :=
  if (acc.1 <? e.2)%nat then (e.2, e.1) else acc.

Definition findFileInfoInQuorum (metaArr : list FileInfo) (modTime : time) (quorum : Z)
  : result FileInfo :=
  if quorum <? 1 then Err errErasureReadQuorum else
  let metaHashes := meta_hash modTime <$> metaArr in
  let metaHashCountMap := fold_left (tally_step hash_key) metaHashes ∅ in
  let '(maxCount, maxHash) := fold_left select_hash (range_map metaHashCountMap) (0%nat, "") in
  if Z.of_nat maxCount <? quorum then Err errErasureReadQuorum
  else
    match List.find (fun x => bool_decide (x.1 = maxHash) && FileInfo_IsValid x.2)
            (zip metaHashes metaArr) with
    | Some x => Ok x.2
    | None => Err errErasureReadQuorum
    end.

Definition pickValidFileInfo := findFileInfoInQuorum.
End Select.

Section SelectFacts.
Context `{MapOrder}.
Context (sha256_hex : string -> string) (formatHTTP : time -> string).
Context (sha256_nonempty : forall s, sha256_hex s <> "").

Local Abbreviation mhash := (meta_hash sha256_hex formatHTTP).
Local Abbreviation findFI := (findFileInfoInQuorum sha256_hex formatHTTP).

(** Entries of [metaArr] that are valid, carry [modTime] and hash to [h]. *)
Definition agreeing (metaArr : list FileInfo) (modTime : time) (h : string) : nat :=
  count (fun m => FileInfo_IsValid m && bool_decide (fi_ModTime m = modTime) &&
                  bool_decide (sha256_hex (meta_text formatHTTP m) = h)) metaArr.

Lemma agreeing_multiplicity metaArr modTime h :
  h <> "" -> multiplicity hash_key (mhash modTime <$> metaArr) h = agreeing metaArr modTime h.
Proof.
  intros Hh. unfold multiplicity, agreeing.
  induction metaArr as [|m l IH]; csimpl; [done|]. rewrite !count_cons, IH. f_equal.
  assert (hash_key (mhash modTime m) =
    if FileInfo_IsValid m && bool_decide (fi_ModTime m = modTime)
    then Some (sha256_hex (meta_text formatHTTP m)) else None) as ->.
  { unfold meta_hash, hash_key.
    destruct (FileInfo_IsValid m && bool_decide (fi_ModTime m = modTime)); [|done].
    by rewrite bool_decide_eq_false_2 by auto. }
  destruct (FileInfo_IsValid m && bool_decide (fi_ModTime m = modTime)); simpl;
    bdestruct; congruence.
Qed.

Lemma select_hash_spec (l : list (string * nat)) :
  Forall (fun x => 0 < x.2)%nat l ->
  let '(mc, mh) := fold_left select_hash l (0%nat, "") in
  Forall (fun x => x.2 <= mc)%nat l /\ (mc = 0%nat \/ (mh, mc) ∈ l).
Proof.
  induction l as [|[h c] l IH] using rev_ind; intros Hpos; simpl; [by split; [constructor|left]|].
  rewrite fold_left_app. simpl. apply Forall_app in Hpos as [Hpos _]. specialize (IH Hpos).
  destruct (fold_left select_hash l (0%nat, "")) as [mc mh]. destruct IH as [Hall Hin].
  unfold select_hash. simpl. destruct (Nat.ltb_spec mc c) as [Hlt|Hge].
  - split; [apply Forall_app; split|right; apply elem_of_app; right; by apply list_elem_of_singleton].
    + eapply Forall_impl; [exact Hall|]. simpl. lia.
    + by apply Forall_singleton.
  - split; [apply Forall_app; split; [done|by apply Forall_singleton]|].
    destruct Hin as [?|?]; [by left|right; apply elem_of_app; by left].
Qed.

(** What is returned is a valid entry with the requested time that a quorum of
    drives agrees on. *)
Lemma findFileInfoInQuorum_sound metaArr modTime quorum fi :
  findFI metaArr modTime quorum = Ok fi ->
  1 <= quorum /\ fi ∈ metaArr /\ FileInfo_IsValid fi = true /\ fi_ModTime fi = modTime /\
  quorum <= Z.of_nat (agreeing metaArr modTime (sha256_hex (meta_text formatHTTP fi))).
Proof.
  unfold findFileInfoInQuorum. destruct (Z.ltb_spec quorum 1); [done|].
  set (l := range_map _). pose proof (select_hash_spec l) as Hsel.
  destruct (fold_left select_hash l (0%nat, "")) as [mc mh].
  destruct Hsel as [_ Hin].
  { apply Forall_forall. intros [h c] Hh. by apply elem_of_range_tally in Hh as [_ ?]. }
  destruct (Z.ltb_spec (Z.of_nat mc) quorum); [done|].
  destruct (List.find _ _) as [[h m]|] eqn:Ef; [|done]. intros [= <-].
  apply List.find_some in Ef as [Hzip Hc]. simpl in Hc. btrue.
  apply bool_decide_eq_true in H2. subst h.
  apply list_elem_of_In, elem_of_lookup_zip_with in Hzip as (i & h' & m' & [= <- <-] & Hh & Hm).
  rewrite list_lookup_fmap, Hm in Hh. simpl in Hh. injection Hh as Hh.
  destruct Hin as [->|Hin]; [lia|]. apply elem_of_range_tally in Hin as [Hcnt Hpos].
  assert (mh <> "") as Hne.
  { intros ->. rewrite <-Hcnt in Hpos. apply count_pos in Hpos as (x & _ & Hx).
    apply bool_decide_eq_true in Hx. unfold hash_key in Hx. case_bool_decide; congruence. }
  rewrite agreeing_multiplicity in Hcnt by done. subst mh.
  unfold meta_hash in Hne, Hcnt. rewrite H3 in Hne, Hcnt. simpl in Hne, Hcnt.
  case_bool_decide as Ht; [|done].
  split_and!; [lia|by eapply list_elem_of_lookup_2|done|done|lia].
Qed.

Lemma findFileInfoInQuorum_complete metaArr modTime quorum h :
  1 <= quorum -> quorum <= Z.of_nat (agreeing metaArr modTime h) ->
  exists fi, findFI metaArr modTime quorum = Ok fi.
Proof.
  intros Hq Hag. unfold findFileInfoInQuorum. destruct (Z.ltb_spec quorum 1); [lia|].
  assert (h <> "") as Hh.
  { intros ->. assert (0 < agreeing metaArr modTime "")%nat as Hp by lia.
    apply count_pos in Hp as (x & _ & Hx). btrue.
    by apply bool_decide_eq_true, sha256_nonempty in H2. }
  set (l := range_map _). pose proof (select_hash_spec l) as Hsel.
  destruct (fold_left select_hash l (0%nat, "")) as [mc mh].
  destruct Hsel as [Hall Hin].
  { apply Forall_forall. intros [h' c] Hh'. by apply elem_of_range_tally in Hh' as [_ ?]. }
  rewrite <-agreeing_multiplicity in Hag by done.
  assert ((h, multiplicity hash_key (mhash modTime <$> metaArr) h) ∈ l) as Hhl
    by (apply elem_of_range_tally; split; [done|lia]).
  rewrite Forall_forall in Hall. specialize (Hall _ Hhl). simpl in Hall.
  destruct (Z.ltb_spec (Z.of_nat mc) quorum); [lia|].
  destruct Hin as [->|Hin]; [lia|]. apply elem_of_range_tally in Hin as [Hcnt Hpos].
  rewrite <-Hcnt in Hpos. apply count_pos in Hpos as (x & Hx & Hkey).
  apply bool_decide_eq_true in Hkey. unfold hash_key in Hkey.
  case_bool_decide as Hx0; [done|]. injection Hkey as ->.
  apply list_elem_of_fmap in Hx as (m & Em & Hm).
  destruct (List.find _ _) as [[h' m']|] eqn:Ef; [by eexists|].
  exfalso. apply list_elem_of_lookup in Hm as [i Hi].
  pose proof (List.find_none _ _ Ef (mh, m)) as Hnone. simpl in Hnone.
  rewrite bool_decide_eq_true_2 in Hnone by done. simpl in Hnone.
  unfold meta_hash in Em. destruct (FileInfo_IsValid m) eqn:Ev; simpl in Em; [|done].
  discriminate Hnone. apply list_elem_of_In, elem_of_lookup_zip_with.
  exists i, mh, m. split_and!; [done| |done].
  rewrite list_lookup_fmap, Hi. simpl. unfold meta_hash. rewrite Ev. simpl. by rewrite <-Em.
Qed.
End SelectFacts.

(** ** The latest [FileInfo] *)

Definition modtime_of (x : FileInfo * option error) : time :=
  match x.2 with Some _ => timeSentinel | None => fi_ModTime x.1 end.

Lemma listObjectModtimes_spec parts errs modTimes :
  listObjectModtimes parts errs = Some modTimes ->
  (length parts <= length errs)%nat /\ modTimes = modtime_of <$> zip parts errs.
Proof.
  unfold listObjectModtimes. destruct (Nat.ltb_spec (length errs) (length parts)); [done|].
  intros [= <-]. split; [done|]. unfold bootModtimes.
  revert errs H. induction parts as [|m parts IH]; intros [|e errs] Hl; simpl in *; [done|done|lia|].
  destruct e; f_equal; apply IH; lia.
Qed.

Lemma latest_fold modTime l :
  let p := fun x => FileInfo_IsValid x.1 && bool_decide (x.2 = modTime) in
  let '(m, c) := fold_left (latest_step modTime) l (zero_FileInfo, 0) in
  c = Z.of_nat (count p l) /\
  (c = 0 /\ m = zero_FileInfo \/ exists t, (m, t) ∈ l /\ p (m, t) = true).
Proof.
  intros p. induction l as [|[m0 t0] l IH] using rev_ind; simpl; [by split; [|left]|].
  rewrite fold_left_app. simpl. rewrite count_app, count_cons, count_nil.
  destruct (fold_left (latest_step modTime) l (zero_FileInfo, 0)) as [m c].
  destruct IH as [-> Hm]. unfold latest_step.
  change (FileInfo_IsValid m0 && bool_decide (t0 = modTime)) with (p (m0, t0)).
  destruct (p (m0, t0)) eqn:E; simpl.
  - split; [lia|right]. exists t0. split; [|done].
    apply elem_of_app. right. by apply list_elem_of_singleton.
  - split; [lia|]. destruct Hm as [[? ?]|(t & Ht & Hp)]; [left; split; [lia|done]|right].
    exists t. split; [apply elem_of_app; by left|done].
Qed.

(** Drives that hold a valid copy with the modification time of [fi]. *)
Definition holders (parts : list FileInfo) (errs : list (option error)) (fi : FileInfo) : nat :=
  count (fun x => FileInfo_IsValid x.1 && bool_decide (x.2 = None) &&
                  bool_decide (fi_ModTime x.1 = fi_ModTime fi)) (zip parts errs).

Lemma getLatestFileInfo_sound `{MapOrder} canceled parts errs fi :
  getLatestFileInfo canceled parts errs = Some (Ok fi) ->
  FileInfo_IsValid fi = true /\
  (exists i, parts !! i = Some fi /\ errs !! i = Some None) /\
  fi_ModTime fi <> timeSentinel /\ fi_ModTime fi <> 0 /\
  ei_DataBlocks (fi_Erasure fi) <= Z.of_nat (holders parts errs fi).
Proof.
  unfold getLatestFileInfo.
  destruct (reduceReadQuorumErrs _ _ _ _); [done|].
  destruct (listObjectModtimes parts errs) as [modTimes|] eqn:Em; simpl; [|done].
  apply listObjectModtimes_spec in Em as [Hlen ->]. set (modTime := commonTime _). clearbody modTime.
  destruct (time_IsZero modTime || bool_decide (modTime = timeSentinel)) eqn:Ez; [done|].
  btrue. apply bool_decide_eq_false in H0, H1.
  pose proof (latest_fold modTime (zip parts (modtime_of <$> zip parts errs))) as Hf.
  destruct (fold_left _ _ _) as [m c]. destruct Hf as [Hc Hm].
  destruct (FileInfo_IsValid m) eqn:Ev; simpl; [|done].
  destruct (Z.ltb_spec c (ei_DataBlocks (fi_Erasure m))); [done|]. intros [= <-].
  assert (forall i a t, zip parts (modtime_of <$> zip parts errs) !! i = Some (a, t) ->
    exists e, parts !! i = Some a /\ errs !! i = Some e /\ t = modtime_of (a, e)) as Hzip.
  { intros i a t Hi. apply lookup_zip_with_Some in Hi as (a' & t' & [= <- <-] & Ha & Ht).
    rewrite list_lookup_fmap_Some in Ht. destruct Ht as ([a' e] & -> & Hae).
    apply lookup_zip_with_Some in Hae as (a2 & e2 & [= <- <-] & Ha2 & He).
    exists e. rewrite Ha in Ha2. injection Ha2 as ->. done. }
  destruct Hm as [[_ ->]|(t & Hin & Hp)]; [done|]. simpl in Hp. rewrite Ev in Hp. simpl in Hp.
  apply bool_decide_eq_true in Hp. subst t.
  apply list_elem_of_lookup in Hin as [i Hi]. destruct (Hzip _ _ _ Hi) as (e & Ha & He & Hmt).
  unfold modtime_of in Hmt. simpl in Hmt. destruct e as [e|]; [congruence|].
  split_and!; [done|by exists i|congruence|congruence|].
  assert (c <= Z.of_nat (holders parts errs m)) as Hcount; [|lia].
  rewrite Hc. unfold holders. rewrite <-Hmt. clear -Hlen H1. apply inj_le.
  revert errs Hlen. induction parts as [|a parts IH]; intros [|e errs] Hlen; csimpl in *;
    [done|done|lia|].
  rewrite !count_cons. specialize (IH errs ltac:(lia)). simpl.
  unfold modtime_of. destruct e; simpl.
  - rewrite andb_false_r. simpl. rewrite (bool_decide_eq_false_2 (timeSentinel = modTime)) by congruence.
    rewrite andb_false_r. simpl. exact IH.
  - rewrite andb_true_r. apply Nat.add_le_mono; [done|exact IH].
Qed.

(** ** Read and write quorums

    The parity the quorum is computed from: the one stored with the object when
    it was written with upgraded parity, the configured one otherwise. *)
Definition quorum_parity (scParity : string -> Z) (dp : Z) (fi : FileInfo) : Z :=
  let p := scParity (default "" (fi_Metadata fi !! AmzStorageClass)) in
  let p := if p <? 0 then dp else p in
  if bool_decide (is_Some (fi_Metadata fi !! erasureUpgradedKey)) &&
     negb (ei_ParityBlocks (fi_Erasure fi) =? 0)
  then ei_ParityBlocks (fi_Erasure fi) else p.

Lemma objectQuorumFromMeta_eq `{MapOrder} scParity canceled parts errs dp fi :
  dp <> 0 ->
  getLatestFileInfo canceled parts errs = Some (Ok fi) ->
  objectQuorumFromMeta scParity canceled parts errs dp = Some (Ok (
    if fi_Deleted fi then (len parts / 2, len parts / 2 + 1) else
    let p := quorum_parity scParity dp fi in
    let d := if ei_DataBlocks (fi_Erasure fi) =? 0 then len parts - p
             else ei_DataBlocks (fi_Erasure fi) in
    (d, if d =? p then d + 1 else d))).
Proof.
  intros Hdp Hl. unfold objectQuorumFromMeta.
  destruct (Z.eqb_spec dp 0); [done|]. rewrite Hl. cbn [mbind option_bind].
  destruct (fi_Deleted fi); [done|]. unfold quorum_parity.
  destruct (fi_Metadata fi !! erasureUpgradedKey); [|done].
  rewrite bool_decide_eq_true_2 by done. done.
Qed.

(** The quorums intersect when the parity in force is the object's own, and,
    for a delete marker, when the number of drives is even. *)
Lemma objectQuorum_overlap `{MapOrder} scParity canceled parts errs dp r w fi :
  dp <> 0 ->
  getLatestFileInfo canceled parts errs = Some (Ok fi) ->
  objectQuorumFromMeta scParity canceled parts errs dp = Some (Ok (r, w)) ->
  (if fi_Deleted fi then Z.even (len parts) = true
   else ei_DataBlocks (fi_Erasure fi) + quorum_parity scParity dp fi = len parts /\
        quorum_parity scParity dp fi <= ei_DataBlocks (fi_Erasure fi)) ->
  len parts < r + w.
Proof.
  intros Hdp Hl Hq Hgeo. rewrite (objectQuorumFromMeta_eq _ _ _ _ _ fi) in Hq by done.
  apply getLatestFileInfo_sound in Hl as (Hv & _).
  destruct (fi_Deleted fi) eqn:Ed.
  { injection Hq as <- <-. apply Z.even_spec in Hgeo as [k Hk]. rewrite Hk, Z.mul_comm.
    rewrite Z.div_mul by lia. lia. }
  unfold FileInfo_IsValid in Hv. rewrite Ed in Hv. btrue.
  match goal with H : (0 <? ei_DataBlocks _) = true |- _ => apply Z.ltb_lt in H end.
  destruct Hgeo as [Hsum Hle]. cbv zeta in Hq.
  destruct (Z.eqb_spec (ei_DataBlocks (fi_Erasure fi)) 0); [lia|].
  destruct (Z.eqb_spec (ei_DataBlocks (fi_Erasure fi)) (quorum_parity scParity dp fi));
    injection Hq as <- <-; lia.
Qed.

(** ** Properties *)



(** The common modification time of the drives is a time that occurs most
    often, and the latest of those; drives without a time do not count, and the
    result does not depend on the order the map of counts is visited in. *)
Theorem commonTime_correct (o1 o2 : MapOrder) times :
  @commonTimeAndOccurence o1 times 0 = @commonTimeAndOccurence o2 times 0 /\
  exists nano, let '(t, maxima) := @commonTimeAndOccurence o1 times 0 in
    t = time_Unix_nano nano /\
    ((maxima = 0%nat /\ nano = 0 /\ forall n, occurrences times n = 0%nat) \/
     ((0 < maxima)%nat /\ occurrences times nano = maxima /\
      forall n, (occurrences times n < maxima)%nat \/
                (occurrences times n = maxima /\ n <= nano))).
Proof.
  pose proof (@commonTime_spec o1 times) as H1. pose proof (@commonTime_spec o2 times) as H2.
  destruct (@commonTimeAndOccurence o1 times 0) as [t1 m1].
  destruct (@commonTimeAndOccurence o2 times 0) as [t2 m2].
  destruct H1 as (n1 & -> & H1). destruct H2 as (n2 & -> & H2).
  split; [|by exists n1].
  destruct H1 as [(-> & -> & Hz)|(Hp1 & Hm1 & Hmax1)].
  - destruct H2 as [(-> & -> & _)|(Hp2 & Hm2 & _)]; [done|]. rewrite Hz in Hm2. lia.
  - destruct H2 as [(-> & -> & Hz)|(Hp2 & Hm2 & Hmax2)]; [rewrite Hz in Hm1; lia|].
    destruct (Hmax1 n2), (Hmax2 n1); assert (n1 = n2) by lia; subst; do 2 f_equal; lia.
Qed.

(** The metadata picked for a read is a valid entry with the requested
    modification time whose content at least [quorum] drives agree on, and such
    an entry is found whenever one exists; otherwise the read fails with a quorum
    error. *)
Theorem findFileInfoInQuorum_correct `{MapOrder} (sha256_hex : string -> string)
    (formatHTTP : time -> string) metaArr modTime quorum :
  (forall s, sha256_hex s <> "") -> 1 <= quorum ->
  match findFileInfoInQuorum sha256_hex formatHTTP metaArr modTime quorum with
  | Ok fi => fi ∈ metaArr /\ FileInfo_IsValid fi = true /\ fi_ModTime fi = modTime /\
      quorum <= Z.of_nat (agreeing sha256_hex formatHTTP metaArr modTime
                            (sha256_hex (meta_text formatHTTP fi)))
  | Err _ => forall h, Z.of_nat (agreeing sha256_hex formatHTTP metaArr modTime h) < quorum
  end.
Proof.
  intros Hsha Hq.
  destruct (findFileInfoInQuorum sha256_hex formatHTTP metaArr modTime quorum) as [fi|e] eqn:E.
  - by apply findFileInfoInQuorum_sound in E as (_ & ? & ? & ? & ?).
  - intros h. destruct (Z.lt_ge_cases (Z.of_nat (agreeing sha256_hex formatHTTP metaArr modTime h)) quorum)
      as [|Hge]; [done|].
    destruct (findFileInfoInQuorum_complete sha256_hex formatHTTP Hsha metaArr modTime quorum h Hq Hge)
      as [fi Hfi]. congruence.
Qed.

Definition t7 : time := unix_epoch + 7.
Definition sample_meta (mt : time) (deleted : bool) (index : Z) : FileInfo :=
  mkFileInfo "" "" "" false deleted "" "" "" "" false "" false mt 10 0 0 ∅ []
    (mkErasureInfo "rs" 2 2 16 index [1; 2; 3; 4] []) false zero_ReplicationState [] 0 0 false 0 0.

Lemma findFileInfoInQuorum_correct_witness :
  match findFileInfoInQuorum (fun s => "h" +:+ s) (fun _ => "") [sample_meta t7 false 1; sample_meta t7 false 2]
    t7 2 with
  | Ok fi => fi_ModTime fi = t7
  | Err _ => False
  end.
Proof.
  pose proof (findFileInfoInQuorum_correct (fun s => "h" +:+ s) (fun _ => "")
    [sample_meta t7 false 1; sample_meta t7 false 2] t7 2 ltac:(done) ltac:(done)) as Hf.
  destruct (findFileInfoInQuorum _ _ _ _ _) as [fi|e] eqn:E; [apply Hf|by vm_compute in E].
Defined.

(** An object's read and write quorums intersect: whenever the metadata of the
    drives determines a latest version, its parity is the parity in force (and,
    for a delete marker, the number of drives is even), every set of [read
    quorum] drives shares a drive with every set of [write quorum] drives. *)
Theorem objectQuorum_intersects `{MapOrder} scParity canceled parts errs dp r w fi
    (readers writers : nat -> bool) :
  dp <> 0 ->
  getLatestFileInfo canceled parts errs = Some (Ok fi) ->
  objectQuorumFromMeta scParity canceled parts errs dp = Some (Ok (r, w)) ->
  (if fi_Deleted fi then Z.even (len parts) = true
   else ei_DataBlocks (fi_Erasure fi) + quorum_parity scParity dp fi = len parts /\
        quorum_parity scParity dp fi <= ei_DataBlocks (fi_Erasure fi)) ->
  r <= Z.of_nat (count readers (seq 0 (length parts))) ->
  w <= Z.of_nat (count writers (seq 0 (length parts))) ->
  exists i, (i < length parts)%nat /\ readers i = true /\ writers i = true.
Proof.
  intros Hdp Hl Hq Hgeo Hr Hw.
  pose proof (objectQuorum_overlap _ _ _ _ _ _ _ _ Hdp Hl Hq Hgeo) as Hlt.
  destruct (count_overlap readers writers (seq 0 (length parts))) as (i & Hi & ? & ?).
  { rewrite length_seq. lia. }
  exists i. split; [|done]. apply elem_of_seq in Hi. lia.
Qed.

Definition sample_metas : list FileInfo :=
  [sample_meta t7 false 1; sample_meta t7 false 2; sample_meta t7 false 3; sample_meta t7 false 4].

Lemma objectQuorum_intersects_witness :
  objectQuorumFromMeta (fun _ => 2) false sample_metas [None; None; None; None] 2 = Some (Ok (2, 3)) /\
  exists i, (i < 4)%nat /\ (i <? 2)%nat = true /\ (1 <=? i)%nat = true.
Proof.
  assert (exists fi, getLatestFileInfo false sample_metas [None; None; None; None] = Some (Ok fi) /\
    fi_Deleted fi = false /\ ei_DataBlocks (fi_Erasure fi) = 2 /\ quorum_parity (fun _ => 2) 2 fi = 2)
    as (fi & Hfi & Hdel & Hd & Hp).
  { eexists. split; [vm_compute; reflexivity|]. by vm_compute. }
  assert (objectQuorumFromMeta (fun _ => 2) false sample_metas [None; None; None; None] 2
    = Some (Ok (2, 3))) as Hq by (vm_compute; reflexivity).
  split; [exact Hq|].
  apply (objectQuorum_intersects (fun _ => 2) false sample_metas [None; None; None; None] 2 2 3 fi
    (fun i => i <? 2)%nat (fun i => 1 <=? i)%nat); 
    [lia|exact Hfi|exact Hq| |vm_compute; discriminate|vm_compute; discriminate].
  clear Hfi Hq. rewrite Hdel, Hd, Hp. done.
Defined.

(** A gap in [objectQuorumFromMeta].  For a delete marker on an odd number of
    drives the read and the write quorum are [n/2] and [n/2+1], which add up to
    [n]: with five drives two of them satisfy a read that shares no drive with
    the three that took a write. *)
Theorem delete_marker_quorums_disjoint :
  let parts := sample_meta t7 true <$> [1; 2; 3; 4; 5] in
  objectQuorumFromMeta (fun _ => 2) false parts [None; None; None; None; None] 2 = Some (Ok (2, 3)) /\
  exists readers writers : nat -> bool,
    2 <= Z.of_nat (count readers (seq 0 (length parts))) /\
    3 <= Z.of_nat (count writers (seq 0 (length parts))) /\
    forall i, readers i && writers i = false.
Proof.
  intros parts. split; [vm_compute; reflexivity|].
  exists (fun i => i <? 2)%nat, (fun i => 2 <=? i)%nat. split_and!; [by vm_compute|by vm_compute|].
  intros i. destruct (Nat.ltb_spec i 2), (Nat.leb_spec 2 i); done || lia.
Qed.
