(* ===== verification/Distribution.v ===== *)
(** * The order of the drives of an erasure set

    Models [hashOrder], the [shuffle*] functions, [readAllFileInfo] and
    [calculatePartSizeFromIdx] of [cmd/erasure-metadata-utils.go], and
    [writeUniqueFileInfo] of [cmd/erasure-metadata.go]: an object's drives are
    visited in an order drawn from its name, and its metadata is read from and
    written to all of them. *)

From S2P Require Import Prelude Erasure FileInfo Quorum.

(** ** The distribution of an object *)

(** CRC-32 with the IEEE polynomial, least significant bit first. *)
Definition crc32_bit (c : Z) : Z :=
  if Z.testbit c 0 then Z.lxor (Z.shiftr c 1) 0xEDB88320 else Z.shiftr c 1.
Definition crc32_byte (c : Z) (b : byte) : Z :=
  Nat.iter 8 crc32_bit (Z.lxor c (Z.of_N (Byte.to_N b))).
Definition crc32_ieee (key : string) : Z :=
  Z.lxor (fold_left crc32_byte (String.list_byte_of_string key) 0xFFFFFFFF) 0xFFFFFFFF.

Example crc32_check : crc32_ieee "123456789" = 0xCBF43926.
Proof. reflexivity. Qed.

(** [None] is the remainder by [uint32(cardinality)] when that is zero. *)
Definition hashOrder (key : string) (cardinality : Z) : option (list Z) :=
  if cardinality <=? 0 then Some []
  else
    let keyCrc := crc32_ieee key in
    if wrapu32 cardinality =? 0 then None
    else
      let start := keyCrc mod wrapu32 cardinality in
      Some ((fun i => 1 + rem64 (add64 start i) cardinality) <$> seqZ 1 cardinality).

(** A distribution names every position once. *)
Definition is_distribution (n : nat) (dist : list Z) : Prop := dist ≡ₚ seqZ 1 (Z.of_nat n).

Lemma is_distribution_spec n dist : is_distribution n dist ->
  length dist = n /\ NoDup dist /\ (forall b, b ∈ dist <-> 1 <= b <= Z.of_nat n).
Proof.
  unfold is_distribution. intros Hd. split_and!.
  - rewrite Hd, length_seqZ. lia.
  - rewrite Hd. apply NoDup_seqZ.
  - intros b. rewrite Hd, elem_of_seqZ. lia.
Qed.

Lemma rem64_shift start i j n :
  0 < n -> 1 <= i <= n -> 1 <= j <= n -> (start + i) mod n = (start + j) mod n -> i = j.
Proof.
  intros Hn Hi Hj Heq.
  pose proof (Z.div_mod (start + i) n ltac:(lia)). pose proof (Z.div_mod (start + j) n ltac:(lia)).
  assert (n * ((start + i) / n - (start + j) / n) = i - j) by lia.
  assert ((start + i) / n - (start + j) / n = 0) by nia. lia.
Qed.

Lemma hashOrder_distribution key n : (0 < n)%nat -> Z.of_nat n < 2 ^ 32 ->
  exists dist, hashOrder key (Z.of_nat n) = Some dist /\ is_distribution n dist.
Proof.
  intros Hn Hlt. unfold hashOrder. destruct (Z.leb_spec (Z.of_nat n) 0); [lia|].
  unfold wrapu32. rewrite (Z.mod_small (Z.of_nat n)) by lia.
  destruct (Z.eqb_spec (Z.of_nat n) 0); [lia|]. eexists. split; [reflexivity|].
  set (start := crc32_ieee key mod Z.of_nat n).
  assert (0 <= start < Z.of_nat n) as Hstart by (apply Z.mod_pos_bound; lia).
  assert (forall i, i ∈ seqZ 1 (Z.of_nat n) ->
    1 + rem64 (add64 start i) (Z.of_nat n) = 1 + (start + i) mod Z.of_nat n) as Hf.
  { intros i Hi%elem_of_seqZ. unfold rem64, add64.
    rewrite wrap64_id by (unfold int64_range; lia). by rewrite Z.rem_mod_nonneg by lia. }
  unfold is_distribution. apply submseteq_length_Permutation.
  - apply NoDup_submseteq.
    + apply NoDup_fmap_2_strong; [|apply NoDup_seqZ]. intros i j Hi Hj.
      rewrite !Hf by done. apply elem_of_seqZ in Hi, Hj. intros Heq.
      apply (rem64_shift start i j (Z.of_nat n)); lia.
    + intros b (i & -> & Hi)%list_elem_of_fmap. rewrite Hf by done. apply elem_of_seqZ.
      pose proof (Z.mod_pos_bound (start + i) (Z.of_nat n) ltac:(lia)). lia.
  - rewrite length_fmap. lia.
Qed.

(** ** Shuffling *)

(** [for index := range xs { shuffled[distribution[index]-1] = xs[index] }]. *)
Fixpoint shuffle_loop {A} (xs : list A) (distribution : list Z) (shuffled : list A)
  : option (list A) :=
  match xs, distribution with
  | [], _ => Some shuffled
  | _ :: _, [] => None
  | x :: xs, blockIndex :: distribution =>
      shuffled ← go_set shuffled (sub64 blockIndex 1) x;
      shuffle_loop xs distribution shuffled
  end.

(** A [nil] distribution is [None]. *)
Definition shufflePartsMetadata (partsMetadata : list FileInfo) (distribution : option (list Z))
  : option (list FileInfo) :=
  match distribution with
  | None => Some partsMetadata
  | Some distribution =>
      shuffle_loop partsMetadata distribution (replicate (length partsMetadata) zero_FileInfo)
  end.

Section Shuffle.
Context {D : Type}.

Definition shuffleDisks (disks : list (option D)) (distribution : option (list Z))
  : option (list (option D)) :=
  match distribution with
  | None => Some disks
  | Some distribution => shuffle_loop disks distribution (replicate (length disks) None)
  end.

(** The loops that place a drive and its metadata together.  [target] says
    what the body does with one entry, given [distribution[i]] ([None] out of
    range): [Some None] is [continue], which the first of the two loops
    counts, [Some (Some b)] stores at position [b - 1], [None] panics. *)
Fixpoint place_loop (target : option D -> FileInfo -> option Z -> option (option Z))
    (metaArr : list FileInfo) (disks : list (option D)) (distribution : list Z)
    (outD : list (option D)) (outM : list FileInfo) (inconsistent : Z)
  : option (list (option D) * list FileInfo * Z) :=
  match metaArr, disks with
  | [], _ => Some (outD, outM, inconsistent)
  | _ :: _, [] => None
  | meta :: metaArr, disk :: disks =>
      t ← target disk meta (head distribution);
      match t with
      | None => place_loop target metaArr disks (tail distribution) outD outM (inconsistent + 1)
      | Some b =>
          outD ← go_set outD (sub64 b 1) disk;
          outM ← go_set outM (sub64 b 1) meta;
          place_loop target metaArr disks (tail distribution) outD outM inconsistent
      end
  end.

Definition target_by_index (fi : FileInfo) (disk : option D) (meta : FileInfo) (d : option Z)
  : option (option Z) :=
  match disk with
  | None => Some None
  | Some _ =>
      if negb (FileInfo_IsValid meta) then Some None
      else if negb (Bool.eqb (fi_XLV1 meta) (fi_XLV1 fi)) then Some None
      else
        d ← d;
        Some (if negb (d =? ei_Index (fi_Erasure meta)) then None
              else Some (ei_Index (fi_Erasure meta)))
  end.

Definition target_distribution (fi : FileInfo) (disk : option D) (meta : FileInfo) (d : option Z)
  : option (option Z) :=
  let init := time_IsZero (fi_ModTime fi) in
  match disk with
  | None => Some None
  | Some _ =>
      if negb init && negb (FileInfo_IsValid meta) then Some None
      else if negb init && negb (Bool.eqb (fi_XLV1 fi) (fi_XLV1 meta)) then Some None
      else Some <$> d
  end.

Definition shuffleDisksAndPartsMetadata (disks : list (option D)) (partsMetadata : list FileInfo)
    (fi : FileInfo) : option (list (option D) * list FileInfo) :=
  '(outD, outM, _) ← place_loop (target_distribution fi) partsMetadata disks
    (ei_Distribution (fi_Erasure fi)) (replicate (length disks) None)
    (replicate (length partsMetadata) zero_FileInfo) 0;
  Some (outD, outM).

Definition shuffleDisksAndPartsMetadataByIndex (disks : list (option D))
    (metaArr : list FileInfo) (fi : FileInfo) : option (list (option D) * list FileInfo) :=
  '(outD, outM, inconsistent) ← place_loop (target_by_index fi) metaArr disks
    (ei_Distribution (fi_Erasure fi)) (replicate (length disks) None)
    (replicate (length disks) zero_FileInfo) 0;
  if inconsistent <? ei_ParityBlocks (fi_Erasure fi) then Some (outD, outM)
  else shuffleDisksAndPartsMetadata disks metaArr fi.
End Shuffle.

(** ** What a shuffle by a distribution leaves *)

Definition small_index (n : nat) (b : Z) : Prop := 1 <= b <= Z.of_nat n.

Lemma go_set_block {A} (l : list A) b x : small_index (length l) b -> Z.of_nat (length l) < 2 ^ 63 ->
  go_set l (sub64 b 1) x = Some (<[Z.to_nat (b - 1) := x]> l).
Proof.
  unfold small_index. intros. unfold sub64. rewrite wrap64_id by (unfold int64_range; lia).
  apply go_set_in. lia.
Qed.

Lemma shuffle_loop_spec {A} (xs : list A) : forall dist acc,
  length dist = length xs -> NoDup dist -> Forall (small_index (length acc)) dist ->
  Z.of_nat (length acc) < 2 ^ 63 ->
  exists ys, shuffle_loop xs dist acc = Some ys /\ length ys = length acc /\
    (forall i b x, dist !! i = Some b -> xs !! i = Some x -> ys !! Z.to_nat (b - 1) = Some x) /\
    (forall j, (Z.of_nat j + 1) ∉ dist -> ys !! j = acc !! j).
Proof.
  induction xs as [|x xs IH]; intros [|b dist] acc Hlen Hnd Hin Hlt; simpl in *; try done.
  { exists acc. split_and!; [done|done| |done]. intros i ? ? Hi. by rewrite lookup_nil in Hi. }
  apply NoDup_cons in Hnd as [Hb Hnd]. apply Forall_cons in Hin as [Hb' Hin].
  rewrite go_set_block by done. simpl.
  destruct (IH dist (<[Z.to_nat (b - 1) := x]> acc)) as (ys & -> & Hl & Hys & Hrest);
    [lia|done|by rewrite length_insert|by rewrite length_insert|].
  unfold small_index in *. exists ys. rewrite length_insert in Hl. split_and!; [done|done| |].
  - intros [|i] c y Hc Hy; simpl in *; [|by eapply Hys].
    injection Hc as <-. injection Hy as <-. rewrite Hrest.
    + rewrite list_lookup_insert_eq; [done|lia].
    + rewrite Z2Nat.id by lia. by replace (b - 1 + 1) with b by lia.
  - intros j Hj. rewrite not_elem_of_cons in Hj. rewrite Hrest by tauto.
    rewrite list_lookup_insert_ne; [done|]. lia.
Qed.

(** A shuffle by a distribution sends entry [i] to position
    [distribution[i] - 1] and only permutes the entries. *)
Lemma shuffle_spec {A} (xs : list A) dist (z : A) :
  is_distribution (length xs) dist -> len xs < 2 ^ 63 ->
  exists ys, shuffle_loop xs dist (replicate (length xs) z) = Some ys /\ ys ≡ₚ xs /\
    (forall i b x, dist !! i = Some b -> xs !! i = Some x -> ys !! Z.to_nat (b - 1) = Some x).
Proof.
  intros Hd Hlt. destruct (is_distribution_spec _ _ Hd) as (Hlen & Hnd & Hin).
  destruct (shuffle_loop_spec xs dist (replicate (length xs) z)) as (ys & Hys & Hl & Hlook & _).
  { done. } { done. }
  { apply Forall_forall. intros b Hb. unfold small_index. rewrite length_replicate. by apply Hin. }
  { by rewrite length_replicate. }
  rewrite length_replicate in Hl. exists ys. split_and!; [done| |done].
  set (f := fun b => default z (ys !! Z.to_nat (b - 1))).
  assert (xs = f <$> dist) as Hxs.
  { apply list_eq. intros i. rewrite list_lookup_fmap.
    destruct (xs !! i) as [x|] eqn:Ex.
    - destruct (lookup_lt_is_Some_2 dist i) as [b Hb].
      { rewrite Hlen. by eapply lookup_lt_Some. }
      rewrite Hb. simpl. unfold f. by rewrite (Hlook i b x).
    - symmetry. apply fmap_None, lookup_ge_None. rewrite Hlen. by apply lookup_ge_None. }
  rewrite Hxs, Hd. enough (ys = f <$> seqZ 1 (Z.of_nat (length xs))) as <- by done.
  apply list_eq. intros j. rewrite list_lookup_fmap.
  destruct (decide (j < length xs)%nat) as [Hj|Hj].
  - rewrite lookup_seqZ_lt by lia. simpl. unfold f.
    destruct (lookup_lt_is_Some_2 ys j) as [y Hy]; [lia|].
    replace (Z.to_nat (1 + Z.of_nat j - 1)) with j by lia. by rewrite Hy.
  - rewrite (lookup_ge_None_2 ys) by lia. by rewrite lookup_seqZ_ge by lia.
Qed.

Section Place.
Context {D : Type} (target : option D -> FileInfo -> option Z -> option (option Z)).
(** The body of the loop skips an entry or stores it at [distribution[i]]. *)
Context (target_ok : forall d m b,
  target d m (Some b) = Some None \/ target d m (Some b) = Some (Some b)).

Definition kept (d : option D) (m : FileInfo) (b : Z) : bool :=
  bool_decide (target d m (Some b) = Some (Some b)).

Definition skipped (x : option D * FileInfo * Z) : bool :=
  let '(d, m, b) := x in negb (kept d m b).

Lemma place_loop_spec metas : forall disks dist accD accM k n,
  length disks = length metas -> length dist = length metas ->
  length accD = n -> length accM = n -> Z.of_nat n < 2 ^ 63 ->
  NoDup dist -> Forall (small_index n) dist ->
  exists oD oM, place_loop target metas disks dist accD accM k =
      Some (oD, oM, k + Z.of_nat (count skipped (zip (zip disks metas) dist))) /\
    length oD = n /\ length oM = n /\
    (forall i b d m, dist !! i = Some b -> disks !! i = Some d -> metas !! i = Some m ->
      let j := Z.to_nat (b - 1) in
      oD !! j = (if kept d m b then Some d else accD !! j) /\
      oM !! j = (if kept d m b then Some m else accM !! j)) /\
    (forall j, (Z.of_nat j + 1) ∉ dist -> oD !! j = accD !! j /\ oM !! j = accM !! j).
Proof.
  induction metas as [|m metas IH]; intros [|d disks] [|b dist] accD accM k n
    Hld Hlb HaD HaM Hn Hnd Hin; simpl in *; try done.
  { exists accD, accM. rewrite count_nil. split_and!; [do 2 f_equal; lia|done|done| |done].
    intros i ? ? ? Hi. by rewrite lookup_nil in Hi. }
  apply NoDup_cons in Hnd as [Hb Hnd]. apply Forall_cons in Hin as [Hb' Hin].
  rewrite count_cons. simpl. unfold small_index in *.
  assert ((Z.of_nat (Z.to_nat (b - 1)) + 1) ∉ dist) as Hbj
    by (rewrite Z2Nat.id by lia; by replace (b - 1 + 1) with b by lia).
  destruct (kept d m b) eqn:Ek; unfold kept in Ek.
  - apply bool_decide_eq_true in Ek. rewrite Ek. simpl.
    rewrite !go_set_block by (unfold small_index; lia). simpl.
    destruct (IH disks dist (<[Z.to_nat (b - 1) := d]> accD) (<[Z.to_nat (b - 1) := m]> accM) k n)
      as (oD & oM & -> & HlD & HlM & Hlook & Hrest); [lia|lia|by rewrite length_insert..|done|done|done|].
    exists oD, oM. split_and!; [done|done|done| |].
    + intros [|i] c d' m' Hc Hd Hm; simpl in *.
      * injection Hc as <-. injection Hd as <-. injection Hm as <-. unfold kept. rewrite Ek.
        rewrite bool_decide_eq_true_2 by done. destruct (Hrest (Z.to_nat (b - 1)) Hbj) as [-> ->].
        rewrite !list_lookup_insert_eq by lia. done.
      * specialize (Hlook i c d' m' Hc Hd Hm).
        assert (c ∈ dist) by (by eapply list_elem_of_lookup_2).
        assert (b <> c) by (intros ->; done).
        assert (1 <= c) by (rewrite Forall_forall in Hin; by apply Hin).
        by rewrite !list_lookup_insert_ne in Hlook by lia.
    + intros j [Hj1 Hj2]%not_elem_of_cons. destruct (Hrest j Hj2) as [-> ->].
      by rewrite !list_lookup_insert_ne by lia.
  - apply bool_decide_eq_false in Ek.
    destruct (target_ok d m b) as [Et|Et]; [|done]. rewrite Et. simpl.
    destruct (IH disks dist accD accM (k + 1) n)
      as (oD & oM & -> & HlD & HlM & Hlook & Hrest); [lia|lia|done..|].
    exists oD, oM. split_and!; [do 2 f_equal; lia|done|done| |].
    + intros [|i] c d' m' Hc Hd Hm; simpl in *; [|by eapply Hlook].
      injection Hc as <-. injection Hd as <-. injection Hm as <-. unfold kept.
      rewrite bool_decide_eq_false_2 by done. apply Hrest, Hbj.
    + intros j [Hj1 Hj2]%not_elem_of_cons. by apply Hrest.
Qed.
End Place.

Lemma target_distribution_ok {D} fi (d : option D) m b :
  target_distribution fi d m (Some b) = Some None \/
  target_distribution fi d m (Some b) = Some (Some b).
Proof. unfold target_distribution. simpl. repeat case_match; auto. Qed.

Lemma target_by_index_ok {D} fi (d : option D) m b :
  target_by_index fi d m (Some b) = Some None \/ target_by_index fi d m (Some b) = Some (Some b).
Proof.
  unfold target_by_index. destruct d; [|by left].
  destruct (FileInfo_IsValid m); simpl; [|by left].
  destruct (Bool.eqb _ _); simpl; [|by left].
  destruct (Z.eqb_spec b (ei_Index (fi_Erasure m))) as [->|]; simpl; auto.
Qed.

(** Both shuffles put the drives they keep where the distribution says; a drive
    that is skipped leaves its position empty. *)
Definition placed_by {D} (dist : list Z) (keep : option D -> FileInfo -> Z -> bool)
    (disks : list (option D)) (metas : list FileInfo)
    (outD : list (option D)) (outM : list FileInfo) : Prop :=
  length outD = length disks /\ length outM = length disks /\
  forall i b d m, dist !! i = Some b -> disks !! i = Some d -> metas !! i = Some m ->
    outD !! Z.to_nat (b - 1) = Some (if keep d m b then d else None) /\
    outM !! Z.to_nat (b - 1) = Some (if keep d m b then m else zero_FileInfo).

Lemma place_placed {D} (target : option D -> FileInfo -> option Z -> option (option Z))
    disks metas dist n :
  (forall d m b, target d m (Some b) = Some None \/ target d m (Some b) = Some (Some b)) ->
  length disks = n -> length metas = n -> is_distribution n dist -> Z.of_nat n < 2 ^ 63 ->
  exists oD oM, place_loop target metas disks dist (replicate n None) (replicate n zero_FileInfo) 0
      = Some (oD, oM, Z.of_nat (count (skipped target) (zip (zip disks metas) dist))) /\
    placed_by dist (kept target) disks metas oD oM.
Proof.
  intros Hok Hd Hm Hdist Hn. destruct (is_distribution_spec _ _ Hdist) as (Hlen & Hnd & Hin).
  destruct (place_loop_spec target Hok metas disks dist (replicate n None)
    (replicate n zero_FileInfo) 0 n) as (oD & oM & -> & HlD & HlM & Hlook & _);
    [congruence|congruence|by rewrite length_replicate..|done|done| |].
  { apply Forall_forall. intros b Hb. by apply Hin. }
  exists oD, oM. split; [done|]. unfold placed_by. rewrite Hd. split_and!; [done|done|].
  intros i b d m Hb Hdi Hmi. destruct (Hlook i b d m Hb Hdi Hmi) as [-> ->].
  assert (1 <= b <= Z.of_nat n) by (apply Hin; by eapply list_elem_of_lookup_2).
  rewrite !lookup_replicate_2 by lia. by destruct (kept target d m b).
Qed.

(** ** Sizes of the parts of a split *)

Definition calculatePartSizeFromIdx (totalSize partSize partIndex : Z) : result Z :=
  if totalSize <? -1 then Err errInvalidArgument
  else if partSize =? 0 then Err errPartSizeZero
  else if partIndex <? 1 then Err errPartSizeIndex
  else if totalSize =? -1 then Ok (-1)
  else if 0 <? totalSize then
    let partsCount := (totalSize / partSize + 1)%int64 in
    Ok (if partIndex <? partsCount then partSize
        else if partIndex =? partsCount then rem64 totalSize partSize
        else 0)
  else Ok 0.

Definition part_size (totalSize partSize partIndex : Z) : Z :=
  match calculatePartSizeFromIdx totalSize partSize partIndex with Ok n => n | Err _ => 0 end.

Lemma part_size_eq total part i :
  0 <= total < 2 ^ 63 - 1 -> 0 < part < 2 ^ 63 -> 1 <= i ->
  calculatePartSizeFromIdx total part i =
    Ok (if i <=? total / part then part else if i =? total / part + 1 then total mod part else 0).
Proof.
  intros Ht Hp Hi. unfold calculatePartSizeFromIdx.
  destruct (Z.ltb_spec total (-1)); [lia|]. destruct (Z.eqb_spec part 0); [lia|].
  destruct (Z.ltb_spec i 1); [lia|]. destruct (Z.eqb_spec total (-1)); [lia|].
  assert (0 <= total / part <= total)
    by (split; [apply Z.div_pos; lia|apply Z.div_le_upper_bound; nia]).
  unfold add64, quot64, rem64. rewrite Z.quot_div_nonneg, Z.rem_mod_nonneg by lia.
  rewrite (wrap64_id (total / part)), wrap64_id by (unfold int64_range; lia).
  destruct (Z.ltb_spec 0 total) as [Hpos|Hz].
  - f_equal. bdestruct; lia || done.
  - replace total with 0 by lia. rewrite Z.div_0_l, Z.mod_0_l by lia. f_equal. bdestruct; lia.
Qed.

Lemma part_size_sum_full total part k :
  0 <= total < 2 ^ 63 - 1 -> 0 < part < 2 ^ 63 -> Z.of_nat k <= total / part ->
  Zsum (part_size total part <$> seqZ 1 (Z.of_nat k)) = Z.of_nat k * part.
Proof.
  intros Ht Hp Hk. assert (part_size total part <$> seqZ 1 (Z.of_nat k) = replicate k part) as ->.
  { apply list_eq. intros j. rewrite list_lookup_fmap.
    destruct (decide (j < k)%nat).
    - rewrite lookup_seqZ_lt, lookup_replicate_2 by lia. simpl. unfold part_size.
      rewrite part_size_eq by lia. destruct (Z.leb_spec (1 + Z.of_nat j) (total / part)); [done|lia].
    - rewrite lookup_seqZ_ge by lia. simpl. symmetry. apply lookup_replicate_None. lia. }
  apply Zsum_replicate.
Qed.

(** ** Metadata on all drives *)

Definition errVolumeNotFound : error := StorageErr "volume not found".

Section Drives.
(** A drive, with its contents. *)
Context {D : Type}.
(** [StorageAPI.ReadVersion] and [StorageAPI.WriteMetadata] of a drive. *)
Context (ReadVersion : D -> FileInfo * option error).
Context (WriteMetadata : D -> FileInfo -> D * option error).

(** The goroutines write disjoint indexes, so their order does not matter. *)
Definition readAllFileInfo (disks : list (option D)) : list FileInfo * list (option error) :=
  let read disk := match disk with
    | None => (zero_FileInfo, Some errDiskNotFound)
    | Some d => ReadVersion d
    end in
  ((fun d => (read d).1) <$> disks, (fun d => (read d).2) <$> disks).

(** What the goroutine at [index] does: the drive it leaves and its error;
    [None] is [files[index]] out of range. *)
Definition write_one (files : list FileInfo) (index : nat) (disk : option D)
  : option (option D * option error) :=
  match disk with
  | None => Some (None, Some errDiskNotFound)
  | Some d =>
      fi ← files !! index;
      let fi := fi_with_Erasure fi (ei_with_Index (fi_Erasure fi) (Z.of_nat index + 1)) in
      if FileInfo_IsValid fi then
        let '(d, err) := WriteMetadata d fi in Some (Some d, err)
      else Some (Some d, Some errCorruptedFormat)
  end.

Fixpoint write_all (files : list FileInfo) (index : nat) (disks : list (option D))
  : option (list (option D) * list (option error)) :=
  match disks with
  | [] => Some ([], [])
  | disk :: disks =>
      '(disk, err) ← write_one files index disk;
      '(disks, errs) ← write_all files (S index) disks;
      Some (disk :: disks, err :: errs)
  end.

(** The drives after the writes, those it still considers online, and the
    error. *)
Definition writeUniqueFileInfo `{MapOrder} (canceled : bool) (disks : list (option D))
    (files : list FileInfo) (quorum : Z)
  : option (list (option D) * list (option D) * option error) :=
  '(disks, mErrs) ← write_all files 0 disks;
  let err := reduceWriteQuorumErrs canceled mErrs objectOpIgnoredErrs quorum in
  Some (disks, evalDisks disks mErrs, err).

Lemma write_all_spec files disks : forall k disks' errs,
  write_all files k disks = Some (disks', errs) ->
  length disks' = length disks /\ length errs = length disks /\
  forall i d, disks !! i = Some d ->
    exists d' e, disks' !! i = Some d' /\ errs !! i = Some e /\
      write_one files (k + i) d = Some (d', e).
Proof.
  induction disks as [|d disks IH]; intros k disks' errs Hw; simpl in Hw.
  { injection Hw as <- <-. split_and!; [done|done|]. intros i d Hi. by rewrite lookup_nil in Hi. }
  destruct (write_one files k d) as [[d1 e1]|] eqn:E1; simpl in Hw; [|done].
  destruct (write_all files (S k) disks) as [[ds es]|] eqn:E2; simpl in Hw; [|done].
  injection Hw as <- <-. destruct (IH (S k) ds es E2) as (Hl1 & Hl2 & Hi). simpl.
  split_and!; [lia|lia|]. intros [|i] d' Hd; simpl in *.
  - injection Hd as <-. exists d1, e1. rewrite Nat.add_0_r. done.
  - destruct (Hi i d' Hd) as (d2 & e2 & ? & ? & Hone).
    exists d2, e2. by replace (k + S i)%nat with (S k + i)%nat by lia.
Qed.

(** A drive that took its own entry: valid, with its index stamped on it. *)
Definition wrote (files : list FileInfo) (index : nat) (disk : option D) : bool :=
  match disk, files !! index with
  | Some d, Some fi =>
      let fi := fi_with_Erasure fi (ei_with_Index (fi_Erasure fi) (Z.of_nat index + 1)) in
      FileInfo_IsValid fi && bool_decide ((WriteMetadata d fi).2 = None)
  | _, _ => false
  end.

Lemma write_one_wrote files i d d' e :
  write_one files i d = Some (d', e) -> wrote files i d = bool_decide (e = None).
Proof.
  unfold write_one, wrote. destruct d as [d|]; [|intros [= <- <-]; done].
  destruct (files !! i) as [fi|]; simpl; [|done].
  destruct (FileInfo_IsValid _); simpl; [|intros [= <- <-]; done].
  destruct (WriteMetadata d _) as [d2 e2]. simpl. by intros [= <- <-].
Qed.

Fixpoint writers (files : list FileInfo) (k : nat) (disks : list (option D)) : nat :=
  match disks with
  | [] => 0%nat
  | d :: disks => ((if wrote files k d then 1 else 0) + writers files (S k) disks)%nat
  end.

Lemma write_all_writers files disks : forall k disks' errs,
  write_all files k disks = Some (disks', errs) ->
  count (fun e => bool_decide (e = None)) errs = writers files k disks.
Proof.
  induction disks as [|d disks IH]; intros k disks' errs Hw; simpl in Hw.
  { by injection Hw as <- <-. }
  destruct (write_one files k d) as [[d1 e1]|] eqn:E1; simpl in Hw; [|done].
  destruct (write_all files (S k) disks) as [[ds es]|] eqn:E2; simpl in Hw; [|done].
  injection Hw as <- <-. rewrite count_cons. simpl.
  rewrite (write_one_wrote _ _ _ _ _ E1), (IH _ _ _ E2). done.
Qed.
End Drives.

(** [nil] is never ignored, so it counts as itself. *)
Lemma mult_None ignored errs :
  mult ignored errs None = count (fun e => bool_decide (e = None)) errs.
Proof.
  unfold mult, multiplicity. apply count_ext. intros [e|] _; unfold err_key, IsErrIgnored, IsErr.
  - rewrite (bool_decide_eq_false_2 (Some e = None)) by done. apply bool_decide_eq_false_2.
    by repeat case_match.
  - assert (existsb (fun x => errors_Is None (Some x)) ignored = false) as ->.
    { induction ignored; [done|]. done. }
    done.
Qed.

(** ** Properties *)

(** The drive order drawn from an object's name is a distribution: every
    position [1 .. cardinality] occurs exactly once, so shuffling the drives by it
    never panics, loses no drive and duplicates none, and sends drive [i] to
    position [distribution[i] - 1]. *)
Theorem hashOrder_shuffleDisks {D} key (disks : list (option D)) :
  0 < len disks < 2 ^ 32 ->
  exists dist shuffled, hashOrder key (len disks) = Some dist /\
    dist ≡ₚ seqZ 1 (len disks) /\
    shuffleDisks disks (Some dist) = Some shuffled /\ shuffled ≡ₚ disks /\
    forall i b d, dist !! i = Some b -> disks !! i = Some d ->
      shuffled !! Z.to_nat (b - 1) = Some d.
Proof.
  intros Hn. destruct (hashOrder_distribution key (length disks)) as (dist & Hh & Hd); [lia..|].
  destruct (shuffle_spec disks dist None Hd) as (ys & Hs & Hp & Hl); [lia|].
  exists dist, ys. done.
Qed.

Lemma hashOrder_shuffleDisks_witness :
  exists dist shuffled : list _, hashOrder "bucket/object" 4 = Some dist /\
    shuffleDisks [Some 10; Some 20; None; Some 40] (Some dist) = Some shuffled /\
    shuffled ≡ₚ [Some 10; Some 20; None; Some 40].
Proof.
  destruct (hashOrder_shuffleDisks "bucket/object" [Some 10; Some 20; None; Some 40])
    as (dist & s & H1 & _ & H2 & H3 & _); [done|]. by exists dist, s.
Defined.

(** Shuffling drives and metadata by the erasure index never panics when the
    distribution is one and all slices have its length.  While fewer drives than
    parity blocks are inconsistent (offline, invalid, of the other format, or
    with an index that is not the distribution's), each consistent drive lands on
    its own index and the others leave a hole; otherwise the fallback places by
    the distribution alone. *)
Theorem shuffleByIndex_placed {D} (disks : list (option D)) metas fi :
  length metas = length disks -> len disks < 2 ^ 63 ->
  is_distribution (length disks) (ei_Distribution (fi_Erasure fi)) ->
  let dist := ei_Distribution (fi_Erasure fi) in
  let bad := count (skipped (target_by_index fi)) (zip (zip disks metas) dist) in
  exists oD oM, shuffleDisksAndPartsMetadataByIndex disks metas fi = Some (oD, oM) /\
    placed_by dist (if Z.of_nat bad <? ei_ParityBlocks (fi_Erasure fi)
                    then kept (target_by_index fi) else kept (target_distribution fi))
      disks metas oD oM.
Proof.
  intros Hm Hn Hd dist bad. unfold shuffleDisksAndPartsMetadataByIndex, shuffleDisksAndPartsMetadata.
  fold dist.
  destruct (place_placed (target_by_index fi) disks metas dist (length disks))
    as (oD & oM & -> & Hp); [apply target_by_index_ok|done..|]. simpl. fold bad.
  destruct (Z.of_nat bad <? ei_ParityBlocks (fi_Erasure fi)); [by exists oD, oM|].
  destruct (place_placed (target_distribution fi) disks metas dist (length disks))
    as (oD' & oM' & Hp' & Hpl); [apply target_distribution_ok|done..|].
  rewrite Hm, Hp'. by exists oD', oM'.
Qed.

Definition sample_fi (index : Z) : FileInfo :=
  fi_with_Erasure zero_FileInfo (mkErasureInfo "rs" 2 2 16 index [2; 3; 4; 1] []).

Lemma shuffleByIndex_placed_witness :
  exists oD oM, shuffleDisksAndPartsMetadataByIndex [Some 10; None; Some 30; Some 40]
    [sample_fi 2; sample_fi 3; sample_fi 4; sample_fi 1] (sample_fi 1) = Some (oD, oM).
Proof.
  destruct (shuffleByIndex_placed [Some 10; None; Some 30; Some 40]
    [sample_fi 2; sample_fi 3; sample_fi 4; sample_fi 1] (sample_fi 1))
    as (oD & oM & H & _); [done|done| |by exists oD, oM].
  unfold is_distribution. symmetry. apply (Permutation_cons_append [2; 3; 4] 1).
Defined.

(** [writeUniqueFileInfo] reports success exactly when a write quorum of
    drives each took its own valid entry, with the index of its position stamped
    on it; the drives it returns as online are the ones that did. *)
Theorem writeUniqueFileInfo_quorum `{MapOrder} {D} (WriteMetadata : D -> FileInfo -> D * option error)
    disks files quorum disks' online err :
  1 <= quorum -> len disks <= 2 * quorum ->
  writeUniqueFileInfo WriteMetadata false disks files quorum = Some (disks', online, err) ->
  (err = None <-> quorum <= Z.of_nat (writers WriteMetadata files 0 disks)) /\
  length online = length disks /\
  forall i d, disks !! i = Some d -> exists d', disks' !! i = Some d' /\
    online !! i = Some (if wrote WriteMetadata files i d then d' else None).
Proof.
  intros Hq Hn. unfold writeUniqueFileInfo.
  destruct (write_all WriteMetadata files 0 disks) as [[ds errs]|] eqn:Ew; simpl; [|done].
  intros [= <- <- <-]. destruct (write_all_spec _ _ _ _ _ _ Ew) as (Hl1 & Hl2 & Hi).
  unfold reduceWriteQuorumErrs. split_and!.
  - etransitivity; [apply reduceQuorumErrs_nil; lia|].
    by rewrite mult_None, (write_all_writers _ _ _ _ _ _ Ew).
  - unfold evalDisks. rewrite (proj2 (Nat.eqb_eq _ _)) by lia. simpl.
    rewrite length_zip_with. lia.
  - intros i d Hd. destruct (Hi i d Hd) as (d' & e & Hd' & He & Hone). exists d'. split; [done|].
    unfold evalDisks. rewrite (proj2 (Nat.eqb_eq _ _)) by lia. simpl.
    rewrite lookup_zip_with, He, Hd'. simpl. simpl in Hone. rewrite (write_one_wrote _ _ _ _ _ _ Hone).
    by destruct e.
Qed.

Definition store_meta (d : list FileInfo) (fi : FileInfo) : list FileInfo * option error :=
  (fi :: d, None).

Lemma writeUniqueFileInfo_quorum_witness :
  exists disks' online, writeUniqueFileInfo store_meta false
    [Some []; None; Some []; Some []] (replicate 4 (sample_fi 0)) 3 = Some (disks', online, None).
Proof.
  destruct (writeUniqueFileInfo store_meta false [Some []; None; Some []; Some []]
    (replicate 4 (sample_fi 0)) 3) as [[[ds on] e]|] eqn:E; [|by vm_compute in E].
  exists ds, on. assert (e = None) as ->; [|done].
  apply (writeUniqueFileInfo_quorum store_meta [Some []; None; Some []; Some []]
    (replicate 4 (sample_fi 0)) 3 ds on e); [done|done|exact E|].
  by vm_compute.
Defined.

(** The sizes of parts [1 .. totalSize/partSize + 1] add up to the total, and
    every later part has size zero. *)
Theorem calculatePartSize_sum total part :
  0 <= total < 2 ^ 63 - 1 -> 0 < part < 2 ^ 63 ->
  Zsum (part_size total part <$> seqZ 1 (total / part + 1)) = total /\
  forall i, total / part + 1 < i -> calculatePartSizeFromIdx total part i = Ok 0.
Proof.
  intros Ht Hp. assert (0 <= total / part) by (apply Z.div_pos; lia). split.
  - assert (seqZ 1 (total / part + 1) = seqZ 1 (Z.of_nat (Z.to_nat (total / part))) ++ [total / part + 1]) as ->.
    { rewrite Z2Nat.id, seqZ_app by lia. f_equal. rewrite seqZ_cons by lia. cbn. f_equal. lia. }
    rewrite fmap_app, Zsum_app, part_size_sum_full by lia. simpl. unfold part_size.
    rewrite part_size_eq by lia. destruct (Z.leb_spec (total / part + 1) (total / part)); [lia|].
    rewrite Z.eqb_refl. pose proof (Z.div_mod total part). lia.
  - intros i Hi. rewrite part_size_eq by lia.
    destruct (Z.leb_spec i (total / part)); [lia|].
    destruct (Z.eqb_spec i (total / part + 1)); [lia|done].
Qed.

Lemma calculatePartSize_sum_witness :
  Zsum (part_size 17 5 <$> seqZ 1 4) = 17.
Proof. apply (calculatePartSize_sum 17 5); lia. Defined.
