(* ===== verification/Bitrot.v ===== *)
(** * Bitrot protection

    Models [cmd/bitrot.go], [cmd/bitrot-streaming.go] and
    [cmd/bitrot-whole.go]: the checksummed layout of a shard file, the writer
    that produces it, the readers that check it and [bitrotVerify].  The hash
    functions (SHA-256, BLAKE2b, HighwayHash) are packages the code calls: the
    class [HashLib] holds them with the size of their sums. *)

From S2P Require Import Prelude Erasure FileInfo Quorum.

(** ** Algorithms *)

Definition SHA256 : Z := 1.
Definition HighwayHash256 : Z := 2.
Definition HighwayHash256S : Z := 3.
Definition BLAKE2b512 : Z := 4.

Definition bitrotAlgorithms : list (Z * string) :=
  [(SHA256, "sha256"); (BLAKE2b512, "blake2b"); (HighwayHash256, "highwayhash256");
   (HighwayHash256S, "highwayhash256S")].

Definition Algorithm_lookup (a : Z) : option string :=
  snd <$> List.find (fun x => x.1 =? a) bitrotAlgorithms.

Definition Available (a : Z) : bool := bool_decide (is_Some (Algorithm_lookup a)).

(** [CriticalIf] panics on an algorithm that is not supported. *)
Definition Algorithm_String (a : Z) : option string := Algorithm_lookup a.

Definition BitrotAlgorithmFromString (s : string) : Z :=
  match List.find (fun x => bool_decide (x.2 = s)) bitrotAlgorithms with
  | Some x => x.1
  | None => 0
  end.

Class HashLib := {
  hash_sum : Z -> bytes -> bytes;
  hash_size : Z -> nat;
  hash_sum_size : forall a data, length (hash_sum a data) = hash_size a;
  hash_size_pos : forall a, (0 < hash_size a)%nat;
  hash_size_small : forall a, Z.of_nat (hash_size a) <= 64
}.

Section Bitrot.
Context `{HashLib}.

(** [BitrotAlgorithm.New]: [None] is the panic on an unsupported one; the
    hash starts empty. *)
Definition Algorithm_New (a : Z) : option (bytes -> bytes) :=
  if Available a then Some (hash_sum a) else None.

Definition bitrotShardFileSize (size shardSize algo : Z) : option Z :=
  if negb (algo =? HighwayHash256S) then Some size
  else
    _ ← Algorithm_New algo;
    Some (ceilFrac size shardSize * Z.of_nat (hash_size algo) + size)%int64.

(** ** Verification

    The loop reads a sum and then at most [shardSize] bytes; [fuel] bounds the
    iterations, each of which consumes a whole sum. *)
Fixpoint verify_loop (fuel : nat) (algo : Z) (r : stream) (left shardSize : Z)
  : option (option error) :=
  match fuel with
  | O => None
  | S fuel =>
      if left <=? 0 then Some None
      else
        match ReadFull r (hash_size algo) with
        | (r, _, Some err) => Some (Some err)
        | (r, hashBuf, None) =>
            let left := sub64 left (len hashBuf) in
            let shardSize := if left <? shardSize then left else shardSize in
            let data := take (Z.to_nat shardSize) (st_data r) in
            let short := (length data <? Z.to_nat shardSize)%nat in
            if short && negb (bool_decide (st_end r = EOF)) then Some (Some errFileCorrupt)
            else
              let r := mkStream (drop (Z.to_nat shardSize) (st_data r)) (st_end r) in
              let left := sub64 left (len data) in
              if negb (bool_decide (hash_sum algo data = hashBuf)) then Some (Some errFileCorrupt)
              else verify_loop fuel algo r left shardSize
        end
  end.

(** The outer [None] is a panic (an unsupported algorithm). *)
Definition bitrotVerify (r : stream) (wantSize partSize algo : Z) (want : bytes) (shardSize : Z)
  : option (option error) :=
  h ← Algorithm_New algo;
  if negb (algo =? HighwayHash256S) then
    Some (if negb (bool_decide (st_end r = EOF)) || negb (len (st_data r) =? wantSize)
          then Some errFileCorrupt
          else if negb (bool_decide (h (st_data r) = want)) then Some errFileCorrupt
          else None)
  else
    size ← bitrotShardFileSize partSize shardSize algo;
    if negb (wantSize =? size) then Some (Some errFileCorrupt)
    else verify_loop (S (length (st_data r))) algo r wantSize shardSize.

(** ** The streaming layout *)

(** The bytes the writer leaves for a sequence of writes. *)
Definition bitrot_encode (algo : Z) (blocks : list bytes) : bytes :=
  concat ((fun p => hash_sum algo p ++ p) <$> blocks).

(** The destination of the streaming writer: a buffer or the write end of a
    pipe. *)
Record WriteCloser := {
  wc_state : Type;
  wc_Write : wc_state -> bytes -> wc_state * (Z * option error);
  wc_CloseWithError : wc_state -> error -> wc_state
}.

Definition streaming_Write (W : WriteCloser) (algo : Z) (iow : wc_state W) (p : bytes)
  : wc_state W * (Z * option error) :=
  if bool_decide (p = []) then (iow, (0, None))
  else
    let hashBytes := hash_sum algo p in
    match wc_Write W iow hashBytes with
    | (iow, (_, Some err)) => (wc_CloseWithError W iow err, (0, Some err))
    | (iow, (_, None)) =>
        match wc_Write W iow p with
        | (iow, (n, Some err)) => (wc_CloseWithError W iow err, (n, Some err))
        | (iow, (n, None)) =>
            if negb (n =? len p)
            then (wc_CloseWithError W iow ErrShortWrite, (n, Some ErrShortWrite))
            else (iow, (n, None))
        end
    end.

(** [newStreamingBitrotWriterBuffer]: the destination is a [bytes.Buffer]. *)
Definition BufferCloser : WriteCloser :=
  {| wc_state := bytes;
     wc_Write w p := (w ++ p, (len p, None));
     wc_CloseWithError w _ := w |}.

(** ** The streaming reader *)

(** [rd_stream]: what [disk.ReadFileStream(offset, length)] returns; only
    called when there is no inline data. *)
Record streamingBitrotReader := mkStreaming {
  sr_data : bytes;
  sr_open : Z -> Z -> result stream;
  sr_rc : option stream;
  sr_tillOffset : Z;
  sr_currOffset : Z;
  sr_algo : Z;
  sr_shardSize : Z
}.

Definition newStreamingBitrotReader (open : Z -> Z -> result stream) (data : bytes)
    (tillOffset algo shardSize : Z) : option streamingBitrotReader :=
  _ ← Algorithm_New algo;
  Some (mkStreaming data open None
          (ceilFrac tillOffset shardSize * Z.of_nat (hash_size algo) + tillOffset)%int64
          0 algo shardSize).

Definition sr_with (b : streamingBitrotReader) (rc : option stream) (curr : Z)
  : streamingBitrotReader :=
  mkStreaming (sr_data b) (sr_open b) rc (sr_tillOffset b) curr (sr_algo b) (sr_shardSize b).

(** [io.NewSectionReader(bytes.NewReader(data), off, n)]. *)
Definition section_reader (data : bytes) (off n : Z) : stream :=
  mkStream (take (Z.to_nat n) (drop (Z.to_nat off) data)) EOF.

(** The first call opens the stream at the shard that holds [offset]. *)
Definition sr_opened (b : streamingBitrotReader) (offset : Z)
  : streamingBitrotReader * result stream :=
  match sr_rc b with
  | Some rc => (b, Ok rc)
  | None =>
      let streamOffset :=
        (offset / sr_shardSize b * Z.of_nat (hash_size (sr_algo b)) + offset)%int64 in
      let length := sub64 (sr_tillOffset b) streamOffset in
      if bool_decide (sr_data b = []) && negb (sr_tillOffset b =? streamOffset) then
        match sr_open b streamOffset length with
        | Ok rc => (sr_with b (Some rc) offset, Ok rc)
        | Err e => (sr_with b None offset, Err e)
        end
      else
        let rc := section_reader (sr_data b) streamOffset length in
        (sr_with b (Some rc) offset, Ok rc)
  end.

(** [ReadAt(buf, offset)] with [len(buf) = n]; the bytes are [buf] on
    success.  [None] is the remainder by a zero shard size. *)
Definition streaming_ReadAt (b : streamingBitrotReader) (n : nat) (offset : Z)
  : option (streamingBitrotReader * result bytes) :=
  if sr_shardSize b =? 0 then None
  else if negb (rem64 offset (sr_shardSize b) =? 0) then Some (b, Err errUnexpected)
  else
    let '(b, opened) := sr_opened b offset in
    match opened with
    | Err e => Some (b, Err e)
    | Ok rc =>
        if negb (offset =? sr_currOffset b) then Some (b, Err errUnexpected)
        else
          match ReadFull rc (hash_size (sr_algo b)) with
          | (rc, _, Some e) => Some (sr_with b (Some rc) (sr_currOffset b), Err e)
          | (rc, hashBytes, None) =>
              match ReadFull rc n with
              | (rc, _, Some e) => Some (sr_with b (Some rc) (sr_currOffset b), Err e)
              | (rc, buf, None) =>
                  if negb (bool_decide (hash_sum (sr_algo b) buf = hashBytes))
                  then Some (sr_with b (Some rc) (sr_currOffset b), Err errFileCorrupt)
                  else Some (sr_with b (Some rc) (add64 (sr_currOffset b) (len buf)), Ok buf)
              end
          end
    end.

(** ** Whole-file checksums *)

(** [disk.AppendFile] on the drive's state. *)
Definition whole_Write {D} (AppendFile : D -> bytes -> D * option error) (st : D * bytes) (p : bytes)
  : (D * bytes) * (Z * option error) :=
  let '(disk, hashed) := st in
  match AppendFile disk p with
  | (disk, Some err) => ((disk, hashed), (0, Some err))
  | (disk, None) => ((disk, hashed ++ p), (len p, None))
  end.

Definition whole_Sum (algo : Z) (st_hashed : bytes) : bytes := hash_sum algo st_hashed.

Record wholeBitrotReader := mkWhole {
  (** [disk.ReadFile(offset, buf, verifier)] with [len(buf) = n]: what it
      leaves in [buf] and its error *)
  wr_ReadFile : Z -> nat -> bytes * option error;
  wr_tillOffset : Z;
  wr_buf : option bytes
}.

(** [None] is [make] of a negative length. *)
Definition whole_ReadAt (b : wholeBitrotReader) (n : nat) (offset : Z)
  : option (wholeBitrotReader * result bytes) :=
  let with_buf buf := mkWhole (wr_ReadFile b) (wr_tillOffset b) buf in
  let deliver buf :=
    if (length buf <? n)%nat then (with_buf (Some buf), Err errLessData)
    else (with_buf (Some (drop n buf)), Ok (take n buf)) in
  match wr_buf b with
  | Some buf => Some (deliver buf)
  | None =>
      let size := sub64 (wr_tillOffset b) offset in
      if size <? 0 then None
      else
        match wr_ReadFile b offset (Z.to_nat size) with
        | (buf, Some e) => Some (with_buf (Some buf), Err e)
        | (buf, None) => Some (deliver buf)
        end
  end.
End Bitrot.

(** ** The layout *)

(** Every piece but the last is a whole shard; the last is not empty. *)
Fixpoint pieces_ok (s : nat) (ps : list bytes) : Prop :=
  match ps with
  | [] => True
  | p :: ps' => (0 < length p <= s)%nat /\ (ps' <> [] -> length p = s) /\ pieces_ok s ps'
  end.

Lemma pieces_ok_blocks s (data : bytes) : (0 < s)%nat -> pieces_ok s (blocks_of s data).
Proof.
  intros Hs. revert data. apply (blocks_ind s); [done|by rewrite blocks_of_nil|].
  intros l Hl IH. rewrite blocks_of_cons by done. simpl. rewrite length_take.
  assert (0 < length l)%nat by (destruct l; [done|simpl; lia]). split_and!; [lia|lia| |done].
  intros Hne. destruct (decide (length l <= s)%nat); [|lia].
  by rewrite drop_ge, blocks_of_nil in Hne by lia.
Qed.

Lemma pieces_ok_count s ps : (0 < s)%nat -> Z.of_nat s < 2 ^ 63 ->
  len (concat ps) < 2 ^ 63 -> pieces_ok s ps ->
  ceilFrac (len (concat ps)) (Z.of_nat s) = len ps.
Proof.
  intros Hs Hs' Hlt Hok. rewrite ceilFrac_ceil by lia. clear Hlt Hs'.
  assert (len (concat ps) <= len ps * Z.of_nat s /\
          (ps <> [] -> (len ps - 1) * Z.of_nat s < len (concat ps))) as [Hup Hlo].
  { induction ps as [|p ps IH]; simpl in *; [split; [lia|done]|].
    destruct Hok as (Hp & Hfull & Hok). rewrite length_app. destruct (IH Hok) as [IH1 IH2].
    split; [nia|]. intros _. destruct ps as [|q ps]; [simpl in *; nia|].
    specialize (Hfull ltac:(done)). specialize (IH2 ltac:(done)). simpl length in *. nia. }
  destruct ps as [|p ps]; [rewrite Z.div_small by (simpl; lia); done|].
  specialize (Hlo ltac:(done)).
  symmetry. apply (Z.div_unique_pos _ _ _ (len (concat (p :: ps)) + Z.of_nat s - 1 -
    Z.of_nat s * len (p :: ps))); nia.
Qed.

Section Layout.
Context `{HashLib} (algo : Z).
Local Abbreviation hs := (hash_size algo).
Local Abbreviation encode := (bitrot_encode algo).

Lemma encode_cons p ps : encode (p :: ps) = hash_sum algo p ++ p ++ encode ps.
Proof. unfold bitrot_encode. simpl. by rewrite <-app_assoc. Qed.

Lemma encode_app ps qs : encode (ps ++ qs) = encode ps ++ encode qs.
Proof. unfold bitrot_encode. by rewrite fmap_app, concat_app. Qed.

Lemma length_encode ps : length (encode ps) = (length ps * hs + length (concat ps))%nat.
Proof.
  induction ps as [|p ps IH]; [done|].
  rewrite encode_cons, !length_app, hash_sum_size, IH. simpl. rewrite length_app. lia.
Qed.

Lemma ReadFull_app a b e n : length a = n ->
  ReadFull (mkStream (a ++ b) e) n = (mkStream b e, a, None).
Proof.
  intros <-. unfold ReadFull. simpl. rewrite length_app.
  destruct (Nat.leb_spec (length a) (length a + length b)); [|lia].
  by rewrite drop_app_length, take_app_length.
Qed.

Lemma verify_loop_encode s ps : (0 < s)%nat -> pieces_ok s ps -> len (encode ps) < 2 ^ 63 ->
  forall fuel e, (length ps < fuel)%nat ->
  verify_loop fuel algo (mkStream (encode ps) e) (len (encode ps)) (Z.of_nat s) = Some None.
Proof.
  intros Hs. induction ps as [|p ps IH]; intros Hok Hlt [|fuel] e Hf; simpl in Hf; try lia; [done|].
  destruct Hok as (Hp & Hfull & Hok). pose proof (hash_size_pos algo).
  assert (length (encode (p :: ps)) = hs + length p + length (encode ps))%nat as Hlen
    by (rewrite encode_cons, !length_app, hash_sum_size; lia).
  cbn [verify_loop]. destruct (Z.leb_spec (len (encode (p :: ps))) 0); [lia|].
  rewrite encode_cons at 1. rewrite ReadFull_app by apply hash_sum_size.
  rewrite hash_sum_size. cbn [st_data st_end]. unfold sub64.
  rewrite !(wrap64_id (len (encode (p :: ps)) - _)) by (unfold int64_range; lia).
  replace (if _ <? _ then _ else Z.of_nat s) with (len p).
  2:{ destruct (Z.ltb_spec (len (encode (p :: ps)) - Z.of_nat hs) (Z.of_nat s)) as [Hl|Hl].
      - destruct ps as [|q ps]; [simpl in Hlen; lia|]. specialize (Hfull ltac:(done)). lia.
      - destruct ps as [|q ps]; [simpl in Hlen; lia|]. specialize (Hfull ltac:(done)). lia. }
  rewrite Nat2Z.id, take_app_length, drop_app_length, Nat.ltb_irrefl. cbn [andb].
  rewrite wrap64_id by (unfold int64_range; lia).
  rewrite bool_decide_eq_true_2 by done. cbn [negb].
  replace (len (encode (p :: ps)) - Z.of_nat hs - len p) with (len (encode ps)) by lia.
  destruct ps as [|q ps].
  - destruct fuel; [simpl in Hf; lia|]. done.
  - rewrite (Hfull ltac:(done)). apply IH; [done|lia|simpl in *; lia].
Qed.

(** Running out of fuel is impossible: each round consumes a whole sum. *)
Lemma verify_loop_total fuel : forall r left s, (length (st_data r) < fuel)%nat ->
  is_Some (verify_loop fuel algo r left s).
Proof.
  pose proof (hash_size_pos algo).
  induction fuel as [|fuel IH]; intros r left s Hf; [lia|]. cbn [verify_loop].
  destruct (left <=? 0); [done|]. unfold ReadFull.
  destruct (Nat.leb_spec hs (length (st_data r))); [|done]. cbn [st_data st_end].
  repeat case_match; try done; apply IH; cbn [st_data]; rewrite !length_drop; lia.
Qed.

(** What passes verification is a sequence of correctly summed pieces. *)
Lemma verify_loop_sound (s : nat) : (0 < s)%nat -> Z.of_nat s < 2 ^ 62 ->
  forall n total fuel data,
  len data < 2 ^ 62 ->
  len data = Z.of_nat n * Z.of_nat hs + Z.of_nat total ->
  (total <= n * s)%nat -> (n <> 0 -> (n - 1) * s < total)%nat ->
  verify_loop fuel algo (mkStream data EOF) (len data) (Z.of_nat s) = Some None ->
  exists ps, data = encode ps /\ pieces_ok s ps /\ length (concat ps) = total /\ length ps = n.
Proof.
  pose proof (hash_size_pos algo) as Hhs. intros Hs Hs'.
  induction n as [|n IH]; intros total fuel data Hlt Hlen Hup Hlo Hv.
  { exists []. destruct data; [|simpl in *; lia]. simpl. repeat split; try done. lia. }
  specialize (Hlo ltac:(done)). replace (S n - 1)%nat with n in Hlo by lia.
  destruct fuel as [|fuel]; [done|]. cbn [verify_loop] in Hv.
  destruct (Z.leb_spec (len data) 0); [nia|].
  unfold ReadFull in Hv. cbn [st_data st_end] in Hv.
  destruct (Nat.leb_spec hs (length data)) as [Hh|]; [|nia].
  rewrite (length_take data hs), (Nat.min_l hs (length data)) in Hv by lia. unfold sub64 in Hv.
  rewrite !(wrap64_id (len data - _)) in Hv by (unfold int64_range; lia).
  set (piece := if len data - Z.of_nat hs <? Z.of_nat s then len data - Z.of_nat hs
                else Z.of_nat s) in *.
  set (k := Nat.min s total).
  assert (piece = Z.of_nat k) as Epiece.
  { unfold piece, k. destruct (Z.ltb_spec (len data - Z.of_nat hs) (Z.of_nat s)).
    - destruct n as [|n]; [lia|]. nia.
    - destruct n as [|n]; [lia|]. nia. }
  rewrite Epiece, Nat2Z.id in Hv. clear piece Epiece.
  assert (k <= length (drop hs data))%nat as Hk by (rewrite length_drop; unfold k; nia).
  cbn [st_data st_end] in Hv.
  rewrite (length_take (drop hs data) k), (Nat.min_l k (length (drop hs data))), Nat.ltb_irrefl in Hv
    by lia. cbn [andb] in Hv.
  destruct (bool_decide_reflect (hash_sum algo (take k (drop hs data)) = take hs data))
    as [Hsum|]; [|done]. cbn [negb] in Hv.
  rewrite wrap64_id in Hv by (rewrite length_drop in Hk; unfold int64_range; lia).
  assert (data = hash_sum algo (take k (drop hs data)) ++ take k (drop hs data)
                   ++ drop k (drop hs data)) as Hdata
    by (rewrite Hsum, take_drop, take_drop; done).
  replace (len data - Z.of_nat hs - Z.of_nat k) with (len (drop k (drop hs data))) in Hv
    by (rewrite !length_drop; rewrite length_drop in Hk; lia).
  destruct (decide (n = 0)%nat) as [->|Hn].
  - exists [take k (drop hs data)]. assert (length (take k (drop hs data)) = k) as Hl
      by (rewrite length_take; lia).
    assert (drop k (drop hs data) = []) as Hnil
      by (apply nil_length_inv; rewrite !length_drop; unfold k; lia).
    rewrite encode_cons. rewrite Hnil in Hdata. unfold bitrot_encode. simpl.
    rewrite !app_nil_r in *. rewrite Hl. unfold k in *. split_and!; done || lia.
  - assert (k = s) as Eks by (unfold k; destruct n; [done|nia]).
    destruct (IH (total - s)%nat fuel (drop k (drop hs data))) as (ps & Hps & Hok & Hcat & Hlp).
    + rewrite !length_drop. lia.
    + rewrite !length_drop. rewrite length_drop in Hk. nia.
    + nia.
    + intros _. destruct n; [done|]. nia.
    + rewrite <-Eks. exact Hv.
    + assert (length (take k (drop hs data)) = s) as Hl by (rewrite length_take; lia).
      exists (take k (drop hs data) :: ps). rewrite encode_cons, <-Hps.
      simpl. rewrite length_app, Hl, Hcat. assert (s <= total)%nat by (destruct n; [done|nia]).
      split_and!; done || lia.
Qed.
End Layout.

(** ** Writing and reading back *)

(** What a successful read delivered, and where it left the reader. *)
Lemma streaming_ReadAt_Ok `{HashLib} b n offset b' buf :
  streaming_ReadAt b n offset = Some (b', Ok buf) ->
  exists b1 rc rest, sr_opened b offset = (b1, Ok rc) /\ offset = sr_currOffset b1 /\
    length buf = n /\ st_data rc = hash_sum (sr_algo b1) buf ++ buf ++ rest /\
    b' = sr_with b1 (Some (mkStream rest (st_end rc))) (add64 offset (Z.of_nat n)).
Proof.
  unfold streaming_ReadAt.
  destruct (sr_shardSize b =? 0); [done|]. destruct (negb _); [done|].
  destruct (sr_opened b offset) as [b1 [rc|err]]; [|done].
  destruct (Z.eqb_spec offset (sr_currOffset b1)) as [->|]; simpl; [|done].
  unfold ReadFull. set (hs := hash_size (sr_algo b1)).
  destruct (Nat.leb_spec hs (length (st_data rc))) as [Hh|]; [|done]. simpl.
  destruct (Nat.leb_spec n (length (drop hs (st_data rc)))) as [Hn|]; [|done]. simpl.
  destruct (bool_decide_reflect (hash_sum (sr_algo b1) (take n (drop hs (st_data rc)))
    = take hs (st_data rc))) as [Hsum|]; simpl; [|done].
  intros [= <- <-]. assert (length (take n (drop hs (st_data rc))) = n) as Hl
    by (rewrite length_take; lia).
  eexists b1, rc, _. rewrite Hl. split_and!; [done|done|done| |done].
  rewrite Hsum, take_drop, take_drop. done.
Qed.

Section ReadBack.
Context `{HashLib} (algo : Z).
Local Abbreviation hs := (hash_size algo).
Local Abbreviation encode := (bitrot_encode algo).

Lemma streaming_Write_Buffer w p : p <> [] ->
  streaming_Write BufferCloser algo w p = (w ++ hash_sum algo p ++ p, (len p, None)).
Proof.
  intros Hp. unfold streaming_Write. rewrite bool_decide_eq_false_2 by done. simpl.
  rewrite Z.eqb_refl. simpl. by rewrite <-app_assoc.
Qed.

(** All writes of a file, in order. *)
Definition write_pieces (w : bytes) (ps : list bytes) : bytes :=
  fold_left (fun w p => (streaming_Write BufferCloser algo w p).1) ps w.

Lemma write_pieces_encode ps : forall w, Forall (fun p => p <> []) ps ->
  write_pieces w ps = w ++ encode ps.
Proof.
  induction ps as [|p ps IH]; intros w Hne; simpl; [by rewrite app_nil_r|].
  apply Forall_cons in Hne as [Hp Hne]. rewrite streaming_Write_Buffer by done. simpl.
  rewrite IH, encode_cons by done. by rewrite <-!app_assoc.
Qed.

(** A reader that still delivers [ps] from [k] on. *)
Definition reader_at (b : streamingBitrotReader) (s : nat) (ps : list bytes) (k : nat) : Prop :=
  sr_algo b = algo /\ sr_shardSize b = Z.of_nat s /\
  sr_currOffset b = Z.of_nat k * Z.of_nat s /\
  exists rest e, sr_rc b = Some (mkStream (encode (drop k ps) ++ rest) e).

(** A reader not yet opened on a file that holds [ps] first. *)
Definition reader_fresh (b : streamingBitrotReader) (s : nat) (ps : list bytes) : Prop :=
  sr_algo b = algo /\ sr_shardSize b = Z.of_nat s /\ sr_rc b = None /\
  sr_tillOffset b = len (encode ps) /\
  ((ps <> [] /\ exists rest, sr_data b = encode ps ++ rest) \/
   (sr_data b = [] /\ forall off n, 0 <= off -> off + n = len (encode ps) -> 0 < n ->
      exists rest e, sr_open b off n = Ok (mkStream (slice_from (encode ps) off ++ rest) e))).

Lemma rem_shard k (s : nat) : (0 < s)%nat -> rem64 (Z.of_nat k * Z.of_nat s) (Z.of_nat s) = 0.
Proof. intros. unfold rem64. apply Z.rem_mul. lia. Qed.

Lemma ReadAt_at b s ps k p : (0 < s)%nat -> reader_at b s ps k -> ps !! k = Some p ->
  (Z.of_nat k + 1) * Z.of_nat s < 2 ^ 63 -> pieces_ok s ps ->
  exists b', streaming_ReadAt b (length p) (Z.of_nat k * Z.of_nat s) = Some (b', Ok p) /\
    (S k < length ps -> reader_at b' s ps (S k))%nat.
Proof.
  intros Hs (Ha & Hss & Hcur & rest & e & Hrc) Hp Hlt Hok.
  unfold streaming_ReadAt, sr_opened. rewrite Hss, Ha. destruct (Z.eqb_spec (Z.of_nat s) 0); [lia|].
  rewrite rem_shard by done. simpl. rewrite Hrc, Hcur, Z.eqb_refl, Ha. simpl.
  rewrite (drop_S _ p) by done. rewrite encode_cons, <-!app_assoc.
  rewrite ReadFull_app by apply hash_sum_size. rewrite ReadFull_app by done.
  rewrite bool_decide_eq_true_2 by done. simpl. eexists. split; [done|].
  intros Hk. unfold reader_at, sr_with. simpl. split_and!; [done|done| |by eexists _, _].
  assert (length p = s) as Hlp.
  { clear -Hok Hp Hk. revert k Hp Hk. induction ps as [|q ps IH]; intros [|k] Hp Hk; simpl in *; try done.
    - injection Hp as ->. apply Hok. intros ->. simpl in Hk. lia.
    - eapply IH; [apply Hok|done|lia]. }
  unfold add64. rewrite wrap64_id, Hlp; [lia|]. unfold int64_range. rewrite Hlp. lia.
Qed.

Lemma ReadAt_fresh b s ps k p : (0 < s)%nat -> reader_fresh b s ps -> ps !! k = Some p ->
  len (encode ps) < 2 ^ 62 -> (Z.of_nat k + 1) * Z.of_nat s < 2 ^ 62 -> pieces_ok s ps ->
  exists b', reader_at b' s ps k /\
    streaming_ReadAt b (length p) (Z.of_nat k * Z.of_nat s) =
    streaming_ReadAt b' (length p) (Z.of_nat k * Z.of_nat s).
Proof.
  intros Hs (Ha & Hss & Hrc & Htill & Hsrc) Hp Hlt Hk Hok.
  assert (length (concat (take k ps)) = k * s)%nat as Hpre.
  { clear -Hok Hp. revert k Hp. induction ps as [|q ps IH]; intros [|k] Hp; simpl in *; try done.
    rewrite length_app, (IH ltac:(apply Hok) k) by done.
    rewrite (proj1 (proj2 Hok)) by (intros ->; done). lia. }
  assert (len (encode (take k ps)) = Z.of_nat k * Z.of_nat hs + Z.of_nat k * Z.of_nat s) as Henc.
  { rewrite length_encode, Hpre, length_take, Nat.min_l; [lia|].
    apply lookup_lt_Some in Hp. lia. }
  assert (encode ps = encode (take k ps) ++ encode (drop k ps)) as Hsplit
    by (rewrite <-encode_app, take_drop; done).
  pose proof (f_equal length Hsplit) as Hls. rewrite length_app in Hls.
  pose proof (hash_size_pos algo).
  assert (0 < length (encode (drop k ps)))%nat as Hpos.
  { rewrite (drop_S _ p) by done. rewrite encode_cons, length_app, hash_sum_size. lia. }
  unfold streaming_ReadAt, sr_opened. rewrite Hss, Ha, Hrc. destruct (Z.eqb_spec (Z.of_nat s) 0); [lia|].
  rewrite rem_shard by done. simpl. unfold quot64, mul64, add64, sub64.
  rewrite Z.quot_mul, (wrap64_id (Z.of_nat k)) by (unfold int64_range; nia).
  rewrite (wrap64_id (Z.of_nat k * Z.of_nat hs)) by (unfold int64_range; lia).
  rewrite (wrap64_id (_ + _)) by (unfold int64_range; lia).
  rewrite Htill, <-Henc, (wrap64_id (_ - _)) by (unfold int64_range; lia).
  assert (forall rest e, exists b',
    reader_at b' s ps k /\
    sr_with b (Some (mkStream (encode (drop k ps) ++ rest) e)) (Z.of_nat k * Z.of_nat s) = b')
    as Hat.
  { intros rest e. eexists. split; [|done]. unfold reader_at, sr_with. simpl.
    split_and!; [done|done|done|by eexists _, _]. }
  destruct Hsrc as [[Hne [rest Hdata]]|[Hdata Hopen]].
  - rewrite (bool_decide_eq_false_2 (sr_data b = [])).
    2:{ rewrite Hdata. intros Hnil%(f_equal length). rewrite !length_app in Hnil. simpl in Hnil. lia. }
    simpl. destruct (Hat [] EOF) as (b' & Hb' & <-). eexists. split; [exact Hb'|].
    unfold sr_with. simpl. rewrite ?Hss.
    destruct (Z.eqb_spec (Z.of_nat s) 0); [lia|]. rewrite ?rem_shard by done. simpl.
    rewrite app_nil_r. unfold section_reader.
    replace (take _ _) with (encode (drop k ps)); [done|].
    rewrite Hdata, Hsplit, Nat2Z.id, <-app_assoc, drop_app_length.
    rewrite take_app_le by (rewrite length_app; lia). rewrite take_ge; [done|].
    rewrite length_app. lia.
  - rewrite (bool_decide_eq_true_2 (sr_data b = [])) by done.
    destruct (Z.eqb_spec (len (encode ps)) (len (encode (take k ps)))); [lia|]. simpl.
    destruct (Hopen (len (encode (take k ps))) (len (encode ps) - len (encode (take k ps))))
      as (rest & e & ->); [lia|lia|lia|].
    destruct (Hat rest e) as (b' & Hb' & <-). eexists. split; [exact Hb'|].
    unfold sr_with. simpl. rewrite Hss.
    destruct (Z.eqb_spec (Z.of_nat s) 0); [lia|]. rewrite rem_shard by done. simpl.
    unfold slice_from. rewrite Nat2Z.id.
    assert (drop (length (encode (take k ps))) (encode ps) = encode (drop k ps)) as ->
      by (rewrite Hsplit; apply drop_app_length).
    done.
Qed.
End ReadBack.

(** ** Properties *)

(** [bitrotVerify] of a streaming shard file never panics, and accepts a file
    exactly when it is a sequence of shards, each preceded by its correct
    checksum, whose data has the expected size. *)
Theorem bitrotVerify_iff `{HashLib} data partSize want shardSize :
  0 < shardSize < 2 ^ 62 -> 0 <= partSize < 2 ^ 55 -> len data < 2 ^ 62 ->
  (exists r, bitrotVerify (mkStream data EOF) (len data) partSize HighwayHash256S want shardSize = Some r) /\
  (bitrotVerify (mkStream data EOF) (len data) partSize HighwayHash256S want shardSize = Some None <->
   exists ps, pieces_ok (Z.to_nat shardSize) ps /\ data = bitrot_encode HighwayHash256S ps /\
     len (concat ps) = partSize).
Proof.
  intros Hs Hp Hd. unfold bitrotVerify, bitrotShardFileSize. cbn [mbind option_bind Algorithm_New].
  change (Algorithm_New HighwayHash256S) with (Some (hash_sum HighwayHash256S)).
  change (negb (HighwayHash256S =? HighwayHash256S)) with false. cbn [mbind option_bind].
  set (hs := hash_size HighwayHash256S). pose proof (hash_size_small HighwayHash256S).
  destruct (ceilFrac_bounds partSize shardSize) as ([? ?] & ? & ?); [lia..|].
  unfold add64, mul64. rewrite (wrap64_id (_ * _)), wrap64_id by (unfold int64_range, hs; nia).
  destruct (Z.eqb_spec (len data) (ceilFrac partSize shardSize * Z.of_nat hs + partSize)) as [Hsz|Hsz]; cbn [negb st_data].
  - split; [apply verify_loop_total; simpl; lia|]. split.
    + intros Hv. destruct (verify_loop_sound HighwayHash256S (Z.to_nat shardSize) ltac:(lia) ltac:(lia)
        (Z.to_nat (ceilFrac partSize shardSize)) (Z.to_nat partSize) (S (length data)) data)
        as (ps & ? & ? & ? & _); [lia|fold hs; nia|nia|intros; nia|by rewrite Z2Nat.id by lia|].
      exists ps. split_and!; [done|done|lia].
    + intros (ps & Hok & -> & Hcat). rewrite <-(Z2Nat.id shardSize) by lia.
      apply verify_loop_encode; [lia|done|lia|].
      rewrite length_encode. pose proof (hash_size_pos HighwayHash256S). nia.
  - split; [by eexists|]. split; [done|]. intros (ps & Hok & -> & Hcat). exfalso. apply Hsz.
    rewrite length_encode, <-Hcat. rewrite <-(Z2Nat.id shardSize) by lia.
    rewrite pieces_ok_count; [fold hs|..]; [lia|lia|lia|lia|done].
Qed.

(** A checksum of one byte, to evaluate the definitions with. *)
#[local] Instance toy_hash : HashLib.
Proof.
  refine {| hash_sum _ data := [default Byte.x00 (Byte.of_N (N.of_nat (length data) mod 256))];
            hash_size _ := 1%nat |}; [done|lia|lia].
Defined.

Lemma bitrotVerify_iff_witness :
  bitrotVerify (mkStream [Byte.x02; Byte.x41; Byte.x42; Byte.x01; Byte.x43] EOF) 5 3
    HighwayHash256S [] 2 = Some None.
Proof.
  apply (bitrotVerify_iff [Byte.x02; Byte.x41; Byte.x42; Byte.x01; Byte.x43] 3 [] 2); [done|done|done|].
  exists [[Byte.x41; Byte.x42]; [Byte.x43]]. split; [|done]. simpl. split_and!; done || lia.
Defined.

(** Reading pieces one after another from piece [k] on. *)
Fixpoint read_pieces `{HashLib} (b : streamingBitrotReader) (s k : nat) (ns : list nat)
  : option (list bytes) :=
  match ns with
  | [] => Some []
  | n :: ns =>
      match streaming_ReadAt b n (Z.of_nat k * Z.of_nat s) with
      | Some (b, Ok p) => (p ::.) <$> read_pieces b s (S k) ns
      | _ => None
      end
  end.

Lemma read_pieces_at `{HashLib} algo s ps : (0 < s)%nat -> pieces_ok s ps ->
  (len ps) * Z.of_nat s < 2 ^ 62 ->
  forall k b, reader_at algo b s ps k -> (k < length ps)%nat ->
  read_pieces b s k (length <$> drop k ps) = Some (drop k ps).
Proof.
  intros Hs Hok Hlt k. remember (length ps - k)%nat as m eqn:Em. revert k Em.
  induction m as [|m IH]; intros k Em b Hat Hk; [lia|].
  destruct (lookup_lt_is_Some_2 ps k Hk) as [p Hp]. rewrite (drop_S _ p) by done. csimpl.
  destruct (ReadAt_at algo b s ps k p) as (b' & -> & Hat'); [done|done|done|nia|done|].
  destruct (decide (S k < length ps)%nat).
  - rewrite IH by (try apply Hat'; lia). done.
  - rewrite drop_ge by lia. done.
Qed.

(** Data written through the streaming bitrot writer in shards is read back
    shard by shard, from whatever shard the first read starts at, by a reader
    built for that file: no read fails and every read returns the bytes written. *)
Theorem bitrot_write_read `{HashLib} (data : bytes) (s k : nat) open :
  (0 < s)%nat -> len data < 2 ^ 55 -> Z.of_nat s < 2 ^ 55 ->
  let ps := blocks_of s data in
  (k < length ps)%nat ->
  exists b, newStreamingBitrotReader open (write_pieces HighwayHash256S [] ps) (len data)
              HighwayHash256S (Z.of_nat s) = Some b /\
    read_pieces b s k (length <$> drop k ps) = Some (drop k ps).
Proof.
  intros Hs Hd Hs' ps Hk. pose proof (pieces_ok_blocks s data Hs) as Hok. fold ps in Hok.
  assert (concat ps = data) as Hcat by (by apply concat_blocks_of).
  assert (len ps = ceilFrac (len data) (Z.of_nat s)) as Hn.
  { rewrite <-Hcat. symmetry. apply pieces_ok_count; [lia|lia|rewrite Hcat; lia|done]. }
  destruct (ceilFrac_bounds (len data) (Z.of_nat s)) as ([? ?] & ? & ?); [lia..|].
  pose proof (hash_size_small HighwayHash256S). pose proof (hash_size_pos HighwayHash256S).
  assert (len (bitrot_encode HighwayHash256S ps) =
    len ps * Z.of_nat (hash_size HighwayHash256S) + len data) as Henc
    by (rewrite length_encode, Hcat; lia).
  rewrite write_pieces_encode.
  2:{ clear -Hok. induction ps as [|p ps IH]; constructor; simpl in Hok; [|apply IH; apply Hok].
      intros ->. simpl in Hok. lia. }
  unfold newStreamingBitrotReader.
  change (Algorithm_New HighwayHash256S) with (Some (hash_sum HighwayHash256S)).
  cbn [mbind option_bind]. eexists. split; [done|].
  unfold add64, mul64. rewrite (wrap64_id (_ * _)), wrap64_id by (unfold int64_range; nia).
  set (b := mkStreaming _ _ _ _ _ _ _).
  assert (reader_fresh HighwayHash256S b s ps) as Hfresh.
  { unfold reader_fresh. simpl. split_and!; [done|done|done|lia|]. left. split.
    - intros ->. simpl in Hk. lia.
    - exists []. by rewrite app_nil_r. }
  destruct (lookup_lt_is_Some_2 ps k Hk) as [p Hp].
  destruct (ReadAt_fresh HighwayHash256S b s ps k p) as (b' & Hat & Heq); [done|done|done|nia|nia|done|].
  transitivity (read_pieces b' s k (length <$> drop k ps)).
  - rewrite (drop_S _ p) by done. csimpl. by rewrite Heq.
  - eapply read_pieces_at; [done|done|nia|done|done].
Qed.

Lemma bitrot_write_read_witness :
  let data := [Byte.x41; Byte.x42; Byte.x43] in
  exists b, newStreamingBitrotReader (fun _ _ => Err errFileNotFound)
      (write_pieces HighwayHash256S [] (blocks_of 2 data)) 3 HighwayHash256S 2 = Some b /\
    read_pieces b 2 1 [1%nat] = Some [[Byte.x43]].
Proof. apply (bitrot_write_read [Byte.x41; Byte.x42; Byte.x43] 2 1); simpl; lia. Defined.

(** A streaming read that succeeds returned exactly the requested number of
    bytes, taken from the stream right after the checksum they hash to, and
    moved the reader past them; every other outcome is an error. *)
Theorem streaming_ReadAt_checked `{HashLib} b rc n offset b' buf :
  sr_rc b = Some rc ->
  streaming_ReadAt b n offset = Some (b', Ok buf) ->
  length buf = n /\ offset = sr_currOffset b /\
  sr_currOffset b' = add64 offset (Z.of_nat n) /\
  exists rest, st_data rc = hash_sum (sr_algo b) buf ++ buf ++ rest /\
    sr_rc b' = Some (mkStream rest (st_end rc)).
Proof.
  intros Hrc Hread. destruct (streaming_ReadAt_Ok _ _ _ _ _ Hread)
    as (b1 & rc1 & rest & Hop & Hcur & Hlen & Hdata & ->).
  unfold sr_opened in Hop. rewrite Hrc in Hop. injection Hop as <- <-.
  split_and!; [done|done|done|]. by exists rest.
Qed.

Lemma streaming_ReadAt_checked_witness :
  let b := mkStreaming [] (fun _ _ => Err EOF)
             (Some (mkStream [Byte.x01; Byte.x43] EOF)) 2 0 HighwayHash256S 2 in
  exists b', streaming_ReadAt b 1 0 = Some (b', Ok [Byte.x43]) /\ sr_currOffset b' = 1.
Proof.
  intros b. eexists. split; [reflexivity|].
  apply (streaming_ReadAt_checked b (mkStream [Byte.x01; Byte.x43] EOF) 1 0 _ [Byte.x43]);
    reflexivity.
Defined.
