(* ===== verification/ParallelRead.v ===== *)
(** * Reading shards in parallel

    Models [parallelReader] of [cmd/erasure-decode.go].  [Read] starts one
    goroutine per reader as read triggers arrive on a channel; the model keeps the
    channel, the running goroutines and the shared buffers, and lets the scheduler
    choose who moves next.  The sequential scan that reads the readers one after
    another until enough succeeded is the specification. *)

From S2P Require Import Prelude Erasure FileInfo Quorum.

(** ** The reader *)

(** The readers are pointers: an index into the store of readers, [nil] being
    [None]. *)
Record parallelReader := mkPR {
  pr_readers : list (option nat);
  pr_orgReaders : list (option nat);
  pr_dataBlocks : Z;
  pr_offset : Z;
  pr_shardSize : Z;
  pr_shardFileSize : Z;
  pr_readerToBuf : list nat
}.

(** [None] is a division by a zero block size. *)
Definition newParallelReader (readers : list (option nat)) (e : Erasure) (offset totalLength : Z)
  : option parallelReader :=
  if blockSize e =? 0 then None
  else
    shardFileSize ← ShardFileSize e totalLength;
    Some (mkPR readers readers (dataBlocks e) (offset / blockSize e * ShardSize e)%int64
            (ShardSize e) shardFileSize (seq 0 (length readers))).

(** The loop of [preferReaders] at [i]; [next] is the next slot to fill. *)
Fixpoint prefer_loop (prefer : list bool) (i next : nat) (readers : list (option nat))
    (readerToBuf : list nat) : list (option nat) * list nat :=
  match prefer with
  | [] => (readers, readerToBuf)
  | ok :: prefer =>
      let r := default None (readers !! i) in
      if negb ok || bool_decide (r = None) then prefer_loop prefer (S i) next readers readerToBuf
      else if (i =? next)%nat then prefer_loop prefer (S i) (S next) readers readerToBuf
      else
        let readers := <[i := default None (readers !! next)]> (<[next := r]> readers) in
        let readerToBuf := <[i := next]> (<[next := i]> readerToBuf) in
        prefer_loop prefer (S i) (S next) readers readerToBuf
  end.

Definition preferReaders (p : parallelReader) (prefer : list bool) : parallelReader :=
  if negb (length prefer =? length (pr_orgReaders p))%nat then p
  else
    let '(readers, r2b) := prefer_loop prefer 0 0 (pr_orgReaders p) (pr_readerToBuf p) in
    mkPR readers (pr_orgReaders p) (pr_dataBlocks p) (pr_offset p) (pr_shardSize p)
      (pr_shardFileSize p) r2b.

Definition canDecode (dataBlocks : Z) (buf : list bytes) : bool :=
  dataBlocks <=? Z.of_nat (count present buf).

(** ** One round of reads *)

Section Read.
Context {R : Type}.
(** [ReadAt(buf, offset)] of a reader with [len(buf)] given: the state it
    leaves and [buf[:n]] or the error. *)
Context (ReadAt : R -> Z -> Z -> R * result bytes).

(** What the goroutines share. *)
Record shared := mkShared {
  sh_newBuf : list bytes;
  sh_readers : list (option nat);
  sh_orgReaders : list (option nat);
  sh_store : list R;
  sh_missing : bool;
  sh_bitrot : bool
}.

(** The loop's own state: the trigger channel, the goroutines still running,
    the next reader, and whether the loop has been left. *)
Record read_state := mkRS {
  rs_chan : list bool;
  rs_running : list nat;
  rs_index : nat;
  rs_done : bool;
  rs_shared : shared
}.

Context (dataBlocks shardSize offset : Z) (readerToBuf : list nat).

(** The body of the goroutine for slot [i]: its effect and the trigger it
    sends.  [p.buf] only recycles allocations: a read that succeeds fills its
    buffer anew. *)
Definition task (i : nat) (d : shared) : shared * bool :=
  match default None (sh_readers d !! i) with
  | None => (d, true)
  | Some id =>
      let bufIdx := default i (readerToBuf !! i) in
      match sh_store d !! id with
      | None => (d, true)
      | Some rr =>
          match ReadAt rr shardSize offset with
          | (rr, Err err) =>
              (mkShared (sh_newBuf d) (<[i := None]> (sh_readers d))
                 (<[bufIdx := None]> (sh_orgReaders d)) (<[id := rr]> (sh_store d))
                 (sh_missing d || error_Is err errFileNotFound)
                 (sh_bitrot d || (negb (error_Is err errFileNotFound) &&
                                  error_Is err errFileCorrupt)), true)
          | (rr, Ok b) =>
              (mkShared (<[bufIdx := b]> (sh_newBuf d)) (sh_readers d) (sh_orgReaders d)
                 (<[id := rr]> (sh_store d)) (sh_missing d) (sh_bitrot d), false)
          end
      end
  end.

(** The receiving loop: [None] when the channel is empty or the loop was
    left. *)
Definition main_step (s : read_state) : option read_state :=
  if rs_done s then None
  else
    match rs_chan s with
    | [] => None
    | readTrigger :: chan =>
        if canDecode dataBlocks (sh_newBuf (rs_shared s)) ||
           (rs_index s =? length (sh_readers (rs_shared s)))%nat
        then Some (mkRS chan (rs_running s) (rs_index s) true (rs_shared s))
        else if negb readTrigger then
          Some (mkRS chan (rs_running s) (rs_index s) false (rs_shared s))
        else
          Some (mkRS chan (rs_running s ++ [rs_index s]) (S (rs_index s)) false (rs_shared s))
    end.

(** Goroutine [i] runs; its send blocks when the channel is full. *)
Definition task_step (i : nat) (s : read_state) : option read_state :=
  if negb (bool_decide (i ∈ rs_running s)) then None
  else if (length (sh_readers (rs_shared s)) <=? length (rs_chan s))%nat then None
  else
    let '(d, trigger) := task i (rs_shared s) in
    Some (mkRS (rs_chan s ++ [trigger]) (List.remove Nat.eq_dec i (rs_running s)) (rs_index s)
            (rs_done s) d).

Inductive step : read_state -> read_state -> Prop :=
| step_main s s' : main_step s = Some s' -> step s s'
| step_task i s s' : task_step i s = Some s' -> step s s'.

Definition final (s : read_state) : bool := rs_done s && bool_decide (rs_running s = []).

Definition init_state (d : shared) : read_state :=
  mkRS (replicate (Z.to_nat dataBlocks) true) [] 0 false d.

(** A scheduler: [c] orders the candidates, the first that can move does. *)
Definition candidates (s : read_state) (c : nat) : list (option nat) :=
  let l := None :: (Some <$> rs_running s) in
  let k := (c mod length l)%nat in drop k l ++ take k l.

Definition try_step (s : read_state) (who : option nat) : option read_state :=
  match who with None => main_step s | Some i => task_step i s end.

Fixpoint first_step (s : read_state) (l : list (option nat)) : option read_state :=
  match l with
  | [] => None
  | who :: l => match try_step s who with Some s' => Some s' | None => first_step s l end
  end.

(** [None] is a deadlock, or fuel that ran out. *)
Fixpoint run (fuel : nat) (sched : list nat) (s : read_state) : option read_state :=
  if final s then Some s
  else
    match fuel with
    | O => None
    | S fuel =>
        s' ← first_step s (candidates s (default 0%nat (head sched)));
        run fuel (tail sched) s'
    end.

(** The sequential reading: slot after slot until [dataBlocks] succeeded. *)
Fixpoint scan (slots i : nat) (got : Z) (d : shared) : shared :=
  match slots with
  | O => d
  | S slots =>
      if dataBlocks <=? got then d
      else
        let '(d, trigger) := task i d in
        scan slots (S i) (if trigger then got else got + 1) d
  end.
End Read.

Arguments mkShared {R}.
Arguments mkRS {R}.

Section ReadCall.
Context {R : Type} (ReadAt : R -> Z -> Z -> R * result bytes).

(** The outcome: the reader and the store it leaves, the buffers ([None] is
    [nil]) and the error. *)
Definition read_outcome := (parallelReader * list R * option (list bytes) * option error)%type.

Definition read_return (p : parallelReader) (shardSize : Z) (d : shared (R := R)) : read_outcome :=
  let p' off := mkPR (sh_readers d) (sh_orgReaders d) (pr_dataBlocks p) off shardSize
                  (pr_shardFileSize p) (pr_readerToBuf p) in
  if canDecode (pr_dataBlocks p) (sh_newBuf d) then
    (p' (add64 (pr_offset p) shardSize), sh_store d, Some (sh_newBuf d),
     if sh_missing d then Some errFileNotFound
     else if sh_bitrot d then Some errFileCorrupt else None)
  else (p' (pr_offset p), sh_store d, None, Some errErasureReadQuorum).

Definition read_shardSize (p : parallelReader) : Z :=
  if pr_shardFileSize p <? add64 (pr_offset p) (pr_shardSize p)
  then sub64 (pr_shardFileSize p) (pr_offset p) else pr_shardSize p.

Definition read_shared (p : parallelReader) (store : list R) : shared (R := R) :=
  mkShared (replicate (length (pr_readers p)) []) (pr_readers p) (pr_orgReaders p) store
    false false.

Definition with_shardSize (p : parallelReader) (shardSize : Z) : parallelReader :=
  mkPR (pr_readers p) (pr_orgReaders p) (pr_dataBlocks p) (pr_offset p) shardSize
    (pr_shardFileSize p) (pr_readerToBuf p).

(** [Read] under a schedule.  [None]: a buffer of negative size panics, more data
    blocks than readers block the first sends for ever, and a deadlock. *)
Definition Read (sched : list nat) (p : parallelReader) (store : list R) : option read_outcome :=
  let n := length (pr_readers p) in
  let shardSize := read_shardSize p in
  if shardSize =? 0 then
    Some (with_shardSize p shardSize, store, Some (replicate n []), None)
  else if ((shardSize <? 0) && existsb (fun r => bool_decide (is_Some r)) (pr_readers p)) ||
          (Z.of_nat n <? pr_dataBlocks p) then None
  else
    s ← run ReadAt (pr_dataBlocks p) shardSize (pr_offset p) (pr_readerToBuf p)
          (3 * n + Z.to_nat (pr_dataBlocks p) + 2) sched
          (init_state (pr_dataBlocks p) (read_shared p store));
    Some (read_return p shardSize (rs_shared s)).

(** [Read] as a sequential scan. *)
Definition Read_seq (p : parallelReader) (store : list R) : option read_outcome :=
  let n := length (pr_readers p) in
  let shardSize := read_shardSize p in
  if shardSize =? 0 then
    Some (with_shardSize p shardSize, store, Some (replicate n []), None)
  else if ((shardSize <? 0) && existsb (fun r => bool_decide (is_Some r)) (pr_readers p)) ||
          (Z.of_nat n <? pr_dataBlocks p) then None
  else
    Some (read_return p shardSize
      (scan ReadAt (pr_dataBlocks p) shardSize (pr_offset p) (pr_readerToBuf p) n 0 0
         (read_shared p store))).
End ReadCall.

(** ** Goroutines commute *)

Section Facts.
Context {R : Type} (ReadAt : R -> Z -> Z -> R * result bytes).
Context (dataBlocks shardSize offset : Z) (readerToBuf : list nat) (n : nat).
(** Each slot has its own buffer. *)
Context (r2b_len : length readerToBuf = n) (r2b_nodup : NoDup readerToBuf)
  (r2b_small : Forall (fun b => b < n)%nat readerToBuf).

Local Abbreviation sh := (shared (R := R)).
Local Abbreviation task := (task ReadAt shardSize offset readerToBuf).
Implicit Types d : sh.

Definition buf_of (i : nat) : nat := default i (readerToBuf !! i).

Lemma buf_of_lt i : (i < n)%nat -> (buf_of i < n)%nat.
Proof.
  intros Hi. unfold buf_of. destruct (lookup_lt_is_Some_2 readerToBuf i) as [b Hb]; [lia|].
  rewrite Hb. simpl. rewrite Forall_lookup in r2b_small. by eapply r2b_small.
Qed.

Lemma buf_of_inj i j : (i < n)%nat -> (j < n)%nat -> buf_of i = buf_of j -> i = j.
Proof.
  intros Hi Hj. unfold buf_of.
  destruct (lookup_lt_is_Some_2 readerToBuf i) as [b Hb]; [lia|].
  destruct (lookup_lt_is_Some_2 readerToBuf j) as [c Hc]; [lia|].
  rewrite Hb, Hc. simpl. intros ->. by eapply NoDup_lookup.
Qed.

(** The readers of a round are distinct and all slices have its length. *)
Definition shared_wf d : Prop :=
  length (sh_newBuf d) = n /\ length (sh_readers d) = n /\ length (sh_orgReaders d) = n /\
  forall i j a, sh_readers d !! i = Some (Some a) -> sh_readers d !! j = Some (Some a) -> i = j.

(** What slot [i] would do: nothing, or the read of one reader. *)
Definition act (i : nat) d : option (nat * (R * result bytes)) :=
  id ← default None (sh_readers d !! i);
  rr ← sh_store d !! id;
  Some (id, ReadAt rr shardSize offset).

Definition perform (i : nat) (a : option (nat * (R * result bytes))) d : sh :=
  match a with
  | None => d
  | Some (id, (rr, Err err)) =>
      mkShared (sh_newBuf d) (<[i := None]> (sh_readers d))
        (<[buf_of i := None]> (sh_orgReaders d)) (<[id := rr]> (sh_store d))
        (sh_missing d || error_Is err errFileNotFound)
        (sh_bitrot d || (negb (error_Is err errFileNotFound) && error_Is err errFileCorrupt))
  | Some (id, (rr, Ok b)) =>
      mkShared (<[buf_of i := b]> (sh_newBuf d)) (sh_readers d) (sh_orgReaders d)
        (<[id := rr]> (sh_store d)) (sh_missing d) (sh_bitrot d)
  end.

Definition retry (a : option (nat * (R * result bytes))) : bool :=
  match a with Some (_, (_, Ok _)) => false | _ => true end.

Lemma task_act i d : task i d = (perform i (act i d) d, retry (act i d)).
Proof.
  unfold ParallelRead.task, act, perform, retry, buf_of.
  destruct (default None (sh_readers d !! i)) as [id|]; simpl; [|done].
  destruct (sh_store d !! id) as [rr|]; simpl; [|done].
  by destruct (ReadAt rr shardSize offset) as [rr' [b|e]].
Qed.

Lemma act_id i d id x : act i d = Some (id, x) -> sh_readers d !! i = Some (Some id).
Proof.
  unfold act. destruct (sh_readers d !! i) as [[id'|]|]; simpl; [|done..].
  destruct (sh_store d !! id'); simpl; [|done]. by intros [= <- _].
Qed.

Lemma perform_wf i d : shared_wf d -> shared_wf (perform i (act i d) d).
Proof.
  intros (H1 & H2 & H3 & Hinj). unfold perform.
  destruct (act i d) as [[id [rr [b|e]]]|]; [| |done]; unfold shared_wf; simpl;
    rewrite ?length_insert; split_and!; try done.
  intros k l a Hk Hl. apply (Hinj k l a).
  - destruct (decide (k = i)) as [->|]; [|by rewrite list_lookup_insert_ne in Hk].
    apply list_lookup_insert_Some in Hk. naive_solver.
  - destruct (decide (l = i)) as [->|]; [|by rewrite list_lookup_insert_ne in Hl].
    apply list_lookup_insert_Some in Hl. naive_solver.
Qed.

Lemma act_other i j d : shared_wf d -> i <> j -> act j (perform i (act i d) d) = act j d.
Proof.
  intros (_ & _ & _ & Hinj) Hij. destruct (act i d) as [[id [rr res]]|] eqn:Ei; [|done].
  pose proof (act_id _ _ _ _ Ei) as Hi. unfold act, perform.
  assert (forall k, default None (sh_readers d !! j) = Some k -> id <> k) as Hne.
  { intros k Hk ->. destruct (sh_readers d !! j) as [[?|]|] eqn:Ej; simpl in Hk; try done.
    injection Hk as ->. apply Hij. by apply (Hinj i j k). }
  assert (default None (sh_readers (match res with
    | Ok b => mkShared (<[buf_of i := b]> (sh_newBuf d)) (sh_readers d) (sh_orgReaders d)
        (<[id := rr]> (sh_store d)) (sh_missing d) (sh_bitrot d)
    | Err err => mkShared (sh_newBuf d) (<[i := None]> (sh_readers d))
        (<[buf_of i := None]> (sh_orgReaders d)) (<[id := rr]> (sh_store d))
        (sh_missing d || error_Is err errFileNotFound)
        (sh_bitrot d || (negb (error_Is err errFileNotFound) && error_Is err errFileCorrupt))
    end) !! j) = default None (sh_readers d !! j)) as ->.
  { destruct res; simpl; [done|]. by rewrite list_lookup_insert_ne. }
  destruct (default None (sh_readers d !! j)) as [k|] eqn:Ek; simpl; [|done].
  specialize (Hne k eq_refl). destruct res; simpl; by rewrite list_lookup_insert_ne.
Qed.

Lemma perform_comm i j d : shared_wf d -> (i < n)%nat -> (j < n)%nat -> i <> j ->
  perform j (act j d) (perform i (act i d) d) = perform i (act i d) (perform j (act j d) d).
Proof.
  intros (_ & _ & _ & Hinj) Hi Hj Hij.
  assert (buf_of i <> buf_of j) as Hb by (intros E; apply Hij; by apply buf_of_inj).
  destruct (act i d) as [[a [ra resa]]|] eqn:Ei; [|done].
  destruct (act j d) as [[b [rb resb]]|] eqn:Ej; [|by destruct resa].
  assert (a <> b) as Hab.
  { intros ->. apply Hij. eapply Hinj; eapply act_id; eassumption. }
  unfold perform. destruct resa, resb; simpl; f_equal; auto using list_insert_insert_ne;
    repeat match goal with |- context [error_Is ?e ?t] => destruct (error_Is e t) end;
    destruct (sh_missing d), (sh_bitrot d); done.
Qed.

(** ** The effect of a set of goroutines *)

Definition effects (L : list nat) d : sh := fold_left (fun d i => perform i (act i d) d) L d.
Definition good d (i : nat) : bool := negb (retry (act i d)).

Lemma effects_app L K d : effects (L ++ K) d = effects K (effects L d).
Proof. apply fold_left_app. Qed.

Lemma effects_wf L d : shared_wf d -> shared_wf (effects L d).
Proof.
  revert d. induction L as [|i L IH]; intros d Hd; [done|]. apply IH. by apply perform_wf.
Qed.

Lemma act_effects i L d : shared_wf d -> i ∉ L -> act i (effects L d) = act i d.
Proof.
  revert d. induction L as [|j L IH]; intros d Hd Hi; [done|].
  apply not_elem_of_cons in Hi as [Hij Hi]. cbn [effects fold_left].
  fold (effects L (perform j (act j d) d)). rewrite IH by (done || by apply perform_wf).
  by apply act_other.
Qed.

Lemma effects_perm L K d : shared_wf d -> NoDup L -> Forall (fun i => i < n)%nat L -> L ≡ₚ K ->
  effects L d = effects K d.
Proof.
  intros Hd Hnd Hlt Hp. revert d Hd. induction Hp as [|i L K Hp IH|i j L|L M K Hp1 IH1 Hp2 IH2];
    intros d Hd; [done| | |].
  - apply NoDup_cons in Hnd as [_ Hnd]. apply Forall_cons in Hlt as [_ Hlt].
    apply IH; [done|done|by apply perform_wf].
  - apply NoDup_cons in Hnd as [Hj Hnd]. apply Forall_cons in Hlt as [Hltj Hlt].
    apply Forall_cons in Hlt as [Hlti _]. apply not_elem_of_cons in Hj as [Hij _].
    cbn [effects fold_left]. f_equal.
    rewrite !act_other by (done || congruence). apply perform_comm; done || congruence.
  - rewrite IH1 by done. apply IH2; [by rewrite <-Hp1|by rewrite <-Hp1|done].
Qed.

(** What a set of goroutines leaves in the slots. *)
Lemma newBuf_other L d k : (forall i, i ∈ L -> buf_of i <> k) ->
  sh_newBuf (effects L d) !! k = sh_newBuf d !! k.
Proof.
  revert d. induction L as [|i L IH]; intros d Hk; [done|]. cbn [effects fold_left].
  fold (effects L (perform i (act i d) d)). rewrite IH by (intros; apply Hk; by right).
  unfold perform. destruct (act i d) as [[id [rr [b|e]]]|]; simpl; [|done|done].
  rewrite list_lookup_insert_ne; [done|]. apply Hk. left.
Qed.

Lemma newBuf_untouched L d i : Forall (fun i => i < n)%nat L -> (i < n)%nat -> i ∉ L ->
  sh_newBuf (effects L d) !! buf_of i = sh_newBuf d !! buf_of i.
Proof.
  intros Hlt Hi HiL. apply newBuf_other. intros j Hj E. rewrite Forall_forall in Hlt.
  apply buf_of_inj in E; [by subst|by apply Hlt|done].
Qed.

Lemma perform_newBuf i d : (i < n)%nat -> shared_wf d ->
  sh_newBuf (perform i (act i d) d) !! buf_of i =
    match act i d with Some (_, (_, Ok b)) => Some b | _ => sh_newBuf d !! buf_of i end.
Proof.
  intros Hi (Hl & _). unfold perform. destruct (act i d) as [[id [rr [b|err]]]|]; simpl; [|done..].
  apply list_lookup_insert_eq. rewrite Hl. by apply buf_of_lt.
Qed.

Lemma perform_newBuf_ne i j d : (i < n)%nat -> (j < n)%nat -> i <> j ->
  sh_newBuf (perform i (act i d) d) !! buf_of j = sh_newBuf d !! buf_of j.
Proof.
  intros Hi Hj Hij. unfold perform. destruct (act i d) as [[id [rr [b|err]]]|]; simpl; [|done..].
  apply list_lookup_insert_ne. intros E. by apply Hij, buf_of_inj.
Qed.

Lemma effects_newBuf L : forall d i, shared_wf d -> NoDup L -> Forall (fun i => i < n)%nat L ->
  (i < n)%nat ->
  sh_newBuf (effects L d) !! buf_of i =
    match act i d with
    | Some (_, (_, Ok b)) => if bool_decide (i ∈ L) then Some b else sh_newBuf d !! buf_of i
    | _ => sh_newBuf d !! buf_of i
    end.
Proof.
  induction L as [|j L IH]; intros d i Hd Hnd Hlt Hi; cbn [effects fold_left].
  { rewrite bool_decide_eq_false_2 by apply not_elem_of_nil.
    by destruct (act i d) as [[? [? [?|?]]]|]. }
  apply NoDup_cons in Hnd as [Hj Hnd]. apply Forall_cons in Hlt as [Hjn Hlt].
  fold (effects L (perform j (act j d) d)). destruct (decide (i = j)) as [->|Hij].
  - rewrite (newBuf_untouched L) by done. rewrite perform_newBuf by done.
    rewrite bool_decide_eq_true_2 by left. done.
  - rewrite IH by (done || by apply perform_wf). rewrite act_other by done.
    rewrite perform_newBuf_ne by done.
    rewrite (bool_decide_ext (i ∈ j :: L) (i ∈ L)); [done|]. rewrite elem_of_cons. tauto.
Qed.

Lemma effects_readers L : forall d i, shared_wf d -> NoDup L ->
  sh_readers (effects L d) !! i =
    match act i d with
    | Some (_, (_, Err _)) => if bool_decide (i ∈ L) then Some None else sh_readers d !! i
    | _ => sh_readers d !! i
    end.
Proof.
  induction L as [|j L IH]; intros d i Hd Hnd; cbn [effects fold_left].
  { rewrite bool_decide_eq_false_2 by apply not_elem_of_nil.
    by destruct (act i d) as [[? [? [?|?]]]|]. }
  apply NoDup_cons in Hnd as [Hj Hnd]. fold (effects L (perform j (act j d) d)).
  rewrite IH by (done || by apply perform_wf). destruct (decide (i = j)) as [->|Hij].
  - rewrite (bool_decide_eq_false_2 (j ∈ L)) by done.
    rewrite (bool_decide_eq_true_2 (j ∈ j :: L)) by left.
    transitivity (sh_readers (perform j (act j d) d) !! j);
      [by destruct (act j (perform j (act j d) d)) as [[? [? [?|?]]]|]|].
    unfold perform. destruct (act j d) as [[id [rr [b|err]]]|] eqn:Ea; simpl; [done| |done].
    apply list_lookup_insert_eq. apply act_id in Ea. by eapply lookup_lt_Some.
  - rewrite act_other by done.
    rewrite (bool_decide_ext (i ∈ j :: L) (i ∈ L)) by (rewrite elem_of_cons; tauto).
    assert (sh_readers (perform j (act j d) d) !! i = sh_readers d !! i) as ->; [|done].
    unfold perform. destruct (act j d) as [[id [rr [b|err]]]|]; simpl; [done| |done].
    by apply list_lookup_insert_ne.
Qed.

(** A reader that is left in its slot is left for the caller too. *)
Lemma effects_org L : forall d, NoDup readerToBuf ->
  (forall i a, sh_readers d !! i = Some (Some a) -> readerToBuf !! i = Some a) ->
  (forall i a, sh_readers d !! i = Some (Some a) -> sh_orgReaders d !! a = Some (Some a)) ->
  forall i a, sh_readers (effects L d) !! i = Some (Some a) ->
    sh_orgReaders (effects L d) !! a = Some (Some a).
Proof.
  induction L as [|j L IH]; intros d Hnd Hmap Horg; [done|]. cbn [effects fold_left].
  fold (effects L (perform j (act j d) d)). apply IH; [done|..];
    intros i a; unfold perform; destruct (act j d) as [[id [rr [b|err]]]|] eqn:Ea;
    cbn [sh_readers sh_orgReaders]; intros Hi; try by eauto.
  all: destruct (decide (i = j)) as [->|Hij];
    [apply list_lookup_insert_Some in Hi; naive_solver|rewrite list_lookup_insert_ne in Hi by done].
  - by apply Hmap.
  - apply act_id, Hmap in Ea. rewrite list_lookup_insert_ne; [by eapply Horg|].
    unfold buf_of. rewrite Ea. simpl. intros ->. apply Hmap in Hi.
    by pose proof (NoDup_lookup _ _ _ _ Hnd Hi Ea).
Qed.

Lemma perform_readers_None i d k a : sh_readers (perform i (act i d) d) !! k = Some (Some a) ->
  sh_readers d !! k = Some (Some a).
Proof.
  unfold perform. destruct (act i d) as [[id [rr [b|err]]]|]; simpl; [done| |done].
  intros Hk. destruct (decide (k = i)) as [->|]; [|by rewrite list_lookup_insert_ne in Hk].
  apply list_lookup_insert_Some in Hk. naive_solver.
Qed.

(** A reader is only touched by the goroutine of its slot. *)
Lemma effects_store_other K : forall d i a,
  (forall k, k <> i -> sh_readers d !! k <> Some (Some a)) -> i ∉ K ->
  sh_store (effects K d) !! a = sh_store d !! a.
Proof.
  induction K as [|j K IH]; intros d i a Hown Hi; [done|]. cbn [effects fold_left].
  fold (effects K (perform j (act j d) d)). apply not_elem_of_cons in Hi as [Hij Hi].
  rewrite (IH _ i); [| |done].
  - unfold perform. destruct (act j d) as [[id [rr res]]|] eqn:Ea; [|done].
    assert (id <> a) by (intros ->; apply (Hown j); [done|by eapply act_id]).
    destruct res; simpl; by apply list_lookup_insert_ne.
  - intros k Hk Hka. apply (Hown k Hk). by eapply perform_readers_None.
Qed.

Lemma effects_store L : forall d i a, shared_wf d -> NoDup L ->
  sh_readers d !! i = Some (Some a) ->
  sh_store (effects L d) !! a =
    match act i d with
    | Some (_, (rr, _)) => if bool_decide (i ∈ L) then Some rr else sh_store d !! a
    | None => sh_store d !! a
    end.
Proof.
  induction L as [|j L IH]; intros d i a Hd Hnd Ha; cbn [effects fold_left].
  { rewrite bool_decide_eq_false_2 by apply not_elem_of_nil. by destruct (act i d) as [[? [? ?]]|]. }
  apply NoDup_cons in Hnd as [Hj Hnd]. fold (effects L (perform j (act j d) d)).
  assert (forall k, k <> i -> sh_readers d !! k <> Some (Some a)) as Hown.
  { intros k Hk Hka. apply Hk. by apply (proj2 (proj2 (proj2 Hd)) k i a). }
  destruct (decide (i = j)) as [->|Hij].
  - rewrite (effects_store_other L _ j); [| |done].
    2:{ intros k Hk Hka. apply (Hown k Hk). by eapply perform_readers_None. }
    rewrite bool_decide_eq_true_2 by left. unfold perform.
    destruct (act j d) as [[id [rr res]]|] eqn:Ea; [|done].
    pose proof (act_id _ _ _ _ Ea) as Hid. assert (id = a) as -> by congruence.
    assert (a < length (sh_store d))%nat as Hlt.
    { unfold act in Ea. rewrite Hid in Ea. simpl in Ea.
      destruct (sh_store d !! a) eqn:Es; [|done]. by eapply lookup_lt_Some. }
    destruct res; simpl; by apply list_lookup_insert_eq.
  - rewrite (bool_decide_ext (i ∈ j :: L) (i ∈ L)) by (rewrite elem_of_cons; tauto).
    assert (sh_store (perform j (act j d) d) !! a = sh_store d !! a) as Hst.
    { apply (effects_store_other [j] d i a Hown). by rewrite list_elem_of_singleton. }
    rewrite <-Hst, <-(act_other j i d) by done. apply IH; [by apply perform_wf|done|].
    unfold perform. destruct (act j d) as [[id [rr [b|err]]]|]; simpl; [done| |done].
    by rewrite list_lookup_insert_ne.
Qed.

(** A read that succeeds returns bytes. *)
Context (ReadAt_full : forall r r' b, ReadAt r shardSize offset = (r', Ok b) -> b <> []).

Lemma act_Ok i d id rr b : act i d = Some (id, (rr, Ok b)) -> b <> [].
Proof.
  unfold act. destruct (default None (sh_readers d !! i)) as [id'|]; simpl; [|done].
  destruct (sh_store d !! id') as [r|]; simpl; [|done].
  intros [= <- Hr]. by eapply ReadAt_full.
Qed.

Lemma count_present_effects L d : shared_wf d -> sh_newBuf d = replicate n [] ->
  NoDup L -> Forall (fun i => i < n)%nat L ->
  count present (sh_newBuf (effects L d)) = count (good d) L.
Proof.
  intros Hd Hz. induction L as [|i L IH] using rev_ind; intros Hnd Hlt.
  { simpl. rewrite Hz. clear. induction n as [|k IH]; [done|].
    rewrite replicate_S, count_cons. exact IH. }
  apply NoDup_app in Hnd as (Hnd & Hdis & _). apply Forall_app in Hlt as [Hlt Hi].
  rewrite Forall_singleton in Hi. specialize (IH Hnd Hlt).
  assert (i ∉ L) as HiL by (intros Hin; apply (Hdis i Hin); by apply list_elem_of_singleton).
  rewrite effects_app, count_app, count_cons, count_nil. cbn [effects fold_left].
  rewrite act_effects by done. unfold good at 2. unfold perform, retry.
  destruct (act i d) as [[id [rr [b|e]]]|] eqn:Ea; simpl; [|lia|lia].
  assert (sh_newBuf (effects L d) !! buf_of i = Some []) as Hempty.
  { rewrite newBuf_other, Hz.
    - apply lookup_replicate_2. apply buf_of_lt. exact Hi.
    - intros j Hj Heq. rewrite Forall_forall in Hlt. apply buf_of_inj in Heq; [|by apply Hlt|done].
      by subst. }
  pose proof (count_insert present _ _ b _ Hempty) as Hc.
  assert (present b = true) as Hb
    by (unfold present; rewrite bool_decide_eq_false_2; [done|by eapply act_Ok]).
  rewrite Hb in Hc. change (present []) with false in Hc. cbv iota in Hc. lia.
Qed.

(** ** The loop and its goroutines *)

Context (D : nat) (D_pos : (0 < D)%nat) (D_le : (D <= n)%nat) (D_eq : dataBlocks = Z.of_nat D).
Context (d0 : sh) (d0_wf : shared_wf d0) (d0_empty : sh_newBuf d0 = replicate n []).

Local Abbreviation state := (read_state (R := R)).
Local Abbreviation step := (step ReadAt dataBlocks shardSize offset readerToBuf).
Local Abbreviation goods L := (count (good d0) L).

(** [L]: the goroutines that are done; [fc]: the [false] triggers received. *)
Definition loop_inv (s : state) (L : list nat) : Prop :=
  L ++ rs_running s ≡ₚ seq 0 (rs_index s) /\ (rs_index s <= n)%nat /\
  rs_shared s = effects L d0 /\
  (0 < rs_index s -> goods (seq 0 (rs_index s - 1)) < D)%nat /\
  if rs_done s then
    (D <= goods L \/ rs_index s = n)%nat /\
    (length (rs_chan s) + length (rs_running s) < D)%nat
  else exists fc, (length (rs_chan s) + length (rs_running s) + fc = D /\
    fc + count negb (rs_chan s) = goods L /\ fc < D)%nat.

Lemma loop_inv_init : loop_inv (init_state dataBlocks d0) [].
Proof.
  unfold loop_inv, init_state. simpl. split_and!; [done|lia|done|lia|].
  rewrite D_eq, Nat2Z.id, length_replicate. exists 0%nat. split_and!; [lia| |lia].
  rewrite count_nil. clear. induction D as [|k IH]; [done|]. rewrite replicate_S, count_cons. exact IH.
Qed.

Lemma inv_slots s L : loop_inv s L ->
  NoDup (L ++ rs_running s) /\ Forall (fun i => i < n)%nat (L ++ rs_running s) /\
  count present (sh_newBuf (rs_shared s)) = goods L /\ shared_wf (rs_shared s).
Proof.
  intros (Hp & Hn & -> & _). assert (NoDup (L ++ rs_running s)) as Hnd
    by (rewrite Hp; apply NoDup_seq).
  assert (Forall (fun i => i < n)%nat (L ++ rs_running s)) as Hlt.
  { apply Forall_forall. intros i. rewrite Hp, elem_of_seq. lia. }
  split_and!; [done|done| |by apply effects_wf].
  apply count_present_effects; [done|done| |].
  - by apply NoDup_app in Hnd as [? _].
  - by apply Forall_app in Hlt as [? _].
Qed.

Lemma main_inv s s' L : loop_inv s L -> main_step dataBlocks s = Some s' -> loop_inv s' L.
Proof.
  intros Hinv. destruct (inv_slots s L Hinv) as (Hnd & Hlt & Hcnt & (_ & Hrl & _)).
  destruct Hinv as (Hp & Hn & Hsh & Hmin & Hrest). unfold main_step, canDecode.
  destruct (rs_done s); [done|]. destruct Hrest as (fc & Hlen & Hfc & HfcD).
  destruct (rs_chan s) as [|t chan]; [done|]. rewrite Hcnt, Hrl. rewrite count_cons in Hfc.
  simpl in Hlen. rewrite D_eq.
  destruct (Z.leb_spec (Z.of_nat D) (Z.of_nat (goods L))) as [Hd|Hd]; simpl.
  { intros [= <-]. unfold loop_inv. simpl. split_and!; try done; lia. }
  destruct (Nat.eqb_spec (rs_index s) n) as [Hi|Hi].
  { intros [= <-]. unfold loop_inv. simpl. split_and!; try done; lia. }
  destruct t; simpl in *.
  - intros [= <-]. unfold loop_inv. cbn [rs_running rs_index rs_shared rs_chan rs_done]. split_and!.
    + rewrite app_assoc, Hp, seq_S. done.
    + lia.
    + done.
    + intros _. replace (S (rs_index s) - 1)%nat with (rs_index s) by lia. rewrite <-Hp, count_app.
      pose proof (count_le_length (good d0) (rs_running s)).
      pose proof (count_le_length negb chan). lia.
    + exists fc. rewrite length_app. simpl. lia.
  - intros [= <-]. unfold loop_inv. simpl. split_and!; try done. exists (S fc). lia.
Qed.

Lemma remove_perm i (l : list nat) : NoDup l -> i ∈ l -> l ≡ₚ i :: List.remove Nat.eq_dec i l.
Proof.
  induction l as [|j l IH]; intros Hnd Hi; [by apply elem_of_nil in Hi|].
  apply NoDup_cons in Hnd as [Hj Hnd]. simpl. destruct (Nat.eq_dec i j) as [->|Hij].
  - rewrite notin_remove; [done|]. by rewrite <-list_elem_of_In.
  - apply elem_of_cons in Hi as [?|Hi]; [done|]. rewrite (IH Hnd Hi) at 1. apply Permutation_swap.
Qed.

Lemma task_inv i s s' L : loop_inv s L ->
  task_step ReadAt shardSize offset readerToBuf i s = Some s' -> loop_inv s' (L ++ [i]).
Proof.
  intros Hinv. destruct (inv_slots s L Hinv) as (Hnd & Hlt & _ & _).
  destruct Hinv as (Hp & Hn & Hsh & Hmin & Hrest). unfold task_step.
  destruct (bool_decide_reflect (i ∈ rs_running s)) as [Hi|]; simpl; [|done].
  destruct (_ <=? _)%nat; [done|]. rewrite task_act. intros [= <-].
  apply NoDup_app in Hnd as (HndL & Hdis & Hndr).
  pose proof (remove_perm i _ Hndr Hi) as Hrem.
  assert (i ∉ L) as HiL by (intros HiL; by apply (Hdis i HiL)).
  pose proof (Permutation_length Hrem) as Hrl. simpl in Hrl.
  assert (goods (L ++ [i]) = goods L + (if retry (act i (rs_shared s)) then 0 else 1))%nat as Hg.
  { rewrite count_app, count_cons, count_nil. unfold good at 2. rewrite Hsh, act_effects by done.
    destruct (retry (act i d0)); simpl; lia. }
  unfold loop_inv. simpl. split_and!; [|done| |done|].
  - rewrite <-app_assoc. simpl. by rewrite <-Hrem.
  - rewrite effects_app, Hsh. done.
  - rewrite Hg, length_app, count_app, count_cons, count_nil. simpl.
    destruct (rs_done s).
    + destruct Hrest as [Hd Hlen]. split; lia.
    + destruct Hrest as (fc & Hlen & Hfc & HfcD). exists fc.
      destruct (retry (act i (rs_shared s))); simpl; lia.
Qed.

(** No deadlock: until all goroutines returned after the loop was left, someone
    can move. *)
Lemma loop_progress s L : loop_inv s L -> final s = false ->
  (exists s', main_step dataBlocks s = Some s') \/
  (exists i s', i ∈ rs_running s /\ task_step ReadAt shardSize offset readerToBuf i s = Some s').
Proof.
  intros Hinv Hf. destruct (inv_slots s L Hinv) as (_ & _ & _ & (_ & Hrl & _)).
  destruct Hinv as (_ & _ & _ & _ & Hrest). unfold final in Hf.
  assert (rs_running s <> [] -> (length (rs_chan s) < n)%nat ->
    exists i s', i ∈ rs_running s /\ task_step ReadAt shardSize offset readerToBuf i s = Some s')
    as Htask.
  { destruct (rs_running s) as [|i r] eqn:Er; [done|]. intros _ Hc. exists i. unfold task_step.
    rewrite Er, bool_decide_eq_true_2 by left. simpl. rewrite Hrl.
    destruct (Nat.leb_spec n (length (rs_chan s))); [lia|]. rewrite task_act.
    eexists. split; [left|reflexivity]. }
  unfold main_step. destruct (rs_done s); simpl in Hf.
  - right. apply bool_decide_eq_false in Hf. apply Htask; [done|lia].
  - destruct Hrest as (fc & Hlen & _ & HfcD). destruct (rs_chan s) as [|t chan] eqn:Ec.
    + right. apply Htask; simpl in *; [|lia]. intros Hr. rewrite Hr in Hlen. simpl in Hlen. lia.
    + left. repeat case_match; by eexists.
Qed.

(** Every step makes progress. *)
Definition measure (s : state) : nat :=
  3 * (n - rs_index s) + 2 * length (rs_running s) + length (rs_chan s) +
  (if rs_done s then 0 else 1).

Lemma step_measure s s' L : loop_inv s L -> step s s' -> (measure s' < measure s)%nat.
Proof.
  intros Hinv Hs. destruct (inv_slots s L Hinv) as (Hnd & _ & _ & (_ & Hrl & _)).
  destruct Hinv as (_ & Hn & _). unfold measure.
  destruct Hs as [s s' Hm|i s s' Ht].
  - unfold main_step in Hm. destruct (rs_done s) eqn:Ed; [done|].
    destruct (rs_chan s) as [|t chan]; [done|]. rewrite Hrl in Hm.
    destruct (_ || _) eqn:Eo; [injection Hm as <-; simpl; lia|].
    apply orb_false_iff in Eo as [_ Hi]. apply Nat.eqb_neq in Hi.
    destruct t; simpl in Hm; injection Hm as <-; simpl; rewrite ?length_app; simpl; lia.
  - unfold task_step in Ht.
    destruct (bool_decide_reflect (i ∈ rs_running s)) as [Hi|]; simpl in Ht; [|done].
    destruct (_ <=? _)%nat; [done|]. rewrite task_act in Ht. injection Ht as <-. simpl.
    apply NoDup_app in Hnd as (_ & _ & Hndr).
    pose proof (Permutation_length (remove_perm i _ Hndr Hi)) as Hrem. simpl in Hrem.
    rewrite length_app. simpl. lia.
Qed.

Lemma step_inv s s' L : loop_inv s L -> step s s' -> exists L', loop_inv s' L'.
Proof.
  intros Hinv Hs. destruct Hs as [s s' Hm|i s s' Ht].
  - exists L. by eapply main_inv.
  - exists (L ++ [i]). by eapply task_inv.
Qed.

Lemma nsteps_inv k s0 s L : loop_inv s0 L -> nsteps step k s0 s ->
  (k + measure s <= measure s0)%nat /\ exists L', loop_inv s L'.
Proof.
  intros HL Hst. revert L HL. induction Hst as [x|k x y z H1 H2 IH]; intros L HL.
  - split; [lia|by exists L].
  - pose proof (step_measure _ _ _ HL H1). destruct (step_inv _ _ _ HL H1) as [L1 HL1].
    destruct (IH _ HL1) as [? ?]. split; [lia|done].
Qed.

(** ** Every run ends where the sequential scan ends *)

Lemma goods_seq_mono a b : (a <= b)%nat -> (goods (seq 0 a) <= goods (seq 0 b))%nat.
Proof.
  intros Hab. replace b with (a + (b - a))%nat by lia. rewrite seq_app, count_app. lia.
Qed.

Lemma scan_effects m : (m <= n)%nat -> (m = n \/ D <= goods (seq 0 m))%nat ->
  forall k i, (i + k = n)%nat -> (i <= m)%nat -> (i < m -> goods (seq 0 (m - 1)) < D)%nat ->
  scan ReadAt dataBlocks shardSize offset readerToBuf k i (Z.of_nat (goods (seq 0 i)))
    (effects (seq 0 i) d0) = effects (seq 0 m) d0.
Proof.
  intros Hm Hend. induction k as [|k IH]; intros i Hik Him Hmin; simpl.
  { replace m with i by lia. done. }
  rewrite D_eq. destruct (Z.leb_spec (Z.of_nat D) (Z.of_nat (goods (seq 0 i)))) as [Hd|Hd].
  { destruct (decide (i = m)) as [->|]; [done|]. specialize (Hmin ltac:(lia)).
    pose proof (goods_seq_mono i (m - 1) ltac:(lia)). lia. }
  assert (i < m)%nat as Hlt.
  { destruct (decide (i = m)) as [->|]; [|lia]. destruct Hend; lia. }
  rewrite task_act. rewrite act_effects by (done || (rewrite elem_of_seq; lia)).
  assert (effects (seq 0 (S i)) d0 = perform i (act i d0) (effects (seq 0 i) d0)) as Heff.
  { rewrite seq_S, effects_app. cbn [effects fold_left].
    rewrite act_effects by (done || (rewrite elem_of_seq; lia)). done. }
  rewrite <-Heff. rewrite <-D_eq.
  replace (if retry (act i d0) then Z.of_nat (goods (seq 0 i)) else Z.of_nat (goods (seq 0 i)) + 1)
    with (Z.of_nat (goods (seq 0 (S i)))).
  - apply IH; [lia|lia|]. intros. apply Hmin. lia.
  - rewrite seq_S, count_app, count_cons, count_nil. unfold good at 2. simpl.
    destruct (retry (act i d0)); simpl; lia.
Qed.

Definition scanned : sh := scan ReadAt dataBlocks shardSize offset readerToBuf n 0 0 d0.

(** The number of slots the scan reads. *)
Lemma scan_stop : exists m, (m <= n)%nat /\ (m = n \/ D <= goods (seq 0 m))%nat /\
  (0 < m -> goods (seq 0 (m - 1)) < D)%nat /\ scanned = effects (seq 0 m) d0.
Proof.
  assert (exists m, (m <= n)%nat /\ (m = n \/ D <= goods (seq 0 m))%nat /\
    (0 < m -> goods (seq 0 (m - 1)) < D)%nat) as (m & Hm & Hend & Hmin).
  { destruct (decide (D <= goods (seq 0 n))%nat) as [Hd|Hd].
    - assert (forall j, (j <= n)%nat -> (D <= goods (seq 0 j))%nat ->
        exists m, (m <= j)%nat /\ (D <= goods (seq 0 m))%nat /\
          (0 < m -> goods (seq 0 (m - 1)) < D)%nat) as Hleast.
      { induction j as [|j IH]; intros Hj Hg; [change (goods (seq 0 0)) with 0%nat in Hg; lia|].
        destruct (decide (D <= goods (seq 0 j))%nat) as [Hd'|Hd'].
        - destruct (IH ltac:(lia) Hd') as (m & ? & ? & ?). exists m. split_and!; [lia|done|done].
        - exists (S j). split_and!; [lia|done|]. intros _.
          replace (S j - 1)%nat with j by lia. lia. }
      destruct (Hleast n ltac:(lia) Hd) as (m & ? & ? & ?). exists m. split_and!; [lia|lia|done].
    - exists n. split_and!; [lia|lia|]. intros _.
      pose proof (goods_seq_mono (n - 1) n ltac:(lia)). lia. }
  exists m. split_and!; [done|done|done|].
  apply (scan_effects m Hm Hend n 0); [lia|lia|done].
Qed.

Lemma final_scanned s L : loop_inv s L -> final s = true -> rs_shared s = scanned.
Proof.
  intros Hinv Hf. destruct (inv_slots s L Hinv) as (Hnd & Hlt & _ & _).
  destruct Hinv as (Hp & Hn & -> & Hmin & Hrest). unfold final in Hf. btrue.
  match goal with H : bool_decide _ = true |- _ => apply bool_decide_eq_true in H; rename H into Hr end.
  rewrite Hr, app_nil_r in *.
  rewrite (effects_perm L (seq 0 (rs_index s))) by done.
  match goal with H : rs_done s = true |- _ => rewrite H in Hrest end.
  destruct Hrest as [Hend _]. symmetry.
  apply (scan_effects (rs_index s)) with (k := n) (i := 0%nat); [done| |lia|lia|done].
  rewrite <-Hp. lia.
Qed.

Lemma first_step_sound s l s' :
  first_step ReadAt dataBlocks shardSize offset readerToBuf s l = Some s' -> step s s'.
Proof.
  induction l as [|[i|] l IH]; simpl; [done| |].
  - destruct (task_step _ _ _ _ i s) as [s1|] eqn:E; [|done]. intros [= <-]. by eapply step_task.
  - destruct (main_step _ s) as [s1|] eqn:E; [|done]. intros [= <-]. by eapply step_main.
Qed.

Lemma first_step_some s l who s' : who ∈ l ->
  try_step ReadAt dataBlocks shardSize offset readerToBuf s who = Some s' ->
  is_Some (first_step ReadAt dataBlocks shardSize offset readerToBuf s l).
Proof.
  intros Hin Htry. induction l as [|w l IH]; [by apply elem_of_nil in Hin|]. simpl.
  destruct (try_step _ _ _ _ _ s w) eqn:E; [done|]. apply IH.
  apply elem_of_cons in Hin as [->|?]; [congruence|done].
Qed.

Lemma elem_of_candidates who (s : state) c :
  who ∈ None :: (Some <$> rs_running s) -> who ∈ candidates s c.
Proof.
  unfold candidates. intros Hin. set (l := None :: _) in *. set (k := (c mod length l)%nat).
  rewrite elem_of_app. rewrite <-(take_drop k l), elem_of_app in Hin. tauto.
Qed.

Lemma run_scanned fuel : forall sched s L, loop_inv s L -> (measure s < fuel)%nat ->
  exists s', run ReadAt dataBlocks shardSize offset readerToBuf fuel sched s = Some s' /\
    rs_shared s' = scanned.
Proof.
  induction fuel as [|fuel IH]; intros sched s L Hinv Hm; [lia|]. simpl.
  destruct (final s) eqn:Ef; [exists s; split; [done|by eapply final_scanned]|].
  destruct (first_step _ _ _ _ _ s _) as [s'|] eqn:Es; simpl.
  - apply first_step_sound in Es. destruct (step_inv _ _ _ Hinv Es) as [L' HL'].
    pose proof (step_measure _ _ _ Hinv Es). eapply IH; [done|lia].
  - exfalso. destruct (loop_progress s L Hinv Ef) as [[s' Hs]|(i & s' & Hi & Hs)].
    + destruct (first_step_some s (candidates s (default 0%nat (head sched))) None s') as [? ?];
        [apply elem_of_candidates; left|done|congruence].
    + destruct (first_step_some s (candidates s (default 0%nat (head sched))) (Some i) s') as [? ?];
        [|done|congruence].
      apply elem_of_candidates. right. by apply list_elem_of_fmap_2.
Qed.
End Facts.

(** ** Reading with a correct buffer table *)

(** [p.readerToBuf] names the buffer of each reader: distinct, in range, and the
    reader's own index; the readers are distinct. *)
Definition pr_wf (p : parallelReader) : Prop :=
  let n := length (pr_readers p) in
  length (pr_orgReaders p) = n /\ length (pr_readerToBuf p) = n /\
  NoDup (pr_readerToBuf p) /\ Forall (fun b => b < n)%nat (pr_readerToBuf p) /\
  0 < pr_dataBlocks p <= Z.of_nat n /\
  forall i j a, pr_readers p !! i = Some (Some a) -> pr_readers p !! j = Some (Some a) -> i = j.

(** The [io.ReaderAt] contract: a read without error fills the buffer. *)
Definition ReadAt_fills {R} (ReadAt : R -> Z -> Z -> R * result bytes) : Prop :=
  forall r n off r' b, ReadAt r n off = (r', Ok b) -> len b = n.

Lemma read_shared_wf {R} p (store : list R) : pr_wf p ->
  shared_wf (length (pr_readers p)) (read_shared p store).
Proof.
  intros (? & ? & ? & ? & ? & ?). unfold shared_wf, read_shared. simpl.
  rewrite length_replicate. done.
Qed.

Lemma Read_Read_seq {R} (ReadAt : R -> Z -> Z -> R * result bytes) sched p store :
  ReadAt_fills ReadAt -> pr_wf p -> 0 <= read_shardSize p ->
  Read ReadAt sched p store = Read_seq ReadAt p store.
Proof.
  intros Hfill Hwf Hss. pose proof (read_shared_wf p store Hwf) as Hsh.
  destruct Hwf as (Ho & Hl & Hnd & Hsm & Hd & Hinj). unfold Read, Read_seq.
  destruct (Z.eqb_spec (read_shardSize p) 0); [done|].
  destruct (Z.ltb_spec (read_shardSize p) 0); [lia|]. cbn [andb orb].
  destruct (Z.ltb_spec (Z.of_nat (length (pr_readers p))) (pr_dataBlocks p)); [lia|].
  set (D := Z.to_nat (pr_dataBlocks p)).
  assert (forall r r' b, ReadAt r (read_shardSize p) (pr_offset p) = (r', Ok b) -> b <> []) as Hne.
  { intros r r' b Hr ->. apply Hfill in Hr. simpl in Hr. lia. }
  edestruct (run_scanned ReadAt (pr_dataBlocks p) (read_shardSize p) (pr_offset p)
    (pr_readerToBuf p) (length (pr_readers p)) Hl Hnd Hsm Hne D) with
    (d0 := read_shared p store) (s := init_state (pr_dataBlocks p) (read_shared p store))
    (L := @nil nat) (sched := sched)
    (fuel := (3 * length (pr_readers p) + D + 2)%nat) as (s' & Hrun & Hsc);
    [lia|lia|lia|done|done| | |].
  - apply loop_inv_init; unfold D; lia || done.
  - unfold measure, init_state. simpl. rewrite length_replicate. fold D. lia.
  - rewrite Hrun. cbn [mbind option_bind]. rewrite Hsc. done.
Qed.

Lemma newParallelReader_wf readers e offset total p :
  newParallelReader readers e offset total = Some p ->
  0 < dataBlocks e <= len readers ->
  (forall i j a, readers !! i = Some (Some a) -> readers !! j = Some (Some a) -> i = j) ->
  pr_wf p.
Proof.
  unfold newParallelReader. destruct (_ =? 0); [done|].
  destruct (ShardFileSize e total); simpl; [|done]. intros [= <-] Hd Hinj. unfold pr_wf. simpl.
  rewrite length_seq. split_and!; [done|done|apply NoDup_seq| |lia|lia|done].
  apply Forall_forall. intros i. rewrite elem_of_seq. lia.
Qed.

(** ** Properties *)


(** A reader over a file in memory; [None] is a drive that lost it. *)
Definition mem_ReadAt (r : option bytes) (n off : Z) : option bytes * result bytes :=
  match r with
  | None => (r, Err errFileNotFound)
  | Some f =>
      let b := slice_to (slice_from f off) n in
      if len b =? n then (r, Ok b) else (r, Err errLessData)
  end.

Lemma mem_ReadAt_fills : ReadAt_fills mem_ReadAt.
Proof.
  intros [f|] n off r' b; simpl; [|done].
  destruct (Z.eqb_spec (len (slice_to (slice_from f off) n)) n); [|done]. by intros [= _ <-].
Qed.

Definition sample_pr : parallelReader := mkPR [Some 0%nat; Some 1%nat; Some 2%nat]
  [Some 0%nat; Some 1%nat; Some 2%nat] 2 0 1 1 [0; 1; 2]%nat.
Definition sample_store : list (option bytes) := [Some [Byte.x41]; None; Some [Byte.x03]].

Lemma sample_pr_wf : pr_wf sample_pr.
Proof.
  unfold pr_wf. simpl. split_and!; [done|done| |repeat constructor; lia|lia|lia|].
  - apply (NoDup_seq 0 3).
  - intros [|[|[|i]]] [|[|[|j]]] a Hi Hj; simpl in *;
      rewrite ?lookup_nil in *; congruence.
Qed.

