(* ===== verification/ErasureIO.v ===== *)
(** * Erasure-coded streams

    Models [Decode] and [Heal] of [cmd/erasure-decode.go] and [parallelWriter]
    and [Encode] of [cmd/erasure-encode.go]: an object is encoded block by block
    into one shard stream per drive, any sufficient subset of which gives a range
    of the object back. *)

From S2P Require Import Prelude Erasure FileInfo Quorum ParallelRead.

(** ** Reading a range *)

Section Decode.
Context {L : RSLibrary} {R : Type} (ReadAt : R -> Z -> Z -> R * result bytes).
Context (W : Writer) (e : Erasure).

Definition reportable (err : option error) : bool :=
  errors_Is err (Some errFileNotFound) || errors_Is err (Some errFileCorrupt).

(** [derr] after a read: the first reportable error is kept. *)
Definition note_err (derr err : option error) : option error :=
  if reportable err then match derr with None => err | Some _ => derr end else derr.

(** Offset and length inside one block of the range. *)
Definition block_range (offset length block : Z) : Z * Z :=
  let startBlock := quot64 offset (blockSize e) in
  let endBlock := ((offset + length) / blockSize e)%int64 in
  if startBlock =? endBlock then (rem64 offset (blockSize e), length)
  else if block =? startBlock then
    let blockOffset := rem64 offset (blockSize e) in
    (blockOffset, sub64 (blockSize e) blockOffset)
  else if block =? endBlock then (0, rem64 (add64 offset length) (blockSize e))
  else (0, blockSize e).

Record decode_state := mkDS {
  ds_writer : wstate W;
  ds_reader : parallelReader;
  ds_store : list R;
  ds_written : Z;
  ds_derr : option error
}.

(** The loop over the blocks; [k] of them are left.  [inr] is an early
    [return -1, err]; [None] a panic or a hang. *)
Fixpoint decode_loop (sched : Z -> list nat) (offset length : Z) (k : nat) (block : Z)
    (s : decode_state) : option (decode_state * option error) :=
  match k with
  | O => Some (s, None)
  | S k =>
      let '(blockOffset, blockLength) := block_range offset length block in
      if blockLength =? 0 then Some (s, None)
      else
        '(reader, store, bufs, err) ← Read ReadAt (sched block) (ds_reader s) (ds_store s);
        let bufs := default [] bufs in
        let derr := if bool_decide (bufs = []) then ds_derr s else note_err (ds_derr s) err in
        let st writer written := mkDS writer reader store written derr in
        match bufs, err with
        | [], Some err => Some (st (ds_writer s) (ds_written s), Some err)
        | _, _ =>
            decoded ← DecodeDataBlocks e bufs;
            match decoded with
            | Err err => Some (st (ds_writer s) (ds_written s), Some err)
            | Ok bufs =>
                '(writer, n) ← writeDataBlocks W (ds_writer s) bufs (dataBlocks e)
                                 blockOffset blockLength;
                match n with
                | Err err => Some (st writer (ds_written s), Some err)
                | Ok n => decode_loop sched offset length k (block + 1)
                            (st writer (add64 (ds_written s) n))
                end
            end
        end
  end.

(** What [Decode] leaves: the writer, the caller's readers (those that failed
    are [nil]), the store, and the returned [(written, derr)]. *)
Record decode_result := mkDR {
  dr_writer : wstate W;
  dr_readers : list (option nat);
  dr_store : list R;
  dr_written : Z;
  dr_err : option error
}.

Definition Decode (sched : Z -> list nat) (writer : wstate W) (readers : list (option nat))
    (store : list R) (offset length totalLength : Z) (prefer : list bool) : option decode_result :=
  let fail err := Some (mkDR writer readers store (-1) (Some err)) in
  if (offset <? 0) || (length <? 0) then fail errInvalidArgument
  else if totalLength <? add64 offset length then fail errInvalidArgument
  else if length =? 0 then Some (mkDR writer readers store 0 None)
  else
    reader ← newParallelReader readers e offset totalLength;
    let reader := if (List.length prefer =? List.length readers)%nat
                  then preferReaders reader prefer else reader in
    let startBlock := quot64 offset (blockSize e) in
    let endBlock := ((offset + length) / blockSize e)%int64 in
    '(s, err) ← decode_loop sched offset length (Z.to_nat (endBlock - startBlock + 1)) startBlock
                  (mkDS writer reader store 0 None);
    let ret := mkDR (ds_writer s) (pr_orgReaders (ds_reader s)) (ds_store s) in
    Some (match err with
          | Some err => ret (-1) (Some err)
          | None =>
              if negb (ds_written s =? length) then ret (ds_written s) (Some errLessData)
              else ret (ds_written s) (ds_derr s)
          end).
End Decode.

Arguments mkDS {R W}.
Arguments mkDR {R W}.

(** ** Writing shards *)

Section Writers.
Context {WS : Type} (Write : WS -> bytes -> WS * (Z * option error)).

(** The writers are pointers into a store of writers, like the readers. *)
Record parallelWriter := mkPW {
  pw_writers : list (option nat);
  pw_writeQuorum : Z;
  pw_errs : list (option error);
  pw_store : list WS
}.

(** The goroutine of writer [i]: [None] is [blocks[i]] out of range. *)
Definition write_shard (blocks : list bytes) (i : nat) (p : parallelWriter) : option parallelWriter :=
  match default None (pw_writers p !! i) with
  | None => Some (mkPW (pw_writers p) (pw_writeQuorum p)
                    (<[i := Some errDiskNotFound]> (pw_errs p)) (pw_store p))
  | Some id =>
      match default None (pw_errs p !! i), pw_store p !! id with
      | Some _, _ => Some p
      | None, None => None
      | None, Some w =>
          block ← blocks !! i;
          let '(w, (n, err)) := Write w block in
          let err := match err with
                     | None => if n =? len block then None else Some ErrShortWrite
                     | Some _ => err
                     end in
          Some (mkPW (match err with None => pw_writers p | Some _ => <[i := None]> (pw_writers p) end)
                  (pw_writeQuorum p) (<[i := err]> (pw_errs p)) (<[id := w]> (pw_store p)))
      end
  end.

Fixpoint write_shards (blocks : list bytes) (idxs : list nat) (p : parallelWriter)
  : option parallelWriter :=
  match idxs with
  | [] => Some p
  | i :: idxs => p ← write_shard blocks i p; write_shards blocks idxs p
  end.

Definition pw_Write `{MapOrder} (canceled : bool) (p : parallelWriter) (blocks : list bytes)
  : option (parallelWriter * option error) :=
  p ← write_shards blocks (seq 0 (length (pw_writers p))) p;
  let nilCount := countErrs (pw_errs p) None in
  Some (p, if pw_writeQuorum p <=? nilCount then None
           else reduceWriteQuorumErrs canceled (pw_errs p) objectOpIgnoredErrs (pw_writeQuorum p)).
End Writers.

Arguments mkPW {WS}.

Section Encode.
Context {L : RSLibrary} `{MapOrder} {WS : Type} (Write : WS -> bytes -> WS * (Z * option error)).
Context (e : Erasure).

(** The loop of [Encode] with a buffer of [bufsize] bytes; [fuel] bounds the
    rounds: a round that does not end the loop fills the whole buffer. *)
Fixpoint encode_loop (canceled : bool) (fuel bufsize : nat) (src : stream)
    (p : parallelWriter (WS := WS)) (total : Z)
  : option (parallelWriter (WS := WS) * stream * result Z) :=
  match fuel with
  | O => None
  | S fuel =>
      let '(src, buf, err) := ReadFull src bufsize in
      let eof := bool_decide (err = Some EOF) || bool_decide (err = Some ErrUnexpectedEOF) in
      match (if eof then None else err) with
      | Some err => Some (p, src, Err err)
      | None =>
          if bool_decide (buf = []) && negb (total =? 0) then Some (p, src, Ok total)
          else
            blocks ← EncodeData e buf;
            match blocks with
            | Err err => Some (p, src, Err err)
            | Ok blocks =>
                '(p, err) ← pw_Write Write canceled p blocks;
                match err with
                | Some err => Some (p, src, Err err)
                | None =>
                    let total := add64 total (len buf) in
                    if eof then Some (p, src, Ok total)
                    else encode_loop canceled fuel bufsize src p total
                end
            end
      end
  end.

Definition Encode (canceled : bool) (src : stream) (writers : list (option nat)) (store : list WS)
    (bufsize : nat) (quorum : Z) : option (parallelWriter (WS := WS) * stream * result Z) :=
  encode_loop canceled (S (S (length (st_data src)))) bufsize src
    (mkPW writers quorum (replicate (length writers) None) store) 0.
End Encode.

(** ** Healing *)

Section Heal.
Context {L : RSLibrary} `{MapOrder} {R WS : Type}.
Context (ReadAt : R -> Z -> Z -> R * result bytes).
Context (Write : WS -> bytes -> WS * (Z * option error)) (e : Erasure).

Record heal_state := mkHS {
  hs_reader : parallelReader;
  hs_store : list R;
  hs_writers : list (option nat);
  hs_wstore : list WS;
  hs_derr : option error
}.

Fixpoint heal_loop (canceled : bool) (sched : Z -> list nat) (k : nat) (block : Z) (s : heal_state)
  : option (heal_state * option error) :=
  match k with
  | O => Some (s, None)
  | S k =>
      '(reader, store, bufs, err) ← Read ReadAt (sched block) (hs_reader s) (hs_store s);
      let bufs := default [] bufs in
      let derr := if bool_decide (bufs = []) then hs_derr s else note_err (hs_derr s) err in
      let s1 := mkHS reader store (hs_writers s) (hs_wstore s) derr in
      match bufs, err with
      | [], Some err => Some (s1, Some err)
      | _, _ =>
          decoded ← DecodeDataAndParityBlocks e bufs;
          match decoded with
          | Err err => Some (s1, Some err)
          | Ok bufs =>
              '(w, err) ← pw_Write Write canceled
                (mkPW (hs_writers s) 1 (replicate (length (hs_writers s)) None) (hs_wstore s)) bufs;
              let s2 := mkHS reader store (pw_writers w) (pw_store w) derr in
              match err with
              | Some err => Some (s2, Some err)
              | None => heal_loop canceled sched k (block + 1) s2
              end
          end
      end
  end.

Definition Heal (canceled : bool) (sched : Z -> list nat) (writers : list (option nat))
    (wstore : list WS) (readers : list (option nat)) (store : list R) (totalLength : Z)
  : option (list (option nat) * list WS * option error) :=
  if negb (len writers =? parityBlocks e + dataBlocks e) then
    Some (writers, wstore, Some errInvalidArgument)
  else
    reader ← newParallelReader readers e 0 totalLength;
    let endBlock := quot64 totalLength (blockSize e) in
    let endBlock := if rem64 totalLength (blockSize e) =? 0 then endBlock else add64 endBlock 1 in
    '(s, err) ← heal_loop canceled sched (Z.to_nat endBlock) 0
                  (mkHS reader store writers wstore None);
    Some (hs_writers s, hs_wstore s, match err with Some _ => err | None => hs_derr s end).
End Heal.

Arguments mkHS {R WS}.

(** ** What a shard reader promises

    The shards of a file are read piece by piece, piece [k] at offset
    [k * s].  A reader that [serves] the pieces delivers them from any piece on,
    one after the other; one that is [honest] may fail at any read, but what it
    delivers is the piece; after a failure it is not used again. *)

Class ShardReader (R : Type) := {
  ReadAt : R -> Z -> Z -> R * result bytes;
  serves : nat -> list bytes -> option nat -> R -> Prop;
  honest : nat -> list bytes -> R -> Prop;
  ReadAt_ok : ReadAt_fills ReadAt;
  serves_read : forall s ps o r k p, serves s ps o r -> o = None \/ o = Some k ->
    ps !! k = Some p ->
    exists r', ReadAt r (len p) (Z.of_nat k * Z.of_nat s) = (r', Ok p) /\ serves s ps (Some (S k)) r';
  honest_read : forall s ps r k p r' b, honest s ps r -> ps !! k = Some p ->
    ReadAt r (len p) (Z.of_nat k * Z.of_nat s) = (r', Ok b) -> b = p /\ honest s ps r'
}.

(** ** One block *)

Section Block.
Context {L : RSLibrary} (e : Erasure) (Hwf : erasure_wf e).
Context {LL : RSLaws L (dataBlocks e) (parityBlocks e)}.
Context {R : Type} `{ShardReader R}.
Context (data : bytes) (data_small : len data < 2 ^ 62) (bs_small : blockSize e < 2 ^ 62).

Definition bs : nat := Z.to_nat (blockSize e).
Definition ss : nat := Z.to_nat (ShardSize e).
Definition d : nat := Z.to_nat (dataBlocks e).
Definition n : nat := Z.to_nat (dataBlocks e + parityBlocks e).

Definition blk (k : nat) : bytes := take bs (drop (k * bs) data).
(** The readers are opened for the first [lim] blocks. *)
Context (lim : nat).
Definition inside (k : nat) : Prop := (k * bs < length data /\ k < lim)%nat.

(** The shard file of drive [j], in pieces, as far as it is read. *)
Definition shard_file (j : nat) : list bytes :=
  (fun b => default [] (codeword e b !! j)) <$> blocks_of bs data.
Definition shard (j : nat) : list bytes := take lim (shard_file j).

Lemma blocks_of_lookup (l : bytes) k : (0 < bs)%nat -> (k * bs < length l)%nat ->
  blocks_of bs l !! k = Some (take bs (drop (k * bs) l)).
Proof.
  intros Hbs. revert k. induction l as [|l Hl IH] using (fun P => blocks_ind bs P Hbs);
    intros k Hk; [simpl in Hk; lia|].
  rewrite blocks_of_cons by done. destruct k as [|k]; [done|]. simpl.
  rewrite IH by (rewrite length_drop; lia). by rewrite drop_drop.
Qed.

Lemma geometry : (0 < bs)%nat /\ (0 < ss <= bs)%nat /\ (0 < d <= n)%nat /\
  blockSize e = Z.of_nat bs /\ ShardSize e = Z.of_nat ss /\ dataBlocks e = Z.of_nat d /\
  dataBlocks e + parityBlocks e = Z.of_nat n.
Proof.
  clear data_small bs_small. destruct (ShardSize_bounds e Hwf) as [? ?].
  destruct Hwf as (? & ? & ? & ?). unfold bs, ss, d, n. lia.
Qed.

Lemma blk_facts k : inside k -> blk k <> [] /\ len (blk k) < 2 ^ 63 /\
  length (blk k) = Nat.min bs (length data - k * bs).
Proof.
  unfold inside, blk. intros Hk. destruct geometry as (? & _).
  assert (length (take bs (drop (k * bs) data)) = Nat.min bs (length data - k * bs)) as Hl
    by (rewrite length_take, length_drop; lia).
  split_and!; [|lia|done]. intros Hnil. rewrite Hnil in Hl. simpl in Hl. lia.
Qed.

Lemma shard_lookup k j c : inside k -> codeword e (blk k) !! j = Some c -> shard j !! k = Some c.
Proof.
  intros [Hk Hlim] Hc. unfold shard, shard_file. rewrite lookup_take_lt, list_lookup_fmap by done.
  rewrite blocks_of_lookup; [|apply geometry|done]. simpl. fold (blk k). by rewrite Hc.
Qed.

Lemma codeword_lookup k j : inside k -> (j < n)%nat -> exists c,
  codeword e (blk k) !! j = Some c /\ length c = shard_len d (blk k) /\ c <> [].
Proof.
  intros Hk Hj. destruct (blk_facts k Hk) as (Hne & Hlt & _).
  destruct (codeword_shape e Hwf (blk k) Hlt) as [Hlen Hall].
  destruct (lookup_lt_is_Some_2 (codeword e (blk k)) j) as [c Hc].
  { rewrite Hlen. exact Hj. }
  exists c. rewrite Forall_lookup in Hall. specialize (Hall _ _ Hc). split_and!; [done|done|].
  intros ->. simpl in Hall. destruct geometry as (_ & _ & ? & _ & _ & ? & _).
  destruct (shard_len_bounds d (blk k)) as [_ Hpos]; [lia|destruct Hwf as (?&?&?&?); lia|done|].
  specialize (Hpos Hne). unfold d in Hpos. lia.
Qed.

(** The read size at block [k]. *)
Lemma read_shardSize_block p k : inside k ->
  pr_offset p = Z.of_nat k * ShardSize e -> pr_shardSize p = ShardSize e ->
  ShardFileSize e (len data) = Some (pr_shardFileSize p) ->
  read_shardSize p = Z.of_nat (shard_len d (blk k)) /\ 0 < read_shardSize p /\
  (inside (S k) -> read_shardSize p = ShardSize e).
Proof.
  intros Hin Hoff Hss Hsf. destruct geometry as (Hbs & Hssb & Hd & Ebs & Ess & Ed & _).
  destruct (blk_facts k Hin) as (Hne & Hlt & Hlen). destruct Hin as [Hk _].
  assert (forall P : Prop, ((S k * bs < length data)%nat -> P) -> inside (S k) -> P) as Hins
    by (intros P HP [Hs _]; by apply HP).
  destruct (ShardFileSize_exact e Hwf (len data) ltac:(lia)) as [Hex Hle].
  rewrite Hex in Hsf. injection Hsf as Hsf. rewrite Ebs in *.
  destruct (shard_len_bounds d (blk k)) as [_ Hpos]; [lia|destruct Hwf as (?&?&?&?); lia|lia|].
  specialize (Hpos Hne).
  set (q := len data / Z.of_nat bs) in *. set (r := len data mod Z.of_nat bs) in *.
  assert (len data = Z.of_nat bs * q + r /\ 0 <= r < Z.of_nat bs) as [Hdm Hr]
    by (split; [apply Z.div_mod; lia|apply Z.mod_pos_bound; lia]).
  assert (Z.of_nat k <= q) by nia.
  assert (Z.of_nat (shard_len d (blk k)) =
    if Z.of_nat k <? q then ShardSize e else ceilFrac r (dataBlocks e)) as Hsl.
  { unfold shard_len. rewrite Z2Nat.id by (apply ceilFrac_bounds; destruct Hwf as (?&?&?&?); lia).
    rewrite <-Ed. destruct (Z.ltb_spec (Z.of_nat k) q).
    - unfold ShardSize. f_equal. rewrite Ebs. nia.
    - f_equal. nia. }
  assert (ceilFrac r (dataBlocks e) <= ShardSize e) as Hcr.
  { unfold ShardSize. destruct Hwf as (?&?&?&?). rewrite !ceilFrac_ceil by lia.
    apply Z.div_le_mono; lia. }
  unfold read_shardSize, add64, sub64. rewrite Hoff, Hss, <-Hsf.
  assert (Z.of_nat k * ShardSize e <= len data) by nia.
  rewrite (wrap64_id (_ + ShardSize e)) by (unfold int64_range; nia).
  destruct (Z.ltb_spec (Z.of_nat k) q) as [Hkq|Hkq].
  - assert (ceilFrac r (dataBlocks e) >= 0)
      by (pose proof (ceilFrac_bounds r (dataBlocks e)); destruct Hwf as (?&?&?&?); lia).
    destruct (Z.ltb_spec (q * ShardSize e + ceilFrac r (dataBlocks e))
      (Z.of_nat k * ShardSize e + ShardSize e)); [|split_and!; [lia|lia|done]].
    assert ((Z.of_nat k + 1) * ShardSize e <= q * ShardSize e)
      by (apply Z.mul_le_mono_nonneg_r; lia). lia.
  - assert (Z.of_nat k = q) as Ek by lia.
    assert (~ (S k * bs < length data)%nat) as Hlast.
    { intros Hin. apply Nat2Z.inj_lt in Hin. rewrite Nat2Z.inj_mul, Nat2Z.inj_succ in Hin. nia. }
    rewrite Ek, wrap64_id by (unfold int64_range; nia).
    destruct (Z.ltb_spec (q * ShardSize e + ceilFrac r (dataBlocks e))
      (q * ShardSize e + ShardSize e)); split_and!; try lia; apply Hins; intros; by exfalso.
Qed.

(** ** Reading the blocks in turn *)

Definition alive (readers : list (option nat)) (i : nat) : bool :=
  match readers !! i with Some (Some _) => true | _ => false end.

(** Where a serving reader stands before block [k]: slots below [q] were read
    in every block so far. *)
Definition stands (k q i : nat) : option nat := if decide (i < q)%nat then Some k else None.

Record dec_inv (good : list nat) (k q : nat) (p : parallelReader) (store : list R) : Prop := {
  di_wf : pr_wf p;
  di_len : length (pr_readers p) = n;
  di_D : pr_dataBlocks p = dataBlocks e;
  di_off : inside k -> pr_offset p = Z.of_nat k * ShardSize e;
  di_ss : inside k -> pr_shardSize p = ShardSize e;
  di_sfs : ShardFileSize e (len data) = Some (pr_shardFileSize p);
  di_map : forall i a, pr_readers p !! i = Some (Some a) -> pr_readerToBuf p !! i = Some a;
  di_org : forall i a, pr_readers p !! i = Some (Some a) -> pr_orgReaders p !! a = Some (Some a);
  di_ok : forall i a, pr_readers p !! i = Some (Some a) -> exists r, store !! a = Some r /\
    (serves ss (shard a) (stands k q i) r \/ honest ss (shard a) r);
  di_nodup : NoDup good;
  di_enough : (d <= length good)%nat;
  di_serv : forall i, i ∈ good -> exists a r, pr_readers p !! i = Some (Some a) /\
    store !! a = Some r /\ serves ss (shard a) (stands k q i) r;
  di_q : (q <= n)%nat;
  di_min : (0 < q -> count (alive (pr_readers p)) (seq 0 (q - 1)) < d)%nat
}.

(** The round of reads of block [k]. *)
Section Round.
Context (gs : list nat) (k q : nat) (p : parallelReader) (store : list R).
Context (Hinv : dec_inv gs k q p store) (Hk : inside k).
Local Abbreviation size := (read_shardSize p).
Local Abbreviation d0 := (read_shared p store).
Local Abbreviation act := (act ReadAt size (pr_offset p)).
Local Abbreviation good := (good ReadAt size (pr_offset p) d0).
Local Abbreviation effects := (effects ReadAt size (pr_offset p) (pr_readerToBuf p)).

Lemma round_size : size = Z.of_nat (shard_len d (blk k)) /\ 0 < size /\
  (inside (S k) -> size = ShardSize e).
Proof.
  apply read_shardSize_block; [done|by apply (di_off _ _ _ _ _ Hinv)|by apply (di_ss _ _ _ _ _ Hinv)|].
  apply (di_sfs _ _ _ _ _ Hinv).
Qed.

Lemma round_index i a : pr_readers p !! i = Some (Some a) -> (i < n)%nat /\ (a < n)%nat.
Proof.
  intros Ha. split; [rewrite <-(di_len _ _ _ _ _ Hinv); by eapply lookup_lt_Some|].
  apply (di_map _ _ _ _ _ Hinv) in Ha. destruct (di_wf _ _ _ _ _ Hinv) as (_ & _ & _ & Hsm & _).
  rewrite (di_len _ _ _ _ _ Hinv), Forall_lookup in Hsm. by eapply Hsm.
Qed.

(** What slot [i] does. *)
Lemma round_act i a : pr_readers p !! i = Some (Some a) -> exists c r r' res,
  codeword e (blk k) !! a = Some c /\ store !! a = Some r /\
  act i d0 = Some (a, (r', res)) /\ (forall b, res = Ok b -> b = c) /\
  (serves ss (shard a) (stands k q i) r -> res = Ok c /\ serves ss (shard a) (Some (S k)) r') /\
  (honest ss (shard a) r -> forall b, res = Ok b -> honest ss (shard a) r').
Proof.
  intros Ha. destruct (round_index i a Ha) as [Hi Han].
  destruct (codeword_lookup k a Hk Han) as (c & Hc & Hlc & Hne).
  destruct (di_ok _ _ _ _ _ Hinv i a Ha) as (r & Hr & Hsh).
  pose proof (shard_lookup k a c Hk Hc) as Hsl.
  destruct round_size as (Hsz & Hpos & _).
  pose proof (di_off _ _ _ _ _ Hinv Hk) as Hoff.
  destruct geometry as (_ & _ & _ & _ & Ess & _). rewrite Ess in Hoff.
  destruct (ReadAt r size (pr_offset p)) as [r' res] eqn:Er.
  pose proof Er as Er'. rewrite Hoff in Er'. replace size with (len c) in Er' by lia.
  assert (stands k q i = None \/ stands k q i = Some k) as Hst
    by (unfold stands; case_decide; auto).
  assert (serves ss (shard a) (stands k q i) r ->
    res = Ok c /\ serves ss (shard a) (Some (S k)) r') as Hserv.
  { intros Hs. destruct (serves_read _ _ _ _ _ _ Hs Hst Hsl) as (r2 & Hr2 & Hs2).
    rewrite Hr2 in Er'. injection Er' as <- <-. done. }
  exists c, r, r', res. split_and!; [done|done| | |done|].
  - unfold ParallelRead.act. simpl. rewrite Ha. simpl. rewrite Hr. simpl. by rewrite Er.
  - destruct Hsh as [Hs|Hh].
    + destruct (Hserv Hs) as [-> _]. congruence.
    + intros b ->. by destruct (honest_read _ _ _ _ _ _ _ Hh Hsl Er').
  - intros Hh b ->. by destruct (honest_read _ _ _ _ _ _ _ Hh Hsl Er').
Qed.

Lemma round_good_alive i : good i = true -> alive (pr_readers p) i = true.
Proof.
  unfold ParallelRead.good, alive, ParallelRead.act. simpl.
  destruct (pr_readers p !! i) as [[a|]|]; simpl; done.
Qed.

Lemma round_enough : (d <= count good (seq 0 n))%nat.
Proof.
  etransitivity; [apply (di_enough _ _ _ _ _ Hinv)|].
  apply count_NoDup; [apply (di_nodup _ _ _ _ _ Hinv)|]. intros i Hi.
  destruct (di_serv _ _ _ _ _ Hinv i Hi) as (a & r & Ha & Hr & Hs).
  destruct (round_index i a Ha) as [Hin _]. split; [apply elem_of_seq; lia|].
  destruct (round_act i a Ha) as (c & r0 & r' & res & _ & Hr0 & Hact & _ & Hserv & _).
  rewrite Hr in Hr0. injection Hr0 as <-. destruct (Hserv Hs) as [-> _].
  unfold ParallelRead.good. by rewrite Hact.
Qed.

Lemma round_wf : shared_wf n d0.
Proof. rewrite <-(di_len _ _ _ _ _ Hinv). apply read_shared_wf, (di_wf _ _ _ _ _ Hinv). Qed.

Lemma round_nonempty r r' b : ReadAt r size (pr_offset p) = (r', Ok b) -> b <> [].
Proof.
  intros Hr ->. apply ReadAt_ok in Hr. destruct round_size as (_ & ? & _). simpl in Hr. lia.
Qed.

(** The slots read, and what the scan leaves. *)
Lemma round_scan : exists m, (q <= m <= n)%nat /\ (d <= count good (seq 0 m))%nat /\
  (0 < m -> count good (seq 0 (m - 1)) < d)%nat /\
  forall sched, Read ReadAt sched p store =
    Some (read_return p size (effects (seq 0 m) d0)).
Proof.
  destruct geometry as (_ & _ & Hd & _ & _ & Ed & _). destruct round_size as (_ & Hpos & _).
  destruct (di_wf _ _ _ _ _ Hinv) as (_ & Hrl & Hnd & Hsm & HD & _).
  pose proof (di_len _ _ _ _ _ Hinv) as Hlen. rewrite Hlen in *.
  pose proof (di_D _ _ _ _ _ Hinv) as HD'.
  assert (exists m, (m <= n)%nat /\ (m = n \/ d <= count good (seq 0 m))%nat /\
    (0 < m -> count good (seq 0 (m - 1)) < d)%nat /\
    scanned ReadAt (pr_dataBlocks p) size (pr_offset p) (pr_readerToBuf p) n d0
      = effects (seq 0 m) d0) as (m & Hm & Hend & Hmin & Hsc)
    by (eapply scan_stop; done || lia || apply round_wf).
  assert (d <= count good (seq 0 m))%nat as Hdm.
  { destruct Hend as [->|?]; [apply round_enough|done]. }
  exists m. split_and!; [|lia|done|done|].
  - destruct (decide (q <= m)%nat); [done|]. exfalso.
    pose proof (di_min _ _ _ _ _ Hinv ltac:(lia)) as Hq.
    assert (count good (seq 0 m) <= count (alive (pr_readers p)) (seq 0 m))%nat
      by (apply count_mono; intros i _; rewrite !Is_true_true; apply round_good_alive).
    replace (q - 1)%nat with (m + (q - 1 - m))%nat in Hq by lia.
    rewrite seq_app, count_app in Hq. lia.
  - intros sched. rewrite Read_Read_seq; [|apply ReadAt_ok|apply (di_wf _ _ _ _ _ Hinv)|lia].
    unfold Read_seq. destruct (Z.eqb_spec size 0); [lia|]. destruct (Z.ltb_spec size 0); [lia|].
    cbn [andb orb]. rewrite Hlen.
    destruct (Z.ltb_spec (Z.of_nat n) (pr_dataBlocks p)); [lia|]. f_equal. f_equal. exact Hsc.
Qed.

Lemma round_r2b : length (pr_readerToBuf p) = n /\ NoDup (pr_readerToBuf p) /\
  Forall (fun b => b < n)%nat (pr_readerToBuf p).
Proof.
  destruct (di_wf _ _ _ _ _ Hinv) as (_ & ? & ? & ? & _).
  by rewrite (di_len _ _ _ _ _ Hinv) in *.
Qed.

Lemma seq_below m : (m <= n)%nat -> Forall (fun b => b < n)%nat (seq 0 m).
Proof. intros. apply Forall_forall. intros x. rewrite elem_of_seq. lia. Qed.

Local Ltac side := first [apply round_wf | apply NoDup_seq | apply round_r2b
  | apply round_nonempty | by apply seq_below | done].

Lemma round_effects_wf m : shared_wf n (effects (seq 0 m) d0).
Proof. apply effects_wf; side. Qed.

Lemma round_readers m i a : (m <= n)%nat ->
  sh_readers (effects (seq 0 m) d0) !! i = Some (Some a) ->
  pr_readers p !! i = Some (Some a) /\ ((i < m)%nat -> good i = true).
Proof.
  intros Hm. rewrite (effects_readers ReadAt size (pr_offset p) (pr_readerToBuf p) n)
    by side.
  cbn [sh_readers read_shared]. intros Hi.
  assert (pr_readers p !! i = Some (Some a)) as Ha.
  { destruct (act i d0) as [[id [rr [b|err]]]|]; [done| |done]. case_bool_decide; done. }
  split; [done|]. intros Him. destruct (round_act i a Ha) as (c & r & r' & res & _ & _ & Hact & _).
  unfold ParallelRead.good. rewrite Hact in *. destruct res; [done|].
  rewrite bool_decide_eq_true_2 in Hi by (apply elem_of_seq; lia). done.
Qed.

(** A reader that is still there is still there for the caller. *)
Lemma round_org m i a : (m <= n)%nat ->
  sh_readers (effects (seq 0 m) d0) !! i = Some (Some a) ->
  sh_orgReaders (effects (seq 0 m) d0) !! a = Some (Some a).
Proof.
  intros Hm. apply (effects_org ReadAt size (pr_offset p) (pr_readerToBuf p) n);
    [apply round_r2b..|apply (di_map _ _ _ _ _ Hinv)|apply (di_org _ _ _ _ _ Hinv)].
Qed.

Lemma round_store m i a c r r' res : (m <= n)%nat -> pr_readers p !! i = Some (Some a) ->
  codeword e (blk k) !! a = Some c -> store !! a = Some r -> act i d0 = Some (a, (r', res)) ->
  sh_store (effects (seq 0 m) d0) !! a = Some (if decide (i < m)%nat then r' else r).
Proof.
  intros Hm Ha Hc Hr Hact.
  rewrite (effects_store ReadAt size (pr_offset p) (pr_readerToBuf p) n) with (i := i) (a := a)
    by side.
  rewrite Hact. case_decide.
  - rewrite bool_decide_eq_true_2; [done|]. apply elem_of_seq. lia.
  - rewrite bool_decide_eq_false_2; [done|]. rewrite elem_of_seq. lia.
Qed.

Lemma round_buffers m : (m <= n)%nat ->
  Forall2 erased (codeword e (blk k)) (sh_newBuf (effects (seq 0 m) d0)).
Proof.
  intros Hm. destruct (di_wf _ _ _ _ _ Hinv) as (_ & Hrl & Hnd & Hsm & _ & _).
  rewrite (di_len _ _ _ _ _ Hinv) in *.
  destruct (round_effects_wf m)
    as (Hlb & _). destruct (blk_facts k Hk) as (_ & Hlt & _).
  destruct (codeword_shape e Hwf (blk k) Hlt) as [Hlc _]. fold n in Hlc.
  apply Forall2_same_length_lookup_2; [congruence|]. intros j c b Hc Hb.
  assert (j < n)%nat as Hj by (rewrite <-Hlc; by eapply lookup_lt_Some).
  assert (j ∈ pr_readerToBuf p) as Hjin by (rewrite (NoDup_indexes _ n Hrl Hnd Hsm), elem_of_seq; lia).
  apply list_elem_of_lookup in Hjin as [i Hi].
  assert (i < n)%nat as Hin by (rewrite <-Hrl; by eapply lookup_lt_Some).
  assert (buf_of (pr_readerToBuf p) i = j) as Hbuf by (unfold buf_of; by rewrite Hi).
  rewrite <-Hbuf in Hb.
  rewrite (effects_newBuf ReadAt size (pr_offset p) (pr_readerToBuf p) n) in Hb by side.
  assert (sh_newBuf d0 !! buf_of (pr_readerToBuf p) i = Some []) as Hz.
  { simpl. apply lookup_replicate_2. rewrite Hbuf, (di_len _ _ _ _ _ Hinv). done. }
  destruct (act i d0) as [[a [rr [x|err]]]|] eqn:Ea; [|rewrite Hz in Hb; right; congruence..].
  rewrite Hz in Hb. case_bool_decide; [|right; congruence]. injection Hb as <-. left.
  pose proof (act_id _ _ _ _ _ _ _ Ea) as Ha. simpl in Ha.
  destruct (round_act i a Ha) as (c' & r & r' & res & Hc' & _ & Hact & Hval & _).
  assert (a = j) as -> by (apply (di_map _ _ _ _ _ Hinv) in Ha; congruence).
  rewrite Ea in Hact. injection Hact as <- <-. rewrite (Hval x eq_refl). congruence.
Qed.

Lemma round_present m : (m <= n)%nat ->
  count present (sh_newBuf (effects (seq 0 m) d0)) = count good (seq 0 m).
Proof.
  intros Hm. apply (count_present_effects ReadAt size (pr_offset p) (pr_readerToBuf p) n);
    try side. simpl. by rewrite (di_len _ _ _ _ _ Hinv).
Qed.

Lemma round_next m : (q <= m <= n)%nat -> (0 < m -> count good (seq 0 (m - 1)) < d)%nat ->
  let d1 := effects (seq 0 m) d0 in
  dec_inv gs (S k) m (mkPR (sh_readers d1) (sh_orgReaders d1) (pr_dataBlocks p)
    (add64 (pr_offset p) size) size (pr_shardFileSize p) (pr_readerToBuf p)) (sh_store d1).
Proof.
  intros Hm Hmin d1. destruct Hinv as [Hwfp Hlen HD Hoff Hss Hsfs Hmap Horg Hok Hnd Hen Hserv Hq Hqmin].
  destruct (round_effects_wf m)
    as (Hlb & Hlr & Hlo & Hinj). fold d1 in Hlb, Hlr, Hlo, Hinj.
  destruct Hwfp as (Hpo & Hrl & Hndr & Hsm & HDn & _). rewrite Hlen in *.
  destruct round_size as (Hsz & Hpos & Hfull).
  split; cbn [pr_readers pr_orgReaders pr_dataBlocks pr_offset pr_shardSize pr_shardFileSize
    pr_readerToBuf]; try done.
  - unfold pr_wf. cbn. rewrite Hlr. done.
  - intros Hin. rewrite Hoff, (Hfull Hin) by done. unfold add64.
    destruct geometry as (? & ? & _ & Ebs & Ess & _). unfold inside in Hin.
    rewrite wrap64_id; [lia|]. unfold int64_range.
    assert (Z.of_nat (S k) * Z.of_nat bs < len data) by lia. nia.
  - intros i a Hi. apply Hmap. eapply round_readers; [|exact Hi]. lia.
  - intros i a Hi. eapply round_org; [|exact Hi]. lia.
  - intros i a Hi. destruct (round_readers m i a ltac:(lia) Hi) as [Ha Hg].
    destruct (round_act i a Ha) as (c & r & r' & res & Hc & Hr & Hact & Hval & Hs & Hh).
    destruct (Hok i a Ha) as (r0 & Hr0 & Hcase). rewrite Hr in Hr0. injection Hr0 as <-.
    eexists. split; [eapply round_store; (eassumption || lia)|]. unfold stands in *.
    destruct (decide (i < m)%nat) as [Him|Him].
    + destruct Hcase as [?|Hho]; [left; by apply Hs|right].
      specialize (Hg Him). unfold ParallelRead.good in Hg. rewrite Hact in Hg.
      destruct res as [b|]; [|done]. by apply (Hh Hho b).
    + destruct (decide (i < q)%nat); [lia|]. done.
  - intros i Hi. destruct (Hserv i Hi) as (a & r0 & Ha & Hr0 & Hsv).
    destruct (round_act i a Ha) as (c & r & r' & res & Hc & Hr & Hact & Hval & Hs & Hh).
    rewrite Hr in Hr0. injection Hr0 as <-. destruct (Hs Hsv) as [-> Hnext].
    eexists a, _. split_and!; [|eapply round_store; (eassumption || lia)|].
    + unfold d1. rewrite (effects_readers ReadAt size (pr_offset p) (pr_readerToBuf p) n)
        by side. by rewrite Hact.
    + unfold stands in *. destruct (decide (i < m)%nat); [done|].
      destruct (decide (i < q)%nat); [lia|done].
  - lia.
  - intros Hm0. specialize (Hmin Hm0). eapply Nat.le_lt_trans; [|exact Hmin].
    apply count_mono. intros i Hi%elem_of_seq. rewrite !Is_true_true. unfold alive.
    destruct (sh_readers d1 !! i) as [[a|]|] eqn:Ei; try done. intros _.
    eapply (round_readers m i a); [lia|exact Ei|lia].
Qed.

(** One block is read: whatever the schedule, enough pieces of the codeword
    arrive and the readers are ready for the next block. *)
Lemma round_spec sched : exists m p' store' bufs err,
  Read ReadAt sched p store = Some (p', store', Some bufs, err) /\
  dec_inv gs (S k) m p' store' /\ Forall2 erased (codeword e (blk k)) bufs /\
  dataBlocks e <= Z.of_nat (count present bufs) /\
  (err = None \/ reportable err = true) /\ pr_readerToBuf p' = pr_readerToBuf p.
Proof.
  destruct geometry as (_ & _ & _ & _ & _ & Ed & _).
  destruct round_scan as (m & Hm & Hd & Hmin & Hread). eexists m, _, _, _, _. rewrite Hread.
  unfold read_return, canDecode. rewrite round_present, (di_D _ _ _ _ _ Hinv) by lia.
  destruct (Z.leb_spec (dataBlocks e) (Z.of_nat (count good (seq 0 m)))); [|lia].
  split; [reflexivity|]. split_and!.
  - rewrite <-(di_D _ _ _ _ _ Hinv). apply round_next; [lia|done].
  - apply round_buffers. lia.
  - rewrite round_present by lia. done.
  - unfold reportable. destruct (sh_missing _); [by right|]. destruct (sh_bitrot _); [by right|by left].
  - done.
Qed.
End Round.

(** ** The range of the object *)

Definition range (l : bytes) (lo hi : Z) : bytes :=
  take (Z.to_nat (hi - lo)) (drop (Z.to_nat lo) l).

Lemma range_app l lo mid hi : 0 <= lo <= mid -> mid <= hi ->
  range l lo mid ++ range l mid hi = range l lo hi.
Proof.
  intros. unfold range.
  replace (drop (Z.to_nat mid) l) with (drop (Z.to_nat (mid - lo)) (drop (Z.to_nat lo) l))
    by (rewrite drop_drop; f_equal; lia).
  rewrite take_take_drop. f_equal. lia.
Qed.

Lemma range_length l lo hi : 0 <= lo <= hi -> hi <= len l -> len (range l lo hi) = hi - lo.
Proof. intros. unfold range. rewrite length_take, length_drop. lia. Qed.

Lemma range_empty l lo : range l lo lo = [].
Proof. unfold range. by rewrite Z.sub_diag. Qed.

Context (offset length : Z) (off_pos : 0 <= offset) (len_pos : 0 < length)
  (in_data : offset + length <= len data) (in_lim : (offset + length) / blockSize e < Z.of_nat lim).

(** How far the range is written before block [k]. *)
Definition reached (k : nat) : Z := Z.min (offset + length) (Z.max offset (Z.of_nat k * blockSize e)).

Lemma block_range_reached k : offset / blockSize e <= Z.of_nat k <= (offset + length) / blockSize e ->
  block_range e offset length (Z.of_nat k) =
    (reached k - Z.of_nat k * blockSize e, reached (S k) - reached k).
Proof.
  intros Hk. destruct Hwf as (_ & _ & _ & Hbs). unfold block_range, reached, quot64, rem64, add64, sub64.
  rewrite (wrap64_id (offset + length)) by (unfold int64_range; lia).
  rewrite !Z.quot_div_nonneg, !Z.rem_mod_nonneg by lia.
  set (b := blockSize e) in *. pose proof (Z.div_mod offset b ltac:(lia)).
  pose proof (Z.mod_pos_bound offset b ltac:(lia)).
  pose proof (Z.div_mod (offset + length) b ltac:(lia)).
  pose proof (Z.mod_pos_bound (offset + length) b ltac:(lia)).
  set (st := offset / b) in *. set (en := (offset + length) / b) in *.
  assert (0 <= st) by (apply Z.div_pos; lia). assert (0 <= en) by (apply Z.div_pos; lia).
  rewrite !wrap64_id by (unfold int64_range; nia). rewrite Nat2Z.inj_succ.
  destruct (Z.eqb_spec st en) as [E|E].
  { assert (Z.of_nat k = st) as -> by lia. f_equal; nia. }
  destruct (Z.eqb_spec (Z.of_nat k) st) as [E1|E1].
  { rewrite E1. assert (st + 1 <= en) by lia. f_equal; nia. }
  destruct (Z.eqb_spec (Z.of_nat k) en) as [E2|E2].
  { rewrite E2. assert (st + 1 <= en) by lia. f_equal; nia. }
  assert ((st + 1) * b <= Z.of_nat k * b) by (apply Z.mul_le_mono_nonneg_r; lia).
  assert ((Z.of_nat k + 1) * b <= en * b) by (apply Z.mul_le_mono_nonneg_r; lia).
  f_equal; lia.
Qed.

Lemma reached_next k : offset / blockSize e <= Z.of_nat k <= (offset + length) / blockSize e ->
  Z.of_nat k * blockSize e <= reached k <= reached (S k) /\
  reached (S k) <= Z.of_nat (S k) * blockSize e /\ reached (S k) <= offset + length /\
  (reached (S k) = reached k -> reached k = offset + length).
Proof.
  intros Hk. destruct Hwf as (_ & _ & _ & Hbs). unfold reached.
  pose proof (Z.div_mod offset (blockSize e) ltac:(lia)).
  pose proof (Z.mod_pos_bound offset (blockSize e) ltac:(lia)).
  pose proof (Z.div_mod (offset + length) (blockSize e) ltac:(lia)).
  pose proof (Z.mod_pos_bound (offset + length) (blockSize e) ltac:(lia)).
  rewrite Nat2Z.inj_succ.
  assert (offset < Z.of_nat k * blockSize e + blockSize e) by nia.
  replace (Z.succ (Z.of_nat k) * blockSize e) with (Z.of_nat k * blockSize e + blockSize e) by lia.
  assert (Z.of_nat k * blockSize e <= offset + length) by nia. lia.
Qed.

(** What is written of block [k]: the decoded shards are the padded block. *)
Lemma write_block out k rest : inside k ->
  offset / blockSize e <= Z.of_nat k <= (offset + length) / blockSize e ->
  let '(bo, bl) := block_range e offset length (Z.of_nat k) in
  writeDataBlocks Buffer out (data_shards d (blk k) ++ rest) (dataBlocks e) bo bl =
    Some (out ++ range data (reached k) (reached (S k)), Ok (reached (S k) - reached k)).
Proof.
  intros Hin Hk. rewrite block_range_reached by done. destruct (reached_next k Hk) as (H1 & H2 & H3 & H4).
  destruct (blk_facts k Hin) as (Hne & Hlt & Hbl). unfold inside in Hin.
  destruct geometry as (? & _ & ? & Ebs & _ & Ed & _).
  destruct (data_shards_ok e Hwf (blk k) Hlt) as (Hlen & _ & Hcat). fold d in Hlen, Hcat.
  assert (slice_to (data_shards d (blk k) ++ rest) (dataBlocks e) = data_shards d (blk k)) as Hsl.
  { unfold slice_to. rewrite Ed, Nat2Z.id. rewrite take_app_le by lia. apply take_ge. lia. }
  destruct (shard_len_bounds d (blk k)) as [Hpad _]; [lia|destruct Hwf as (?&?&?&?); lia|lia|].
  assert (List.length (pad d (blk k)) = d * shard_len d (blk k))%nat as Hpl
    by (unfold pad; rewrite length_app, length_replicate; lia).
  assert (reached (S k) - Z.of_nat k * blockSize e <= len (blk k)) as Hfit by lia.
  rewrite writeDataBlocks_Buffer; rewrite ?Hsl, ?Hcat; try lia.
  2:{ rewrite length_app. lia. }
  assert (slice_to (slice_from (pad d (blk k)) (reached k - Z.of_nat k * blockSize e))
    (reached (S k) - reached k) = range data (reached k) (reached (S k))) as ->.
  { unfold slice_to, slice_from, range, pad.
    rewrite drop_app_le by lia. rewrite take_app_le by (rewrite length_drop; lia).
    unfold blk. rewrite skipn_firstn_comm, take_take, drop_drop, Nat.min_l by lia. do 2 f_equal. lia. }
  rewrite range_length by lia. done.
Qed.

Lemma decode_loop_spec gs sched cnt : forall k q s,
  offset / blockSize e <= Z.of_nat k ->
  Z.of_nat k + Z.of_nat cnt = (offset + length) / blockSize e + 1 ->
  dec_inv gs k q (ds_reader Buffer s) (ds_store Buffer s) ->
  ds_written Buffer s = reached k - offset ->
  (ds_derr Buffer s = None \/ reportable (ds_derr Buffer s) = true) ->
  exists s', decode_loop ReadAt Buffer e sched offset length cnt (Z.of_nat k) s = Some (s', None) /\
    ds_writer Buffer s' = ds_writer Buffer s ++ range data (reached k) (offset + length) /\
    ds_written Buffer s' = length /\
    (ds_derr Buffer s' = None \/ reportable (ds_derr Buffer s') = true) /\
    pr_readerToBuf (ds_reader Buffer s') = pr_readerToBuf (ds_reader Buffer s) /\
    exists k' q', dec_inv gs k' q' (ds_reader Buffer s') (ds_store Buffer s').
Proof.
  destruct geometry as (Hbs & _ & _ & Ebs & _ & Ed & _).
  pose proof (Z.div_mod (offset + length) (blockSize e) ltac:(lia)) as Hdm.
  pose proof (Z.mod_pos_bound (offset + length) (blockSize e) ltac:(lia)) as Hmb.
  induction cnt as [|cnt IH]; intros k q s Hlo Hcnt Hinv Hwr Hderr.
  { assert (Z.of_nat k = (offset + length) / blockSize e + 1) as Ek by lia.
    assert (reached k = offset + length) as Hr.
    { unfold reached. rewrite Ek. rewrite Z.mul_add_distr_r, (Z.mul_comm _ (blockSize e)). lia. }
    exists s. rewrite Hr in *. rewrite range_empty, app_nil_r. split_and!; [done|done|lia|done|done|by exists k, q]. }
  assert (Z.of_nat k <= (offset + length) / blockSize e) as Hhi by lia.
  destruct (reached_next k ltac:(lia)) as (H1 & H2 & H3 & H4).
  cbn [decode_loop]. pose proof (fun out rest => write_block out k rest) as Hwb.
  rewrite block_range_reached in * by lia.
  destruct (Z.eqb_spec (reached (S k) - reached k) 0) as [E|E].
  { assert (reached k = offset + length) as Hr by (apply H4; lia).
    exists s. rewrite Hr in *. rewrite range_empty, app_nil_r. split_and!; [done|done|lia|done|done|by exists k, q]. }
  assert (inside k) as Hin by (unfold inside; lia).
  destruct (round_spec gs k q _ _ Hinv Hin (sched (Z.of_nat k)))
    as (m & p' & store' & bufs & err & -> & Hinv' & Her & Hcnt' & Herr & Hr2b). cbn [mbind option_bind].
  destruct (blk_facts k Hin) as (Hne & Hlt & _).
  destruct (DecodeDataBlocks_codeword e Hwf (blk k) bufs Hne Hlt Her Hcnt') as [rest Hdec].
  assert (bufs <> []) as Hbne.
  { intros ->. simpl in Hcnt'. rewrite count_nil in Hcnt'. destruct Hwf as (?&_). lia. }
  change (default [] (Some bufs)) with bufs.
  rewrite (bool_decide_eq_false_2 (bufs = [])) by done.
  destruct bufs as [|b0 bufs]; [done|]. cbv beta iota zeta. rewrite Hdec. cbn [mbind option_bind].
  rewrite Hwb by (done || lia). cbn [mbind option_bind].
  set (s1 := mkDS _ _ _ _ _).
  replace (Z.of_nat k + 1) with (Z.of_nat (S k)) by lia.
  destruct (IH (S k) m s1) as (s' & -> & Hw & Hn & Hd & Hb & Hfin).
  - lia.
  - lia.
  - exact Hinv'.
  - unfold s1. cbn [ds_written]. unfold add64. rewrite Hwr, wrap64_id; [lia|].
    unfold int64_range. lia.
  - unfold s1. cbn [ds_derr]. unfold note_err. destruct (reportable err) eqn:Er; [|done].
    destruct (ds_derr Buffer s); [done|by right].
  - exists s'. split_and!; [done| |done|done|by rewrite Hb|done]. rewrite Hw. unfold s1. cbn [ds_writer].
    rewrite <-app_assoc. f_equal. apply range_app; [|lia]. unfold reached. lia.
Qed.
End Block.

(** ** Preferred readers

    The slots [Decode] reads, with the buffer of each. *)

Definition slots (readers : list (option nat)) (prefer : list bool) : list (option nat) * list nat :=
  if (length prefer =? length readers)%nat
  then prefer_loop prefer 0 0 readers (seq 0 (length readers))
  else (readers, seq 0 (length readers)).

(** The reordering is sound: the same readers, and each slot's buffer is its
    reader's. *)
Definition slots_ok (readers : list (option nat)) (prefer : list bool) : Prop :=
  let '(rs, r2b) := slots readers prefer in
  rs ≡ₚ readers /\ length r2b = length readers /\ NoDup r2b /\
  Forall (fun b => b < length readers)%nat r2b /\
  forall i a, rs !! i = Some (Some a) -> r2b !! i = Some a.

(** Reader [i], if there is one, is the reader of shard [i]. *)
Definition indexed (readers : list (option nat)) : Prop :=
  forall i a, readers !! i = Some (Some a) -> a = i.

Lemma slots_ok_none readers : indexed readers -> slots_ok readers [].
Proof.
  intros Hix. unfold slots_ok, slots.
  assert (length readers = 0%nat \/ (length (A := bool) [] =? length readers)%nat = false) as [E|E]
    by (destruct readers; [by left|by right]).
  { destruct readers; [|done]. simpl. split_and!; [done|done|constructor|constructor|].
    intros i a Hi. by rewrite lookup_nil in Hi. }
  rewrite E. rewrite length_seq. split_and!; [done|done|apply NoDup_seq| |].
  - apply Forall_forall. intros x. rewrite elem_of_seq. lia.
  - intros i a Hi. pose proof (Hix i a Hi) as ->. apply lookup_seq. split; [done|].
    by eapply lookup_lt_Some.
Qed.

(** The slots that hold given readers. *)
Lemma choose_slots (rs : list (option nat)) (gs : list nat) :
  NoDup gs -> (forall g, g ∈ gs -> Some g ∈ rs) ->
  exists sl, NoDup sl /\ length sl = length gs /\
    (forall i, i ∈ sl -> exists g, g ∈ gs /\ rs !! i = Some (Some g)) /\
    (forall g, g ∈ gs -> exists i, i ∈ sl /\ rs !! i = Some (Some g)).
Proof.
  induction gs as [|g gs IH]; intros Hnd Hin.
  { exists []. split_and!; [constructor|done|..]; intros i Hi; by apply elem_of_nil in Hi. }
  apply NoDup_cons in Hnd as [Hg Hnd].
  destruct IH as (sl & Hnd' & Hl & His & Hgs); [done|intros; apply Hin; by right|].
  destruct (proj1 (list_elem_of_lookup rs (Some g)) (Hin g ltac:(left))) as [i Hi].
  exists (i :: sl). split_and!; [|simpl; lia|..].
  - apply NoDup_cons. split; [|done]. intros Hi'. destruct (His i Hi') as (g' & Hg' & Hrs).
    rewrite Hi in Hrs. injection Hrs as <-. done.
  - intros j [->|Hj]%elem_of_cons; [exists g; split; [left|done]|].
    destruct (His j Hj) as (g' & ? & ?). exists g'. split; [by right|done].
  - intros g' [->|Hg']%elem_of_cons; [exists i; split; [left|done]|].
    destruct (Hgs g' Hg') as (j & ? & ?). exists j. split; [by right|done].
Qed.

Section DecodeFacts.
Context {L : RSLibrary} (e : Erasure) (Hwf : erasure_wf e).
Context {LL : RSLaws L (dataBlocks e) (parityBlocks e)}.
Context {R : Type} `{ShardReader R}.
Context (data : bytes) (data_small : len data < 2 ^ 62) (bs_small : blockSize e < 2 ^ 62).
Context (lim : nat).

(** The drives an object is read from: every reader is honest about its shard
    and the readers [gs] never fail. *)
Definition drives_ok (readers : list (option nat)) (store : list R) (gs : list nat) : Prop :=
  length readers = n e /\ indexed readers /\
  (forall i a, readers !! i = Some (Some a) -> exists r, store !! a = Some r /\
    (serves (ss e) (shard e data lim a) None r \/ honest (ss e) (shard e data lim a) r)) /\
  NoDup gs /\ (d e <= length gs)%nat /\
  (forall g, g ∈ gs -> readers !! g = Some (Some g) /\
    exists r, store !! g = Some r /\ serves (ss e) (shard e data lim g) None r).

Lemma slots_dec_inv readers store gs rs r2b k sfs : drives_ok readers store gs ->
  rs ≡ₚ readers -> length r2b = length readers -> NoDup r2b ->
  Forall (fun b => b < length readers)%nat r2b ->
  (forall i a, rs !! i = Some (Some a) -> r2b !! i = Some a) ->
  ShardFileSize e (len data) = Some sfs ->
  exists sl, dec_inv e data lim sl k 0
    (mkPR rs readers (dataBlocks e) (Z.of_nat k * ShardSize e) (ShardSize e) sfs r2b) store /\
    forall g, g ∈ gs -> exists i, i ∈ sl /\ r2b !! i = Some g.
Proof.
  intros (Hlen & Hix & Hok & Hnd & Hen & Hserv) Hp Hl2 Hnd2 Hsm Hmap Hsfs.
  pose proof (Permutation_length Hp) as Hpl.
  destruct (geometry e Hwf) as (_ & _ & Hd & _ & _ & Ed & _).
  assert (forall a, Some a ∈ rs <-> readers !! a = Some (Some a)) as Hmem.
  { intros a. rewrite Hp, list_elem_of_lookup. split; [|by exists a].
    intros [i Hi]. by rewrite (Hix i a Hi) at 1. }
  assert (forall g, g ∈ gs -> Some g ∈ rs) as Hgs by (intros g Hg; by apply Hmem, Hserv).
  destruct (choose_slots rs gs Hnd Hgs) as (sl & Hnd' & Hl' & His' & Hsl').
  exists sl. split; [|intros g Hg; destruct (Hsl' g Hg) as (i & Hi & Hgi); exists i; auto].
  split; cbn [pr_readers pr_orgReaders pr_dataBlocks pr_offset pr_shardSize
    pr_shardFileSize pr_readerToBuf]; try done; try lia.
  - unfold pr_wf. cbn. rewrite Hpl. split_and!; try done; try lia.
    intros i j a Hi Hj. apply Hmap in Hi, Hj. exact (NoDup_lookup r2b i j a Hnd2 Hi Hj).
  - intros i a Hi. apply Hmem. by eapply list_elem_of_lookup_2.
  - intros i a Hi. apply (Hok a a), Hmem. by eapply list_elem_of_lookup_2.
  - intros i Hi. destruct (His' i Hi) as (g & Hg & Hgi).
    destruct (Hserv g Hg) as (_ & r & Hr & Hs). exists g, r. done.
Qed.

Lemma Decode_spec readers store gs offset length prefer sched out :
  drives_ok readers store gs -> slots_ok readers prefer ->
  0 <= offset -> 0 <= length -> offset + length <= len data ->
  (offset + length) / blockSize e < Z.of_nat lim ->
  exists res, Decode ReadAt Buffer e sched out readers store offset length (len data) prefer
      = Some res /\
    dr_writer Buffer res = out ++ range data offset (offset + length) /\
    dr_written Buffer res = length /\
    (dr_err Buffer res = None \/ reportable (dr_err Buffer res) = true) /\
    List.length (dr_readers Buffer res) = n e /\
    forall g, g ∈ gs -> dr_readers Buffer res !! g = Some (Some g).
Proof.
  intros Hdr Hsl Ho Hl Hin Hlim. unfold Decode.
  destruct (Z.ltb_spec offset 0); [lia|]. destruct (Z.ltb_spec length 0); [lia|]. cbn [orb].
  unfold add64 at 1. rewrite wrap64_id by (unfold int64_range; lia).
  destruct (Z.ltb_spec (len data) (offset + length)); [lia|].
  destruct (Z.eqb_spec length 0) as [->|Hl0].
  { eexists. split; [done|]. simpl. rewrite Z.add_0_r, range_empty, app_nil_r. destruct Hdr as (? & _ & _ & _ & _ & Hdr).
    split_and!; auto. intros g Hg. by apply Hdr. }
  destruct (ShardFileSize_exact e Hwf (len data) ltac:(lia)) as [Hsfs _].
  set (sfs := _ + _) in Hsfs. clearbody sfs.
  unfold newParallelReader. destruct (Z.eqb_spec (blockSize e) 0) as [E0|_];
    [destruct Hwf as (?&?&?&?); lia|]. rewrite Hsfs. cbn [mbind option_bind].
  destruct (geometry e Hwf) as (Hbs & Hss & _ & Ebs & Ess & _ & _).
  assert (0 <= offset / blockSize e <= (offset + length) / blockSize e) as Hdiv
    by (split; [apply Z.div_pos; lia|apply Z.div_le_mono; lia]).
  assert ((offset + length) / blockSize e <= offset + length) as Hdiv2
    by (apply Z.div_le_upper_bound; nia).
  assert (blockSize e * (offset / blockSize e) <= offset) by (apply Z.mul_div_le; lia).
  unfold quot64, mul64, add64. rewrite !(wrap64_id (offset + length)) by (unfold int64_range; lia).
  rewrite !Z.quot_div_nonneg by lia.
  rewrite !(wrap64_id (_ / blockSize e)) by (unfold int64_range; lia).
  rewrite (wrap64_id (_ * ShardSize e)) by (unfold int64_range; nia).
  set (k := Z.to_nat (offset / blockSize e)).
  assert (offset / blockSize e = Z.of_nat k) as Ek by (unfold k; lia).
  unfold slots_ok, slots in Hsl. unfold preferReaders. cbn [pr_orgReaders pr_readers pr_readerToBuf
    pr_dataBlocks pr_offset pr_shardSize pr_shardFileSize].
  destruct (_ =? List.length readers)%nat eqn:Epref; cbn [negb];
    [destruct (prefer_loop prefer 0 0 readers (seq 0 (List.length readers))) as [rs r2b]|].
  all: destruct Hsl as (Hp & Hl2 & Hnd2 & Hsm & Hmap).
  all: edestruct (slots_dec_inv readers store gs) with (k := k) (sfs := sfs) as (sl & Hinv & Hkeep);
    [exact Hdr|exact Hp|exact Hl2|exact Hnd2|exact Hsm|exact Hmap|exact Hsfs|].
  all: assert (reached e offset length k = offset) as Hr by (unfold reached; lia).
  all: rewrite Ek; match type of Hinv with dec_inv _ _ _ _ _ _ ?p _ =>
    edestruct (decode_loop_spec e Hwf data data_small bs_small lim offset length Ho)
    with (gs := sl) (sched := sched) (k := k) (q := 0%nat)
      (cnt := Z.to_nat ((offset + length) / blockSize e - Z.of_nat k + 1))
      (s := mkDS (W := Buffer) out p store 0 None) as (s' & Hloop & Hw & Hn & He & Hb & k' & q' & Hfin) end;
    [lia|lia|lia|lia|lia|exact Hinv|cbn [ds_written]; lia|by left|].
  all: rewrite Hloop; cbn [mbind option_bind]; eexists; split; [reflexivity|];
    rewrite Hn, Z.eqb_refl; cbn [negb]; cbn [dr_writer dr_written dr_err dr_readers];
    rewrite Hw, Hr; split_and!;
    [done..|destruct (di_wf _ _ _ _ _ _ _ _ Hfin) as (-> & _); apply (di_len _ _ _ _ _ _ _ _ Hfin)|]; intros g Hg; destruct (Hkeep g Hg) as (i & Hi & Hgi);
    destruct (di_serv _ _ _ _ _ _ _ _ Hfin i Hi) as (a & _ & Ha & _);
    pose proof (di_map _ _ _ _ _ _ _ _ Hfin i a Ha) as Hia; rewrite Hb in Hia;
    cbn [ds_reader pr_readerToBuf] in Hia; rewrite Hgi in Hia; injection Hia as <-;
    exact (di_org _ _ _ _ _ _ _ _ Hfin i g Ha).
Qed.
End DecodeFacts.
