(* ===== verification/ObjectStream.v ===== *)
(** * Objects as bitrot-protected erasure-coded streams

    Puts [cmd/erasure-encode.go], [cmd/erasure-decode.go] and
    [cmd/bitrot-streaming.go] together: the streaming bitrot reader is a shard
    reader in the sense [Decode] needs, [Encode] writes the shard files [Decode]
    reads, and a range of the object read back is the range of the bytes
    written. *)

From S2P Require Import Prelude Erasure FileInfo Quorum Distribution ParallelRead Bitrot ErasureIO.

(** ** The streaming bitrot reader delivers shards *)

Lemma pieces_bounds s ps k p : pieces_ok s ps -> ps !! k = Some p ->
  (0 < length p <= s)%nat /\ (S k < length ps -> length p = s)%nat.
Proof.
  revert k. induction ps as [|q ps IH]; intros [|k] Hok Hp; simpl in *; try done.
  - injection Hp as ->. destruct Hok as (? & Hfull & _). split; [done|]. intros Hk.
    apply Hfull. intros ->. simpl in Hk. lia.
  - destruct (IH k (proj2 (proj2 Hok)) Hp) as [? Hf]. split; [done|]. intros. apply Hf. lia.
Qed.

Lemma pieces_lookup_inv s ps k : pieces_ok s ps -> (k < length ps)%nat ->
  exists p, ps !! k = Some p /\ (0 < length p <= s)%nat.
Proof.
  intros Hok Hk. destruct (lookup_lt_is_Some_2 ps k Hk) as [p Hp]. exists p. split; [done|].
  by destruct (pieces_bounds s ps k p Hok Hp).
Qed.

Section BitrotShards.
Context `{HashLib}.
Local Abbreviation algo := HighwayHash256S.
Local Abbreviation hs := (hash_size algo).

(** [len(buf)] is the length of a slice, and the shard size is positive in a
    reader that was built for shards. *)
Definition bitrot_ReadAt (b : streamingBitrotReader) (n offset : Z)
  : streamingBitrotReader * result bytes :=
  if n <? 0 then (b, Err errUnexpected)
  else match streaming_ReadAt b (Z.to_nat n) offset with
       | Some x => x
       | None => (b, Err errUnexpected)
       end.

Definition sizes_ok (s : nat) (ps : list bytes) : Prop :=
  (0 < s)%nat /\ pieces_ok s ps /\ len ps * (Z.of_nat s + Z.of_nat hs) < 2 ^ 61.

Definition bitrot_serves (s : nat) (ps : list bytes) (o : option nat) (b : streamingBitrotReader)
  : Prop :=
  sizes_ok s ps /\
  match o with
  | None => reader_fresh algo b s ps
  | Some k => (k < length ps)%nat -> reader_at algo b s ps k
  end.

(** Every block of the file at the place of a shard that agrees with the sum
    before it is that shard: no corruption escapes the checksum. *)
Definition detected (s : nat) (ps : list bytes) (content : bytes) : Prop :=
  forall k p sum buf rest, ps !! k = Some p -> length buf = length p ->
    drop (k * (hs + s)) content = sum ++ buf ++ rest ->
    hash_sum algo buf = sum -> buf = p.

(** A reader over a file with that content, or over what a drive still
    delivers of it. *)
Definition reads_content (b : streamingBitrotReader) (content : bytes) : Prop :=
  (sr_data b = content /\ content <> []) \/
  (sr_data b = [] /\ forall off n st, 0 <= off -> sr_open b off n = Ok st ->
     st_data st `prefix_of` slice_from content off).

Definition bitrot_honest (s : nat) (ps : list bytes) (b : streamingBitrotReader) : Prop :=
  sizes_ok s ps /\ sr_algo b = algo /\ sr_shardSize b = Z.of_nat s /\
  exists content, detected s ps content /\
    ((sr_rc b = None /\ reads_content b content) \/
     (exists j st, sr_rc b = Some st /\ sr_currOffset b = Z.of_nat j * Z.of_nat s /\
        st_data st `prefix_of` drop (j * (hs + s)) content) \/
     (exists st, sr_rc b = Some st /\ (len ps - 1) * Z.of_nat s < sr_currOffset b)).

Lemma length_concat_pieces s ps : pieces_ok s ps -> (length (concat ps) <= length ps * s)%nat.
Proof.
  induction ps as [|p ps IH]; intros Hok; simpl in *; [lia|].
  destruct Hok as (? & _ & Hok). rewrite length_app. specialize (IH Hok). lia.
Qed.

Lemma sizes_encode s ps : sizes_ok s ps -> len (bitrot_encode algo ps) < 2 ^ 61 /\
  len ps * Z.of_nat s < 2 ^ 61.
Proof.
  intros (Hs & Hok & Hb). pose proof (length_concat_pieces s ps Hok).
  rewrite length_encode. nia.
Qed.

Lemma bitrot_serves_read s ps o r k p :
  bitrot_serves s ps o r -> o = None \/ o = Some k -> ps !! k = Some p ->
  exists r', bitrot_ReadAt r (len p) (Z.of_nat k * Z.of_nat s) = (r', Ok p) /\
    bitrot_serves s ps (Some (S k)) r'.
Proof.
  intros [Hsz Hr] Ho Hp. destruct (sizes_encode s ps Hsz) as [He Hl].
  pose proof Hsz as (Hs & Hok & Hb). pose proof (lookup_lt_Some _ _ _ Hp) as Hk.
  assert ((Z.of_nat k + 1) * Z.of_nat s <= len ps * Z.of_nat s) by nia.
  assert (exists b', reader_at algo b' s ps k /\
    streaming_ReadAt r (length p) (Z.of_nat k * Z.of_nat s) =
    streaming_ReadAt b' (length p) (Z.of_nat k * Z.of_nat s)) as (b' & Hat & Heq).
  { destruct Ho as [->| ->]; [|exists r; by split; [apply Hr|]].
    apply ReadAt_fresh; try done; lia. }
  destruct (ReadAt_at algo b' s ps k p Hs Hat Hp) as (b2 & Hread & Hnext); [lia|done|].
  exists b2. unfold bitrot_ReadAt. destruct (Z.ltb_spec (len p) 0); [lia|].
  rewrite Nat2Z.id, Heq, Hread. split; [done|]. by split.
Qed.

Lemma bitrot_fills : ReadAt_fills bitrot_ReadAt.
Proof.
  intros r n off r' b. unfold bitrot_ReadAt. destruct (Z.ltb_spec n 0); [done|].
  destruct (streaming_ReadAt r (Z.to_nat n) off) as [[r1 res]|] eqn:E; [|done].
  intros [= <- ->]. apply streaming_ReadAt_Ok in E as (? & ? & ? & _ & _ & Hl & _). lia.
Qed.

(** The place of shard [k] in the file. *)
Lemma stream_offset (b : streamingBitrotReader) (s k : nat) : (0 < s)%nat ->
  sr_algo b = algo -> sr_shardSize b = Z.of_nat s ->
  Z.of_nat k * (Z.of_nat s + Z.of_nat hs) < 2 ^ 61 ->
  let offset := Z.of_nat k * Z.of_nat s in
  (offset / sr_shardSize b * Z.of_nat (hash_size (sr_algo b)) + offset)%int64
    = Z.of_nat (k * (hs + s)).
Proof.
  intros Hs -> -> Hkb offset. unfold offset, quot64, mul64, add64.
  assert (0 <= Z.of_nat k * Z.of_nat s /\ 0 <= Z.of_nat k * Z.of_nat hs /\
    Z.of_nat k <= Z.of_nat k * Z.of_nat s) as (Hp1 & Hp2 & Hp3) by nia.
  rewrite Z.mul_add_distr_l in Hkb. rewrite Z.quot_mul by lia.
  rewrite (wrap64_id (Z.of_nat k)) by (unfold int64_range; lia).
  rewrite (wrap64_id (Z.of_nat k * Z.of_nat hs)) by (unfold int64_range; lia).
  rewrite wrap64_id by (unfold int64_range; lia). lia.
Qed.

Lemma fresh_opened b s k content b1 rc : (0 < s)%nat ->
  sr_algo b = algo -> sr_shardSize b = Z.of_nat s -> sr_rc b = None ->
  Z.of_nat k * (Z.of_nat s + Z.of_nat hs) < 2 ^ 61 -> reads_content b content ->
  sr_opened b (Z.of_nat k * Z.of_nat s) = (b1, Ok rc) ->
  sr_algo b1 = algo /\ sr_shardSize b1 = Z.of_nat s /\
  st_data rc `prefix_of` drop (k * (hs + s)) content.
Proof.
  intros Hs Ha Hss Hrc Hkb Hsrc. unfold sr_opened. rewrite Hrc.
  rewrite (stream_offset b s k Hs Ha Hss Hkb). generalize (k * (hs + s))%nat as off. intros off.
  destruct Hsrc as [[Hdata Hne]|[Hdata Hopen]].
  - rewrite (bool_decide_eq_false_2 (sr_data b = [])) by (by rewrite Hdata). cbn [andb].
    intros [= <- <-]. split_and!; [done|done|]. unfold section_reader. cbn [st_data].
    rewrite Nat2Z.id, Hdata. apply prefix_take.
  - rewrite (bool_decide_eq_true_2 (sr_data b = [])) by done. cbn [andb].
    destruct (negb _).
    + destruct (sr_open b (Z.of_nat off) _) as [st|] eqn:Eo; [|done]. intros [= <- <-].
      split_and!; [done|done|]. rewrite <-(Nat2Z.id off). by eapply Hopen; [|exact Eo]; lia.
    + intros [= <- <-]. split_and!; [done|done|]. unfold section_reader. cbn [st_data].
      rewrite Hdata, drop_nil, take_nil. apply prefix_nil.
Qed.

(** Where an honest reader's stream starts when shard [k] is asked for. *)
Lemma honest_opened s ps b k p b1 rc : bitrot_honest s ps b -> ps !! k = Some p ->
  sr_opened b (Z.of_nat k * Z.of_nat s) = (b1, Ok rc) ->
  Z.of_nat k * Z.of_nat s = sr_currOffset b1 ->
  sr_algo b1 = algo /\ sr_shardSize b1 = Z.of_nat s /\
  exists content, detected s ps content /\ st_data rc `prefix_of` drop (k * (hs + s)) content.
Proof.
  intros (Hsz & Ha & Hss & content & Hdet & Hst) Hp Hop Hcur.
  destruct Hsz as (Hs & _ & Hb). pose proof (lookup_lt_Some _ _ _ Hp) as Hk.
  assert (Z.of_nat k * (Z.of_nat s + Z.of_nat hs) < 2 ^ 61) as Hkb.
  { eapply Z.le_lt_trans; [|exact Hb]. apply Z.mul_le_mono_nonneg_r; lia. }
  destruct Hst as [[Hrc Hsrc]|[(j & st & Hrc & Hj & Hpre)|(st & Hrc & Hfar)]].
  - destruct (fresh_opened b s k content b1 rc) as (? & ? & ?); try done.
    split_and!; [done|done|]. by exists content.
  - unfold sr_opened in Hop. rewrite Hrc in Hop. injection Hop as <- <-.
    rewrite Hj in Hcur. apply Z.mul_reg_r in Hcur; [|lia]. apply Nat2Z.inj in Hcur. subst j.
    split_and!; [done|done|]. by exists content.
  - unfold sr_opened in Hop. rewrite Hrc in Hop. injection Hop as <- <-. exfalso.
    rewrite <-Hcur in Hfar. apply Z.mul_lt_mono_pos_r in Hfar; lia.
Qed.

Lemma bitrot_honest_read s ps r k p r' b : bitrot_honest s ps r -> ps !! k = Some p ->
  bitrot_ReadAt r (len p) (Z.of_nat k * Z.of_nat s) = (r', Ok b) ->
  b = p /\ bitrot_honest s ps r'.
Proof.
  intros Hh Hp Hread. unfold bitrot_ReadAt in Hread. destruct (Z.ltb_spec (len p) 0); [lia|].
  rewrite Nat2Z.id in Hread.
  destruct (streaming_ReadAt r _ _) as [[r1 res]|] eqn:E; [|done]. injection Hread as -> ->.
  apply streaming_ReadAt_Ok in E as (b1 & rc & rest & Hop & Hcur & Hlen & Hdata & ->).
  destruct (honest_opened s ps r k p b1 rc Hh Hp Hop Hcur) as (Ha1 & Hs1 & content & Hdet & [tail Hpre]).
  rewrite Ha1 in Hdata. rewrite Hdata in Hpre. rewrite <-!app_assoc in Hpre.
  assert (b = p) as -> by (eapply Hdet; [exact Hp|done|exact Hpre|done]).
  split; [done|]. destruct Hh as (Hsz & _).
  destruct (sizes_encode s ps Hsz) as [_ Hl]. pose proof Hsz as (Hs & Hok & Hb).
  destruct (pieces_bounds s ps k p Hok Hp) as [Hpb Hfull].
  pose proof (lookup_lt_Some _ _ _ Hp) as Hk.
  assert (Z.of_nat k * Z.of_nat s + len p <= len ps * Z.of_nat s) by nia.
  unfold bitrot_honest, sr_with, add64.
  cbn [sr_algo sr_shardSize sr_rc sr_currOffset]. rewrite wrap64_id by (unfold int64_range; nia).
  split_and!; [done|done|done|]. exists content. split; [done|]. right.
  destruct (decide (S k < length ps)%nat) as [Hsk|Hsk].
  - left. specialize (Hfull Hsk). eexists (S k), _. split_and!; [done|lia|]. simpl.
    exists tail. replace ((hs + s) + k * (hs + s))%nat with (k * (hs + s) + (hs + s))%nat by lia.
    rewrite <-drop_drop, Hpre, app_assoc.
    rewrite drop_app_length'; [done|]. rewrite length_app, hash_sum_size. lia.
  - right. eexists. split; [done|]. nia.
Qed.

#[export] Instance bitrot_shard_reader : ShardReader streamingBitrotReader := {|
  ReadAt := bitrot_ReadAt;
  serves := bitrot_serves;
  honest := bitrot_honest;
  ReadAt_ok := bitrot_fills;
  serves_read := bitrot_serves_read;
  honest_read := bitrot_honest_read
|}.
End BitrotShards.

(** ** What [Encode] writes *)

Section EncodeFacts.
Context {L : RSLibrary} (e : Erasure) (Hwf : erasure_wf e).
Context {LL : RSLaws L (dataBlocks e) (parityBlocks e)}.
Context `{MapOrder} {WS : Type} (Write : WS -> bytes -> WS * (Z * option error)).
Local Abbreviation pw := (parallelWriter (WS := WS)).
Local Abbreviation n := (n e).

(** A writer after a sequence of writes. *)
Definition feed (w : WS) (ps : list bytes) : WS := fold_left (fun w p => (Write w p).1) ps w.

(** No write of the sequence returns an error. *)
Fixpoint takes_all (w : WS) (ps : list bytes) : Prop :=
  match ps with [] => True | p :: ps => (Write w p).2.2 = None /\ takes_all (Write w p).1 ps end.

(** Writer [i] is there and has not failed. *)
Definition live (p : pw) (i : nat) : Prop :=
  pw_writers p !! i = Some (Some i) /\ pw_errs p !! i = Some None.

Definition pw_ok (p : pw) : Prop :=
  length (pw_writers p) = n /\ length (pw_errs p) = n /\ indexed (pw_writers p) /\
  (forall i, pw_writers p !! i = Some (Some i) -> is_Some (pw_store p !! i) /\ pw_errs p !! i = Some None).

(** What one round does to writer [i] given the block [b]. *)
Definition wrote_block (b : bytes) (p p' : pw) (i : nat) : Prop :=
  (pw_errs p' !! i = Some None -> live p' i) /\
  (live p' i -> live p i /\ exists w, pw_store p !! i = Some w /\
    pw_store p' !! i = Some (Write w b).1 /\ (Write w b).2.2 = None).

Definition same_at (p p' : pw) (j : nat) : Prop :=
  pw_writers p' !! j = pw_writers p !! j /\ pw_errs p' !! j = pw_errs p !! j /\
  pw_store p' !! j = pw_store p !! j.

Lemma write_shard_spec blocks i b p : pw_ok p -> blocks !! i = Some b -> (i < n)%nat ->
  exists p', write_shard Write blocks i p = Some p' /\ pw_ok p' /\
    pw_writeQuorum p' = pw_writeQuorum p /\ wrote_block b p p' i /\
    forall j, j <> i -> same_at p p' j.
Proof.
  intros (Hlw & Hle & Hix & Hst) Hb Hi. unfold write_shard.
  destruct (lookup_lt_is_Some_2 (pw_writers p) i) as [w Hw]; [lia|].
  destruct (lookup_lt_is_Some_2 (pw_errs p) i) as [er Her]; [lia|].
  rewrite Hw, Her. cbn [default from_option id].
  destruct w as [a|].
  2:{ eexists. split; [done|]. unfold pw_ok, wrote_block, same_at, live. cbn.
      rewrite length_insert. split_and!; try done.
      - intros j Hj. rewrite list_lookup_insert_ne by congruence. by apply Hst.
      - rewrite list_lookup_insert_eq by lia. done.
      - intros [Hc _]. congruence.
      - intros j Hj. by rewrite list_lookup_insert_ne. }
  pose proof (Hix i a Hw) as ->. destruct (Hst i Hw) as [[ws Hws] Hn].
  assert (er = None) as -> by congruence.
  rewrite Hws, Hb. cbn [mbind option_bind].
  assert (i < length (pw_store p))%nat as His by (by eapply lookup_lt_Some).
  destruct (Write ws b) as [ws' [m err]] eqn:Ew.
  set (err' := match err with None => _ | Some _ => err end).
  eexists. split; [done|]. unfold pw_ok, wrote_block, same_at, live. cbn.
  split_and!; try done.
  - destruct err'; rewrite ?length_insert; done.
  - by rewrite length_insert.
  - destruct err'; [|done]. intros j a Hj. apply (Hix j a).
    apply list_lookup_insert_Some in Hj. naive_solver.
  - intros j Hj. destruct (decide (j = i)) as [->|Hne].
    + rewrite !list_lookup_insert_eq by lia. destruct err'; [|done]. rewrite list_lookup_insert_eq in Hj by lia. done.
    + rewrite !list_lookup_insert_ne by done. apply Hst. destruct err'; [|done].
      by rewrite list_lookup_insert_ne in Hj.
  - rewrite list_lookup_insert_eq by lia. intros [= E]. rewrite E. done.
  - rewrite !list_lookup_insert_eq by lia. intros [_ [= He]]. split; [done|].
    exists ws. rewrite Ew. split_and!; [done|done|]. unfold err' in He. by destruct err.
  - intros j Hj. rewrite !list_lookup_insert_ne by done. destruct err'; [|done].
    by rewrite list_lookup_insert_ne.
Qed.

Lemma write_shards_spec blocks idxs : forall p, pw_ok p -> length blocks = n ->
  NoDup idxs -> Forall (fun i => i < n)%nat idxs ->
  exists p', write_shards Write blocks idxs p = Some p' /\ pw_ok p' /\
    pw_writeQuorum p' = pw_writeQuorum p /\
    (forall i b, i ∈ idxs -> blocks !! i = Some b -> wrote_block b p p' i) /\
    forall j, j ∉ idxs -> same_at p p' j.
Proof.
  induction idxs as [|i idxs IH]; intros p Hok Hb Hnd Hlt.
  { exists p. simpl. split_and!; try done. intros i b Hi. by apply elem_of_nil in Hi. }
  apply NoDup_cons in Hnd as [Hi Hnd]. apply Forall_cons in Hlt as [Hin Hlt]. simpl.
  destruct (lookup_lt_is_Some_2 blocks i) as [b Hbi]; [lia|].
  destruct (write_shard_spec blocks i b p Hok Hbi Hin) as (p1 & -> & Hok1 & Hq1 & Hw1 & Hs1).
  cbn [mbind option_bind].
  destruct (IH p1 Hok1 Hb Hnd Hlt) as (p2 & -> & Hok2 & Hq2 & Hw2 & Hs2).
  exists p2. split_and!; [done|done|congruence| |].
  - intros j c [->|Hj]%elem_of_cons Hc.
    + assert (c = b) as -> by congruence. destruct (Hs2 i Hi) as (E1 & E2 & E3).
      unfold wrote_block, live in *. rewrite E1, E2, E3. exact Hw1.
    + assert (j <> i) as Hji by (intros ->; done). destruct (Hs1 j Hji) as (E1 & E2 & E3).
      destruct (Hw2 j c Hj Hc) as [Ha Hb2]. unfold wrote_block, live in *.
      rewrite <-E1, <-E2, <-E3. done.
  - intros j [Hji Hj]%not_elem_of_cons. destruct (Hs1 j Hji) as (E1 & E2 & E3).
    destruct (Hs2 j Hj) as (F1 & F2 & F3). unfold same_at. by rewrite F1, F2, F3.
Qed.

Definition healthy (p : pw) : Z := Z.of_nat (count (fun e => bool_decide (e = None)) (pw_errs p)).

Lemma countErrs_None errs :
  countErrs errs None = Z.of_nat (count (fun e => bool_decide (e = None)) errs).
Proof.
  unfold countErrs. f_equal. apply count_ext. intros [x|] _; [|done].
  rewrite !bool_decide_eq_false_2 by done. done.
Qed.

(** Success of a write means that a quorum succeeded. *)
Lemma write_quorum_met canceled errs ignored quorum : 1 <= quorum ->
  reduceWriteQuorumErrs canceled errs ignored quorum = None ->
  quorum <= Z.of_nat (count (fun e => bool_decide (e = None)) errs).
Proof.
  intros Hq Herr. unfold reduceWriteQuorumErrs, reduceQuorumErrs in Herr. destruct canceled; [done|].
  pose proof (reduceErrs_spec errs ignored) as Hsp. destruct (reduceErrs errs ignored) as [mx er].
  destruct (Z.leb_spec quorum (Z.of_nat mx)); [|done]. subst er.
  destruct Hsp as (_ & [[-> _]|[_ Hm]] & _); [lia|]. rewrite mult_None in Hm. lia.
Qed.

Lemma pw_Write_spec canceled p blocks : pw_ok p -> length blocks = n ->
  exists p' err, pw_Write Write canceled p blocks = Some (p', err) /\ pw_ok p' /\
    pw_writeQuorum p' = pw_writeQuorum p /\
    (forall i b, blocks !! i = Some b -> wrote_block b p p' i) /\
    (err = None -> 1 <= pw_writeQuorum p -> pw_writeQuorum p <= healthy p').
Proof.
  intros Hok Hb. unfold pw_Write. pose proof Hok as (Hlw & _).
  destruct (write_shards_spec blocks (seq 0 (length (pw_writers p))) p Hok Hb (NoDup_seq _ _))
    as (p' & -> & Hok' & Hq & Hw & _).
  { apply Forall_forall. intros i. rewrite elem_of_seq. lia. }
  cbn [mbind option_bind]. eexists p', _. split_and!; [done|done|done| |].
  - intros i b Hi. apply Hw; [|done]. apply elem_of_seq. apply lookup_lt_Some in Hi. lia.
  - rewrite countErrs_None, Hq. intros Herr Hq1.
    destruct (Z.leb_spec (pw_writeQuorum p) (Z.of_nat (count (fun e => bool_decide (e = None)) (pw_errs p'))));
      [done|]. by apply (write_quorum_met canceled (pw_errs p') objectOpIgnoredErrs).
Qed.

(** Every writer still there got exactly the given writes. *)
Definition fed (ps : nat -> list bytes) (p p' : pw) : Prop :=
  forall i a, pw_writers p' !! i = Some (Some a) -> live p i /\ exists w, pw_store p !! i = Some w /\
    pw_store p' !! i = Some (feed w (ps i)) /\ takes_all w (ps i).

Definition piece (i : nat) (b : bytes) : bytes := default [] (codeword e b !! i).

Lemma round_fed blocks p p' p2 f ps : pw_ok p' -> length blocks = n ->
  (forall i b, blocks !! i = Some b -> wrote_block b p p' i) ->
  (forall i, f i = default [] (blocks !! i)) ->
  fed ps p' p2 -> fed (fun i => f i :: ps i) p p2.
Proof.
  intros (Hlw & _) Hb Hw Hf Hfed i a Hi. destruct (Hfed i a Hi) as (Hi' & w & Hw1 & Hw2 & Hw3).
  assert (i < n)%nat by (rewrite <-Hlw; apply lookup_lt_is_Some_1; destruct Hi' as [-> _]; done).
  destruct (lookup_lt_is_Some_2 blocks i) as [b Hbi]; [lia|].
  destruct (proj2 (Hw i b Hbi) Hi') as (Hp & w0 & Hw0 & Hw0' & Hok). split; [done|].
  exists w0. split; [done|]. rewrite Hf, Hbi. cbn [default from_option id feed fold_left takes_all].
  rewrite Hw1 in Hw0'. injection Hw0' as <-. done.
Qed.

Lemma fed_nil p : pw_ok p -> fed (fun _ => []) p p.
Proof.
  intros (_ & _ & Hix & Hst) i a Hi. pose proof (Hix i a Hi) as ->. destruct (Hst i Hi) as [[w Hw] Hn].
  split; [done|]. by exists w.
Qed.

Lemma encode_loop_spec canceled bufsize : (0 < bufsize)%nat ->
  forall data fuel p total, (S (length data) < fuel)%nat -> 0 <= total ->
  total + len data < 2 ^ 62 -> pw_ok p -> 1 <= pw_writeQuorum p ->
  (data <> [] \/ total <> 0 /\ pw_writeQuorum p <= healthy p) ->
  exists p' src' res,
    encode_loop Write e canceled fuel bufsize (mkStream data EOF) p total = Some (p', src', res) /\
    forall t, res = Ok t -> t = total + len data /\ pw_writeQuorum p <= healthy p' /\
      fed (fun i => piece i <$> blocks_of bufsize data) p p'.
Proof.
  intros Hbuf. refine (blocks_ind bufsize _ Hbuf _ _).
  - intros [|fuel] p total Hf Ht Hlt Hok Hq [?|[Hnz Hh]]; [lia|lia|done|]. cbn [encode_loop].
    unfold ReadFull. cbn [st_data st_end length].
    destruct (Nat.leb_spec bufsize 0); [lia|]. cbn [negb andb].
    rewrite (bool_decide_eq_true_2 (([] : bytes) = [])) by done. cbn [negb andb].
    change (bool_decide (Some EOF = Some EOF)) with true. cbn [orb].
    destruct (Z.eqb_spec total 0); [done|]. cbn [negb andb].
    eexists p, _, _. split; [done|]. intros t [= <-]. split_and!; [simpl; lia|done|].
    rewrite blocks_of_nil by done. by apply fed_nil.
  - intros data Hne IH [|fuel] p total Hf Ht Hlt Hok Hq _; [lia|]. cbn [encode_loop].
    assert (0 < length data)%nat by (destruct data; [done|simpl; lia]).
    set (buf := take bufsize data).
    assert (buf <> []) as Hbne.
    { intros Hnil. apply (f_equal length) in Hnil. unfold buf in Hnil.
      rewrite length_take in Hnil. simpl in Hnil. lia. }
    assert (length buf = Nat.min bufsize (length data)) as Hbl by apply length_take.
    assert (len buf < 2 ^ 63) as Hb63 by lia.
    assert (EncodeData e buf = Some (Ok (codeword e buf))) as Henc
      by (by apply EncodeData_codeword).
    destruct (codeword_shape e Hwf buf Hb63) as [Hcl _].
    destruct (pw_Write_spec canceled p (codeword e buf) Hok Hcl)
      as (p1 & err & Hpw & Hok1 & Hq1 & Hw1 & Hh1).
    unfold ReadFull. cbn [st_data st_end].
    destruct (Nat.leb_spec bufsize (length data)) as [Hfull|Hlast].
    + fold buf. cbn [orb]. rewrite !(bool_decide_eq_false_2 (None = Some _)) by done. cbn [orb].
      rewrite (bool_decide_eq_false_2 (buf = [])) by done. cbn [andb].
      rewrite Henc. cbn [mbind option_bind]. rewrite Hpw. cbn [mbind option_bind].
      destruct err as [err|]; [by eexists _, _, _|]. specialize (Hh1 eq_refl Hq).
      unfold add64. rewrite wrap64_id by (unfold int64_range; lia).
      destruct (IH fuel p1 (total + len buf)) as (p2 & src2 & res & Hl2 & Hres).
      * rewrite length_drop. lia.
      * lia.
      * rewrite length_drop. lia.
      * done.
      * lia.
      * right. rewrite Hq1. lia.
      * exists p2, src2, res. split; [done|]. intros t Ht'.
        destruct (Hres t Ht') as (-> & Hhe & Hfd). rewrite length_drop, Hq1 in *.
        split_and!; [lia|done|]. rewrite blocks_of_cons by done. csimpl.
        by apply (round_fed (codeword e buf) p p1).
    + assert (take bufsize data = data) as Ebuf by (apply take_ge; lia).
      unfold buf in *. rewrite Ebuf in *.
      rewrite (bool_decide_eq_false_2 (data = [])) by done. cbn [negb andb].
      rewrite (bool_decide_eq_true_2 (EOF = EOF)) by done.
      rewrite (bool_decide_eq_true_2 (Some ErrUnexpectedEOF = Some ErrUnexpectedEOF)) by done.
      rewrite orb_true_r. cbn [andb].
      rewrite Henc. cbn [mbind option_bind]. rewrite Hpw. cbn [mbind option_bind].
      destruct err as [err|]; [by eexists _, _, _|]. specialize (Hh1 eq_refl Hq).
      eexists _, _, _. split; [done|]. intros t [= <-]. unfold add64.
      rewrite wrap64_id by (unfold int64_range; lia).
      split_and!; [lia|done|]. rewrite blocks_of_cons, Ebuf by done.
      rewrite (drop_ge data) by lia. rewrite blocks_of_nil by done. csimpl.
      apply (round_fed (codeword e data) p p1); [done|done|done|done|by apply fed_nil].
Qed.
End EncodeFacts.

(** ** The shard files *)

Lemma pieces_ok_take s m ps : pieces_ok s ps -> pieces_ok s (take m ps).
Proof.
  revert m. induction ps as [|p ps IH]; intros [|m] Hok; simpl in *; try done.
  destruct Hok as (? & Hf & Hok). split_and!; [lia|lia| |by apply IH].
  intros Hne. apply Hf. intros ->. by rewrite take_nil in Hne.
Qed.

Lemma pieces_take_length s m ps : pieces_ok s ps ->
  length (concat (take m ps)) = Nat.min (length (concat ps)) (m * s).
Proof.
  revert m. induction ps as [|p ps IH]; intros [|m] Hok; simpl in *; [lia|lia|lia|].
  destruct Hok as (? & Hf & Hok). rewrite !length_app, (IH m Hok).
  destruct ps as [|q ps]; [simpl; lia|]. rewrite (Hf ltac:(done)). lia.
Qed.

Section ShardFiles.
Context {L : RSLibrary} (e : Erasure) (Hwf : erasure_wf e).
Context {LL : RSLaws L (dataBlocks e) (parityBlocks e)}.

Lemma piece_length i (b : bytes) : (i < n e)%nat -> len b < 2 ^ 63 ->
  len (piece e i b) = ceilFrac (len b) (dataBlocks e).
Proof.
  intros Hi Hb. destruct (codeword_shape e Hwf b Hb) as [Hl Hall]. fold (n e) in Hl.
  unfold piece. destruct (lookup_lt_is_Some_2 (codeword e b) i) as [c Hc]; [lia|].
  rewrite Hc. simpl. rewrite Forall_lookup in Hall. rewrite (Hall _ _ Hc). unfold shard_len.
  destruct Hwf as (? & ? & ? & ?).
  rewrite !Z2Nat.id by (try apply ceilFrac_bounds; lia). done.
Qed.

Lemma shard_file_shape i data : (i < n e)%nat -> len data < 2 ^ 62 -> blockSize e < 2 ^ 62 ->
  pieces_ok (ss e) (shard_file e data i) /\
  len (concat (shard_file e data i)) =
    len data / blockSize e * ShardSize e + ceilFrac (len data mod blockSize e) (dataBlocks e).
Proof.
  intros Hi Hd Hbs. destruct (geometry e Hwf) as (Hb & Hs & Hdn & Ebs & Ess & Ed & _).
  unfold shard_file. revert data Hd. refine (blocks_ind (bs e) _ Hb _ _).
  { intros _. rewrite blocks_of_nil by done. simpl. split; [done|].
    rewrite Z.div_0_l, Z.mod_0_l by lia. by rewrite ceilFrac_0_shard. }
  intros data Hne IH Hd. rewrite blocks_of_cons by done. csimpl. fold (piece e i (take (bs e) data)).
  assert (0 < length data)%nat by (destruct data; [done|simpl; lia]).
  destruct (IH ltac:(rewrite length_drop; lia)) as [IHok IHlen].
  pose proof (piece_length i (take (bs e) data) Hi ltac:(rewrite length_take; lia)) as Hpl.
  rewrite length_take in Hpl. pose proof Hwf as (? & ? & ? & ?).
  destruct (decide (bs e <= length data)%nat) as [Hfull|Hlast].
  - rewrite Nat.min_l, <-Ebs in Hpl by lia. fold (ShardSize e) in Hpl.
    split; [split_and!; [lia|lia|lia|exact IHok]|].
    rewrite length_app, Nat2Z.inj_add, IHlen, Hpl, length_drop.
    replace (Z.of_nat (length data - bs e)) with (len data + -1 * blockSize e) by lia.
    rewrite Z.div_add, Z.mod_add by lia. lia.
  - rewrite Nat.min_r in Hpl by lia. rewrite drop_ge in * by lia. rewrite blocks_of_nil by done.
    simpl. rewrite app_nil_r, Hpl, Z.div_small, Z.mod_small by lia.
    destruct (ceilFrac_bounds (len data) (dataBlocks e)) as ([? ?] & ? & ?); [lia..|].
    assert (ceilFrac (len data) (dataBlocks e) <= ShardSize e).
    { unfold ShardSize. rewrite !ceilFrac_ceil by lia. apply Z.div_le_mono; lia. }
    split; [split_and!; [nia|lia|done|done]|lia].
Qed.

(** The end of the shard file that a reader of a range is opened to. *)
Lemma shard_till i data offset length : (i < n e)%nat -> len data < 2 ^ 62 -> blockSize e < 2 ^ 62 ->
  0 <= offset -> 0 <= length -> offset + length <= len data ->
  let lim := Z.to_nat ((offset + length) / blockSize e + 1) in
  ShardFileOffset e offset length (len data) = Some (len (concat (shard e data lim i))).
Proof.
  intros Hi Hd Hbs Ho Hl Hin lim. destruct (geometry e Hwf) as (Hb & Hs & _ & Ebs & Ess & _).
  destruct (ShardFileOffset_exact e Hwf offset length (len data)) as (size & till & Hsz & Ht & ->);
    [lia..|]. rewrite Ht. f_equal. destruct (shard_file_shape i data Hi Hd Hbs) as [Hok Hlen].
  unfold shard. rewrite (pieces_take_length (ss e)) by done.
  destruct (ShardFileSize_exact e Hwf (len data) ltac:(lia)) as [Hex _]. rewrite Hex in Hsz.
  injection Hsz as <-. rewrite <-Hlen, Nat2Z.inj_min, Nat2Z.inj_mul, <-Ess. unfold lim.
  assert (0 <= (offset + length) / blockSize e) by (apply Z.div_pos; lia).
  rewrite Z2Nat.id by lia. done.
Qed.
End ShardFiles.

Section BitrotFiles.
Context `{HashLib} {L : RSLibrary} (e : Erasure) (Hwf : erasure_wf e).
Context {LL : RSLaws L (dataBlocks e) (parityBlocks e)}.
Context (data : bytes) (data_small : len data < 2 ^ 50) (bs_small : blockSize e < 2 ^ 50)
  (data_ne : data <> []).
Context (offset length : Z) (off_pos : 0 <= offset) (len_pos : 0 <= length)
  (in_data : offset + length <= len data).
Local Abbreviation lim := (Z.to_nat ((offset + length) / blockSize e + 1)).

(** The content of the shard file of drive [i]. *)
Definition stored (i : nat) : bytes := bitrot_encode HighwayHash256S (shard_file e data i).

Lemma shard_sizes i : (i < n e)%nat -> sizes_ok (ss e) (shard e data lim i).
Proof.
  intros Hi. destruct (geometry e Hwf) as (Hb & Hs & _ & Ebs & Ess & _).
  destruct (shard_file_shape e Hwf i data Hi) as [Hok _]; [lia..|].
  split_and!; [lia|by apply pieces_ok_take|].
  pose proof (hash_size_small HighwayHash256S).
  assert (len (shard e data lim i) <= len data) as Hn.
  { unfold shard, shard_file. rewrite length_take, length_fmap.
    assert (List.length (blocks_of (bs e) data) <= List.length data)%nat; [|lia].
    unfold blocks_of. rewrite length_chunks. apply Nat.Div0.div_le_upper_bound.
    assert (0 < List.length data)%nat by (destruct data; [done|simpl; lia]). nia. }
  assert (Z.of_nat (ss e) + Z.of_nat (hash_size HighwayHash256S) <= 2 ^ 50 + 64) by lia.
  assert (len (shard e data lim i) * Z.of_nat (ss e) <= len data + blockSize e) as Hns.
  { unfold shard. pose proof (pieces_take_length (ss e) lim _ Hok) as Hpt.
    pose proof (length_concat_pieces (ss e) (take lim (shard_file e data i)) (pieces_ok_take _ _ _ Hok)).
    destruct (ShardFileSize_exact e Hwf (len data) ltac:(lia)) as [_ [_ Hle]].
    destruct (shard_file_shape e Hwf i data Hi) as [_ Hlen]; [lia..|]. rewrite <-Hlen in Hle.
    assert (pieces_ok (ss e) (take lim (shard_file e data i))) as Hokt by (by apply pieces_ok_take).
    assert (forall ps, pieces_ok (ss e) ps ->
      (List.length ps * ss e <= List.length (concat ps) + ss e)%nat) as Hcnt.
    { clear -Hs. induction ps as [|p ps IH]; intros Hok; simpl in *; [lia|].
      destruct Hok as (? & Hf & Hok). rewrite length_app. specialize (IH Hok).
      destruct ps as [|q ps]; [simpl; lia|]. rewrite (Hf ltac:(done)). lia. }
    specialize (Hcnt _ Hokt). lia. }
  nia.
Qed.

(** A reader opened for the range on an intact shard file delivers the shard. *)
Lemma intact_serves i open : (i < n e)%nat ->
  exists till b, ShardFileOffset e offset length (len data) = Some till /\
    newStreamingBitrotReader open (stored i) till HighwayHash256S (ShardSize e) = Some b /\
    bitrot_serves (ss e) (shard e data lim i) None b.
Proof.
  intros Hi. eexists _, _. pose proof (shard_sizes i Hi) as Hsz.
  split; [apply (shard_till e Hwf i); lia|].
  unfold newStreamingBitrotReader.
  change (Algorithm_New HighwayHash256S) with (Some (hash_sum HighwayHash256S)).
  cbn [mbind option_bind]. split; [reflexivity|]. split; [exact Hsz|].
  destruct (sizes_encode _ _ Hsz) as [He Hl]. pose proof Hsz as (Hs & Hok & _).
  destruct (geometry e Hwf) as (Hb & Hs' & _ & Ebs & Ess & _).
  assert (0 <= (offset + length) / blockSize e) by (apply Z.div_pos; lia).
  assert (shard e data lim i <> []) as Hne.
  { unfold shard, shard_file. rewrite blocks_of_cons by done.
    replace lim with (S (lim - 1)) by lia. done. }
  rewrite length_encode in He.
  unfold reader_fresh. cbn [sr_algo sr_shardSize sr_rc sr_tillOffset sr_data].
  split_and!; [done|lia|done| |].
  - rewrite Ess, pieces_ok_count, length_encode by (done || lia). unfold add64, mul64.
    rewrite (wrap64_id (_ * _)), wrap64_id by (unfold int64_range; lia). lia.
  - left. split; [done|]. exists (bitrot_encode HighwayHash256S (drop lim (shard_file e data i))).
    unfold stored, shard. rewrite <-encode_app, take_drop. done.
Qed.
End BitrotFiles.

(** ** Properties *)

(** A range read through [Decode] is the range of the object.  For any
    schedule of the read goroutines, if every reader that delivers a shard
    delivers the right one and at least [dataBlocks] of them never fail, [Decode]
    terminates, appends exactly [data[offset:offset+length]] to the writer and
    returns [length]; the error it returns, if any, only reports a missing or
    corrupted shard to heal. *)
Theorem Decode_correct {L : RSLibrary} e {LL : RSLaws L (dataBlocks e) (parityBlocks e)}
    {R} `{ShardReader R} (data : bytes) readers (store : list R) gs offset length prefer sched out :
  erasure_wf e -> len data < 2 ^ 62 -> blockSize e < 2 ^ 62 ->
  0 <= offset -> 0 <= length -> offset + length <= len data ->
  drives_ok e data (Z.to_nat ((offset + length) / blockSize e + 1)) readers store gs ->
  slots_ok readers prefer ->
  exists res, Decode ReadAt Buffer e sched out readers store offset length (len data) prefer
      = Some res /\
    dr_writer Buffer res = out ++ range data offset (offset + length) /\
    dr_written Buffer res = length /\
    (dr_err Buffer res = None \/ reportable (dr_err Buffer res) = true).
Proof.
  intros Hwf Hd Hbs Ho Hl Hin Hdr Hsl.
  edestruct (Decode_spec e Hwf data) as (res & ? & ? & ? & ? & _);
    [done|done|exact Hdr|exact Hsl|exact Ho|exact Hl|exact Hin| |by exists res; split_and!].
  assert (0 <= (offset + length) / blockSize e)
    by (apply Z.div_pos; [lia|destruct Hwf as (?&?&?&?); lia]). lia.
Qed.

(** Files in memory, served or lost. *)
Lemma range_piece s ps k p : (0 < s)%nat -> pieces_ok s ps -> ps !! k = Some p ->
  take (length p) (drop (k * s) (concat ps)) = p.
Proof.
  intros Hs. revert k. induction ps as [|q ps IH]; intros [|k] Hok Hp; simpl in *; try done.
  - injection Hp as ->. rewrite drop_0. apply take_app_length.
  - destruct Hok as (? & Hf & Hok).
    assert (length q = s) as Hq by (apply Hf; intros ->; done).
    replace (s + k * s)%nat with (length q + k * s)%nat by lia.
    rewrite <-drop_drop, drop_app_length. by apply IH.
Qed.

#[local] Instance mem_shard_reader : ShardReader (option bytes).
Proof.
  refine {| ReadAt := mem_ReadAt;
            serves s ps _ r := (0 < s)%nat /\ pieces_ok s ps /\ exists rest, r = Some (concat ps ++ rest);
            honest s ps r := r = None;
            ReadAt_ok := mem_ReadAt_fills |}.
  - intros s ps o r k p (Hs & Hok & rest & ->) _ Hp. eexists. split; [|by split_and!; [..|exists rest]].
    unfold mem_ReadAt, slice_to, slice_from. rewrite <-Nat2Z.inj_mul, !Nat2Z.id.
    pose proof (range_piece s ps k p Hs Hok Hp) as Hr.
    assert (length (take (length p) (drop (k * s) (concat ps))) = length p) as Hlr by (by rewrite Hr).
    rewrite length_take, length_drop in Hlr. destruct (pieces_bounds s ps k p Hok Hp) as [? _].
    rewrite drop_app_le by lia. rewrite take_app_le by (rewrite length_drop; lia).
    by rewrite Hr, Z.eqb_refl.
  - intros s ps r k p r' b -> _. done.
Defined.

Definition sample_e : Erasure := mkErasure 2 1 2.
Definition sample_data : bytes := [Byte.x41; Byte.x42; Byte.x43].

Lemma Decode_correct_witness :
  exists res, Decode mem_ReadAt Buffer sample_e (fun _ => [2; 1; 3]%nat) []
      [Some 0; Some 1; Some 2]%nat [Some [Byte.x41; Byte.x43]; None; Some [Byte.x03; Byte.x43]]
      1 2 3 [] = Some res /\ dr_writer Buffer res = [Byte.x42; Byte.x43].
Proof.
  destruct (Decode_correct sample_e (R := option bytes) sample_data [Some 0; Some 1; Some 2]%nat
    [Some [Byte.x41; Byte.x43]; None; Some [Byte.x03; Byte.x43]] [0; 2]%nat 1 2 []
    (fun _ => [2; 1; 3]%nat) []) as (res & Hres & Hw & _); [by vm_compute|done|done|done|done|done| | |].
  - unfold drives_ok. split_and!; [done| | | | |].
    + intros [|[|[|i]]] a Hi; simpl in Hi; rewrite ?lookup_nil in Hi; congruence.
    + intros [|[|[|i]]] a Hi; simpl in Hi; rewrite ?lookup_nil in Hi; try congruence;
        injection Hi as <-; eexists; (split; [reflexivity|]).
      * left. split_and!; [vm_compute; lia|vm_compute; split_and!; done || lia|by exists []].
      * by right.
      * left. split_and!; [vm_compute; lia|vm_compute; split_and!; done || lia|by exists []].
    + apply NoDup_cons. split; [|apply NoDup_singleton]. by rewrite list_elem_of_singleton.
    + vm_compute. lia.
    + intros g. rewrite elem_of_cons, list_elem_of_singleton. intros [->| ->];
        (split; [done|]); eexists; (split; [reflexivity|]);
        (split_and!; [vm_compute; lia|vm_compute; split_and!; done || lia|by exists []]).
  - apply slots_ok_none. intros [|[|[|i]]] a Hi; simpl in Hi; rewrite ?lookup_nil in Hi; congruence.
  - exists res. by split.
Defined.

(** The writers [Encode] starts with: all without error. *)
Definition fresh_writers {WS} (writers : list (option nat)) (quorum : Z) (store : list WS)
  : parallelWriter (WS := WS) :=
  mkPW writers quorum (replicate (length writers) None) store.

Lemma fresh_writers_ok {WS} e writers quorum (store : list WS) : length writers = n e ->
  indexed writers -> length store = n e -> pw_ok e (fresh_writers writers quorum store).
Proof.
  intros Hl Hix Hs. unfold pw_ok. cbn. rewrite length_replicate. split_and!; [done|done|done|].
  intros i Hi. apply lookup_lt_Some in Hi. split; [apply lookup_lt_is_Some_2; lia|by apply lookup_replicate_2].
Qed.

Lemma Encode_spec {L : RSLibrary} e {LL : RSLaws L (dataBlocks e) (parityBlocks e)} `{MapOrder}
    {WS} (Write : WS -> bytes -> WS * (Z * option error)) canceled data writers store quorum :
  erasure_wf e -> len data < 2 ^ 61 -> data <> [] -> 1 <= quorum ->
  length writers = n e -> indexed writers -> length store = n e ->
  exists p' src' res, Encode Write e canceled (mkStream data EOF) writers store (bs e) quorum
      = Some (p', src', res) /\
    forall t, res = Ok t -> t = len data /\ quorum <= healthy p' /\
      fed Write (shard_file e data) (fresh_writers writers quorum store) p'.
Proof.
  intros Hwf Hd Hne Hq Hl Hix Hs. destruct (geometry e Hwf) as (Hb & _).
  destruct (encode_loop_spec e Hwf Write canceled (bs e) Hb data (S (S (length data)))
    (fresh_writers writers quorum store) 0) as (p' & src' & res & Hloop & Hres);
    [lia|lia|lia|by apply fresh_writers_ok|done|by left|].
  exists p', src', res. split; [exact Hloop|]. intros t Ht. destruct (Hres t Ht) as (-> & ? & ?).
  by split_and!; [lia|..].
Qed.

(** [Encode] of an object always returns, and when it succeeds it returned the
    size of the object, at least [quorum] writers have not failed, and every
    writer that has not failed was given exactly its shard of every block, in
    order. *)
Theorem Encode_correct {L : RSLibrary} e {LL : RSLaws L (dataBlocks e) (parityBlocks e)} `{MapOrder}
    {WS} (Write : WS -> bytes -> WS * (Z * option error)) canceled data writers store quorum :
  erasure_wf e -> len data < 2 ^ 61 -> data <> [] -> 1 <= quorum ->
  length writers = n e -> indexed writers -> length store = n e ->
  exists p' src' res, Encode Write e canceled (mkStream data EOF) writers store (bs e) quorum
      = Some (p', src', res) /\
    forall t, res = Ok t -> t = len data /\ quorum <= healthy p' /\
      forall i, live p' i -> writers !! i = Some (Some i) /\
        exists w, store !! i = Some w /\
          pw_store p' !! i = Some (feed Write w (shard_file e data i)).
Proof.
  intros. destruct (Encode_spec e Write canceled data writers store quorum)
    as (p' & src' & res & He & Hres); [done..|].
  exists p', src', res. split; [done|]. intros t Ht. destruct (Hres t Ht) as (-> & Hh & Hf).
  split_and!; [done|done|]. intros i Hi. destruct (Hf i i (proj1 Hi)) as ([Hw _] & w & ? & ? & _).
  split; [done|by exists w].
Qed.

Definition append_Write (w p : bytes) : bytes * (Z * option error) := (w ++ p, (len p, None)).

Lemma indexed_three : indexed [Some 0; Some 1; Some 2]%nat.
Proof. intros [|[|[|i]]] a Hi; simpl in Hi; rewrite ?lookup_nil in Hi; congruence. Qed.

Lemma Encode_correct_witness :
  exists p' src', Encode append_Write sample_e false (mkStream sample_data EOF)
      [Some 0; Some 1; Some 2]%nat [[]; []; []] 2 2 = Some (p', src', Ok 3) /\ 2 <= healthy p'.
Proof.
  destruct (Encode_correct sample_e append_Write false sample_data [Some 0; Some 1; Some 2]%nat
    [[]; []; []] 2) as (p' & src' & res & He & Hres);
    [by vm_compute|done|done|done|done|apply indexed_three|done|].
  exists p', src'. assert (res = Ok 3) as E by (vm_compute in He; by injection He as _ _ <-).
  split; [by rewrite <-E|]. by apply (Hres 3).
Defined.

(** A reader opened for a range of the object on the file of a drive. *)
Definition opened_on `{HashLib} (e : Erasure) (total offset length : Z) (file : bytes)
    (b : streamingBitrotReader) : Prop :=
  exists open till, ShardFileOffset e offset length total = Some till /\
    newStreamingBitrotReader open file till HighwayHash256S (ShardSize e) = Some b.


#[local] Instance length_hash : HashLib.
Proof.
  refine {| hash_sum _ data := [default Byte.x00 (Byte.of_N (N.of_nat (length data) mod 256))];
            hash_size _ := 1%nat |}; [done|lia|lia].
Defined.

Definition sample_file (shards : bytes) : bytes := bitrot_encode HighwayHash256S (blocks_of 1 shards).
Definition sample_reader (shards : bytes) : streamingBitrotReader :=
  mkStreaming (sample_file shards) (fun _ _ => Err errDiskNotFound) None 4 0 HighwayHash256S 1.

Lemma sample_wf : erasure_wf sample_e.
Proof. by vm_compute. Qed.


(** A defect of [preferReaders].  With three drives of which the last two are
    preferred, the second swap moves a slot that was already swapped, and the
    buffer table sends drive 0 to the buffer of drive 1.  When drive 1 has lost
    its shard, [Decode] then reports success for the requested length but writes
    the two halves of the block exchanged; without preferences the same drives
    give the right bytes. *)
Theorem preferReaders_misplaces_shard :
  let drives := [Some 0; Some 1; Some 2]%nat in
  let files := [Some [Byte.x41]; None; Some [Byte.x03]] in
  let get prefer := Decode mem_ReadAt Buffer sample_e (fun _ => []) [] drives files 0 2 2 prefer in
  slots drives [false; true; true] = ([Some 1; Some 2; Some 0]%nat, [1; 2; 1]%nat) /\
  dr_writer Buffer <$> get [] = Some [Byte.x41; Byte.x42] /\
  (fun r => (dr_writer Buffer r, dr_written Buffer r, dr_err Buffer r)) <$> get [false; true; true]
    = Some ([Byte.x42; Byte.x41], 2, Some errFileNotFound).
Proof. vm_compute. done. Qed.
