(* ===== verification/LocalLocker.v ===== *)
(** * The local lock server ([cmd/local-locker.go])

    Every node keeps a table of the locks it granted.  [lockMap] maps a resource
    to the lock entries on it, [lockUID] maps a request identifier with a counter
    appended to the resource it locked.  Each handler runs under the server's
    mutex, so it is one function from the table to the table and its reply; the
    readings of the clock inside one handler are the one argument [now].  [None]
    is a panic. *)

From stdpp Require Import pretty.
From S2P Require Import Prelude.

(** ** Data *)

(** [internal/dsync/lock-args.go] *)
Record LockArgs := mkArgs {
  la_UID : string;
  la_Resources : list string;
  la_Source : string;
  la_Owner : string;
  la_Quorum : Z
}.

Record lockRequesterInfo := mkLRI {
  lri_Name : string;
  lri_Writer : bool;
  lri_UID : string;
  lri_Timestamp : time;
  lri_TimeLastRefresh : time;
  lri_Source : string;
  lri_Group : bool;
  lri_Owner : string;
  lri_Quorum : Z;
  lri_idx : nat
}.

Record localLocker := mkLocker {
  lockMap : gmap string (list lockRequesterInfo);
  lockUID : gmap string string
}.

Definition newLocker : localLocker := mkLocker ∅ ∅.

Definition maxDeleteList : nat := 1000.

(** The arguments of the internal calls that only name a request. *)
Definition uid_args (uid : string) : LockArgs := mkArgs uid [] "" "" 0.

(** The identity of the error values made with [fmt.Errorf] is never tested. *)
Definition locker_error (s : string) : error := Errorf 0 s.

(** ** Operations *)

Definition isWriteLock (lri : list lockRequesterInfo) : bool :=
  match lri with [e] => lri_Writer e | _ => false end.

(** The entries [l.lockMap[resource]]: nil when the key is absent. *)
Definition entries (l : localLocker) (resource : string) : list lockRequesterInfo :=
  default [] (lockMap l !! resource).

Definition canTakeUnlock (l : localLocker) (resources : list string) : bool :=
  forallb (fun r => isWriteLock (entries l r)) resources.

Definition canTakeLock (l : localLocker) (resources : list string) : bool :=
  forallb (fun r => negb (bool_decide (is_Some (lockMap l !! r)))) resources.

Definition formatUUID (s : string) (idx : nat) : string := s +:+ pretty idx.

Definition write_entry (now : time) (args : LockArgs) (i : nat) (resource : string)
    : lockRequesterInfo :=
  mkLRI resource true (la_UID args) now now (la_Source args)
    (1 <? length (la_Resources args))%nat (la_Owner args) (la_Quorum args) i.

(** The loop of [Lock] that claims the resources from number [i] on. *)
Fixpoint claim (now : time) (args : LockArgs) (i : nat) (resources : list string)
    (l : localLocker) : localLocker :=
  match resources with
  | [] => l
  | r :: rs =>
      claim now args (S i) rs
        (mkLocker (<[r := [write_entry now args i r]]> (lockMap l))
                  (<[formatUUID (la_UID args) i := r]> (lockUID l)))
  end.

Definition Lock (now : time) (l : localLocker) (args : LockArgs)
    : localLocker * (bool * option error) :=
  if (maxDeleteList <? length (la_Resources args))%nat then
    (l, (false, Some (locker_error "internal error: localLocker.Lock called with more than 1000 resources")))
  else if negb (canTakeLock l (la_Resources args)) then (l, (false, None))
  else (claim now args 0 (la_Resources args) l, (true, None)).

(** The test of [removeEntry] on an entry. *)
Definition entry_matches (args : LockArgs) (e : lockRequesterInfo) : bool :=
  bool_decide (lri_UID e = la_UID args) &&
  (bool_decide (la_Owner args = "") || bool_decide (lri_Owner e = la_Owner args)).

(** The first entry that matches, with the entries before and after it. *)
Fixpoint split_entry (args : LockArgs) (lri : list lockRequesterInfo)
    : option (list lockRequesterInfo * lockRequesterInfo * list lockRequesterInfo) :=
  match lri with
  | [] => None
  | e :: rest =>
      if entry_matches args e then Some ([], e, rest)
      else match split_entry args rest with
           | Some (pre, x, post) => Some (e :: pre, x, post)
           | None => None
           end
  end.

Definition removeEntry (l : localLocker) (name : string) (args : LockArgs)
    (lri : list lockRequesterInfo) : localLocker * bool :=
  match split_entry args lri with
  | None => (l, false)
  | Some (pre, e, post) =>
      (mkLocker (if (length lri =? 1)%nat then delete name (lockMap l)
                 else <[name := pre ++ post]> (lockMap l))
                (delete (formatUUID (la_UID args) (lri_idx e)) (lockUID l)), true)
  end.

Fixpoint unlock_loop (args : LockArgs) (resources : list string) (l : localLocker) (reply : bool)
    (err : option error) : localLocker * (bool * option error) :=
  match resources with
  | [] => (l, (reply, err))
  | r :: rs =>
      if negb (canTakeUnlock l [r]) then
        unlock_loop args rs l reply
          (Some (locker_error ("unlock attempted on a read locked entity: " +:+ r)))
      else match lockMap l !! r with
           | Some lri => let '(l', b) := removeEntry l r args lri in unlock_loop args rs l' (b || reply) err
           | None => unlock_loop args rs l reply err
           end
  end.

Definition Unlock (l : localLocker) (args : LockArgs) : localLocker * (bool * option error) :=
  if (maxDeleteList <? length (la_Resources args))%nat then
    (l, (false, Some (locker_error "internal error: localLocker.Unlock called with more than 1000 resources")))
  else unlock_loop args (la_Resources args) l false None.

Definition read_entry (now : time) (args : LockArgs) (resource : string) : lockRequesterInfo :=
  mkLRI resource false (la_UID args) now now (la_Source args) false (la_Owner args) (la_Quorum args) 0.

Definition RLock (now : time) (l : localLocker) (args : LockArgs)
    : option (localLocker * (bool * option error)) :=
  if (1 <? length (la_Resources args))%nat then
    Some (l, (false, Some (locker_error "internal error: localLocker.RLock called with more than one resource")))
  else
    resource ← la_Resources args !! 0%nat;
    let lrInfo := read_entry now args resource in
    let lockUID' := <[formatUUID (la_UID args) 0 := resource]> (lockUID l) in
    match lockMap l !! resource with
    | Some lri =>
        if negb (isWriteLock lri) then
          Some (mkLocker (<[resource := lri ++ [lrInfo]]> (lockMap l)) lockUID', (true, None))
        else Some (l, (false, None))
    | None => Some (mkLocker (<[resource := [lrInfo]]> (lockMap l)) lockUID', (true, None))
    end.

Definition RUnlock (l : localLocker) (args : LockArgs)
    : option (localLocker * (bool * option error)) :=
  if (1 <? length (la_Resources args))%nat then
    Some (l, (false, Some (locker_error "internal error: localLocker.RUnlock called with more than one resource")))
  else
    resource ← la_Resources args !! 0%nat;
    match lockMap l !! resource with
    | None => Some (l, (true, None))
    | Some lri =>
        if isWriteLock lri then
          Some (l, (false, Some (locker_error ("RUnlock attempted on a write locked entity: " +:+ resource))))
        else Some ((removeEntry l resource args lri).1, (true, None))
    end.

Definition DupLockMap (l : localLocker) : gmap string (list lockRequesterInfo) := lockMap l.

(** The loop of [ForceUnlock] that forgets [uid] with counters [idx], [idx+1],
    ..., up to the first one that is not recorded. *)
Fixpoint forget_uids (fuel : nat) (uid : string) (idx : nat) (m : gmap string string)
    : gmap string string :=
  match fuel with
  | O => m
  | S fuel =>
      let mapID := formatUUID uid idx in
      if bool_decide (is_Some (m !! mapID)) then forget_uids fuel uid (S idx) (delete mapID m) else m
  end.

Fixpoint force_uids (resource : string) (uids : list string) (l : localLocker) : localLocker :=
  match uids with
  | [] => l
  | uid :: uids =>
      match lockMap l !! resource with
      | None => force_uids resource uids (mkLocker (lockMap l) (forget_uids maxDeleteList uid 0 (lockUID l)))
      | Some lris => force_uids resource uids (removeEntry l resource (uid_args uid) lris).1
      end
  end.

Fixpoint force_resources (resources : list string) (l : localLocker) : localLocker :=
  match resources with
  | [] => l
  | r :: rs =>
      match lockMap l !! r with
      | None => force_resources rs l
      | Some lris => force_resources rs (force_uids r (lri_UID <$> lris) l)
      end
  end.

(** The endless loop of [ForceUnlock] over the counters of a request. *)
Fixpoint force_loop (fuel : nat) (uid : string) (idx : nat) (l : localLocker)
    : option (localLocker * bool) :=
  match fuel with
  | O => None
  | S fuel =>
      let mapID := formatUUID uid idx in
      match lockUID l !! mapID with
      | None => Some (l, (0 <? idx)%nat)
      | Some resource =>
          match lockMap l !! resource with
          | None => force_loop fuel uid (S idx) (mkLocker (lockMap l) (delete mapID (lockUID l)))
          | Some lris => force_loop fuel uid (S idx) (removeEntry l resource (uid_args uid) lris).1
          end
      end
  end.

(** Number of iterations that is enough for the loops over [lockUID]. *)
Definition uid_fuel (l : localLocker) : nat := S (size (lockUID l)).

Definition ForceUnlock (canceled : bool) (l : localLocker) (args : LockArgs)
    : option (localLocker * (bool * option error)) :=
  if canceled then Some (l, (false, Some Canceled))
  else if bool_decide (la_UID args = "") then
    Some (force_resources (la_Resources args) l, (true, None))
  else '(l', b) ← force_loop (uid_fuel l) (la_UID args) 0 l; Some (l', (b, None)).

Definition refresh_entry (now : time) (uid : string) (e : lockRequesterInfo) : lockRequesterInfo :=
  if bool_decide (lri_UID e = uid) then
    mkLRI (lri_Name e) (lri_Writer e) (lri_UID e) (lri_Timestamp e) now (lri_Source e) (lri_Group e)
      (lri_Owner e) (lri_Quorum e) (lri_idx e)
  else e.

Fixpoint refresh_loop (fuel : nat) (now : time) (uid resource : string) (idx : nat) (l : localLocker)
    : option (localLocker * bool) :=
  match fuel with
  | O => None
  | S fuel =>
      match lockMap l !! resource with
      | None => Some (mkLocker (lockMap l) (delete (formatUUID uid idx) (lockUID l)), (0 <? idx)%nat)
      | Some lris =>
          let l' := mkLocker (<[resource := refresh_entry now uid <$> lris]> (lockMap l)) (lockUID l) in
          match lockUID l' !! formatUUID uid (S idx) with
          | None => Some (l', true)
          | Some resource' => refresh_loop fuel now uid resource' (S idx) l'
          end
      end
  end.

Definition Refresh (canceled : bool) (now : time) (l : localLocker) (args : LockArgs)
    : option (localLocker * (bool * option error)) :=
  if canceled then Some (l, (false, Some Canceled))
  else match lockUID l !! formatUUID (la_UID args) 0 with
       | None => Some (l, (false, None))
       | Some resource =>
           '(l', b) ← refresh_loop (uid_fuel l) now (la_UID args) resource 0 l; Some (l', (b, None))
       end.

(** The loop of [expireOldLocks] over the entries of one resource: [kept] are the
    entries before position [i], [rest] those from it on. *)
Fixpoint expire_loop (now : time) (interval : Z) (k : string) (kept rest : list lockRequesterInfo)
    (modified : bool) (l : localLocker) : localLocker :=
  match rest with
  | [] => if modified then mkLocker (<[k := kept]> (lockMap l)) (lockUID l) else l
  | lri :: rest' =>
      if interval <? time_Sub now (lri_TimeLastRefresh lri) then
        let uids := delete (formatUUID (lri_UID lri) (lri_idx lri)) (lockUID l) in
        if (length (kept ++ rest) =? 1)%nat then mkLocker (delete (lri_Name lri) (lockMap l)) uids
        else expire_loop now interval k kept rest' true (mkLocker (lockMap l) uids)
      else expire_loop now interval k (kept ++ [lri]) rest' modified l
  end.

(** Ranging over a map meets an entry only if it has not been removed yet. *)
Definition expire_key (now : time) (interval : Z) (l : localLocker) (k : string) : localLocker :=
  match lockMap l !! k with
  | None => l
  | Some lris => expire_loop now interval k [] lris false l
  end.

Definition expireOldLocks `{MapOrder} (now : time) (interval : Z) (l : localLocker) : localLocker :=
  fold_left (expire_key now interval) (range_map (lockMap l)).*1 l.

(** ** What a lock server promises

    The abstract server: a resource is held exclusively by one holder, or shared
    by a list of holders (free when there is none).  A holder is a request
    identifier with its owner. *)

Definition holder := (string * string)%type.

Inductive lock_state :=
| Exclusive (h : holder)
| Shared (hs : list holder).

Abbreviation Free := (Shared []).

Definition lock_table := string -> lock_state.

Definition table_set (t : lock_table) (r : string) (s : lock_state) : lock_table :=
  fun r' => if decide (r' = r) then s else t r'.

Definition args_holder (args : LockArgs) : holder := (la_UID args, la_Owner args).

(** The request with these arguments may release what [h] holds. *)
Definition releases (args : LockArgs) (h : holder) : bool :=
  bool_decide (h.1 = la_UID args) &&
  (bool_decide (la_Owner args = "") || bool_decide (h.2 = la_Owner args)).

Fixpoint remove_first {A} (p : A -> bool) (l : list A) : list A :=
  match l with [] => [] | x :: l => if p x then l else x :: remove_first p l end.

Definition is_free (s : lock_state) : bool := match s with Shared [] => true | _ => false end.

Definition spec_Lock (t : lock_table) (args : LockArgs) : lock_table * bool :=
  if forallb (fun r => is_free (t r)) (la_Resources args) then
    (fun r => if decide (r ∈ la_Resources args) then Exclusive (args_holder args) else t r, true)
  else (t, false).

Definition spec_RLock (t : lock_table) (args : LockArgs) (r : string) : lock_table * bool :=
  match t r with
  | Exclusive _ => (t, false)
  | Shared hs => (table_set t r (Shared (hs ++ [args_holder args])), true)
  end.

(** A release answers with the table and whether it was an error. *)
Fixpoint spec_Unlock (t : lock_table) (args : LockArgs) (rs : list string) (err : bool) : lock_table * bool :=
  match rs with
  | [] => (t, err)
  | r :: rs =>
      match t r with
      | Exclusive h => spec_Unlock (if releases args h then table_set t r Free else t) args rs err
      | Shared _ => spec_Unlock t args rs true
      end
  end.

Definition spec_RUnlock (t : lock_table) (args : LockArgs) (r : string) : lock_table * bool :=
  match t r with
  | Exclusive _ => (t, true)
  | Shared hs => (table_set t r (Shared (remove_first (releases args) hs)), false)
  end.

(** ** The invariant of the lock table

    A recorded resource has at least one entry, its entries carry its name, and
    they are one write lock or read locks only. *)

Definition list_ok (r : string) (lris : list lockRequesterInfo) : Prop :=
  lris <> [] /\ Forall (fun e => lri_Name e = r) lris /\
  (isWriteLock lris = true \/ Forall (fun e => lri_Writer e = false) lris).

Definition locker_ok (l : localLocker) : Prop := map_Forall list_ok (lockMap l).

Definition holder_of (e : lockRequesterInfo) : holder := (lri_UID e, lri_Owner e).

Definition state_of (lris : list lockRequesterInfo) : lock_state :=
  match lris with
  | [e] => if lri_Writer e then Exclusive (holder_of e) else Shared [holder_of e]
  | _ => Shared (holder_of <$> lris)
  end.

Definition table_of (l : localLocker) : lock_table := fun r => state_of (entries l r).

Lemma state_of_write lris h : state_of lris = Exclusive h ->
  exists e, lris = [e] /\ lri_Writer e = true /\ h = holder_of e.
Proof.
  destruct lris as [|e [|e' lris]]; simpl; try done.
  destruct (lri_Writer e) eqn:E; [|done]. intros [= <-]. by exists e.
Qed.

Lemma state_of_shared lris hs : state_of lris = Shared hs ->
  isWriteLock lris = false /\ hs = holder_of <$> lris.
Proof.
  destruct lris as [|e [|e' lris]]; simpl; try (by intros [= <-]).
  destruct (lri_Writer e) eqn:E; [done|]. by intros [= <-].
Qed.

Lemma state_of_read lris : isWriteLock lris = false -> state_of lris = Shared (holder_of <$> lris).
Proof. destruct lris as [|e [|e' lris]]; simpl; try done. by intros ->. Qed.

Lemma entries_Some l r lris : lockMap l !! r = Some lris -> entries l r = lris.
Proof. unfold entries. by intros ->. Qed.

Lemma entries_insert m u r r' lris :
  entries (mkLocker (<[r := lris]> m) u) r' = if decide (r = r') then lris else entries (mkLocker m u) r'.
Proof. unfold entries. simpl. rewrite lookup_insert. by destruct (decide (r = r')). Qed.

Lemma entries_delete m u r r' :
  entries (mkLocker (delete r m) u) r' = if decide (r = r') then [] else entries (mkLocker m u) r'.
Proof. unfold entries. simpl. rewrite lookup_delete. by destruct (decide (r = r')). Qed.

Lemma free_iff l r : locker_ok l -> is_free (table_of l r) = negb (bool_decide (is_Some (lockMap l !! r))).
Proof.
  intros Hok. unfold table_of, entries. destruct (lockMap l !! r) as [lris|] eqn:E; simpl.
  - destruct (Hok r lris E) as (Hne & _).
    destruct lris as [|e [|e' lris]]; [done| |done]. simpl. by destruct (lri_Writer e).
  - done.
Qed.

Lemma ok_write l r lris : locker_ok l -> lockMap l !! r = Some lris -> isWriteLock lris = false ->
  Forall (fun e => lri_Writer e = false) lris.
Proof. intros Hok E Hw. destruct (Hok r lris E) as (_ & _ & [?|?]); congruence. Qed.

(** [entry_matches] and [releases] are the same test. *)
Lemma matches_releases args e : entry_matches args e = releases args (holder_of e).
Proof. done. Qed.

Lemma split_entry_Some args lri pre e post : split_entry args lri = Some (pre, e, post) ->
  lri = pre ++ e :: post /\ entry_matches args e = true /\
  holder_of <$> (pre ++ post) = remove_first (releases args) (holder_of <$> lri).
Proof.
  revert pre. induction lri as [|x lri IH]; intros pre; [done|]. cbn [split_entry].
  destruct (entry_matches args x) eqn:Ex.
  - intros [= <- <- <-]. split_and!; [done..|]. cbn. rewrite <-matches_releases, Ex. done.
  - destruct (split_entry args lri) as [[[p y] q]|] eqn:Es; [|done]. intros [= <- <- <-].
    destruct (IH p eq_refl) as (-> & ? & Hr). split_and!; [done..|].
    cbn. rewrite <-matches_releases, Ex. f_equal. exact Hr.
Qed.

Lemma split_entry_None args lri : split_entry args lri = None ->
  remove_first (releases args) (holder_of <$> lri) = holder_of <$> lri.
Proof.
  induction lri as [|x lri IH]; [done|]. cbn. rewrite <-matches_releases.
  destruct (entry_matches args x); [done|]. destruct (split_entry args lri) as [[[p y] q]|]; [done|].
  intros _. f_equal. by apply IH.
Qed.


(** A removal acts on one resource, as the abstract server's removal does. *)
Lemma removeEntry_spec l r args lri l' b : locker_ok l -> lockMap l !! r = Some lri ->
  removeEntry l r args lri = (l', b) ->
  locker_ok l' /\ (forall r', r' <> r -> entries l' r' = entries l r') /\
  holder_of <$> entries l' r = remove_first (releases args) (holder_of <$> lri) /\
  Forall (fun e => e ∈ lri) (entries l' r) /\
  (b = true <-> exists e, e ∈ lri /\ entry_matches args e = true).
Proof.
  intros Hok E. unfold removeEntry. destruct (split_entry args lri) as [[[pre e] post]|] eqn:Es.
  2:{ intros [= <- <-]. rewrite (entries_Some _ _ _ E), (split_entry_None _ _ Es).
      split_and!; [done..|by apply Forall_forall|]. split; [done|]. intros (e & He & Hm). exfalso.
      revert Es. clear E. induction He as [x k|x y k _ IH]; cbn; [by rewrite Hm|].
      destruct (entry_matches args y); [done|]. by destruct (split_entry args k) as [[[]]|]; [|auto]. }
  intros [= <- <-]. destruct (split_entry_Some _ _ _ _ _ Es) as (Hl & Hm & Hr).
  destruct (Hok r lri E) as (Hne & Hnm & Hkind). rewrite <-Hr. clear Hr.
  assert (Forall (fun e0 => e0 ∈ lri) (pre ++ post)) as Hin.
  { apply Forall_forall. intros y. rewrite Hl, !elem_of_app, elem_of_cons. naive_solver. }
  assert (true = true <-> exists e0, e0 ∈ lri /\ entry_matches args e0 = true) as Hiff.
  { split; [|done]. intros _. exists e. split; [rewrite Hl; set_solver|done]. }
  destruct (Nat.eqb_spec (length lri) 1) as [H1|H1].
  - assert (pre = [] /\ post = []) as [-> ->].
    { rewrite Hl, length_app in H1. simpl in H1. split; apply nil_length_inv; lia. }
    split_and!; [|intros r' Hr'; rewrite entries_delete; by destruct (decide (r = r'))
                 |rewrite entries_delete; by destruct (decide (r = r))
                 |rewrite entries_delete; by destruct (decide (r = r))|done].
    unfold locker_ok. simpl. by apply map_Forall_delete.
  - split_and!; [|intros r' Hr'; rewrite entries_insert; by destruct (decide (r = r'))
                 |rewrite entries_insert; by destruct (decide (r = r))
                 |rewrite entries_insert; by destruct (decide (r = r))|done].
    unfold locker_ok. simpl. apply map_Forall_insert_2; [|done]. split_and!.
    + intros Hn. rewrite Hl, length_app in H1. apply app_eq_nil in Hn as [-> ->]. simpl in H1. lia.
    + rewrite Forall_forall in *. intros y Hy. apply Hnm, Hin, Hy.
    + right. assert (Forall (fun e => lri_Writer e = false) lri) as Hf.
      { destruct Hkind as [Hw|]; [|done]. destruct lri as [|? [|? ?]]; simpl in *; try done; lia. }
      rewrite Forall_forall in *. intros y Hy. apply Hf, Hin, Hy.
Qed.

(** ** Refinement: the table of entries implements the abstract server *)

Abbreviation table_eq := (pointwise_relation string (@eq lock_state)).

#[global] Instance table_set_Proper :
  Proper (table_eq ==> eq ==> eq ==> table_eq) table_set.
Proof. intros t t' Ht r ? <- s ? <- r'. unfold table_set. by rewrite (Ht r'). Qed.

#[global] Instance spec_Unlock_Proper :
  Proper (table_eq ==> eq ==> eq ==> eq ==> prod_relation table_eq eq) spec_Unlock.
Proof.
  intros t t' Ht args ? <- rs ? <-. revert t t' Ht.
  induction rs as [|r rs IH]; intros t t' Ht err ? <-; [done|]. cbn. rewrite (Ht r).
  destruct (t' r) as [h|hs]; [|by apply IH]. apply IH; [|done]. destruct (releases args h); [|done].
  by apply table_set_Proper.
Qed.

Lemma table_of_entries l l' : (forall r, entries l r = entries l' r) -> table_eq (table_of l) (table_of l').
Proof. intros H r. unfold table_of. by rewrite H. Qed.

Lemma claim_spec now args rs : forall i l,
  locker_ok l ->
  locker_ok (claim now args i rs l) /\
  forall r, if decide (r ∈ rs) then exists j, entries (claim now args i rs l) r = [write_entry now args j r]
            else entries (claim now args i rs l) r = entries l r.
Proof.
  induction rs as [|x rs IH]; intros i l Hok; [split; [done|]; intros r; by destruct (decide _) as [H%elem_of_nil|]|].
  cbn [claim]. destruct (IH (S i) (mkLocker (<[x := [write_entry now args i x]]> (lockMap l))
    (<[formatUUID (la_UID args) i := x]> (lockUID l)))) as [Hok' He].
  { unfold locker_ok. simpl. apply map_Forall_insert_2; [|done]. split_and!; [done|by constructor|by left]. }
  split; [done|]. intros r. specialize (He r). rewrite entries_insert in He.
  destruct (decide (r ∈ rs)) as [Hin|Hin].
  - by rewrite decide_True by (by right).
  - destruct (decide (x = r)) as [->|Hne].
    + rewrite decide_True by left. by exists i.
    + rewrite decide_False; [exact He|]. intros [?|?]%elem_of_cons; congruence.
Qed.

Lemma canTakeLock_free l rs : locker_ok l ->
  canTakeLock l rs = forallb (fun r => is_free (table_of l r)) rs.
Proof.
  intros Hok. unfold canTakeLock. induction rs as [|r rs IH]; cbn; [done|]. by rewrite IH, free_iff.
Qed.

Lemma Lock_refines now l args l' b err : locker_ok l -> Lock now l args = (l', (b, err)) ->
  locker_ok l' /\ (b = false -> l' = l) /\
  (b = true -> (spec_Lock (table_of l) args).2 = true /\
               table_eq (table_of l') (spec_Lock (table_of l) args).1) /\
  ((length (la_Resources args) <= maxDeleteList)%nat -> b = (spec_Lock (table_of l) args).2 /\ err = None).
Proof.
  intros Hok. unfold Lock. destruct (Nat.ltb_spec maxDeleteList (length (la_Resources args))).
  { intros [= <- <- <-]. split_and!; [done..|lia]. }
  rewrite canTakeLock_free by done. unfold spec_Lock.
  destruct (forallb _ _) eqn:Ef; intros [= <- <- <-]; [|done].
  destruct (claim_spec now args (la_Resources args) 0 l Hok) as [Hok' He]. split_and!; [done..| |done].
  intros _. split; [done|]. intros r. specialize (He r). unfold table_of in *. simpl.
  destruct (decide (r ∈ la_Resources args)); [|by rewrite He]. destruct He as [j ->]. done.
Qed.

Lemma unlock_loop_refines args rs : forall l reply err l' b err',
  locker_ok l -> unlock_loop args rs l reply err = (l', (b, err')) ->
  locker_ok l' /\
  table_eq (table_of l') (spec_Unlock (table_of l) args rs (bool_decide (is_Some err))).1 /\
  bool_decide (is_Some err') = (spec_Unlock (table_of l) args rs (bool_decide (is_Some err))).2.
Proof.
  induction rs as [|r rs IH]; intros l reply err l' b err' Hok; cbn [unlock_loop spec_Unlock].
  { intros [= <- <- <-]. done. }
  replace (canTakeUnlock l [r]) with (isWriteLock (entries l r)) by (unfold canTakeUnlock; cbn; by rewrite andb_true_r).
  change (table_of l r) with (state_of (entries l r)).
  destruct (state_of (entries l r)) as [h|hs] eqn:Est.
  2:{ apply state_of_shared in Est as [-> _]. cbn [negb]. intros H. apply IH in H; [|done]. exact H. }
  apply state_of_write in Est as (e & He & Hw & ->). rewrite He. cbn [isWriteLock]. rewrite Hw. cbn [negb].
  destruct (lockMap l !! r) as [lri|] eqn:E; [|unfold entries in He; rewrite E in He; done].
  rewrite (entries_Some _ _ _ E) in He. subst lri.
  destruct (removeEntry l r args [e]) as [l1 b1] eqn:Er. intros Hu.
  destruct (removeEntry_spec _ _ _ _ _ _ Hok E Er) as (Hok1 & Hoth & Hh & Hin & _).
  apply IH in Hu as (? & H1 & H2); [|done].
  assert (table_eq (table_of l1) (if releases args (holder_of e) then table_set (table_of l) r Free else table_of l)) as Ht.
  { intros r'. unfold table_of. cbn in Hh. destruct (decide (r' = r)) as [->|Hne].
    - destruct (releases args (holder_of e)) eqn:Erel.
      + unfold table_set. rewrite decide_True by done. by apply fmap_nil_inv in Hh as ->.
      + rewrite (entries_Some _ _ _ E). destruct (entries l1 r) as [|e1 [|]]; try done.
        rewrite Forall_singleton in Hin. apply list_elem_of_singleton in Hin as ->. done.
    - rewrite Hoth by done. destruct (releases _ _); [|done]. unfold table_set. by rewrite decide_False. }
  destruct (spec_Unlock_Proper _ _ Ht args args eq_refl rs rs eq_refl
    (bool_decide (is_Some err)) _ eq_refl) as [Hp1 Hp2].
  split_and!; [done| |by rewrite H2]. intros r'. rewrite (H1 r'). apply Hp1.
Qed.

Lemma RLock_refines now l args l' b err : locker_ok l -> RLock now l args = Some (l', (b, err)) ->
  locker_ok l' /\ (b = false -> l' = l) /\
  (b = true -> exists r, la_Resources args = [r] /\ (spec_RLock (table_of l) args r).2 = true /\
               table_eq (table_of l') (spec_RLock (table_of l) args r).1) /\
  (forall r, la_Resources args = [r] -> b = (spec_RLock (table_of l) args r).2 /\ err = None).
Proof.
  intros Hok. unfold RLock. destruct (la_Resources args) as [|r [|r' rs]]; cbn [length Nat.ltb Nat.leb lookup list_lookup].
  1: done. 2:{ intros [= <- <- <-]. by split_and!. }
  cbn [mbind option_bind]. unfold spec_RLock.
  assert (forall lris u, lockMap l !! r = Some lris \/ (lockMap l !! r = None /\ lris = []) ->
    isWriteLock lris = false ->
    let l1 := mkLocker (<[r := lris ++ [read_entry now args r]]> (lockMap l)) u in
    locker_ok l1 /\ table_of l r = Shared (holder_of <$> lris) /\
    table_eq (table_of l1) (table_set (table_of l) r (Shared ((holder_of <$> lris) ++ [args_holder args])))) as Hadd.
  { intros lris u Hl Hw l1. assert (entries l r = lris) as He.
    { unfold entries. destruct Hl as [->|[-> ->]]; done. }
    assert (Forall (fun e => lri_Name e = r) lris /\ Forall (fun e => lri_Writer e = false) lris) as [Hn Hf].
    { destruct Hl as [Hl|[_ ->]]; [|done]. split; [by destruct (Hok r lris Hl) as (_ & ? & _)|by eapply ok_write]. }
    split_and!.
    - unfold locker_ok, l1. simpl. apply map_Forall_insert_2; [|done]. split_and!.
      + by destruct lris.
      + apply Forall_app. split; [done|]. by constructor.
      + right. apply Forall_app. split; [done|]. by constructor.
    - unfold table_of. rewrite He. by apply state_of_read.
    - intros r'. unfold table_of, table_set, l1. rewrite entries_insert.
      destruct (decide (r' = r)) as [->|Hne]; [rewrite decide_True by done|by rewrite decide_False].
      rewrite state_of_read, fmap_app; [done|]. by destruct lris as [|? [|]]. }
  destruct (lockMap l !! r) as [lri|] eqn:E.
  - destruct (isWriteLock lri) eqn:Hw; cbn [negb]; intros [= <- <- <-].
    + split_and!; [done..|]. intros r0 [= <-]. unfold table_of. rewrite (entries_Some _ _ _ E).
      destruct lri as [|e [|? ?]]; try done. cbn in *. by rewrite Hw.
    + destruct (Hadd lri (<[formatUUID (la_UID args) 0 := r]> (lockUID l)) ltac:(by left) Hw) as (? & Ht & ?).
      split_and!; [done|done| |].
      * intros _. exists r. by rewrite Ht.
      * intros r0 [= <-]. by rewrite Ht.
  - intros [= <- <- <-].
    destruct (Hadd [] (<[formatUUID (la_UID args) 0 := r]> (lockUID l)) ltac:(by right) eq_refl) as (? & Ht & ?).
    split_and!; [done|done| |].
    + intros _. exists r. by rewrite Ht.
    + intros r0 [= <-]. by rewrite Ht.
Qed.

Lemma RUnlock_refines l args l' b err : locker_ok l -> RUnlock l args = Some (l', (b, err)) ->
  locker_ok l' /\
  ((l' = l /\ forall r, la_Resources args = [r] ->
       table_eq (table_of l) (spec_RUnlock (table_of l) args r).1 /\
       bool_decide (is_Some err) = (spec_RUnlock (table_of l) args r).2) \/
   exists r, la_Resources args = [r] /\ table_eq (table_of l') (spec_RUnlock (table_of l) args r).1 /\
     bool_decide (is_Some err) = (spec_RUnlock (table_of l) args r).2).
Proof.
  intros Hok. unfold RUnlock. destruct (la_Resources args) as [|r [|r' rs]]; cbn [length Nat.ltb Nat.leb lookup list_lookup].
  1: done. 2:{ intros [= <- <- <-]. by split; [|left]. }
  cbn [mbind option_bind]. unfold spec_RUnlock. destruct (lockMap l !! r) as [lri|] eqn:E.
  2:{ intros [= <- <- <-]. split; [done|]. left. split; [done|]. intros r0 [= <-].
      assert (table_of l r = Free) as Hfr by (unfold table_of, entries; by rewrite E).
      rewrite Hfr. split; [|done]. intros r'. cbn. unfold table_set.
      by destruct (decide (r' = r)) as [->|]. }
  destruct (isWriteLock lri) eqn:Hw; intros [= <- <- <-].
  - split; [done|]. left. split; [done|]. intros r0 [= <-].
    assert (table_of l r = state_of lri) as -> by (unfold table_of; by rewrite (entries_Some _ _ _ E)).
    destruct lri as [|e [|? ?]]; try done. cbn in *. by rewrite Hw.
  - destruct (removeEntry l r args lri) as [l1 b1] eqn:Er. cbn [fst].
    destruct (removeEntry_spec _ _ _ _ _ _ Hok E Er) as (Hok1 & Hoth & Hh & Hin & _). split; [done|]. right.
    exists r. split; [done|].
    assert (table_of l r = Shared (holder_of <$> lri)) as ->.
    { unfold table_of. rewrite (entries_Some _ _ _ E). by apply state_of_read. }
    split; [|done]. intros r'. cbn. unfold table_set, table_of. destruct (decide (r' = r)) as [->|]; [|by rewrite Hoth].
    rewrite <-Hh. apply state_of_read. pose proof (ok_write _ _ _ Hok E Hw) as Hf.
    destruct (entries l1 r) as [|e [|? ?]]; try done. rewrite Forall_singleton in Hin.
    rewrite Forall_forall in Hf. by apply Hf.
Qed.

(** ** The index of requests *)

Lemma formatUUID_inj uid : Inj (=) (=) (formatUUID uid).
Proof. intros i j H. unfold formatUUID in H. apply (inj (String.app uid)) in H. by apply (inj pretty) in H. Qed.

(** Along the counters of a request, the loops meet different keys of [lockUID]
    each time; [visited] are the keys met so far. *)
Definition recorded (uid : string) (from n : nat) (m : gmap string string) : Prop :=
  forall i, (from <= i < from + n)%nat -> is_Some (m !! formatUUID uid i).

Lemma recorded_le uid from n m : recorded uid from n m -> (n <= size m)%nat.
Proof.
  intros H. rewrite <-size_dom. rewrite <-(length_seq n from).
  rewrite <-(length_fmap (formatUUID uid) (seq from n)).
  rewrite <-(size_list_to_set (C := gset string)).
  - apply subseteq_size. intros k. rewrite elem_of_list_to_set, elem_of_dom.
    intros (i & -> & Hi%elem_of_seq)%list_elem_of_fmap. by apply H.
  - apply NoDup_fmap_2; [apply formatUUID_inj|apply NoDup_seq].
Qed.

Lemma refresh_loop_total now uid : forall fuel resource idx l,
  (forall n, recorded uid (S idx) n (lockUID l) -> (n < fuel)%nat) ->
  exists r, refresh_loop fuel now uid resource idx l = Some r.
Proof.
  induction fuel as [|fuel IH]; intros resource idx l Hf.
  { specialize (Hf 0%nat). unfold recorded in Hf. specialize (Hf ltac:(lia)). lia. }
  cbn [refresh_loop]. destruct (lockMap l !! resource) as [lris|]; [|by eexists]. cbn [lockUID].
  destruct (lockUID l !! formatUUID uid (S idx)) as [r'|] eqn:E; [|by eexists].
  apply IH. cbn [lockUID]. intros n Hn. apply (Nat.succ_lt_mono n fuel), Hf. intros i Hi.
  destruct (decide (i = S idx)) as [->|]; [by eexists|]. apply Hn. lia.
Qed.

Lemma Refresh_total canceled now l args : exists r, Refresh canceled now l args = Some r.
Proof.
  unfold Refresh. destruct canceled; [by eexists|].
  destruct (lockUID l !! formatUUID (la_UID args) 0); [|by eexists].
  destruct (refresh_loop_total now (la_UID args) (uid_fuel l) s 0 l) as [[l' b] ->]; [|by eexists].
  intros n Hn%recorded_le. unfold uid_fuel. lia.
Qed.

(** Removing an entry forgets a key with the counter of an entry of the request;
    keys of higher counters that were recorded may go, but no key appears. *)
Lemma removeEntry_uid_sub l r args lri k :
  is_Some (lockUID (removeEntry l r args lri).1 !! k) -> is_Some (lockUID l !! k).
Proof.
  unfold removeEntry. destruct (split_entry args lri) as [[[? ?] ?]|]; cbn; [|done].
  rewrite lookup_delete_is_Some. naive_solver.
Qed.

Lemma force_loop_total uid : forall fuel idx l,
  (forall n, recorded uid idx n (lockUID l) -> (n < fuel)%nat) ->
  exists r, force_loop fuel uid idx l = Some r.
Proof.
  induction fuel as [|fuel IH]; intros idx l Hf.
  { specialize (Hf 0%nat). unfold recorded in Hf. specialize (Hf ltac:(lia)). lia. }
  cbn [force_loop]. destruct (lockUID l !! formatUUID uid idx) as [r|] eqn:E; [|by eexists].
  assert (forall m, (forall k, is_Some (m !! k) -> is_Some (lockUID l !! k)) ->
    forall n, recorded uid (S idx) n m -> (n < fuel)%nat) as Hstep.
  { intros m Hm n Hn. apply (Nat.succ_lt_mono n fuel), Hf. intros i Hi.
    destruct (decide (i = idx)) as [->|]; [by eexists|]. apply Hm, Hn. lia. }
  destruct (lockMap l !! r) as [lris|]; apply IH, Hstep.
  - intros k. apply removeEntry_uid_sub.
  - intros k. cbn. rewrite lookup_delete_is_Some. naive_solver.
Qed.

Lemma ForceUnlock_total canceled l args : exists r, ForceUnlock canceled l args = Some r.
Proof.
  unfold ForceUnlock. destruct canceled; [by eexists|]. destruct (bool_decide _); [by eexists|].
  destruct (force_loop_total (la_UID args) (uid_fuel l) 0 l) as [[l' b] ->]; [|by eexists].
  intros n Hn%recorded_le. unfold uid_fuel. lia.
Qed.

(** ** Release gives back what a lock took *)

(** One resource claimed on its own. *)
Definition claim_one (now : time) (args : LockArgs) (i : nat) (r : string) (l : localLocker) : localLocker :=
  mkLocker (<[r := [write_entry now args i r]]> (lockMap l)) (<[formatUUID (la_UID args) i := r]> (lockUID l)).

(** No key of [lockUID] belongs to this request. *)
Definition fresh_uid (l : localLocker) (uid : string) : Prop :=
  forall i, lockUID l !! formatUUID uid i = None.

Lemma claim_comm now args rs : forall i j r l, r ∉ rs -> (j < i)%nat ->
  claim now args i rs (claim_one now args j r l) = claim_one now args j r (claim now args i rs l).
Proof.
  induction rs as [|x rs IH]; intros i j r l Hr Hj; [done|]. cbn [claim].
  fold (claim_one now args i x (claim_one now args j r l)). fold (claim_one now args i x l).
  rewrite <-IH by (set_solver || lia). f_equal. unfold claim_one. cbn. f_equal.
  - apply insert_insert_ne. set_solver.
  - apply insert_insert_ne. intros ?%(inj (formatUUID _)); lia.
Qed.

Lemma claim_fresh_map now args rs : forall i l r, r ∉ rs ->
  lockMap (claim now args i rs l) !! r = lockMap l !! r.
Proof.
  induction rs as [|x rs IH]; intros i l r Hr; [done|]. cbn [claim]. rewrite IH by set_solver. cbn.
  apply lookup_insert_ne. set_solver.
Qed.

Lemma claim_fresh_uid now args rs : forall i l j, (j < i)%nat ->
  lockUID (claim now args i rs l) !! formatUUID (la_UID args) j = lockUID l !! formatUUID (la_UID args) j.
Proof.
  induction rs as [|x rs IH]; intros i l j Hj; [done|]. cbn [claim]. rewrite IH by lia. cbn.
  apply lookup_insert_ne. intros ?%(inj (formatUUID _)). lia.
Qed.

(** The arguments of a later call that name the same request. *)
Definition same_request (args args' : LockArgs) : Prop :=
  la_UID args' = la_UID args /\ (la_Owner args' = "" \/ la_Owner args' = la_Owner args).

Lemma remove_claimed now args args' i r l :
  same_request args args' -> lockMap l !! r = None -> lockUID l !! formatUUID (la_UID args) i = None ->
  removeEntry (claim_one now args i r l) r args' [write_entry now args i r] = (l, true).
Proof.
  intros [Hu Ho] Hr Hi. unfold removeEntry. cbn [split_entry].
  assert (entry_matches args' (write_entry now args i r) = true) as ->.
  { unfold entry_matches. cbn. rewrite Hu, (bool_decide_eq_true_2 (_ = _)) by done. cbn.
    destruct Ho as [->| ->]; [done|]. rewrite (bool_decide_eq_true_2 (la_Owner args = la_Owner args)) by done.
    apply orb_true_r. }
  cbn. rewrite Hu, !delete_insert_eq, !delete_id by done. by destruct l.
Qed.

Lemma unlock_claimed now args args' rs : forall i l reply err,
  same_request args args' -> NoDup rs -> Forall (fun r => lockMap l !! r = None) rs ->
  fresh_uid l (la_UID args) ->
  unlock_loop args' rs (claim now args i rs l) reply err =
    (l, (bool_decide (rs <> []) || reply, err)).
Proof.
  induction rs as [|r rs IH]; intros i l reply err Hs Hnd Hf Hu; [done|].
  apply NoDup_cons in Hnd as [Hr Hnd]. apply Forall_cons in Hf as [Hfr Hf].
  cbn [claim]. fold (claim_one now args i r l). rewrite claim_comm by (done || lia).
  cbn [unlock_loop]. set (l1 := claim_one _ _ _ _ _).
  assert (lockMap l1 !! r = Some [write_entry now args i r]) as Hl1
    by (cbn; apply lookup_insert_eq).
  assert (canTakeUnlock l1 [r] = true) as -> 
    by (unfold canTakeUnlock, entries; cbn [forallb]; by rewrite Hl1).
  cbn [negb]. rewrite Hl1. unfold l1. rewrite remove_claimed; [|done| |].
  - rewrite IH by done. rewrite (bool_decide_eq_true_2 (r :: rs <> [])) by done.
    by rewrite orb_true_l, !orb_true_r.
  - by rewrite claim_fresh_map.
  - rewrite claim_fresh_uid by lia. apply Hu.
Qed.

Lemma force_claimed now args rs : forall fuel i l,
  NoDup rs -> Forall (fun r => lockMap l !! r = None) rs -> fresh_uid l (la_UID args) ->
  (length rs < fuel)%nat ->
  force_loop fuel (la_UID args) i (claim now args i rs l) = Some (l, (0 <? i + length rs)%nat).
Proof.
  induction rs as [|r rs IH]; intros [|fuel] i l Hnd Hf Hu Hfu; [cbn in *; lia| |cbn in *; lia|].
  { cbn. by rewrite (Hu i), Nat.add_0_r. }
  apply NoDup_cons in Hnd as [Hr Hnd]. apply Forall_cons in Hf as [Hfr Hf].
  cbn [claim]. fold (claim_one now args i r l). rewrite claim_comm by (done || lia).
  cbn [force_loop]. set (l1 := claim_one _ _ _ _ _).
  assert (lockMap l1 !! r = Some [write_entry now args i r]) as Hl1
    by (cbn; apply lookup_insert_eq).
  assert (lockUID l1 !! formatUUID (la_UID args) i = Some r) as ->
    by (cbn; apply lookup_insert_eq).
  rewrite Hl1. unfold l1. rewrite remove_claimed; [|split; [done|by left]| |].
  - cbn [fst]. rewrite IH by (done || (cbn in Hfu; lia)). cbn [length]. by rewrite Nat.add_succ_comm.
  - by rewrite claim_fresh_map.
  - rewrite claim_fresh_uid by lia. apply Hu.
Qed.

Lemma claim_lookup_uid now args rs : forall i l j r, rs !! j = Some r ->
  lockUID (claim now args i rs l) !! formatUUID (la_UID args) (i + j) = Some r.
Proof.
  induction rs as [|x rs IH]; intros i l [|j] r Hj; [done|done| |]; cbn [claim]; cbn in Hj.
  - injection Hj as ->. rewrite Nat.add_0_r, claim_fresh_uid by lia. apply lookup_insert_eq.
  - rewrite <-Nat.add_succ_comm. by apply IH.
Qed.

Lemma claim_recorded now args rs i l :
  recorded (la_UID args) i (length rs) (lockUID (claim now args i rs l)).
Proof.
  intros j Hj. destruct (lookup_lt_is_Some_2 rs (j - i)) as [r Hr]; [lia|].
  rewrite <-(Nat.sub_add i j), Nat.add_comm by lia. rewrite (claim_lookup_uid _ _ _ _ _ _ _ Hr). by eexists.
Qed.

Lemma canTakeLock_Forall l rs : canTakeLock l rs = true -> Forall (fun r => lockMap l !! r = None) rs.
Proof.
  unfold canTakeLock. rewrite forallb_forall, Forall_forall. intros H r Hr.
  apply list_elem_of_In, H, negb_true_iff, bool_decide_eq_false in Hr. by apply eq_None_not_Some.
Qed.

(** ** Expiry *)

Definition unexpired (now : time) (interval : Z) (e : lockRequesterInfo) : bool :=
  negb (interval <? time_Sub now (lri_TimeLastRefresh e)).

Lemma expire_loop_spec now interval k rest : forall kept modified l,
  kept ++ rest <> [] -> Forall (fun e => lri_Name e = k) rest ->
  (modified = false -> lockMap l !! k = Some (kept ++ rest)) ->
  let l' := expire_loop now interval k kept rest modified l in
  lockMap l' !! k = (match kept ++ List.filter (unexpired now interval) rest with
                     | [] => None | es => Some es end) /\
  forall r, r <> k -> lockMap l' !! r = lockMap l !! r.
Proof.
  induction rest as [|e rest IH]; intros kept modified l Hne Hn Hm; cbn [expire_loop List.filter].
  { rewrite app_nil_r in *. destruct kept as [|x kept]; [done|]. destruct modified; [|by rewrite Hm].
    cbn. rewrite lookup_insert_eq. split; [done|]. intros r Hr. by apply lookup_insert_ne. }
  apply Forall_cons in Hn as [Hk Hn]. change (unexpired now interval e)
    with (negb (interval <? time_Sub now (lri_TimeLastRefresh e))).
  destruct (interval <? time_Sub now (lri_TimeLastRefresh e)); cbn [negb].
  - destruct (Nat.eqb_spec (length (kept ++ e :: rest)) 1) as [H1|H1].
    + assert (kept = [] /\ rest = []) as [-> ->].
      { rewrite length_app in H1. cbn in H1. split; apply nil_length_inv; lia. }
      cbn. rewrite Hk, lookup_delete_eq. split; [done|]. intros r Hr. by apply lookup_delete_ne.
    + apply (IH kept true (mkLocker (lockMap l) _)); [|done|done]. intros Hz. apply app_eq_nil in Hz as [-> ->]. done.
  - replace (kept ++ e :: List.filter (unexpired now interval) rest)
      with ((kept ++ [e]) ++ List.filter (unexpired now interval) rest) by by rewrite <-app_assoc.
    apply IH; [by destruct kept|done|]. intros Hf. rewrite <-app_assoc. by apply Hm.
Qed.

Lemma expire_key_spec now interval l k : locker_ok l ->
  let l' := expire_key now interval l k in
  locker_ok l' /\ forall r, entries l' r =
    if decide (r = k) then List.filter (unexpired now interval) (entries l r) else entries l r.
Proof.
  intros Hok. unfold expire_key. destruct (lockMap l !! k) as [lris|] eqn:E.
  2:{ split; [done|]. intros r. destruct (decide (r = k)) as [->|]; [|done]. unfold entries. by rewrite E. }
  destruct (Hok k lris E) as (Hne & Hn & Hkind).
  destruct (expire_loop_spec now interval k lris [] false l) as [Hk Ho]; [done..|].
  cbn [app] in Hk. split.
  - intros r es Hes. destruct (decide (r = k)) as [->|Hrk]; [|rewrite Ho in Hes by done; by apply Hok].
    rewrite Hk in Hes. destruct (List.filter (unexpired now interval) lris) as [|x fs] eqn:Ef; [done|].
    injection Hes as <-. assert (forall y, y ∈ x :: fs -> y ∈ lris) as Hsub.
    { intros y. rewrite <-Ef, !list_elem_of_In. by intros [? _]%List.filter_In. }
    rewrite Forall_forall in Hn. split_and!; [done|apply Forall_forall; auto|].
    destruct Hkind as [Hw|Hf]; [left|right].
    + destruct lris as [|e [|? ?]]; try done. cbn in Ef, Hw. destruct (unexpired now interval e); [|done].
      by injection Ef as <- <-.
    + rewrite Forall_forall in *. auto.
  - intros r. unfold entries. destruct (decide (r = k)) as [->|Hrk]; [|by rewrite Ho].
    rewrite Hk, E. cbn. by destruct (List.filter _ lris).
Qed.

Lemma filter_idemp {A} (p : A -> bool) l : List.filter p (List.filter p l) = List.filter p l.
Proof.
  induction l as [|x l IH]; cbn; [done|]. destruct (p x) eqn:E; cbn; [rewrite E; by f_equal|done].
Qed.

Lemma expire_all now interval ks : forall l, locker_ok l ->
  let l' := fold_left (expire_key now interval) ks l in
  locker_ok l' /\ forall r, entries l' r =
    if decide (r ∈ ks) then List.filter (unexpired now interval) (entries l r) else entries l r.
Proof.
  induction ks as [|k ks IH]; intros l Hok; cbn [fold_left].
  { split; [done|]. intros r. by rewrite decide_False by apply not_elem_of_nil. }
  destruct (expire_key_spec now interval l k Hok) as [Hok1 H1]. destruct (IH _ Hok1) as [Hok2 H2].
  split; [done|]. intros r. rewrite H2, H1. destruct (decide (r ∈ ks)), (decide (r = k)).
  - rewrite decide_True by (by right). apply filter_idemp.
  - by rewrite decide_True by (by right).
  - subst. by rewrite decide_True by left.
  - rewrite decide_False; [done|]. intros [?|?]%elem_of_cons; done.
Qed.

Lemma expireOldLocks_spec `{MapOrder} now interval l : locker_ok l ->
  locker_ok (expireOldLocks now interval l) /\
  forall r, entries (expireOldLocks now interval l) r = List.filter (unexpired now interval) (entries l r).
Proof.
  intros Hok. destruct (expire_all now interval (range_map (lockMap l)).*1 l Hok) as [Hok' He].
  split; [done|]. intros r. fold (expireOldLocks now interval l) in He. rewrite He.
  destruct (decide _) as [|Hn]; [done|]. unfold entries. destruct (lockMap l !! r) as [es|] eqn:E; [|done].
  exfalso. apply Hn, list_elem_of_fmap. exists (r, es). split; [done|]. by apply elem_of_range_map.
Qed.

(** ** Refresh *)

Section Refresh.
Variables (now : time) (uid : string).

(** Entries of [uid] may have been given the new time, nothing else changed. *)
Definition touched (l l' : localLocker) : Prop :=
  forall r, entries l' r = entries l r \/ entries l' r = refresh_entry now uid <$> entries l r.

Lemma refresh_entry_idemp e : refresh_entry now uid (refresh_entry now uid e) = refresh_entry now uid e.
Proof.
  unfold refresh_entry. destruct (bool_decide (lri_UID e = uid)) eqn:E; cbn; by rewrite E.
Qed.

Lemma refresh_idemp (es : list lockRequesterInfo) : refresh_entry now uid <$> (refresh_entry now uid <$> es) = refresh_entry now uid <$> es.
Proof. rewrite <-list_fmap_compose. apply list_fmap_ext. intros. apply refresh_entry_idemp. Qed.

Lemma refresh_entry_fields e :
  lri_Name (refresh_entry now uid e) = lri_Name e /\ lri_Writer (refresh_entry now uid e) = lri_Writer e /\
  holder_of (refresh_entry now uid e) = holder_of e.
Proof. unfold refresh_entry, holder_of. by destruct (bool_decide _). Qed.

Lemma refresh_list_ok r es : list_ok r es -> list_ok r (refresh_entry now uid <$> es).
Proof.
  intros (Hne & Hn & Hk). split_and!.
  - by intros ?%fmap_nil_inv.
  - rewrite Forall_fmap. eapply Forall_impl; [exact Hn|]. intros e He. cbn.
    by destruct (refresh_entry_fields e) as (-> & _).
  - destruct Hk as [Hw|Hf]; [left|right].
    + destruct es as [|e [|? ?]]; try done. cbn in *. by destruct (refresh_entry_fields e) as (_ & -> & _).
    + rewrite Forall_fmap. eapply Forall_impl; [exact Hf|]. intros e He. cbn.
      by destruct (refresh_entry_fields e) as (_ & -> & _).
Qed.

Lemma state_of_refresh es : state_of (refresh_entry now uid <$> es) = state_of es.
Proof.
  assert (holder_of <$> (refresh_entry now uid <$> es) = holder_of <$> es) as Hh.
  { rewrite <-list_fmap_compose. apply list_fmap_ext. intros ? e _. cbn. by destruct (refresh_entry_fields e) as (_ & _ & ?). }
  destruct es as [|e [|e' es]]; cbn in *; [done| |by rewrite Hh].
  destruct (refresh_entry_fields e) as (_ & -> & ->). done.
Qed.

Lemma touched_table l l' : touched l l' -> table_eq (table_of l') (table_of l).
Proof. intros H r. unfold table_of. destruct (H r) as [->| ->]; [done|]. apply state_of_refresh. Qed.

Lemma touched_trans l1 l2 l3 : touched l1 l2 -> touched l2 l3 -> touched l1 l3.
Proof.
  intros H1 H2 r. destruct (H2 r) as [->| ->]; [done|]. right. destruct (H1 r) as [->| ->]; [done|].
  apply refresh_idemp.
Qed.

Definition refreshed_at (l : localLocker) (r : string) : localLocker :=
  mkLocker (<[r := refresh_entry now uid <$> entries l r]> (lockMap l)) (lockUID l).

Lemma refreshed_at_touched l r : touched l (refreshed_at l r).
Proof. intros r'. unfold refreshed_at. rewrite entries_insert. destruct (decide (r = r')) as [->|]; auto. Qed.

Lemma refreshed_at_ok l r lris : locker_ok l -> lockMap l !! r = Some lris -> locker_ok (refreshed_at l r).
Proof.
  intros Hok E. unfold locker_ok. cbn. apply map_Forall_insert_2; [|done].
  rewrite (entries_Some _ _ _ E). apply refresh_list_ok. by apply Hok.
Qed.

Lemma refresh_loop_step fuel resource idx l lris : lockMap l !! resource = Some lris ->
  refresh_loop (S fuel) now uid resource idx l =
    match lockUID l !! formatUUID uid (S idx) with
    | None => Some (refreshed_at l resource, true)
    | Some resource' => refresh_loop fuel now uid resource' (S idx) (refreshed_at l resource)
    end.
Proof. intros E. cbn [refresh_loop]. rewrite E. unfold refreshed_at. by rewrite (entries_Some _ _ _ E). Qed.

Lemma refresh_loop_touched : forall fuel resource idx l l' b, locker_ok l ->
  refresh_loop fuel now uid resource idx l = Some (l', b) ->
  locker_ok l' /\ touched l l' /\ ((0 < idx)%nat -> b = true).
Proof.
  induction fuel as [|fuel IH]; intros resource idx l l' b Hok; [done|].
  destruct (lockMap l !! resource) as [lris|] eqn:E.
  - rewrite (refresh_loop_step _ _ _ _ _ E). pose proof (refreshed_at_ok _ _ _ Hok E) as Hok1.
    destruct (lockUID l !! formatUUID uid (S idx)) as [r'|].
    + intros H. apply IH in H as (? & ? & Hb); [|done]. split_and!; [done| |intros; apply Hb; lia].
      eapply touched_trans; [apply refreshed_at_touched|done].
    + intros [= <- <-]. split_and!; [done|apply refreshed_at_touched|done].
  - cbn [refresh_loop]. rewrite E. intros [= <- <-]. split_and!; [done| |].
    + intros r. by left.
    + intros Hi. by apply Nat.ltb_lt.
Qed.

(** The resources recorded under consecutive counters are all refreshed. *)
Lemma refresh_loop_chain : forall fuel resource rs idx l l' b, locker_ok l ->
  refresh_loop fuel now uid resource idx l = Some (l', b) ->
  (forall j r, rs !! j = Some r -> lockUID l !! formatUUID uid (S idx + j) = Some r) ->
  Forall (fun r => is_Some (lockMap l !! r)) (resource :: rs) ->
  b = true /\ forall r, r ∈ resource :: rs -> entries l' r = refresh_entry now uid <$> entries l r.
Proof.
  induction fuel as [|fuel IH]; intros resource rs idx l l' b Hok H Hidx Hin; [done|].
  apply Forall_cons in Hin as [[lris E] Hin]. rewrite (refresh_loop_step _ _ _ _ _ E) in H.
  pose proof (refreshed_at_ok _ _ _ Hok E) as Hok1. set (l1 := refreshed_at l resource) in *.
  assert (entries l1 resource = refresh_entry now uid <$> entries l resource) as He1.
  { unfold l1, refreshed_at. rewrite entries_insert. by rewrite decide_True. }
  destruct (lockUID l !! formatUUID uid (S idx)) as [r'|] eqn:En.
  - pose proof (refresh_loop_touched _ _ _ _ _ _ Hok1 H) as (_ & Ht & Hb).
    assert (entries l' resource = refresh_entry now uid <$> entries l resource) as Hres.
    { destruct (Ht resource) as [->| ->]; [done|]. rewrite He1. apply refresh_idemp. }
    split; [apply Hb; lia|]. destruct rs as [|r1 rs].
    { intros r ->%list_elem_of_singleton. done. }
    assert (r' = r1) as ->.
    { specialize (Hidx 0%nat r1 eq_refl). rewrite Nat.add_0_r, En in Hidx. by injection Hidx. }
    intros r [->|Hr]%elem_of_cons; [done|].
    destruct (IH r1 rs (S idx) l1 l' b Hok1 H) as [_ Hall].
    + intros j r0 Hj. cbn. specialize (Hidx (S j) r0 Hj). by rewrite <-plus_n_Sm in Hidx.
    + eapply Forall_impl; [exact Hin|]. intros x Hx. unfold l1, refreshed_at. cbn.
      rewrite lookup_insert_is_Some'. by right.
    + rewrite (Hall r Hr). destruct (refreshed_at_touched l resource r) as [Hx|Hx]; fold l1 in Hx;
        rewrite Hx; [done|apply refresh_idemp].
  - injection H as <- <-. split; [done|]. destruct rs as [|r1 rs].
    { intros r ->%list_elem_of_singleton. done. }
    specialize (Hidx 0%nat r1 eq_refl). rewrite Nat.add_0_r in Hidx. congruence.
Qed.
End Refresh.

(** ** Forced release *)

Definition not_uid (uid : string) (e : lockRequesterInfo) : bool := negb (bool_decide (lri_UID e = uid)).

(** Only entries of [uid] have gone. *)
Definition spares (uid : string) (l l' : localLocker) : Prop :=
  forall r, List.filter (not_uid uid) (entries l' r) = List.filter (not_uid uid) (entries l r).

Lemma removeEntry_spares l r args lri : locker_ok l -> lockMap l !! r = Some lri ->
  locker_ok (removeEntry l r args lri).1 /\ spares (la_UID args) l (removeEntry l r args lri).1.
Proof.
  intros Hok E. destruct (removeEntry l r args lri) as [l' b] eqn:Er.
  destruct (removeEntry_spec _ _ _ _ _ _ Hok E Er) as (Hok' & Ho & _). split; [done|].
  intros r'. cbn [fst]. destruct (decide (r' = r)) as [->|]; [|by rewrite Ho].
  rewrite (entries_Some _ _ _ E). unfold removeEntry in Er.
  destruct (split_entry args lri) as [[[pre e] post]|] eqn:Es.
  - destruct (split_entry_Some _ _ _ _ _ Es) as (Hl & Hm & _). injection Er as <- _.
    unfold entry_matches in Hm. apply andb_true_iff in Hm as [Hu _].
    assert (List.filter (not_uid (la_UID args)) lri = List.filter (not_uid (la_UID args)) (pre ++ post)) as ->.
    { rewrite Hl, !List.filter_app. cbn. unfold not_uid at 2. by rewrite Hu. }
    destruct (Nat.eqb_spec (length lri) 1) as [H1|]; [|by rewrite entries_insert, decide_True].
    rewrite entries_delete, decide_True by done. rewrite Hl, length_app in H1. cbn in H1.
    destruct pre; [|cbn in H1; lia]. destruct post; [done|cbn in H1; lia].
  - injection Er as <- _. by rewrite (entries_Some _ _ _ E).
Qed.

Lemma force_loop_spares uid : forall fuel idx l l' b, locker_ok l ->
  force_loop fuel uid idx l = Some (l', b) -> locker_ok l' /\ spares uid l l'.
Proof.
  induction fuel as [|fuel IH]; intros idx l l' b Hok; [done|]. cbn [force_loop].
  destruct (lockUID l !! _) as [r|]; [|by intros [= <- <-]].
  destruct (lockMap l !! r) as [lris|] eqn:E; intros H.
  - destruct (removeEntry_spares l r (uid_args uid) lris Hok E) as [Hok1 Hs1].
    apply IH in H as [? Hs2]; [|done]. split; [done|]. intros r'. by rewrite Hs2, Hs1.
  - apply IH in H as [? Hs]; done.
Qed.

Lemma force_uids_ok r uids : forall l, locker_ok l -> locker_ok (force_uids r uids l).
Proof.
  induction uids as [|u uids IH]; intros l Hok; [done|]. cbn [force_uids].
  destruct (lockMap l !! r) as [lris|] eqn:E; apply IH; [|done]. by apply removeEntry_spares.
Qed.

Lemma force_resources_ok rs : forall l, locker_ok l -> locker_ok (force_resources rs l).
Proof.
  induction rs as [|r rs IH]; intros l Hok; [done|]. cbn [force_resources].
  destruct (lockMap l !! r); apply IH; [|done]. by apply force_uids_ok.
Qed.

(** ** Sequences of requests *)

Inductive locker_op :=
| OpLock (now : time) (args : LockArgs)
| OpRLock (now : time) (args : LockArgs)
| OpUnlock (args : LockArgs)
| OpRUnlock (args : LockArgs).

(** What the lock client sends: at most [maxDeleteList] resources, and one for a
    read lock. *)
Definition op_ok (op : locker_op) : Prop :=
  match op with
  | OpLock _ args | OpUnlock args => (length (la_Resources args) <= maxDeleteList)%nat
  | OpRLock _ args | OpRUnlock args => length (la_Resources args) = 1%nat
  end.

(** The client looks at the reply of a lock and at the error of a release. *)
Definition serve (l : localLocker) (op : locker_op) : option (localLocker * bool) :=
  match op with
  | OpLock now args => let '(l', (b, _)) := Lock now l args in Some (l', b)
  | OpRLock now args => '(l', (b, _)) ← RLock now l args; Some (l', b)
  | OpUnlock args => let '(l', (_, err)) := Unlock l args in Some (l', bool_decide (err = None))
  | OpRUnlock args => '(l', (_, err)) ← RUnlock l args; Some (l', bool_decide (err = None))
  end.

Definition spec_serve (t : lock_table) (op : locker_op) : lock_table * bool :=
  match op with
  | OpLock _ args => spec_Lock t args
  | OpRLock _ args => spec_RLock t args (default "" (head (la_Resources args)))
  | OpUnlock args => let '(t', e) := spec_Unlock t args (la_Resources args) false in (t', negb e)
  | OpRUnlock args =>
      let '(t', e) := spec_RUnlock t args (default "" (head (la_Resources args))) in (t', negb e)
  end.

Fixpoint serve_all (l : localLocker) (ops : list locker_op) : option (localLocker * list bool) :=
  match ops with
  | [] => Some (l, [])
  | op :: ops => '(l1, b) ← serve l op; '(l2, bs) ← serve_all l1 ops; Some (l2, b :: bs)
  end.

Fixpoint spec_all (t : lock_table) (ops : list locker_op) : lock_table * list bool :=
  match ops with
  | [] => (t, [])
  | op :: ops => let '(t1, b) := spec_serve t op in let '(t2, bs) := spec_all t1 ops in (t2, b :: bs)
  end.

#[global] Instance spec_serve_Proper : Proper (table_eq ==> eq ==> prod_relation table_eq eq) spec_serve.
Proof.
  intros t t' Ht op ? <-. destruct op as [now args|now args|args|args]; cbn.
  - unfold spec_Lock. assert (forallb (fun r => is_free (t r)) (la_Resources args)
      = forallb (fun r => is_free (t' r)) (la_Resources args)) as ->.
    { induction (la_Resources args) as [|r rs IH]; cbn; [done|]. by rewrite (Ht r), IH. }
    destruct (forallb _ _); [|done]. split; [|done]. intros r. cbn. by rewrite (Ht r).
  - unfold spec_RLock. rewrite (Ht _). destruct (t' _); [done|]. split; [|done]. cbn. by rewrite Ht.
  - destruct (spec_Unlock_Proper t t' Ht args _ eq_refl (la_Resources args) _ eq_refl false _ eq_refl) as [H1 H2].
    destruct (spec_Unlock t _ _ _), (spec_Unlock t' _ _ _). cbn in *. split; [done|]. cbn in *. by f_equal.
  - unfold spec_RUnlock. rewrite (Ht _). destruct (t' _); [done|]. split; [|done]. cbn. by rewrite Ht.
Qed.

Lemma bool_decide_None {A} `{EqDecision A} (o : option A) :
  bool_decide (o = None) = negb (bool_decide (is_Some o)).
Proof. by destruct o. Qed.

Lemma serve_refines l op : locker_ok l -> op_ok op ->
  exists l' b, serve l op = Some (l', b) /\ locker_ok l' /\
    b = (spec_serve (table_of l) op).2 /\ table_eq (table_of l') (spec_serve (table_of l) op).1.
Proof.
  intros Hok Hop. destruct op as [now args|now args|args|args]; cbn [serve spec_serve op_ok] in *.
  - destruct (Lock now l args) as [l' [b err]] eqn:E.
    destruct (Lock_refines _ _ _ _ _ _ Hok E) as (Hok' & Hf & Ht & Hb).
    destruct (Hb Hop) as [Hb' _]. exists l', b. split_and!; [done..|]. destruct b; [by apply Ht|].
    rewrite Hf by done. unfold spec_Lock in *. by destruct (forallb _ _).
  - destruct (la_Resources args) as [|r [|? ?]] eqn:Er; try done.
    destruct (RLock now l args) as [[l' [b err]]|] eqn:E.
    2:{ exfalso. revert E. unfold RLock. rewrite Er. cbn. destruct (lockMap l !! r); [|done]. by destruct (isWriteLock _). }
    destruct (RLock_refines _ _ _ _ _ _ Hok E) as (Hok' & Hf & Ht & Hb).
    destruct (Hb r Er) as [Hb' _]. exists l', b. split_and!; [done..|]. cbn. destruct b.
    + destruct (Ht eq_refl) as (r' & Hr' & _ & ?). rewrite Er in Hr'. by injection Hr' as <-.
    + rewrite Hf by done. unfold spec_RLock in *. by destruct (table_of l r).
  - unfold Unlock. destruct (Nat.ltb_spec maxDeleteList (length (la_Resources args))); [lia|].
    destruct (unlock_loop _ _ _ _ _) as [l' [b err]] eqn:E.
    destruct (unlock_loop_refines _ _ _ _ _ _ _ _ Hok E) as (Hok' & Ht & He).
    eexists l', _. split; [done|]. rewrite bool_decide_None.
    rewrite (bool_decide_eq_false_2 (is_Some None)) in * by (by intros [? ?]).
    destruct (spec_Unlock _ _ _ _) as [t e]. cbn in *. by rewrite He.
  - destruct (la_Resources args) as [|r [|? ?]] eqn:Er; try done.
    destruct (RUnlock l args) as [[l' [b err]]|] eqn:E.
    2:{ exfalso. revert E. unfold RUnlock. rewrite Er. cbn. destruct (lockMap l !! r); [|done]. by destruct (isWriteLock _). }
    destruct (RUnlock_refines _ _ _ _ _ Hok E) as (Hok' & Hd).
    exists l', (bool_decide (err = None)). split; [done|]. rewrite bool_decide_None. cbn [head default from_option].
    destruct Hd as [[-> Hd]|(r' & Hr' & Hd)].
    + specialize (Hd r Er) as [Ht ->]. destruct (spec_RUnlock _ _ _) as [t e]. done.
    + rewrite Er in Hr'. injection Hr' as <-. destruct Hd as [Ht ->]. destruct (spec_RUnlock _ _ _) as [t e]. done.
Qed.

Lemma serve_all_refines ops : forall l t, locker_ok l -> table_eq (table_of l) t -> Forall op_ok ops ->
  exists l' bs, serve_all l ops = Some (l', bs) /\ locker_ok l' /\ bs = (spec_all t ops).2 /\
    table_eq (table_of l') (spec_all t ops).1.
Proof.
  induction ops as [|op ops IH]; intros l t Hok Ht Hops; [by exists l, []|].
  apply Forall_cons in Hops as [Hop Hops]. cbn [serve_all spec_all].
  destruct (serve_refines l op Hok Hop) as (l1 & b & -> & Hok1 & Hb & Ht1).
  destruct (spec_serve_Proper _ _ Ht op op eq_refl) as [Hp1 Hp2].
  destruct (spec_serve t op) as [t1 b1]. cbn in Hp1, Hp2. cbn [mbind option_bind].
  destruct (IH l1 t1 Hok1) as (l2 & bs & -> & ? & Hbs & ?); [by rewrite Ht1|done|].
  destruct (spec_all t1 ops) as [t2 bs']. cbn in *. exists l2, (b :: bs). split_and!; [done..| |done]. by subst.
Qed.

Lemma newLocker_ok : locker_ok newLocker.
Proof. apply map_Forall_empty. Qed.

(** C37: the lock server implements the abstract one: served any sequence of lock,
    read-lock, unlock and read-unlock requests with at most [maxDeleteList]
    resources (one for the read requests), it never panics, answers exactly as
    the abstract server, holds the same locks in the end, and keeps the
    invariant that a resource has one write lock or only read locks. *)
Theorem localLocker_refines ops :
  Forall op_ok ops ->
  exists l, serve_all newLocker ops = Some (l, (spec_all (fun _ => Free) ops).2) /\
    locker_ok l /\ forall r, table_of l r = (spec_all (fun _ => Free) ops).1 r.
Proof.
  intros Hops. destruct (serve_all_refines ops newLocker (fun _ => Free) newLocker_ok) as (l & bs & ? & ? & -> & ?);
    [intros r; unfold table_of, entries; cbn; by rewrite lookup_empty|done|].
  by exists l.
Qed.

Definition sample_args (uid : string) (rs : list string) : LockArgs := mkArgs uid rs "src" "node1" 1.

Lemma localLocker_refines_witness :
  let ops := [OpRLock 1 (sample_args "a" ["x"]); OpRLock 2 (sample_args "b" ["x"]);
              OpLock 3 (sample_args "c" ["x"; "y"]); OpRUnlock (sample_args "a" ["x"]);
              OpUnlock (sample_args "b" ["x"]); OpRUnlock (sample_args "b" ["x"]);
              OpLock 4 (sample_args "c" ["x"; "y"]); OpRLock 5 (sample_args "a" ["y"])] in
  (spec_all (fun _ => Free) ops).2 = [true; true; false; true; false; true; true; false] /\
  exists l, serve_all newLocker ops = Some (l, (spec_all (fun _ => Free) ops).2) /\
    locker_ok l /\ forall r, table_of l r = (spec_all (fun _ => Free) ops).1 r.
Proof.
  intros ops. split; [vm_compute; reflexivity|]. apply (localLocker_refines ops).
  unfold ops. repeat constructor; cbn; lia.
Defined.

(** Releasing gives back exactly what a lock took: after a write lock on
    distinct resources was granted to a request the server had no record of,
    [Unlock] of the same resources by the same request and [ForceUnlock] of the
    request both succeed and leave the server in the state before the lock. *)
Theorem Lock_release_roundtrip now l args l' :
  NoDup (la_Resources args) -> la_Resources args <> [] -> la_UID args <> "" -> fresh_uid l (la_UID args) ->
  Lock now l args = (l', (true, None)) ->
  Unlock l' args = (l, (true, None)) /\
  ForceUnlock false l' (uid_args (la_UID args)) = Some (l, (true, None)).
Proof.
  intros Hnd Hne Huid Hf. unfold Lock, Unlock, ForceUnlock. cbn [la_UID uid_args].
  destruct (Nat.ltb_spec maxDeleteList (length (la_Resources args))); [done|].
  destruct (canTakeLock l (la_Resources args)) eqn:Ec; [|done]. cbn [negb]. intros [= <-].
  apply canTakeLock_Forall in Ec. split.
  - rewrite (unlock_claimed now args args) by (done || (split; [done|by right])).
    by rewrite bool_decide_eq_true_2.
  - rewrite bool_decide_eq_false_2 by done.
    rewrite (force_claimed now args) by (try done; pose proof (recorded_le _ _ _ _
      (claim_recorded now args (la_Resources args) 0 l)); unfold uid_fuel; lia).
    cbn. by destruct (la_Resources args).
Qed.

Lemma sample_lock_state : fresh_uid (Lock 1 newLocker (sample_args "a" ["z"])).1 "uid-c".
Proof.
  intros i. change (<["a0" := "z"]> (∅ : gmap string string) !! formatUUID "uid-c" i = None).
  apply lookup_insert_None. split; [done|].
  unfold formatUUID. discriminate.
Qed.

Lemma Lock_release_roundtrip_witness :
  let l := (Lock 1 newLocker (sample_args "a" ["z"])).1 in
  let args := sample_args "uid-c" ["x"; "y"] in
  exists l', Lock 2 l args = (l', (true, None)) /\
    Unlock l' args = (l, (true, None)) /\
    ForceUnlock false l' (uid_args "uid-c") = Some (l, (true, None)).
Proof.
  intros l args. exists (Lock 2 l args).1. split; [vm_compute; reflexivity|].
  apply (Lock_release_roundtrip 2 l args); [|done|done|exact sample_lock_state|vm_compute; reflexivity].
  apply NoDup_cons. split; [set_solver|]. apply NoDup_singleton.
Defined.

(** [ForceUnlock] returns for every table, however its two maps disagree,
    keeps the table's invariant, and when it is given a request identifier it
    removes only locks of that request. *)
Theorem ForceUnlock_returns canceled l args :
  locker_ok l ->
  exists l' reply err, ForceUnlock canceled l args = Some (l', (reply, err)) /\ locker_ok l' /\
    (la_UID args <> "" -> spares (la_UID args) l l').
Proof.
  intros Hok. destruct (ForceUnlock_total canceled l args) as [[l' [b err]] E].
  exists l', b, err. split; [done|]. revert E. unfold ForceUnlock. destruct canceled; [by intros [= <- <- <-]|].
  destruct (bool_decide_reflect (la_UID args = "")).
  - intros [= <- <- <-]. split; [by apply force_resources_ok|done].
  - destruct (force_loop _ _ _ _) as [[l1 b1]|] eqn:E; [|done]. intros [= <- <- <-].
    apply force_loop_spares in E as [? ?]; done.
Qed.

Lemma ForceUnlock_returns_witness :
  let l := (Lock 2 (Lock 1 newLocker (sample_args "a" ["z"])).1 (sample_args "c" ["x"; "y"])).1 in
  exists l' reply err, ForceUnlock false l (uid_args "c") = Some (l', (reply, err)) /\ locker_ok l' /\
    ("c" <> "" -> spares "c" l l').
Proof.
  intros l. apply (ForceUnlock_returns false l (uid_args "c")).
  destruct (Lock 1 newLocker (sample_args "a" ["z"])) as [l1 [b1 e1]] eqn:E1.
  destruct (Lock_refines _ _ _ _ _ _ newLocker_ok E1) as [Hok1 _]. subst l. cbn [fst].
  destruct (Lock 2 l1 (sample_args "c" ["x"; "y"])) as [l2 [b2 e2]] eqn:E2.
  by destruct (Lock_refines _ _ _ _ _ _ Hok1 E2) as [Hok2 _].
Defined.

(** [expireOldLocks] removes exactly the lock entries that were not refreshed
    within the interval, whatever the order in which the table is visited, and
    keeps the table's invariant. *)
Theorem expireOldLocks_exact (order : MapOrder) now interval l :
  locker_ok l ->
  locker_ok (expireOldLocks now interval l) /\
  forall r, entries (expireOldLocks now interval l) r
    = List.filter (fun e => time_Sub now (lri_TimeLastRefresh e) <=? interval) (entries l r).
Proof.
  intros Hok. destruct (expireOldLocks_spec now interval l Hok) as [? He]. split; [done|].
  intros r. rewrite He. apply List.filter_ext. intros e. unfold unexpired. by rewrite Z.leb_antisym.
Qed.

Definition sample_shared : localLocker :=
  mkLocker {["x" := [read_entry 1 (sample_args "a" ["x"]) "x"; read_entry 9 (sample_args "b" ["x"]) "x"]]}
           {["a0" := "x"; "b0" := "x"]}.

Lemma expireOldLocks_exact_witness :
  locker_ok (expireOldLocks 10 5 sample_shared) /\
  forall r, entries (expireOldLocks 10 5 sample_shared) r
    = List.filter (fun e => time_Sub 10 (lri_TimeLastRefresh e) <=? 5) (entries sample_shared r).
Proof.
  apply (expireOldLocks_exact insertion_order 10 5 sample_shared).
  intros r es Hr. unfold sample_shared in Hr. cbn [lockMap] in Hr. apply lookup_singleton_Some in Hr as [<- <-].
  split_and!; [done|repeat constructor|right; repeat constructor].
Defined.

(** A lock that is refreshed is not lost: after a write lock was granted,
    [Refresh] of its request finds it, and no expiry within the interval after
    that removes it from any of its resources. *)
Theorem refreshed_lock_survives `{MapOrder} now t1 l args l1 :
  locker_ok l -> la_Resources args <> [] -> Lock now l args = (l1, (true, None)) ->
  exists l2, Refresh false t1 l1 (uid_args (la_UID args)) = Some (l2, (true, None)) /\
    table_eq (table_of l2) (table_of l1) /\
    forall t2 interval, 0 <= interval -> t2 - t1 <= interval ->
    forall r, r ∈ la_Resources args ->
      table_of (expireOldLocks t2 interval l2) r = Exclusive (args_holder args).
Proof.
  intros Hok Hne HL. pose proof (Lock_refines _ _ _ _ _ _ Hok HL) as (Hok1 & _ & Ht & _).
  destruct (Ht eq_refl) as [_ Ht1]. clear Ht. revert HL. unfold Lock.
  destruct (_ <? _)%nat; [done|]. destruct (canTakeLock _ _) eqn:Ec; [|done]. cbn [negb]. intros [= <-].
  destruct (claim_spec now args (la_Resources args) 0 l Hok) as [_ Hent].
  pose proof (claim_lookup_uid now args (la_Resources args) 0 l) as Hidx.
  set (l1 := claim now args 0 (la_Resources args) l) in *.
  destruct (Refresh_total false t1 l1 (uid_args (la_UID args))) as [[l2 [b err]] E]. exists l2.
  assert (Forall (fun r => is_Some (lockMap l1 !! r)) (la_Resources args)) as Hin.
  { apply Forall_forall. intros r Hr. specialize (Hent r). rewrite decide_True in Hent by done.
    destruct Hent as [j Hj]. unfold entries in Hj. by destruct (lockMap l1 !! r). }
  destruct (la_Resources args) as [|r0 rs] eqn:Ers; [done|].
  revert E. unfold Refresh. cbn [uid_args la_UID]. pose proof (Hidx 0%nat r0 eq_refl) as Hi0. cbn [Nat.add] in Hi0. rewrite Hi0.
  destruct (refresh_loop _ _ _ _ _ _) as [[l2' b']|] eqn:El; [|done]. intros [= <- <- <-].
  destruct (refresh_loop_touched _ _ _ _ _ _ _ _ Hok1 El) as (Hok2 & Htch & _).
  destruct (refresh_loop_chain _ _ _ _ rs _ _ _ _ Hok1 El) as [-> Hall]; [|done|].
  { intros j r Hj. by apply (Hidx (S j)). }
  split_and!; [done|by eapply touched_table|]. clear Hi0. intros t2 interval Hi Ht2 r Hr.
  destruct (expireOldLocks_spec t2 interval l2' Hok2) as [_ Hexp]. unfold table_of. rewrite Hexp, (Hall r Hr).
  specialize (Hent r). rewrite decide_True in Hent by done. destruct Hent as [j ->]. cbn.
  unfold refresh_entry. rewrite bool_decide_eq_true_2 by done. unfold unexpired. cbn.
  destruct (Z.ltb_spec interval (time_Sub t2 t1)) as [Hlt|]; [|done]. unfold time_Sub in Hlt. lia.
Qed.

Lemma refreshed_lock_survives_witness :
  let args := sample_args "c" ["x"; "y"] in
  exists l1, Lock 1 newLocker args = (l1, (true, None)) /\
  exists l2, Refresh false 20 l1 (uid_args "c") = Some (l2, (true, None)) /\
    table_eq (table_of l2) (table_of l1) /\
    forall t2 interval, 0 <= interval -> t2 - 20 <= interval ->
    forall r, r ∈ ["x"; "y"] -> table_of (expireOldLocks t2 interval l2) r = Exclusive ("c", "node1").
Proof.
  intros args. exists (Lock 1 newLocker args).1. split; [vm_compute; reflexivity|].
  apply (refreshed_lock_survives 1 20 newLocker args);
    [exact newLocker_ok|done|vm_compute; reflexivity].
Defined.
