(* ===== verification/DSync.v ===== *)
(** * The distributed read-write mutex ([internal/dsync])

    A [DRWMutex] takes its lock by asking all lock servers at once and counting
    the replies.  One attempt ([lock]) runs a goroutine per server and a loop
    that receives their replies or times out; what it got too much of it gives
    back.  An attempt is a record and the system of all attempts and servers
    moves by actions, each an atomic piece of the code, so that a list of actions
    is one interleaving.  The servers are known through the interface
    [NetLocker] and its laws, which the local lock server discharges. *)

From S2P Require Import Prelude LocalLocker.

(** ** The interface of a lock server ([internal/dsync/locker.go])

    [None] is a panic of the server. *)

Class NetLocker (S : Type) := {
  nl_Lock : time -> S -> LockArgs -> option (S * (bool * option error));
  nl_RLock : time -> S -> LockArgs -> option (S * (bool * option error));
  nl_Unlock : S -> LockArgs -> option (S * (bool * option error));
  nl_RUnlock : S -> LockArgs -> option (S * (bool * option error));
  nl_Refresh : time -> S -> LockArgs -> option (S * (bool * option error));
  nl_ForceUnlock : S -> LockArgs -> option (S * (bool * option error))
}.

(** What a client may rely on: the server keeps a lock table; a granted request
    changed it as the abstract server does, a refused one left it alone, a
    release without error is the abstract release. *)
Class NetLockerLaws (S : Type) `{NetLocker S} := {
  nl_ok : S -> Prop;
  nl_table : S -> lock_table;
  nl_Lock_law : forall now s args s' b err, nl_ok s -> nl_Lock now s args = Some (s', (b, err)) ->
    nl_ok s' /\
    if b then (spec_Lock (nl_table s) args).2 = true /\ table_eq (nl_table s') (spec_Lock (nl_table s) args).1
    else table_eq (nl_table s') (nl_table s);
  nl_RLock_law : forall now s args s' b err, nl_ok s -> nl_RLock now s args = Some (s', (b, err)) ->
    nl_ok s' /\
    if b then exists r, la_Resources args = [r] /\ (spec_RLock (nl_table s) args r).2 = true /\
                        table_eq (nl_table s') (spec_RLock (nl_table s) args r).1
    else table_eq (nl_table s') (nl_table s);
  nl_Unlock_law : forall s args s' b err, nl_ok s -> nl_Unlock s args = Some (s', (b, err)) ->
    nl_ok s' /\
    ((err <> None /\ table_eq (nl_table s') (nl_table s)) \/
     (table_eq (nl_table s') (spec_Unlock (nl_table s) args (la_Resources args) false).1 /\
      bool_decide (is_Some err) = (spec_Unlock (nl_table s) args (la_Resources args) false).2));
  nl_RUnlock_law : forall s args s' b err, nl_ok s -> nl_RUnlock s args = Some (s', (b, err)) ->
    nl_ok s' /\
    ((err <> None /\ table_eq (nl_table s') (nl_table s)) \/
     exists r, la_Resources args = [r] /\
       table_eq (nl_table s') (spec_RUnlock (nl_table s) args r).1 /\
       bool_decide (is_Some err) = (spec_RUnlock (nl_table s) args r).2)
}.

#[global] Instance local_netLocker : NetLocker localLocker := {|
  nl_Lock now l args := Some (Lock now l args);
  nl_RLock := RLock;
  nl_Unlock l args := Some (Unlock l args);
  nl_RUnlock := RUnlock;
  nl_Refresh := Refresh false;
  nl_ForceUnlock := ForceUnlock false
|}.

#[global] Program Instance local_laws : NetLockerLaws localLocker :=
  {| nl_ok := locker_ok; nl_table := table_of |}.
Next Obligation.
  intros now s args s' b err Hok [= E]. destruct (Lock_refines _ _ _ _ _ _ Hok E) as (? & Hf & Ht & _).
  split; [done|]. destruct b; [by apply Ht|]. by rewrite Hf.
Qed.
Next Obligation.
  intros now s args s' b err Hok E. destruct (RLock_refines _ _ _ _ _ _ Hok E) as (? & Hf & Ht & _).
  split; [done|]. destruct b; [by apply Ht|]. by rewrite Hf.
Qed.
Next Obligation.
  intros s args s' b err Hok [= E]. unfold Unlock in E.
  destruct (_ <? _)%nat; [injection E as <- <- <-; split; [done|]; left; split; [discriminate|done]|].
  apply unlock_loop_refines in E as (? & ? & ?); [|done]. split; [done|]. by right.
Qed.
Next Obligation.
  intros s args s' b err Hok E. destruct (RUnlock_refines _ _ _ _ _ Hok E) as (? & Hd). split; [done|].
  destruct Hd as [[-> Hd]|(r & Hr & Hd)]; [|right; by exists r].
  revert E. cbn [nl_RUnlock local_netLocker]. unfold RUnlock. destruct (la_Resources args) as [|r [|? ?]]; [done| |].
  - intros _. right. exists r. split; [done|]. by apply Hd.
  - intros [= <- <-]. left. split; [discriminate|done].
Qed.

(** ** The mutex ([internal/dsync/drwmutex.go]) *)

Record Granted := mkGranted { g_index : nat; g_lockUID : string }.

Definition isLocked (uid : string) : bool := negb (bool_decide (uid = "")).

Definition Granted_isLocked (g : Granted) : bool := isLocked (g_lockUID g).

(** The quorum and the tolerance [lockBlocking] computes for [n] servers. *)
Definition lock_quorum (n : nat) (isReadLock : bool) : Z * Z :=
  let tolerance := Z.of_nat n / 2 in
  let quorum := Z.of_nat n - tolerance in
  let quorum := if negb isReadLock && (quorum =? tolerance) then quorum + 1 else quorum in
  (quorum, Z.of_nat n - quorum).

Definition checkQuorumLocked (locks : list string) (quorum : Z) : bool :=
  quorum <=? Z.of_nat (count isLocked locks).

Definition checkFailedUnlocks (locks : list string) (tolerance : Z) : bool :=
  let unlocksFailed := Z.of_nat (count isLocked locks) in
  if len locks - tolerance =? tolerance then tolerance <=? unlocksFailed
  else tolerance <? unlocksFailed.

(** The receive loop of [lock]: its counters and the array it fills. *)
Record lock_loop := mkLoop {
  ll_i : nat;
  ll_failed : Z;
  ll_done : bool;
  ll_locks : list string
}.

(** One [select]: a reply was received, or the context is done. *)
Definition on_select (tolerance : Z) (s : lock_loop) (ev : option Granted) : lock_loop :=
  let fail := mkLoop (ll_i s) (ll_failed s + 1) (tolerance <? ll_failed s + 1) (ll_locks s) in
  let s' := match ev with
            | Some g =>
                if Granted_isLocked g
                then mkLoop (ll_i s) (ll_failed s) false (<[g_index g := g_lockUID g]> (ll_locks s))
                else fail
            | None => fail
            end in
  if ll_done s' then s' else mkLoop (S (ll_i s')) (ll_failed s') false (ll_locks s').

Definition loop_over (n : nat) (s : lock_loop) : bool := ll_done s || (n <=? ll_i s)%nat.

Definition quorumLocked (quorum tolerance : Z) (s : lock_loop) : bool :=
  checkQuorumLocked (ll_locks s) quorum && (ll_failed s <=? tolerance).

(** A reply to a refresh. *)
Inductive refreshResult := Offline | Refreshed (b : bool).

(** The receive loop of [refreshLock] on what its rounds select, [None] standing
    for a canceled context: the number of servers without the lock when it
    stops. *)
Fixpoint refresh_count (n : nat) (quorum : Z) (selects : list (option refreshResult))
    (notFound refreshed : Z) : result Z :=
  match selects with
  | [] => Ok notFound
  | None :: _ => Err Canceled
  | Some Offline :: rs => refresh_count n quorum rs notFound refreshed
  | Some (Refreshed b) :: rs =>
      let refreshed := if b then refreshed + 1 else refreshed in
      let notFound := if b then notFound else notFound + 1 in
      if (quorum <=? refreshed) || (Z.of_nat n - quorum <? notFound) then Ok notFound
      else refresh_count n quorum rs notFound refreshed
  end.

(** The result of [refreshLock]: whether the lock has lost its quorum. *)
Definition refreshLock_result (n : nat) (quorum : Z) (selects : list (option refreshResult)) : result bool :=
  match refresh_count n quorum selects 0 0 with
  | Ok notFound => Ok (Z.of_nat n - quorum <? notFound)
  | Err e => Err e
  end.

Section Mutex.
Context {Srv : Type} `{NetLocker Srv}.

(** The goroutine of [lock] for one server: the call and the reply it posts. *)
Definition call_server (now : time) (c : option Srv) (index : nat) (isReadLock : bool) (args : LockArgs)
    : option (option Srv * Granted) :=
  match c with
  | None => Some (None, mkGranted index "")
  | Some s =>
      '(s', (locked, _)) ← (if isReadLock then nl_RLock now s args else nl_Lock now s args);
      Some (Some s', mkGranted index (if locked : bool then la_UID args else ""))
  end.

(** [sendRelease]: the server after the call, and whether it was released. *)
Definition sendRelease (c : option Srv) (owner uid : string) (isReadLock : bool) (names : list string)
    : option (option Srv * bool) :=
  match c with
  | None => Some (None, false)
  | Some s =>
      if bool_decide (uid = "") then Some (Some s, false) else
      let args := mkArgs uid names "" owner 0 in
      '(s', (_, err)) ← (if isReadLock then nl_RUnlock s args else nl_Unlock s args);
      Some (Some s', bool_decide (err = None))
  end.

(** [releaseAll]: the goroutines work on different servers and array cells, so
    their order does not matter. *)
Fixpoint release_each (owner : string) (isReadLock : bool) (names : list string)
    (clients : list (option Srv)) (locks : list string) : option (list (option Srv) * list string) :=
  match clients with
  | [] => Some ([], locks)
  | c :: cs =>
      match locks with
      | [] => None
      | uid :: locks =>
          '(c', ok) ← sendRelease c owner uid isReadLock names;
          '(cs', locks') ← release_each owner isReadLock names cs locks;
          Some (c' :: cs', (if ok : bool then "" else uid) :: locks')
      end
  end.

Definition releaseAll (tolerance : Z) (owner : string) (isReadLock : bool) (names : list string)
    (clients : list (option Srv)) (locks : list string) : option (list (option Srv) * list string * bool) :=
  '(clients', locks') ← release_each owner isReadLock names clients locks;
  Some (clients', locks', negb (checkFailedUnlocks locks' tolerance)).

(** The loop of [Unlock] and [RUnlock]; [inl] is a run that needs more than
    [fuel] rounds, with the state it has reached. *)
Fixpoint unlock_rounds (fuel : nat) (tolerance : Z) (owner : string) (isReadLock : bool) (names : list string)
    (clients : list (option Srv)) (locks : list string)
    : option ((list (option Srv) * list string) + list (option Srv)) :=
  match fuel with
  | O => Some (inl (clients, locks))
  | S fuel =>
      '(clients', locks', ok) ← releaseAll tolerance owner isReadLock names clients locks;
      if ok : bool then Some (inr clients')
      else unlock_rounds fuel tolerance owner isReadLock names clients' locks'
  end.

(** [Unlock] and [RUnlock] of a mutex whose [writeLocks] or [readLocks] are
    [held]; the panic when nothing is held is [None]. *)
Definition DRW_Unlock (fuel : nat) (owner : string) (isReadLock : bool) (names : list string)
    (clients : list (option Srv)) (held : list string)
    : option ((list (option Srv) * list string) + list (option Srv)) :=
  if negb (existsb isLocked held) then None
  else
    (* copy(locks, held) into a slice of the number of clients *)
    let n := length clients in
    let locks := take n held ++ replicate (n - length held) "" in
    unlock_rounds fuel (Z.of_nat n / 2) owner isReadLock names clients locks.

(** ** Keeping a lock alive *)

Definition refresh_server (now : time) (c : option Srv) (args : LockArgs)
    : option (option Srv * refreshResult) :=
  match c with
  | None => Some (None, Offline)
  | Some s =>
      '(s', (b, err)) ← nl_Refresh now s args;
      Some (Some s', match err with None => Refreshed b | Some _ => Offline end)
  end.

Fixpoint refresh_servers (now : time) (args : LockArgs) (clients : list (option Srv))
    : option (list (option Srv) * list refreshResult) :=
  match clients with
  | [] => Some ([], [])
  | c :: cs =>
      '(c', r) ← refresh_server now c args;
      '(cs', rs) ← refresh_servers now args cs;
      Some (c' :: cs', r :: rs)
  end.

(** [refreshLock]: every server is asked; [selects] gives what each round of the
    receive loop selected, from the replies of the servers. *)
Definition refreshLock (now : time) (id : string) (quorum : Z) (clients : list (option Srv))
    (selects : list refreshResult -> list (option refreshResult)) : option (list (option Srv) * result bool) :=
  '(clients', replies) ← refresh_servers now (uid_args id) clients;
  Some (clients', refreshLock_result (length clients) quorum (selects replies)).

Definition forceUnlock (id : string) (clients : list (option Srv)) : option (list (option Srv)) :=
  mapM (fun c => match c with
                 | None => None      (* c.ForceUnlock on a nil client panics *)
                 | Some s => '(s', _) ← nl_ForceUnlock s (uid_args id); Some (Some s')
                 end) clients.

(** One tick of the refresh goroutine: [true] when the lock was lost, in which
    case it was removed everywhere and the loss callback runs. *)
Definition refresh_tick (now : time) (id : string) (quorum : Z) (clients : list (option Srv))
    (selects : list refreshResult -> list (option refreshResult)) : option (list (option Srv) * bool) :=
  '(clients', noQuorum) ← refreshLock now id quorum clients selects;
  match noQuorum with
  | Ok true => clients'' ← forceUnlock id clients'; Some (clients'', true)
  | _ => Some (clients', false)
  end.
End Mutex.

(** ** All attempts on all servers *)

(** What happened to a call over the network: the server answered, it was never
    reached, or it answered and the reply was lost. *)
Inductive fate := Delivered | LostRequest | LostReply.

Inductive phase :=
| Waiting                                  (* in the receive loop *)
| Holding                                  (* [lock] returned true *)
| Releasing (unlock : bool) (todo : list nat)  (* in [releaseAll], servers still to release *)
| Over.                                    (* [lock] returned false, or [Unlock] returned *)

Record attempt := mkAttempt {
  a_args : LockArgs;
  a_read : bool;
  a_calls : list bool;      (* which goroutines have posted their reply *)
  a_ch : list Granted;      (* the buffered channel *)
  a_loop : lock_loop;
  a_phase : phase
}.

Section System.
Context {Srv : Type} `{NetLocker Srv}.

Record system := mkSystem {
  sy_servers : list (option Srv);
  sy_attempts : list attempt
}.

Inductive action :=
| Start (args : LockArgs) (isReadLock : bool)
| Call (a k : nat) (now : time) (f : fate)
| Receive (a : nat)
| CtxDone (a : nat)
| Decide (a : nat)
| StartUnlock (a : nat)
| Release (a k : nat) (f : fate)
| Finish (a : nat)
| Drain (a : nat) (f : fate).

Definition with_loop (x : attempt) (l : lock_loop) : attempt :=
  mkAttempt (a_args x) (a_read x) (a_calls x) (a_ch x) l (a_phase x).
Definition with_phase (x : attempt) (p : phase) : attempt :=
  mkAttempt (a_args x) (a_read x) (a_calls x) (a_ch x) (a_loop x) p.
Definition with_ch (x : attempt) (ch : list Granted) : attempt :=
  mkAttempt (a_args x) (a_read x) (a_calls x) ch (a_loop x) (a_phase x).
Definition with_locks (x : attempt) (locks : list string) : attempt :=
  with_loop x (mkLoop (ll_i (a_loop x)) (ll_failed (a_loop x)) (ll_done (a_loop x)) locks).

Definition is_over (p : phase) : bool := match p with Over => true | _ => false end.

(** The release of what the attempt has on server [k] under [uid].  A release
    is processed and answered, or not processed: [LostReply] is not possible. *)
Definition release_at (sy : system) (x : attempt) (k : nat) (uid : string) (f : fate)
    : option (system * bool) :=
  match sy_servers sy !! k, f with
  | Some c, Delivered =>
      '(c', ok) ← sendRelease c (la_Owner (a_args x)) uid (a_read x) (la_Resources (a_args x));
      Some (mkSystem (<[k := c']> (sy_servers sy)) (sy_attempts sy), ok)
  | Some c, LostRequest => Some (sy, false)
  | _, _ => None
  end.

Definition set_attempt (sy : system) (a : nat) (x : attempt) : system :=
  mkSystem (sy_servers sy) (<[a := x]> (sy_attempts sy)).

Definition servers_n (sy : system) : nat := length (sy_servers sy).
Definition att_quorum (sy : system) (x : attempt) : Z := (lock_quorum (servers_n sy) (a_read x)).1.
Definition att_tolerance (sy : system) (x : attempt) : Z := (lock_quorum (servers_n sy) (a_read x)).2.

(** The actions, each [None] when it is not possible in this state. *)

(** [lockBlocking] starts an attempt.  An identifier belongs to one mutex, which
    starts an attempt only after the last one has returned. *)
Definition do_start (sy : system) (args : LockArgs) (isReadLock : bool) : option system :=
  let n := servers_n sy in
  if forallb (fun x => negb (bool_decide (la_UID (a_args x) = la_UID args)) || is_over (a_phase x))
       (sy_attempts sy)
     && (isReadLock || bool_decide (NoDup (la_Resources args)))
  then Some (mkSystem (sy_servers sy)
         (sy_attempts sy ++ [mkAttempt args isReadLock (replicate n false) []
                               (mkLoop 0 0 false (replicate n "")) Waiting]))
  else None.

(** The goroutine of [lock] for server [k]. *)
Definition call_fate (now : time) (c : option Srv) (k : nat) (x : attempt) (f : fate)
    : option (option Srv * Granted) :=
  match f with
  | LostRequest => Some (c, mkGranted k "")
  | Delivered => call_server now c k (a_read x) (a_args x)
  | LostReply => '(c', _) ← call_server now c k (a_read x) (a_args x); Some (c', mkGranted k "")
  end.

Definition do_call (sy : system) (a k : nat) (now : time) (f : fate) : option system :=
  match sy_attempts sy !! a, sy_servers sy !! k with
  | Some x, Some c =>
      match a_calls x !! k with
      | Some false =>
          '(c', g) ← call_fate now c k x f;
          Some (mkSystem (<[k := c']> (sy_servers sy))
                  (<[a := mkAttempt (a_args x) (a_read x) (<[k := true]> (a_calls x)) (a_ch x ++ [g])
                            (a_loop x) (a_phase x)]> (sy_attempts sy)))
      | _ => None
      end
  | _, _ => None
  end.

(** A round of the receive loop gets a reply, or the context is done. *)
Definition do_receive (sy : system) (a : nat) : option system :=
  match sy_attempts sy !! a with
  | None => None
  | Some x =>
      match a_phase x, a_ch x with
      | Waiting, g :: ch =>
          if loop_over (servers_n sy) (a_loop x) then None
          else Some (set_attempt sy a (with_ch (with_loop x (on_select (att_tolerance sy x) (a_loop x) (Some g))) ch))
      | _, _ => None
      end
  end.

Definition do_ctxdone (sy : system) (a : nat) : option system :=
  match sy_attempts sy !! a with
  | None => None
  | Some x =>
      match a_phase x with
      | Waiting =>
          if loop_over (servers_n sy) (a_loop x) then None
          else Some (set_attempt sy a (with_loop x (on_select (att_tolerance sy x) (a_loop x) None)))
      | _ => None
      end
  end.

(** After the loop: [quorumLocked] or the release of what was acquired. *)
Definition do_decide (sy : system) (a : nat) : option system :=
  match sy_attempts sy !! a with
  | None => None
  | Some x =>
      match a_phase x with
      | Waiting =>
          if negb (loop_over (servers_n sy) (a_loop x)) then None
          else Some (set_attempt sy a (with_phase x
                 (if quorumLocked (att_quorum sy x) (att_tolerance sy x) (a_loop x) then Holding
                  else Releasing false (seq 0 (servers_n sy)))))
      | _ => None
      end
  end.

Definition do_unlock (sy : system) (a : nat) : option system :=
  match sy_attempts sy !! a with
  | None => None
  | Some x =>
      match a_phase x with
      | Holding => Some (set_attempt sy a (with_phase x (Releasing true (seq 0 (servers_n sy)))))
      | _ => None
      end
  end.

(** The goroutine of [releaseAll] for server [k]. *)
Definition do_release (sy : system) (a k : nat) (f : fate) : option system :=
  match sy_attempts sy !! a with
  | None => None
  | Some x =>
      match a_phase x, ll_locks (a_loop x) !! k with
      | Releasing u todo, Some uid =>
          if negb (bool_decide (k ∈ todo)) then None else
          '(sy', ok) ← release_at sy x k uid f;
          let x' := if ok : bool then with_locks x (<[k := ""]> (ll_locks (a_loop x))) else x in
          Some (set_attempt sy' a (with_phase x' (Releasing u (List.filter (fun j => negb (j =? k)%nat) todo))))
      | _, _ => None
      end
  end.

(** [releaseAll] is complete: [lock] returns; [Unlock] returns or goes round again. *)
Definition do_finish (sy : system) (a : nat) : option system :=
  match sy_attempts sy !! a with
  | None => None
  | Some x =>
      match a_phase x with
      | Releasing u [] =>
          let failed := u && checkFailedUnlocks (ll_locks (a_loop x)) (Z.of_nat (servers_n sy) / 2) in
          Some (set_attempt sy a (with_phase x
                  (if failed then Releasing true (seq 0 (servers_n sy)) else Over)))
      | _ => None
      end
  end.

(** The goroutine that gives back the replies nobody received. *)
Definition do_drain (sy : system) (a : nat) (f : fate) : option system :=
  match sy_attempts sy !! a with
  | None => None
  | Some x =>
      match a_phase x, a_ch x with
      | Waiting, _ | _, [] => None
      | _, g :: ch =>
          if negb (forallb id (a_calls x)) then None
          else if Granted_isLocked g then
            '(sy', _) ← release_at sy x (g_index g) (g_lockUID g) f;
            Some (set_attempt sy' a (with_ch x ch))
          else Some (set_attempt sy a (with_ch x ch))
      end
  end.

Definition exec (sy : system) (act : action) : option system :=
  match act with
  | Start args isReadLock => do_start sy args isReadLock
  | Call a k now f => do_call sy a k now f
  | Receive a => do_receive sy a
  | CtxDone a => do_ctxdone sy a
  | Decide a => do_decide sy a
  | StartUnlock a => do_unlock sy a
  | Release a k f => do_release sy a k f
  | Finish a => do_finish sy a
  | Drain a f => do_drain sy a f
  end.

Fixpoint exec_all (sy : system) (acts : list action) : option system :=
  match acts with
  | [] => Some sy
  | act :: acts => sy' ← exec sy act; exec_all sy' acts
  end.
End System.

(** ** Locks held and locks claimed *)

(** The locks of kind [rd] (read or write) that [u] has on [r]. *)
Definition held (rd : bool) (t : lock_table) (r u : string) : nat :=
  match t r with
  | Exclusive h => if rd then 0 else if bool_decide (h.1 = u) then 1 else 0
  | Shared hs => if rd then count (fun h => bool_decide (h.1 = u)) hs else 0
  end.

Lemma held_ext rd t t' r u : t r = t' r -> held rd t r u = held rd t' r u.
Proof. unfold held. by intros ->. Qed.

Lemma held_write t r u : (0 < held false t r u)%nat -> held false t r u = 1%nat /\ exists h, t r = Exclusive h /\ h.1 = u.
Proof. unfold held. destruct (t r) as [h|hs]; [|lia]. destruct (bool_decide_reflect (h.1 = u)); [by eauto|lia]. Qed.

Lemma held_read t r u : (0 < held true t r u)%nat -> exists hs, t r = Shared hs.
Proof. unfold held. destruct (t r); [lia|by eauto]. Qed.

(** How the abstract server's operations change what is held. *)
Lemma spec_Lock_held t args : (spec_Lock t args).2 = true -> forall rd r u,
  held rd (spec_Lock t args).1 r u =
    if decide (r ∈ la_Resources args) then if rd then 0%nat else if bool_decide (la_UID args = u) then 1%nat else 0%nat
    else held rd t r u.
Proof.
  unfold spec_Lock. destruct (forallb _ _) eqn:Ef; [|done]. intros _ rd r u. unfold held. cbn.
  destruct (decide (r ∈ la_Resources args)); done.
Qed.

Lemma spec_Lock_free t args : (spec_Lock t args).2 = true -> forall rd r u,
  r ∈ la_Resources args -> held rd t r u = 0%nat.
Proof.
  unfold spec_Lock. destruct (forallb _ _) eqn:Ef; [|done]. intros _ rd r u Hr.
  rewrite forallb_forall in Ef. specialize (Ef r). rewrite <-list_elem_of_In in Ef. specialize (Ef Hr).
  unfold held. destruct (t r) as [h|[|]]; [done| |done]. by destruct rd.
Qed.

Lemma spec_RLock_held t args r0 : (spec_RLock t args r0).2 = true -> forall rd r u,
  held rd (spec_RLock t args r0).1 r u =
    (held rd t r u + if rd && bool_decide (r = r0) && bool_decide (la_UID args = u) then 1 else 0)%nat.
Proof.
  unfold spec_RLock. destruct (t r0) as [h|hs] eqn:E; [done|]. intros _ rd r u. unfold held, table_set. cbn.
  destruct (decide (r = r0)) as [->|Hne].
  - rewrite E. destruct rd; [|done]. rewrite (bool_decide_eq_true_2 (r0 = r0)) by done.
    rewrite count_app, count_cons, count_nil. cbn. lia.
  - rewrite (bool_decide_eq_false_2 (r = r0)) by done. rewrite andb_false_r. cbn. lia.
Qed.

Lemma spec_Unlock_held args rs : forall t, NoDup rs ->
  (forall r, r ∈ rs -> (0 < held false t r (la_UID args))%nat) ->
  (spec_Unlock t args rs false).2 = false /\
  forall rd r u, (rd = true \/ u <> la_UID args \/ r ∉ rs) ->
    held rd (spec_Unlock t args rs false).1 r u = held rd t r u.
Proof.
  induction rs as [|r0 rs IH]; intros t Hnd Hh; [done|]. apply NoDup_cons in Hnd as [Hr0 Hnd].
  destruct (held_write t r0 _ (Hh r0 ltac:(left))) as (_ & h & Ht & Hu). cbn [spec_Unlock]. rewrite Ht.
  set (t1 := if releases args h then table_set t r0 Free else t).
  assert (forall r, r <> r0 -> t1 r = t r) as Hoth.
  { intros r Hr. unfold t1. destruct (releases args h); [|done]. unfold table_set. by rewrite decide_False. }
  destruct (IH t1 Hnd) as [H1 H2].
  { intros r Hr. rewrite (held_ext _ t1 t) by (apply Hoth; set_solver). apply Hh. by right. }
  split; [done|]. intros rd r u Hc. rewrite H2 by (rewrite not_elem_of_cons in Hc; tauto).
  destruct (decide (r = r0)) as [->|]; [|by apply held_ext, Hoth]. unfold t1.
  destruct (releases args h); [|done]. unfold held, table_set. rewrite decide_True, Ht by done.
  destruct Hc as [->|[Hne|Hn]]; [done| |by destruct Hn; left].
  rewrite bool_decide_eq_false_2 by congruence. by destruct rd.
Qed.

Lemma remove_first_count {A} (p q : A -> bool) l :
  (count q l <= count q (remove_first p l) + 1)%nat /\
  ((forall x, p x = true -> q x = false) -> count q (remove_first p l) = count q l).
Proof.
  induction l as [|x l [IH1 IH2]]; cbn [remove_first]; [rewrite count_nil; split; [lia|done]|].
  destruct (p x) eqn:E.
  - rewrite count_cons. split; [destruct (q x); lia|]. intros Hq. by rewrite (Hq x E).
  - rewrite !count_cons. split; [lia|]. intros Hq. by rewrite IH2.
Qed.

Lemma spec_RUnlock_held t args r0 : (0 < held true t r0 (la_UID args))%nat ->
  (spec_RUnlock t args r0).2 = false /\
  (forall rd r u, (rd = false \/ u <> la_UID args \/ r <> r0) ->
     held rd (spec_RUnlock t args r0).1 r u = held rd t r u) /\
  (held true t r0 (la_UID args) <= held true (spec_RUnlock t args r0).1 r0 (la_UID args) + 1)%nat.
Proof.
  intros Hh. destruct (held_read _ _ _ Hh) as [hs Ht]. unfold spec_RUnlock. rewrite Ht. split; [done|].
  unfold held, table_set. cbn. split.
  - intros rd r u Hc. destruct (decide (r = r0)) as [->|]; [|done]. rewrite Ht. destruct rd; [|done].
    apply remove_first_count. intros h Hrel. unfold releases in Hrel. btrue.
    apply bool_decide_eq_true in H. apply bool_decide_eq_false. destruct Hc as [|[|]]; congruence.
  - rewrite decide_True, Ht by done. apply remove_first_count.
Qed.

(** ** The invariant *)

Section Safety.
Context {Srv : Type} `{NetLockerLaws Srv}.
Implicit Types (sy : system (Srv := Srv)) (x : attempt).

Definition locks_of x : list string := ll_locks (a_loop x).

(** The attempt was granted server [k] and has not given it back: the grant is in
    its array, or in the channel. *)
Definition granted_in (k : nat) (g : Granted) : bool := (g_index g =? k)%nat && Granted_isLocked g.
Definition has_lock x (k : nat) : bool :=
  isLocked (default "" (locks_of x !! k)) || existsb (granted_in k) (a_ch x).

(** The attempt claims a lock of kind [rd] on resource [r] of server [k] for [u]. *)
Definition claims (rd : bool) (k : nat) (r u : string) x : bool :=
  Bool.eqb (a_read x) rd && bool_decide (la_UID (a_args x) = u) &&
  bool_decide (r ∈ la_Resources (a_args x)) && has_lock x k.

Record att_ok (n : nat) x : Prop := {
  ao_locks : length (locks_of x) = n;
  ao_calls : length (a_calls x) = n;
  ao_nodup : NoDup (g_index <$> a_ch x);
  ao_ch : forall g, g ∈ a_ch x -> a_calls x !! g_index g = Some true /\
            locks_of x !! g_index g = Some "" /\ (g_lockUID g = "" \/ g_lockUID g = la_UID (a_args x));
  ao_uid : forall k uid, locks_of x !! k = Some uid ->
             uid = "" \/ (uid = la_UID (a_args x) /\ a_calls x !! k = Some true);
  ao_names : a_read x = false -> NoDup (la_Resources (a_args x));
  ao_hold : a_phase x = Holding -> (lock_quorum n (a_read x)).1 <= Z.of_nat (count isLocked (locks_of x))
}.

Record sys_ok sy : Prop := {
  so_server : forall k s, sy_servers sy !! k = Some (Some s) ->
    nl_ok s /\ forall rd r u, (count (claims rd k r u) (sy_attempts sy) <= held rd (nl_table s) r u)%nat;
  so_att : forall a x, sy_attempts sy !! a = Some x -> att_ok (servers_n sy) x;
  so_some : forall a x k, sy_attempts sy !! a = Some x -> has_lock x k = true ->
    exists s, sy_servers sy !! k = Some (Some s)
}.

Lemma has_lock_range n x k : att_ok n x -> has_lock x k = true -> a_calls x !! k = Some true.
Proof.
  intros Hx. unfold has_lock. intros [Hl|Hg]%orb_true_iff.
  - destruct (locks_of x !! k) as [uid|] eqn:E; cbn in Hl; [|done].
    destruct (ao_uid n x Hx k uid E) as [->|[_ ?]]; done.
  - apply existsb_exists in Hg as (g & Hin & Hg). apply andb_true_iff in Hg as [<-%Nat.eqb_eq _].
    apply (ao_ch n x Hx g). by apply list_elem_of_In.
Qed.

(** The same attempt, further on: identity and kind do not change. *)
Definition same_attempt x x' : Prop := a_args x' = a_args x /\ a_read x' = a_read x.

Definition bnat (b : bool) : nat := if b then 1 else 0.

Lemma claims_mono x x' rd k r u : same_attempt x x' -> (has_lock x' k -> has_lock x k) ->
  (bnat (claims rd k r u x') <= bnat (claims rd k r u x))%nat.
Proof.
  intros [Ha Hr] Hl. unfold claims. rewrite Ha, Hr. destruct (Bool.eqb _ _ && bool_decide _ && bool_decide _); cbn; [|lia].
  destruct (has_lock x' k), (has_lock x k); cbn in *; [lia|naive_solver|lia..].
Qed.

Lemma claims_count sy a x x' rd k r u : sy_attempts sy !! a = Some x ->
  (count (claims rd k r u) (<[a := x']> (sy_attempts sy)) + bnat (claims rd k r u x)
   = count (claims rd k r u) (sy_attempts sy) + bnat (claims rd k r u x'))%nat.
Proof. intros Hx. apply (count_insert (claims rd k r u) _ _ x' _ Hx). Qed.

(** An attempt that changes on its own, claiming nothing new. *)
Lemma sys_local sy a x x' : sys_ok sy -> sy_attempts sy !! a = Some x -> same_attempt x x' ->
  att_ok (servers_n sy) x' -> (forall k, has_lock x' k -> has_lock x k) ->
  sys_ok (set_attempt sy a x').
Proof.
  intros Hsy Hx Hs Hok Hl. split; cbn [set_attempt sy_servers sy_attempts].
  - intros k s Hk. destruct (so_server sy Hsy k s Hk) as [? Hc]. split; [done|]. intros rd r u.
    specialize (Hc rd r u). pose proof (claims_count sy a x x' rd k r u Hx).
    pose proof (claims_mono x x' rd k r u Hs (Hl k)). lia.
  - intros b y Hy. unfold servers_n in *. cbn.
    apply list_lookup_insert_Some in Hy as [(-> & <- & _)|[_ Hy]]; [done|]. by eapply so_att.
  - intros b y k Hy Hk. apply list_lookup_insert_Some in Hy as [(-> & <- & _)|[_ Hy]]; [|by eapply so_some].
    eapply so_some; [done|exact Hx|]. specialize (Hl k). rewrite Hk in Hl. by apply Is_true_true, Hl.
Qed.

(** An attempt and one server change together. *)
Lemma sys_server sy a x x' k c c' : sys_ok sy -> sy_attempts sy !! a = Some x -> same_attempt x x' ->
  att_ok (servers_n sy) x' -> sy_servers sy !! k = Some c ->
  (forall j, j <> k -> has_lock x' j -> has_lock x j) ->
  match c, c' with
  | Some s, Some s' => nl_ok s' /\ forall rd r u,
      (held rd (nl_table s) r u + bnat (claims rd k r u x') <= held rd (nl_table s') r u + bnat (claims rd k r u x))%nat
  | None, None => has_lock x' k = false
  | _, _ => False
  end ->
  sys_ok (mkSystem (<[k := c']> (sy_servers sy)) (<[a := x']> (sy_attempts sy))).
Proof.
  intros Hsy Hx Hs Hok Hk Hl Hc. split; cbn [sy_servers sy_attempts].
  - intros j s' Hj. apply list_lookup_insert_Some in Hj as [(-> & -> & _)|[Hne Hj]].
    + destruct c as [s|]; [|done]. destruct Hc as [? Hc]. split; [done|]. intros rd r u. specialize (Hc rd r u).
      destruct (so_server sy Hsy j s Hk) as [_ Hh]. specialize (Hh rd r u).
      pose proof (claims_count sy a x x' rd j r u Hx). lia.
    + destruct (so_server sy Hsy j s' Hj) as [? Hh]. split; [done|]. intros rd r u.
      specialize (Hh rd r u). pose proof (claims_count sy a x x' rd j r u Hx).
      pose proof (claims_mono x x' rd j r u Hs (Hl j ltac:(done))). lia.
  - intros b y Hy. unfold servers_n in *. cbn. rewrite length_insert.
    apply list_lookup_insert_Some in Hy as [(-> & <- & _)|[_ Hy]]; [done|]. by eapply so_att.
  - intros b y j Hy Hj.
    assert (forall s, sy_servers sy !! j = Some (Some s) -> exists s', <[k := c']> (sy_servers sy) !! j = Some (Some s')) as Hex.
    { intros s Hjs. destruct (decide (j = k)) as [->|]; [|rewrite list_lookup_insert_ne by done; by exists s].
      rewrite list_lookup_insert_eq by (by eapply lookup_lt_Some).
      rewrite Hk in Hjs. injection Hjs as ->. destruct c' as [s'|]; [by exists s'|done]. }
    apply list_lookup_insert_Some in Hy as [(-> & <- & _)|[_ Hy]].
    2:{ destruct (so_some sy Hsy b y j Hy Hj) as [s Hjs]. by eapply Hex. }
    destruct (decide (j = k)) as [->|Hne].
    + destruct c as [s|], c' as [s'|]; try done; [|congruence]. by eapply Hex.
    + destruct (so_some sy Hsy b x j Hx) as [s Hjs]; [|by eapply Hex].
      apply Is_true_true, Hl; [done|]. by apply Is_true_true.
Qed.

(** *** What a call does to the server *)

Lemma call_server_held now s k rd args c' g : nl_ok s ->
  call_server now (Some s) k rd args = Some (c', g) ->
  exists s', c' = Some s' /\ nl_ok s' /\ g_index g = k /\ (g_lockUID g = "" \/ g_lockUID g = la_UID args) /\
  forall rd' r u,
    (held rd' (nl_table s) r u +
     bnat (Bool.eqb rd rd' && bool_decide (la_UID args = u) && bool_decide (r ∈ la_Resources args)
           && Granted_isLocked g) <= held rd' (nl_table s') r u)%nat.
Proof.
  intros Hok. unfold call_server.
  destruct (if rd then nl_RLock now s args else nl_Lock now s args) as [[s' [b err]]|] eqn:E; [|done].
  cbn [mbind option_bind]. intros [= <- <-]. exists s'. split; [done|]. cbn [g_index g_lockUID].
  assert (forall rd' r u, held rd' (nl_table s) r u = held rd' (nl_table s') r u ->
    b = false -> (held rd' (nl_table s) r u + bnat (Bool.eqb rd rd' && bool_decide (la_UID args = u) &&
      bool_decide (r ∈ la_Resources args) && Granted_isLocked (mkGranted k (if b then la_UID args else "")))
      <= held rd' (nl_table s') r u)%nat) as Hno.
  { intros rd' r u He ->. rewrite He, andb_false_r. cbn. lia. }
  destruct rd.
  - destruct (nl_RLock_law _ _ _ _ _ _ Hok E) as [Hok' Hb]. split_and!; [done..|destruct b; auto|].
    intros rd' r u. destruct b; [|apply Hno; [symmetry; apply held_ext, Hb|done]].
    destruct Hb as (r0 & Hr0 & Hg & Ht). rewrite (held_ext rd' _ _ r u (Ht r)), (spec_RLock_held _ _ _ Hg), Hr0.
    destruct rd'; cbn [andb Bool.eqb bnat]; [|lia].
    destruct (bool_decide_reflect (r = r0)) as [->|Hne].
    + rewrite (bool_decide_eq_true_2 (r0 ∈ [r0])) by left. destruct (bool_decide (la_UID args = u)), (Granted_isLocked _); cbn; lia.
    + rewrite (bool_decide_eq_false_2 (r ∈ [r0])) by set_solver. rewrite andb_false_r. cbn. lia.
  - destruct (nl_Lock_law _ _ _ _ _ _ Hok E) as [Hok' Hb]. split_and!; [done..|destruct b; auto|].
    intros rd' r u. destruct b; [|apply Hno; [symmetry; apply held_ext, Hb|done]].
    destruct Hb as [Hg Ht]. rewrite (held_ext rd' _ _ r u (Ht r)), (spec_Lock_held _ _ Hg).
    destruct (decide (r ∈ la_Resources args)) as [Hr|Hr].
    + rewrite (spec_Lock_free _ _ Hg rd' r u Hr). destruct rd'; cbn [andb Bool.eqb bnat]; [lia|].
      destruct (bool_decide (la_UID args = u)), (bool_decide (r ∈ _)), (Granted_isLocked _); cbn; lia.
    + rewrite (bool_decide_eq_false_2 (r ∈ _)) by done. rewrite andb_false_r. cbn. lia.
Qed.

Lemma sendRelease_held s owner uid rd names c' ok : nl_ok s -> uid <> "" ->
  (rd = false -> NoDup names) -> (forall r, r ∈ names -> (0 < held rd (nl_table s) r uid)%nat) ->
  sendRelease (Some s) owner uid rd names = Some (c', ok) ->
  exists s', c' = Some s' /\ nl_ok s' /\ (ok = false -> table_eq (nl_table s') (nl_table s)) /\
  forall rd' r u,
    (held rd' (nl_table s) r u <= held rd' (nl_table s') r u +
     bnat (Bool.eqb rd rd' && bool_decide (uid = u) && bool_decide (r ∈ names)))%nat.
Proof.
  intros Hok Huid Hnd Hheld. unfold sendRelease. rewrite bool_decide_eq_false_2 by done.
  set (args := mkArgs uid names "" owner 0).
  destruct (if rd then nl_RUnlock s args else nl_Unlock s args) as [[s' [b err]]|] eqn:E; [|done].
  cbn [mbind option_bind]. intros [= <- <-]. exists s'. split; [done|].
  assert (forall t, table_eq (nl_table s') t -> t = nl_table s -> nl_ok s' ->
    nl_ok s' /\ (bool_decide (err = None) = false -> table_eq (nl_table s') (nl_table s)) /\
    forall rd' r u, (held rd' (nl_table s) r u <= held rd' (nl_table s') r u +
      bnat (Bool.eqb rd rd' && bool_decide (uid = u) && bool_decide (r ∈ names)))%nat) as Hsame.
  { intros t Ht -> Hok'. split_and!; [done..|]. intros rd' r u. rewrite (held_ext rd' _ _ r u (Ht r)). lia. }
  destruct rd.
  - destruct (nl_RUnlock_law _ _ _ _ _ Hok E) as [Hok' [[He Ht]|(r0 & Hr0 & Ht & He)]]; [by eapply Hsame|].
    cbn in Hr0. subst names.
    destruct (spec_RUnlock_held (nl_table s) args r0) as (Herr & Hheq & Hle); [apply Hheld; left|].
    rewrite Herr in He. split_and!; [done| |].
    + intros Hn. rewrite bool_decide_None, He in Hn. done.
    + intros rd' r u. rewrite (held_ext rd' (nl_table s') _ r u (Ht r)).
      destruct (decide (rd' = false \/ u <> uid \/ r <> r0)) as [Hc|Hc]; [rewrite Hheq by done; lia|].
      destruct rd'; [|tauto]. assert (u = uid) as -> by (destruct (decide (u = uid)); tauto).
      assert (r = r0) as -> by (destruct (decide (r = r0)); tauto).
      rewrite !bool_decide_eq_true_2 by (done || left). cbn in *. lia.
  - destruct (nl_Unlock_law _ _ _ _ _ Hok E) as [Hok' [[He Ht]|(Ht & He)]]; [by eapply Hsame|].
    destruct (spec_Unlock_held args names (nl_table s)) as (Herr & Hheq); [by apply Hnd|done|].
    cbn [la_Resources args] in *. rewrite Herr in He. split_and!; [done| |].
    + intros Hn. rewrite bool_decide_None, He in Hn. done.
    + intros rd' r u. rewrite (held_ext rd' (nl_table s') _ r u (Ht r)).
      destruct (decide (rd' = true \/ u <> uid \/ r ∉ names)) as [Hc|Hc]; [rewrite Hheq by done; lia|].
      destruct rd'; [tauto|]. assert (u = uid) as -> by (destruct (decide (u = uid)); tauto).
      assert (r ∈ names) as Hr by (destruct (decide (r ∈ names)); tauto).
      rewrite !bool_decide_eq_true_2 by done.
      destruct (held_write _ _ _ (Hheld r Hr)) as [-> _]. cbn. lia.
Qed.

(** An attempt that was granted server [k] holds all its resources there. *)
Lemma has_lock_held sy a x k s : sys_ok sy -> sy_attempts sy !! a = Some x -> has_lock x k = true ->
  sy_servers sy !! k = Some (Some s) -> forall r, r ∈ la_Resources (a_args x) ->
  (0 < held (a_read x) (nl_table s) r (la_UID (a_args x)))%nat.
Proof.
  intros Hsy Hx Hl Hs r Hr. destruct (so_server sy Hsy k s Hs) as [_ Hc].
  eapply Nat.lt_le_trans; [|apply Hc]. assert (claims (a_read x) k r (la_UID (a_args x)) x = true) as Hcl.
  { unfold claims. rewrite Hl, !bool_decide_eq_true_2 by done. by destruct (a_read x). }
  apply (count_NoDup (claims (a_read x) k r (la_UID (a_args x))) (sy_attempts sy) [x]).
  - apply NoDup_singleton.
  - intros y ->%list_elem_of_singleton. split; [by eapply list_elem_of_lookup_2|done].
Qed.

(** *** Every action keeps the invariant *)

Lemma on_select_locks tol s ev : ll_locks (on_select tol s ev) =
  match ev with
  | Some g => if Granted_isLocked g then <[g_index g := g_lockUID g]> (ll_locks s) else ll_locks s
  | None => ll_locks s
  end.
Proof.
  unfold on_select. destruct ev as [g|]; [destruct (Granted_isLocked g)|]; cbn; try done; by destruct (_ <? _).
Qed.

Lemma att_ok_phase n x p : att_ok n x ->
  (p = Holding -> (lock_quorum n (a_read x)).1 <= Z.of_nat (count isLocked (locks_of x))) ->
  att_ok n (with_phase x p).
Proof. intros [] Hp. by split. Qed.

Lemma do_phase_ok sy a x p : sys_ok sy -> sy_attempts sy !! a = Some x ->
  (p = Holding -> att_quorum sy x <= Z.of_nat (count isLocked (locks_of x))) ->
  sys_ok (set_attempt sy a (with_phase x p)).
Proof.
  intros Hsy Hx Hp. eapply sys_local; [exact Hsy|exact Hx|done| |done].
  apply att_ok_phase; [exact (so_att sy Hsy a x Hx)|exact Hp].
Qed.

Lemma do_start_ok sy args rd sy' : sys_ok sy -> do_start sy args rd = Some sy' -> sys_ok sy'.
Proof.
  intros Hsy. unfold do_start. destruct (_ && _) eqn:Ec; [|done]. intros [= <-].
  apply andb_true_iff in Ec as [_ Hnd]. set (x := mkAttempt _ _ _ _ _ _).
  assert (forall k, has_lock x k = false) as Hno.
  { intros k. unfold has_lock, locks_of, x. cbn. rewrite orb_false_r.
    destruct (replicate (servers_n sy) "" !! k) as [u|] eqn:E; [|done].
    by apply lookup_replicate in E as [-> _]. }
  split; cbn [sy_servers sy_attempts].
  - intros k s Hs. destruct (so_server sy Hsy k s Hs) as [? Hc]. split; [done|]. intros rd' r u.
    rewrite count_app, count_cons, count_nil. unfold claims at 2. rewrite Hno, andb_false_r.
    specialize (Hc rd' r u). lia.
  - intros b y Hy. apply lookup_snoc_Some in Hy as [[_ Hy]|[_ <-]]; [exact (so_att sy Hsy b y Hy)|].
    split; unfold locks_of, x; cbn; [by rewrite length_replicate..|constructor|set_solver| | |done].
    + intros k uid E. apply lookup_replicate in E as [-> _]. by left.
    + intros ->. by apply bool_decide_eq_true in Hnd.
  - intros b y k Hy Hk. apply lookup_snoc_Some in Hy as [[_ Hy]|[_ <-]]; [exact (so_some sy Hsy b y k Hy Hk)|].
    by rewrite Hno in Hk.
Qed.

(** Posting a reply on the channel. *)
Definition posted x (g : Granted) : attempt :=
  mkAttempt (a_args x) (a_read x) (<[g_index g := true]> (a_calls x)) (a_ch x ++ [g]) (a_loop x) (a_phase x).

Lemma has_lock_posted x g j : has_lock (posted x g) j = has_lock x j || granted_in j g.
Proof. unfold has_lock, posted, locks_of. cbn. rewrite existsb_app. cbn. by rewrite orb_false_r, orb_assoc. Qed.

Lemma posted_ok n x g : att_ok n x -> a_calls x !! g_index g = Some false ->
  (g_lockUID g = "" \/ g_lockUID g = la_UID (a_args x)) -> att_ok n (posted x g).
Proof.
  intros Hx Hc Hg. pose proof Hx as [H1 H2 H3 H4 H5 H6 H7]. unfold posted. split; unfold locks_of in *; cbn.
  - done.
  - by rewrite length_insert.
  - rewrite fmap_app. apply NoDup_app. split_and!; [done| |apply NoDup_singleton].
    intros i Hi Hi'. apply list_elem_of_singleton in Hi' as ->. apply list_elem_of_fmap in Hi as (g' & Hi & Hg').
    destruct (H4 g' Hg') as [Ht _]. rewrite <-Hi in Ht. congruence.
  - intros g' [Hg'|Hg']%elem_of_app.
    + destruct (H4 g' Hg') as (Ht & ? & ?). split_and!; [|done..]. rewrite list_lookup_insert_ne; [done|]. intros Hi.
      rewrite Hi in Hc. congruence.
    + apply list_elem_of_singleton in Hg' as ->. split_and!; [| |done].
      * apply list_lookup_insert_eq. by eapply lookup_lt_Some.
      * destruct (lookup_lt_is_Some_2 (ll_locks (a_loop x)) (g_index g)) as [uid E].
        { rewrite H1, <-H2. by eapply lookup_lt_Some. }
        destruct (H5 _ _ E) as [->|[_ ?]]; [done|congruence].
  - intros k uid E. destruct (H5 k uid E) as [?|[? Hk]]; [by left|]. right. split; [done|].
    rewrite list_lookup_insert_ne; [done|]. congruence.
  - done.
  - done.
Qed.

Lemma do_call_ok sy a k now f sy' : sys_ok sy -> do_call sy a k now f = Some sy' -> sys_ok sy'.
Proof.
  intros Hsy. unfold do_call. destruct (sy_attempts sy !! a) as [x|] eqn:Hx; [|done].
  destruct (sy_servers sy !! k) as [c|] eqn:Hk; [|done]. destruct (a_calls x !! k) as [[]|] eqn:Hc; [done| |done].
  destruct (call_fate now c k x f) as [[c' g]|] eqn:Ef; [|done]. cbn [mbind option_bind]. intros [= <-].
  pose proof (so_att sy Hsy a x Hx) as Hao.
  assert (has_lock x k = false) as Hnl.
  { destruct (has_lock x k) eqn:El; [|done]. apply (has_lock_range _ _ _ Hao) in El. congruence. }
  assert (g_index g = k /\ (g_lockUID g = "" \/ g_lockUID g = la_UID (a_args x)) /\
    match c, c' with
    | Some s, Some s' => nl_ok s' /\ forall rd r u,
        (held rd (nl_table s) r u + bnat (Bool.eqb (a_read x) rd && bool_decide (la_UID (a_args x) = u) &&
           bool_decide (r ∈ la_Resources (a_args x)) && Granted_isLocked g) <= held rd (nl_table s') r u)%nat
    | None, None => Granted_isLocked g = false
    | _, _ => False
    end) as (Hgi & Hgu & Hserver).
  { unfold call_fate in Ef. destruct c as [s|].
    - destruct (so_server sy Hsy k s Hk) as [Hnl' _]. destruct f.
      + apply call_server_held in Ef as (s' & -> & ? & ? & ? & ?); done.
      + injection Ef as <- <-. split_and!; [done|by left|done|]. intros rd r u. rewrite andb_false_r. cbn. lia.
      + destruct (call_server now (Some s) k _ _) as [[c1 g1]|] eqn:E1; [|done]. injection Ef as <- <-.
        apply call_server_held in E1 as (s' & -> & ? & ? & ? & Hh); [|done].
        split_and!; [done|by left|done|]. intros rd r u. rewrite andb_false_r. specialize (Hh rd r u). cbn. lia.
    - assert (c' = None /\ g = mkGranted k "") as [-> ->] by (by destruct f; injection Ef).
      split_and!; [done|by left|done]. }
  subst k. fold (posted x g). eapply sys_server; [exact Hsy|exact Hx|done|by apply posted_ok|exact Hk| |].
  - intros j Hj. rewrite has_lock_posted. unfold granted_in.
    destruct (Nat.eqb_spec (g_index g) j); [congruence|]. by rewrite orb_false_r.
  - assert (forall rd r u, claims rd (g_index g) r u (posted x g) =
      Bool.eqb (a_read x) rd && bool_decide (la_UID (a_args x) = u) &&
           bool_decide (r ∈ la_Resources (a_args x)) && Granted_isLocked g) as Hcl.
    { intros rd r u. unfold claims. rewrite has_lock_posted, Hnl. unfold granted_in. by rewrite Nat.eqb_refl. }
    destruct c as [s|], c' as [s'|]; try done.
    + destruct Hserver as [? Hh]. split; [done|]. intros rd r u. rewrite Hcl. specialize (Hh rd r u). lia.
    + rewrite has_lock_posted, Hnl. unfold granted_in. by rewrite Hserver, andb_false_r.
Qed.

Lemma do_receive_ok sy a sy' : sys_ok sy -> do_receive sy a = Some sy' -> sys_ok sy'.
Proof.
  intros Hsy. unfold do_receive. destruct (sy_attempts sy !! a) as [x|] eqn:Hx; [|done].
  destruct (a_phase x) eqn:Ep; try done. destruct (a_ch x) as [|g ch] eqn:Ec; [done|].
  destruct (loop_over _ _); [done|]. intros [= <-].
  pose proof (so_att sy Hsy a x Hx) as [H1 H2 H3 H4 H5 H6 H7]. rewrite Ec in *.
  destruct (H4 g ltac:(left)) as (Hgc & Hgl & Hgu).
  cbn in H3. apply NoDup_cons in H3 as [Hg3 H3].
  eapply sys_local; [done|exact Hx|done| |].
  - unfold locks_of in *. split; unfold locks_of; cbn; rewrite ?on_select_locks.
    + destruct (Granted_isLocked g); by rewrite ?length_insert.
    + done.
    + done.
    + intros g' Hg'. destruct (H4 g' ltac:(by right)) as (? & ? & ?). split_and!; [done| |done].
      destruct (Granted_isLocked g); [|done]. rewrite list_lookup_insert_ne; [done|]. intros Hi. apply Hg3.
      rewrite Hi. apply list_elem_of_fmap. by exists g'.
    + intros k uid. destruct (Granted_isLocked g); [|by apply H5].
      intros [(<- & <- & _)|[_ ?]]%list_lookup_insert_Some; [|by apply H5]. destruct Hgu; [by left|by right].
    + done.
    + by rewrite Ep.
  - intros k. unfold has_lock, locks_of. cbn. rewrite on_select_locks, Ec. cbn [existsb].
    unfold granted_in at 2. destruct (Granted_isLocked g) eqn:El.
    + destruct (Nat.eqb_spec (g_index g) k) as [->|Hne]; cbn; [by rewrite orb_true_r|].
      by rewrite list_lookup_insert_ne by done.
    + by rewrite andb_false_r.
Qed.

Lemma do_ctxdone_ok sy a sy' : sys_ok sy -> do_ctxdone sy a = Some sy' -> sys_ok sy'.
Proof.
  intros Hsy. unfold do_ctxdone. destruct (sy_attempts sy !! a) as [x|] eqn:Hx; [|done].
  destruct (a_phase x) eqn:Ep; try done. destruct (loop_over _ _); [done|]. intros [= <-].
  pose proof (so_att sy Hsy a x Hx) as [H1 H2 H3 H4 H5 H6 H7].
  assert (locks_of (with_loop x (on_select (att_tolerance sy x) (a_loop x) None)) = locks_of x) as Hl.
  { unfold locks_of, with_loop. cbn. by rewrite on_select_locks. }
  eapply sys_local; [done|exact Hx|done| |].
  - split; rewrite ?Hl; cbn; try done.
  - intros k. unfold has_lock. by rewrite Hl.
Qed.

Lemma do_decide_ok sy a sy' : sys_ok sy -> do_decide sy a = Some sy' -> sys_ok sy'.
Proof.
  intros Hsy. unfold do_decide. destruct (sy_attempts sy !! a) as [x|] eqn:Hx; [|done].
  destruct (a_phase x) eqn:Ep; try done. destruct (negb _); [done|]. intros [= <-].
  eapply do_phase_ok; [done|done|]. unfold quorumLocked, checkQuorumLocked.
  destruct (Z.leb_spec (att_quorum sy x) (Z.of_nat (count isLocked (ll_locks (a_loop x))))); done.
Qed.

Lemma do_unlock_ok sy a sy' : sys_ok sy -> do_unlock sy a = Some sy' -> sys_ok sy'.
Proof.
  intros Hsy. unfold do_unlock. destruct (sy_attempts sy !! a) as [x|] eqn:Hx; [|done].
  destruct (a_phase x) eqn:Ep; try done. intros [= <-]. by eapply do_phase_ok.
Qed.

Lemma do_finish_ok sy a sy' : sys_ok sy -> do_finish sy a = Some sy' -> sys_ok sy'.
Proof.
  intros Hsy. unfold do_finish. destruct (sy_attempts sy !! a) as [x|] eqn:Hx; [|done].
  destruct (a_phase x) as [| |u [|]|] eqn:Ep; try done. intros [= <-]. eapply do_phase_ok; [done|done|].
  by destruct (_ && _).
Qed.

(** A release of server [k] by an attempt that has it. *)
Lemma release_at_ok sy a x x' k uid f sy' ok : sys_ok sy -> sy_attempts sy !! a = Some x ->
  has_lock x k = true -> uid = la_UID (a_args x) -> uid <> "" ->
  release_at sy x k uid f = Some (sy', ok) ->
  same_attempt x x' -> att_ok (servers_n sy) x' ->
  (forall j, j <> k -> has_lock x' j -> has_lock x j) ->
  (ok = true -> has_lock x' k = false) -> (has_lock x' k = false \/ ok = false) ->
  sys_ok (set_attempt sy' a x').
Proof.
  intros Hsy Hx Hl Hu Hne. unfold release_at. destruct (so_some sy Hsy a x k Hx Hl) as [s Hs]. rewrite Hs.
  intros E Hsame Hok' Hoth Ht Hf. destruct f; [| |done].
  2:{ injection E as <- <-. eapply sys_local; [exact Hsy|exact Hx|done|done|]. intros j Hj.
      destruct (decide (j = k)) as [->|]; [by apply Is_true_true|by apply Hoth]. }
  destruct (sendRelease _ _ _ _ _) as [[c' ok']|] eqn:Er; [|done]. injection E as <- <-.
  destruct (so_server sy Hsy k s Hs) as [Hnl _]. subst uid.
  destruct (sendRelease_held _ _ _ _ _ _ _ Hnl Hne (ao_names _ _ (so_att sy Hsy a x Hx))
    (has_lock_held _ _ _ _ _ Hsy Hx Hl Hs) Er) as (s' & -> & Hnl' & Hsame' & Hh).
  unfold set_attempt. cbn [sy_servers sy_attempts].
  eapply sys_server; [exact Hsy|exact Hx|done|done|exact Hs|done|]. split; [done|]. intros rd r u.
  assert (claims rd k r u x = Bool.eqb (a_read x) rd && bool_decide (la_UID (a_args x) = u) &&
    bool_decide (r ∈ la_Resources (a_args x))) as -> by (unfold claims; by rewrite Hl, andb_true_r).
  destruct (has_lock x' k) eqn:Hl'.
  - destruct Hf as [|Hf]; [done|]. rewrite (held_ext rd _ _ r u (Hsame' Hf r)).
    destruct Hsame as [Ha Hr]. unfold claims. rewrite Ha, Hr, Hl', andb_true_r. lia.
  - assert (claims rd k r u x' = false) as -> by (unfold claims; by rewrite Hl', andb_false_r).
    specialize (Hh rd r u). cbn [bnat]. lia.
Qed.

Lemma has_lock_cleared n x k : att_ok n x -> locks_of x !! k <> Some "" ->
  has_lock (with_locks x (<[k := ""]> (locks_of x))) k = false.
Proof.
  intros Hx Hk. unfold has_lock, with_locks, with_loop. unfold locks_of at 1. cbn. apply orb_false_iff. split.
  - destruct (decide (k < length (locks_of x))%nat) as [Hlt|Hge].
    + by rewrite list_lookup_insert_eq.
    + rewrite lookup_ge_None_2; [done|]. rewrite length_insert. lia.
  - apply not_true_is_false. intros (g & Hg & Hgk)%existsb_exists. apply list_elem_of_In in Hg.
    unfold granted_in in Hgk. apply andb_true_iff in Hgk as [<-%Nat.eqb_eq _].
    apply Hk. by apply (ao_ch n x Hx g).
Qed.

Lemma release_nothing sy x k f sy' ok : release_at sy x k "" f = Some (sy', ok) -> ok = false /\ sy' = sy.
Proof.
  unfold release_at. destruct (sy_servers sy !! k) as [[s|]|] eqn:Es; [| |done]; destruct f; try done;
    intros [= <- <-]; split; try done; rewrite list_insert_id by done; by destruct sy.
Qed.

Lemma do_release_ok sy a k f sy' : sys_ok sy -> do_release sy a k f = Some sy' -> sys_ok sy'.
Proof.
  intros Hsy. unfold do_release. destruct (sy_attempts sy !! a) as [x|] eqn:Hx; [|done].
  destruct (a_phase x) as [| |u todo|] eqn:Ep; try done.
  destruct (ll_locks (a_loop x) !! k) as [uid|] eqn:Ek; [|done]. destruct (negb _); [done|].
  destruct (release_at sy x k uid f) as [[sy1 ok]|] eqn:Er; [|done]. cbn [mbind option_bind]. intros [= <-].
  pose proof (so_att sy Hsy a x Hx) as Hao.
  destruct (decide (uid = "")) as [->|Hne].
  { apply release_nothing in Er as [-> ->]. by eapply do_phase_ok. }
  destruct (ao_uid _ _ Hao k uid Ek) as [->|[Hu Hc]]; [done|].
  assert (has_lock x k = true) as Hl.
  { unfold has_lock, locks_of. rewrite Ek. cbn. unfold isLocked. by rewrite bool_decide_eq_false_2. }
  set (todo' := List.filter _ _).
  set (x' := with_phase (if ok then with_locks x (<[k := ""]> (ll_locks (a_loop x))) else x) (Releasing u todo')).
  assert (has_lock (with_locks x (<[k:=""]> (locks_of x))) k = false) as Hcl.
  { eapply has_lock_cleared; [exact Hao|]. unfold locks_of. rewrite Ek. congruence. }
  eapply (release_at_ok sy a x x' k uid f sy1 ok); [done..| | | | |].
  - unfold x'. by destruct ok.
  - unfold x'. apply att_ok_phase; [|done]. destruct ok; [|done]. destruct Hao as [H1 H2 H3 H4 H5 H6 H7].
    unfold locks_of in *. split; unfold locks_of; cbn; [by rewrite length_insert|done..| | |done|].
    + intros g Hg. destruct (H4 g Hg) as (? & ? & ?). split_and!; [done| |done].
      destruct (decide (g_index g = k)) as [->|]; [|by rewrite list_lookup_insert_ne].
      apply list_lookup_insert_eq. by eapply lookup_lt_Some.
    + intros j v [(_ & <- & _)|[_ ?]]%list_lookup_insert_Some; [by left|by apply H5].
    + by rewrite Ep.
  - intros j Hj. unfold x'. destruct ok; [|done]. unfold has_lock, locks_of. cbn.
    by rewrite list_lookup_insert_ne.
  - unfold x'. intros ->. exact Hcl.
  - unfold x'. destruct ok; [left; exact Hcl|by right].
Qed.

Lemma do_drain_ok sy a f sy' : sys_ok sy -> do_drain sy a f = Some sy' -> sys_ok sy'.
Proof.
  intros Hsy. unfold do_drain. destruct (sy_attempts sy !! a) as [x|] eqn:Hx; [|done].
  destruct (a_ch x) as [|g ch] eqn:Ec; [by destruct (a_phase x)|].
  intros E. assert (a_phase x <> Waiting /\ forallb id (a_calls x) = true /\
    (if Granted_isLocked g then '(sy', _) ← release_at sy x (g_index g) (g_lockUID g) f; Some (set_attempt sy' a (with_ch x ch))
     else Some (set_attempt sy a (with_ch x ch))) = Some sy') as (Hp & Hcalls & E').
  { destruct (a_phase x); [done|..]; destruct (forallb id (a_calls x)); done. }
  clear E. pose proof (so_att sy Hsy a x Hx) as Hao. pose proof Hao as [H1 H2 H3 H4 H5 H6 H7]. rewrite Ec in *.
  cbn in H3. apply NoDup_cons in H3 as [Hg3 H3]. destruct (H4 g ltac:(left)) as (Hgc & Hgl & Hgu).
  assert (att_ok (servers_n sy) (with_ch x ch)) as Hok'.
  { split; unfold locks_of; cbn; try done. intros g' Hg'. apply H4. by right. }
  assert (forall j, has_lock (with_ch x ch) j -> has_lock x j) as Hmono.
  { intros j. unfold has_lock, locks_of. cbn. rewrite Ec. cbn [existsb]. rewrite !orb_True. tauto. }
  destruct (Granted_isLocked g) eqn:Eg.
  2:{ injection E' as <-. by eapply sys_local. }
  destruct (release_at _ _ _ _ _) as [[sy1 ok]|] eqn:Er; [|done]. injection E' as <-.
  assert (g_lockUID g <> "") as Hne.
  { unfold Granted_isLocked, isLocked in Eg. by apply negb_true_iff, bool_decide_eq_false in Eg. }
  destruct Hgu as [|Hgu]; [done|].
  assert (has_lock (with_ch x ch) (g_index g) = false) as Hcl.
  { unfold has_lock, locks_of in *. cbn. rewrite Hgl. cbn. apply not_true_is_false.
    intros (g' & Hg' & Hgk)%existsb_exists. apply list_elem_of_In in Hg'.
    unfold granted_in in Hgk. apply andb_true_iff in Hgk as [Hi%Nat.eqb_eq _].
    apply Hg3. rewrite <-Hi. apply list_elem_of_fmap. by exists g'. }
  eapply (release_at_ok sy a x (with_ch x ch)); [exact Hsy|exact Hx| |exact Hgu|done|exact Er|done|done| |done|by left].
  - unfold has_lock. rewrite Ec. cbn [existsb]. unfold granted_in at 1. rewrite Nat.eqb_refl, Eg. cbn.
    apply orb_true_r.
  - intros j _. apply Hmono.
Qed.

Lemma exec_ok sy act sy' : sys_ok sy -> exec sy act = Some sy' -> sys_ok sy'.
Proof.
  intros Hsy. destruct act; cbn [exec].
  - by apply do_start_ok.
  - by apply do_call_ok.
  - by apply do_receive_ok.
  - by apply do_ctxdone_ok.
  - by apply do_decide_ok.
  - by apply do_unlock_ok.
  - by apply do_release_ok.
  - by apply do_finish_ok.
  - by apply do_drain_ok.
Qed.

Lemma exec_all_ok acts : forall sy sy', sys_ok sy -> exec_all sy acts = Some sy' -> sys_ok sy'.
Proof.
  induction acts as [|act acts IH]; intros sy sy' Hsy; cbn; [by intros [= <-]|].
  destruct (exec sy act) as [sy1|] eqn:E; [|done]. apply IH. by eapply exec_ok.
Qed.

Lemma initial_ok (servers : list (option Srv)) :
  (forall k s, servers !! k = Some (Some s) -> nl_ok s) -> sys_ok (mkSystem servers []).
Proof. intros Hs. split; cbn; [|done..]. intros k s Hk. split; [by eapply Hs|]. intros. lia. Qed.
End Safety.

Lemma lock_quorum_overlap n rd1 rd2 : rd1 && rd2 = false ->
  Z.of_nat n < (lock_quorum n rd1).1 + (lock_quorum n rd2).1.
Proof.
  intros Hrd. unfold lock_quorum. cbn. pose proof (Z.div_mod (Z.of_nat n) 2 ltac:(lia)).
  pose proof (Z.mod_pos_bound (Z.of_nat n) 2 ltac:(lia)). set (q := Z.of_nat n / 2) in *.
  destruct (Z.eqb_spec (Z.of_nat n - q) q); destruct rd1, rd2; cbn in *; try done; lia.
Qed.

(** Counting a list by its indexes. *)
Lemma count_indexes {A} (p : A -> bool) (d : A) l :
  count p l = count (fun i => p (default d (l !! i))) (seq 0 (length l)).
Proof.
  induction l as [|x l IH] using rev_ind; [done|].
  rewrite length_app, Nat.add_1_r, seq_S, !count_app, IH. f_equal.
  - apply count_ext. intros i Hi%elem_of_seq. by rewrite lookup_app_l by lia.
  - rewrite !count_cons, !count_nil, lookup_app_r, Nat.sub_diag by lia. done.
Qed.

(** Two attempts whose quorums together exceed the servers share one. *)
Lemma common_server n x y : att_ok n x -> att_ok n y -> a_phase x = Holding -> a_phase y = Holding ->
  a_read x && a_read y = false -> exists k, has_lock x k = true /\ has_lock y k = true.
Proof.
  intros Hx Hy Px Py Hrd. pose proof (ao_hold n x Hx Px) as Qx. pose proof (ao_hold n y Hy Py) as Qy.
  pose proof (lock_quorum_overlap n _ _ Hrd) as Hq.
  rewrite (count_indexes isLocked "" (locks_of x)), (ao_locks n x Hx) in Qx.
  rewrite (count_indexes isLocked "" (locks_of y)), (ao_locks n y Hy) in Qy.
  destruct (count_overlap (fun i => isLocked (default "" (locks_of x !! i)))
    (fun i => isLocked (default "" (locks_of y !! i))) (seq 0 n)) as (k & _ & Hkx & Hky).
  - rewrite length_seq. lia.
  - exists k. unfold has_lock. by rewrite Hkx, Hky.
Qed.

Lemma claims_self x k r : has_lock x k = true -> r ∈ la_Resources (a_args x) ->
  claims (a_read x) k r (la_UID (a_args x)) x = true.
Proof.
  intros Hl Hr. unfold claims. rewrite Hl, !bool_decide_eq_true_2 by done. by destruct (a_read x).
Qed.

Lemma count_two {A} (p : A -> bool) l i j x y : i <> j -> l !! i = Some x -> l !! j = Some y ->
  p x = true -> p y = true -> (2 <= count p l)%nat.
Proof.
  intros Hij Hi Hj Hx Hy.
  assert (count p (<[i := x]> l) = count p l) as <- by (by rewrite list_insert_id).
  revert i j Hij Hi Hj. induction l as [|z l IH]; intros [|i] [|j] Hij Hi Hj; try done; cbn in Hi, Hj.
  - injection Hi as ->. rewrite list_insert_id, count_cons, Hx by done.
    enough (0 < count p l)%nat by lia. apply (count_NoDup p l [y]); [apply NoDup_singleton|].
    intros ? ->%list_elem_of_singleton. split; [by eapply list_elem_of_lookup_2|done].
  - injection Hj as ->. change (<[S i := x]> (y :: l)) with (y :: <[i := x]> l).
    rewrite list_insert_id, count_cons, Hy by done.
    enough (0 < count p l)%nat by lia. apply (count_NoDup p l [x]); [apply NoDup_singleton|].
    intros ? ->%list_elem_of_singleton. split; [by eapply list_elem_of_lookup_2|done].
  - change (<[S i := x]> (z :: l)) with (z :: <[i := x]> l). rewrite count_cons.
    specialize (IH i j ltac:(lia) Hi Hj). lia.
Qed.


(** Two readers on three lock servers, one of which is missing. *)
Definition sample_clients : list (option localLocker) := [Some newLocker; None; Some newLocker].
Definition sample_acquire (a : nat) : list action :=
  [Call a 0 1 Delivered; Call a 2 1 Delivered; Call a 1 1 Delivered; Receive a; Receive a; Receive a; Decide a].
Definition sample_acts : list action :=
  [Start (sample_args "u1" ["x"]) true; Start (sample_args "u2" ["x"]) true]
  ++ sample_acquire 0 ++ sample_acquire 1.
Definition sample_system : system :=
  default (mkSystem sample_clients []) (exec_all (mkSystem sample_clients []) sample_acts).
Definition sample_attempt (a : nat) : attempt :=
  default (mkAttempt (uid_args "") false [] [] (mkLoop 0 0 false []) Over) (sy_attempts sample_system !! a).

Lemma sample_clients_ok k s : sample_clients !! k = Some (Some s) -> nl_ok s.
Proof. destruct k as [|[|[|k]]]; cbn; try done; intros [= <-]; apply newLocker_ok. Qed.


(** ** Refreshing *)

Definition is_missing (r : refreshResult) : bool := match r with Refreshed false => true | _ => false end.

Lemma refresh_count_spec n quorum replies : forall nf rf,
  nf <= Z.of_nat n - quorum -> rf < quorum -> 0 <= nf -> 0 <= rf -> nf + rf + len replies <= Z.of_nat n ->
  exists m, refresh_count n quorum (Some <$> replies) nf rf = Ok m /\
    (Z.of_nat n - quorum <? m) = (Z.of_nat n - quorum <? nf + Z.of_nat (count is_missing replies)).
Proof.
  induction replies as [|r rs IH]; intros nf rf Hnf Hrf H0 H1 Hn; cbn [fmap list_fmap refresh_count].
  { exists nf. split; [done|]. rewrite count_nil. f_equal. lia. }
  pose proof (count_le_length is_missing rs). cbn [length] in Hn. rewrite count_cons.
  destruct r as [|[]]; cbn [is_missing].
  - destruct (IH nf rf) as (m & -> & Hm); [lia..|]. exists m. split; [done|]. rewrite Hm. f_equal; lia.
  - destruct (Z.leb_spec quorum (rf + 1)); cbn [orb].
    + exists nf. split; [done|]. destruct (Z.ltb_spec (Z.of_nat n - quorum) nf); [lia|].
      symmetry. apply Z.ltb_ge. lia.
    + destruct (Z.ltb_spec (Z.of_nat n - quorum) nf); [lia|].
      destruct (IH nf (rf + 1)) as (m & -> & Hm); [lia..|]. exists m. split; [done|]. rewrite Hm. f_equal; lia.
  - destruct (Z.leb_spec quorum rf); [lia|]. cbn [orb].
    destruct (Z.ltb_spec (Z.of_nat n - quorum) (nf + 1)).
    + exists (nf + 1). split; [done|]. transitivity true; [by apply Z.ltb_lt|]. symmetry. apply Z.ltb_lt. lia.
    + destruct (IH (nf + 1) rf) as (m & -> & Hm); [lia..|]. exists m. split; [done|]. rewrite Hm. f_equal; lia.
Qed.

(** A refresh that is not canceled finds the quorum of a lock lost exactly when
    more than [n - quorum] of the [n] servers answered that they do not have it,
    in whatever order the answers arrive and although the loop stops early;
    servers that are offline or fail do not count against the lock. *)
Theorem refreshLock_correct n quorum replies arrived :
  length replies = n -> 1 <= quorum <= Z.of_nat n -> arrived ≡ₚ replies ->
  refreshLock_result n quorum (Some <$> arrived)
    = Ok (Z.of_nat n - quorum <? Z.of_nat (count is_missing replies)).
Proof.
  intros Hl Hq Hp. unfold refreshLock_result. pose proof (Permutation_length Hp).
  destruct (refresh_count_spec n quorum arrived 0 0) as (m & -> & Hm); [lia..|].
  f_equal. by rewrite Hm, (count_Permutation _ _ _ Hp).
Qed.

Lemma refreshLock_correct_witness :
  refreshLock_result 4 3 (Some <$> [Refreshed false; Offline; Refreshed false; Refreshed true])
    = Ok (4 - 3 <? Z.of_nat (count is_missing [Refreshed true; Offline; Refreshed false; Refreshed false])).
Proof.
  apply (refreshLock_correct 4 3); [done|lia|].
  change [Refreshed true; Offline; Refreshed false; Refreshed false]
    with ([Refreshed true; Offline; Refreshed false] ++ [Refreshed false]).
  rewrite Permutation_app_comm. cbn. apply perm_skip. rewrite (Permutation_app_comm [Offline; Refreshed false] [Refreshed true] : [Offline; Refreshed false; Refreshed true] ≡ₚ [Refreshed true; Offline; Refreshed false]).
  done.
Defined.

(** ** Unlocking *)

(** A released server: it had every name for this request, and has none now. *)
Definition has_names (uid owner : string) (names : list string) (c : option localLocker) (l : string) : Prop :=
  l = "" \/ (l = uid /\ exists s, c = Some s /\ locker_ok s /\
             forall r, r ∈ names -> table_of s r = Exclusive (uid, owner)).
Definition gave_names (uid : string) (names : list string) (l : string) (c : option localLocker) : Prop :=
  l = uid -> exists s, c = Some s /\ locker_ok s /\ forall r, r ∈ names -> table_of s r = Free.

Lemma spec_Unlock_frees args rs : forall t, NoDup rs ->
  (forall r, r ∈ rs -> t r = Exclusive (args_holder args)) ->
  (spec_Unlock t args rs false).2 = false /\
  (forall r, r ∈ rs -> (spec_Unlock t args rs false).1 r = Free) /\
  forall r, r ∉ rs -> (spec_Unlock t args rs false).1 r = t r.
Proof.
  induction rs as [|r0 rs IH]; intros t Hnd Ht; cbn [spec_Unlock]; [by split_and!; [|set_solver|]|].
  apply NoDup_cons in Hnd as [Hr0 Hnd]. rewrite (Ht r0 ltac:(left)).
  assert (releases args (args_holder args) = true) as ->.
  { unfold releases. cbn. rewrite (bool_decide_eq_true_2 (la_UID args = la_UID args)),
      (bool_decide_eq_true_2 (la_Owner args = la_Owner args)) by done. apply orb_true_r. }
  destruct (IH (table_set t r0 Free) Hnd) as (H1 & H2 & H3).
  { intros r Hr. unfold table_set. rewrite decide_False by set_solver. apply Ht. by right. }
  split_and!; [done| |].
  - intros r [->|Hr]%elem_of_cons; [|by apply H2]. rewrite H3 by done. unfold table_set. by rewrite decide_True.
  - intros r [Hn Hr]%not_elem_of_cons. rewrite H3 by done. unfold table_set. by rewrite decide_False.
Qed.

Lemma release_each_all uid owner names clients held : uid <> "" -> NoDup names ->
  (length names <= maxDeleteList)%nat -> Forall2 (has_names uid owner names) clients held ->
  exists clients', release_each owner false names clients held = Some (clients', replicate (length held) "") /\
    Forall2 (gave_names uid names) held clients'.
Proof.
  intros Hu Hnd Hlen. induction 1 as [|c l cs ls Hc _ (cs' & IH & IHf)]; [by exists []|].
  cbn [release_each length replicate]. unfold sendRelease. destruct Hc as [->|(-> & s & -> & Hok & Ht)].
  - exists (c :: cs'). rewrite IH. destruct c; split; try done; constructor; try done; by intros ?%symmetry.
  - rewrite bool_decide_eq_false_2 by done. cbn [nl_Unlock local_netLocker mbind option_bind].
    unfold Unlock. cbn [la_Resources]. destruct (Nat.ltb_spec maxDeleteList (length names)); [lia|].
    set (args := mkArgs uid names "" owner 0).
    destruct (unlock_loop args names s false None) as [s' [b err]] eqn:E.
    destruct (unlock_loop_refines _ _ _ _ _ _ _ _ Hok E) as (Hok' & Ht' & He).
    rewrite (bool_decide_eq_false_2 (is_Some None)) in * by (by intros [? ?]).
    destruct (spec_Unlock_frees args names (table_of s) Hnd Ht) as (H1 & H2 & _).
    rewrite H1 in He. rewrite bool_decide_None, He, IH. cbn. exists (Some s' :: cs'). split; [done|].
    constructor; [|done]. intros _. exists s'. split_and!; [done..|]. intros r Hr. by rewrite (Ht' r), H2.
Qed.

(** C22: [Unlock] returns after one round when the servers that granted the lock
    are reached and still have it, and leaves none of its resources locked on
    them; the other servers may be missing. *)
Theorem Unlock_returns uid owner names (clients : list (option localLocker)) held :
  uid <> "" -> NoDup names -> (length names <= maxDeleteList)%nat ->
  Forall2 (has_names uid owner names) clients held -> existsb isLocked held = true ->
  exists clients', DRW_Unlock 1 owner false names clients held = Some (inr clients') /\
    Forall2 (gave_names uid names) held clients'.
Proof.
  intros Hu Hnd Hlen Hh Hex. unfold DRW_Unlock. rewrite Hex. cbn [negb].
  pose proof (Forall2_length _ _ _ Hh) as Hl. rewrite Hl, take_ge, Nat.sub_diag, app_nil_r by lia.
  destruct (release_each_all uid owner names clients held Hu Hnd Hlen Hh) as (cs' & E & Hg).
  exists cs'. split; [|done]. cbn [unlock_rounds]. unfold releaseAll. rewrite E. cbn [mbind option_bind].
  assert (checkFailedUnlocks (replicate (length held) "") (len held / 2) = false) as ->; [|done].
  unfold checkFailedUnlocks. rewrite length_replicate.
  assert (forall k, count isLocked (replicate k "") = 0%nat) as ->.
  { intros k. induction k as [|k IH]; [done|]. cbn [replicate]. by rewrite count_cons, IH. }
  assert (0 < len held) as Hpos by (destruct held; [done|cbn; lia]).
  pose proof (Z.div_mod (len held) 2 ltac:(lia)). pose proof (Z.mod_pos_bound (len held) 2 ltac:(lia)).
  destruct (Z.eqb_spec (len held - len held / 2) (len held / 2));
    [destruct (Z.leb_spec (len held / 2) (Z.of_nat 0))|destruct (Z.ltb_spec (len held / 2) (Z.of_nat 0))]; done || lia.
Qed.

Definition sample_locked : localLocker := (Lock 1 newLocker (sample_args "u1" ["x"; "y"])).1.

Lemma sample_locked_ok : locker_ok sample_locked.
Proof.
  destruct (Lock 1 newLocker (sample_args "u1" ["x"; "y"])) as [l [b e]] eqn:E.
  unfold sample_locked. rewrite E. by destruct (Lock_refines _ _ _ _ _ _ newLocker_ok E).
Qed.

Lemma Unlock_returns_witness :
  let clients := [Some sample_locked; None; Some sample_locked] in
  let held := ["u1"; ""; "u1"] in
  exists clients', DRW_Unlock 1 "node1" false ["x"; "y"] clients held = Some (inr clients') /\
    Forall2 (gave_names "u1" ["x"; "y"]) held clients'.
Proof.
  intros clients held. apply (Unlock_returns "u1"); [done| |apply Nat.leb_le; reflexivity| |done].
  - apply NoDup_cons. split; [set_solver|]. apply NoDup_singleton.
  - assert (has_names "u1" "node1" ["x"; "y"] (Some sample_locked) "u1") as Hs.
    { right. split; [done|]. exists sample_locked. split_and!; [done| |].
      - exact sample_locked_ok.
      - intros r Hr. apply elem_of_cons in Hr as [->|Hr]; [|apply list_elem_of_singleton in Hr as ->]; vm_compute; reflexivity. }
    constructor; [exact Hs|]. constructor; [by left|]. constructor; [exact Hs|]. constructor.
Defined.

(** The server has none of the names locked for writing. *)
Definition lost_names (names : list string) (c : option localLocker) : Prop :=
  match c with None => True | Some s => forall r, r ∈ names -> isWriteLock (entries s r) = false end.

Lemma unlock_loop_lost args rs : forall l reply err,
  (forall r, r ∈ rs -> isWriteLock (entries l r) = false) ->
  exists err', unlock_loop args rs l reply err = (l, (reply, err')) /\ (rs <> [] \/ err <> None -> err' <> None).
Proof.
  induction rs as [|r rs IH]; intros l reply err Hl; cbn [unlock_loop]; [exists err; naive_solver|].
  unfold canTakeUnlock. cbn [forallb]. rewrite (Hl r ltac:(left)). cbn [negb andb].
  destruct (IH l reply (Some (locker_error ("unlock attempted on a read locked entity: " +:+ r)))) as (e & -> & He);
    [intros; apply Hl; by right|]. exists e. split; [done|]. intros _. apply He. by right.
Qed.

Lemma release_each_lost owner names clients held : names <> [] -> (length names <= maxDeleteList)%nat ->
  length clients = length held -> Forall (lost_names names) clients ->
  release_each owner false names clients held = Some (clients, held).
Proof.
  intros Hne Hlen. revert held. induction clients as [|c cs IH]; intros [|l ls] Hl Hf; try done.
  apply Forall_cons in Hf as [Hc Hf]. cbn [release_each]. rewrite IH by (done || (cbn in Hl; lia)).
  unfold sendRelease. destruct c as [s|]; [|done]. destruct (bool_decide_reflect (l = "")); [done|].
  cbn [nl_Unlock local_netLocker mbind option_bind]. unfold Unlock. cbn [la_Resources].
  destruct (Nat.ltb_spec maxDeleteList (length names)); [lia|].
  destruct (unlock_loop_lost (mkArgs l names "" owner 0) names s false None Hc) as (e & -> & He).
  cbn. destruct e as [e|]; [done|]. by destruct He; [left|].
Qed.


