(* ===== verification/Restore.v ===== *)
(** * The restore status of a tiered object ([cmd/bucket-lifecycle.go])

    An object version whose contents moved to a remote tier carries the status
    of its restore in the [x-amz-restore] header.  This file models the status,
    its printed form, the parser, and the test whether the restored contents are
    on the local disks.  Calendar printing and parsing of a time
    ([http.TimeFormat]) is the class [HttpTime]. *)

From Stdlib Require Import Ascii.
From S2P Require Import Prelude Erasure FileInfo.

(** ** Strings of the standard library *)

Definition chr (n : nat) : string := String (ascii_of_nat n) "".
Definition dquote : string := chr 34.

(** [strings.SplitN(s, sep, 2)] for a separator of one byte: what precedes the
    first separator, and what follows it when there is one. *)
Fixpoint split2 (sep : ascii) (s : string) : string * option string :=
  match s with
  | EmptyString => ("", None)
  | String c s =>
      if Ascii.eqb c sep then ("", Some s)
      else let '(a, b) := split2 sep s in (String c a, b)
  end.

(** The white space of [unicode.IsSpace] in UTF-8: the ASCII characters, U+0085,
    U+00A0, U+1680, U+2000 to U+200A, U+2028, U+2029, U+202F, U+205F, U+3000. *)
Definition spaces : list string :=
  (chr <$> [9; 10; 11; 12; 13; 32]%nat) ++
  [chr 194 +:+ chr 133; chr 194 +:+ chr 160; chr 225 +:+ chr 154 +:+ chr 128] ++
  ((fun n => chr 226 +:+ chr 128 +:+ chr n) <$> (seq 128 11 ++ [168; 169; 175]%nat)) ++
  [chr 226 +:+ chr 129 +:+ chr 159; chr 227 +:+ chr 128 +:+ chr 128].

(** Removes the strings of [cut] at the start of [s]; [fuel] bounds their number. *)
Fixpoint trim_left (cut : list string) (fuel : nat) (s : string) : string :=
  match fuel with
  | O => s
  | S fuel =>
      match List.find (fun p => String.prefix p s) cut with
      | None => s
      | Some p => trim_left cut fuel (String.substring (String.length p) (String.length s) s)
      end
  end.

Definition string_rev (s : string) : string := String.string_of_list_ascii (List.rev (String.list_ascii_of_string s)).

(** [strings.TrimSpace] and [strings.Trim] with a cut set of whole strings. *)
Definition trim (cut : list string) (s : string) : string :=
  let left := trim_left cut (String.length s) s in
  string_rev (trim_left (string_rev <$> cut) (String.length left) (string_rev left)).
Definition TrimSpace (s : string) : string := trim spaces s.

(** ** The status *)

Class HttpTime := {
  http_Format : time -> string;
  http_Parse : string -> result time
}.

Definition errRestoreHDRMalformed : error := ErrNew "x-amz-restore header malformed".

Record restoreObjStatus := mkRestore {
  rt_ongoing : bool;
  rt_expiry : time
}.

Definition ongoingRestoreObj : restoreObjStatus := mkRestore true 0.
(** [expiry.UTC()] is the same instant. *)
Definition completedRestoreObj (expiry : time) : restoreObjStatus := mkRestore false expiry.

Section Restore.
Context `{HttpTime}.

Definition quoted (s : string) : string := dquote +:+ s +:+ dquote.

Definition restore_String (r : restoreObjStatus) : string :=
  if rt_ongoing r then "ongoing-request=" +:+ quoted "true"
  else "ongoing-request=" +:+ quoted "false" +:+ ", expiry-date=" +:+ quoted (http_Format (rt_expiry r)).

(** The expiry of a completed restore. *)
Definition restore_Expiry (r : restoreObjStatus) : option time :=
  if rt_ongoing r then None else Some (rt_expiry r).

Definition restore_OnDisk (now : time) (r : restoreObjStatus) : bool :=
  match restore_Expiry r with Some expiry => now <? expiry | None => false end.

Definition parseRestoreObjStatus (restoreHdr : string) : result restoreObjStatus :=
  let '(token0, token1) := split2 "," restoreHdr in
  match split2 "=" token0 with
  | (_, None) => Err errRestoreHDRMalformed
  | (name, Some progress) =>
      if negb (bool_decide (TrimSpace name = "ongoing-request")) then Err errRestoreHDRMalformed
      else if bool_decide (progress = "true") || bool_decide (progress = quoted "true") then
        match token1 with None => Ok ongoingRestoreObj | Some _ => Err errRestoreHDRMalformed end
      else if bool_decide (progress = "false") || bool_decide (progress = quoted "false") then
        match token1 with
        | None => Err errRestoreHDRMalformed
        | Some token1 =>
            match split2 "=" token1 with
            | (_, None) => Err errRestoreHDRMalformed
            | (name, Some date) =>
                if negb (bool_decide (TrimSpace name = "expiry-date")) then Err errRestoreHDRMalformed
                else match http_Parse (trim [dquote] date) with
                     | Err _ => Err errRestoreHDRMalformed
                     | Ok expiry => Ok (completedRestoreObj expiry)
                     end
            end
        end
      else Err errRestoreHDRMalformed
  end.

Definition AmzRestore : string := "x-amz-restore".

Definition isRestoredObjectOnDisk (now : time) (meta : gmap string string) : bool :=
  match meta !! AmzRestore with
  | Some restoreHdr =>
      match parseRestoreObjStatus restoreHdr with Ok r => restore_OnDisk now r | Err _ => false end
  | None => false
  end.

Definition TransitionComplete : string := "complete".

Definition IsRemote (now : time) (fi : FileInfo) : bool :=
  if negb (bool_decide (fi_TransitionStatus fi = TransitionComplete)) then false
  else negb (isRestoredObjectOnDisk now (fi_Metadata fi)).
End Restore.

(** ** Facts *)

Definition no_quote (s : string) : bool :=
  List.forallb (fun c => negb (Ascii.eqb c (ascii_of_nat 34))) (String.list_ascii_of_string s).

Lemma substring_all s n : (String.length s <= n)%nat -> String.substring 0 n s = s.
Proof. revert n. induction s as [|c s IH]; intros [|n] Hn; cbn in *; [done..|lia|]. by rewrite IH by lia. Qed.

Lemma append_cons c s t : String c s +:+ t = String c (s +:+ t).
Proof. done. Qed.

Lemma list_ascii_app s t :
  String.list_ascii_of_string (s +:+ t) = String.list_ascii_of_string s ++ String.list_ascii_of_string t.
Proof. induction s as [|c s IH]; [done|]. rewrite append_cons. cbn. by rewrite IH. Qed.

Lemma string_rev_rev s : string_rev (string_rev s) = s.
Proof.
  unfold string_rev. rewrite String.list_ascii_of_string_of_list_ascii, List.rev_involutive.
  apply String.string_of_list_ascii_of_string.
Qed.

Lemma string_rev_quote s : string_rev (s +:+ dquote) = dquote +:+ string_rev s.
Proof. unfold string_rev. rewrite list_ascii_app, List.rev_app_distr. done. Qed.

Lemma string_of_list_length l : String.length (String.string_of_list_ascii l) = length l.
Proof. induction l; cbn; congruence. Qed.

Lemma list_of_string_length s : length (String.list_ascii_of_string s) = String.length s.
Proof. induction s; cbn; congruence. Qed.

Lemma string_rev_length s : String.length (string_rev s) = String.length s.
Proof. unfold string_rev. by rewrite string_of_list_length, List.length_rev, list_of_string_length. Qed.

Lemma string_length_quote s : String.length (s +:+ dquote) = S (String.length s).
Proof. induction s as [|c s IH]; [done|]. rewrite append_cons. cbn. by rewrite IH. Qed.

Lemma append_nil_r s : s +:+ "" = s.
Proof. induction s as [|c s IH]; [done|]. rewrite append_cons. cbn. by rewrite IH. Qed.

Lemma no_quote_rev s : no_quote (string_rev s) = no_quote s.
Proof.
  unfold no_quote, string_rev. rewrite String.list_ascii_of_string_of_list_ascii.
  apply eq_true_iff_eq. rewrite !forallb_forall. split; intros Hf c Hc; apply Hf; [by apply in_rev in Hc|by apply in_rev].
Qed.

(** Trimming stops at a character that is not cut, and passes over a quote. *)
Lemma trim_left_stop fuel s t : no_quote s = true -> s <> "" -> trim_left [dquote] fuel (s +:+ t) = s +:+ t.
Proof.
  intros Hq Hs. destruct s as [|c s]; [done|]. destruct fuel as [|fuel]; [done|]. cbn [trim_left].
  unfold no_quote in Hq. cbn in Hq. apply andb_true_iff in Hq as [Hc _].
  assert (String.prefix dquote (String c s +:+ t) = false) as Hp.
  { rewrite append_cons. unfold dquote, chr. cbn [String.prefix]. destruct (ascii_dec (ascii_of_nat 34) c) as [<-|_]; done. }
  cbn [List.find]. by rewrite Hp.
Qed.

Lemma trim_left_quote fuel s : (String.length s <= fuel)%nat ->
  trim_left [dquote] (S fuel) (dquote +:+ s) = trim_left [dquote] fuel s.
Proof.
  intros Hf. cbn [trim_left List.find]. assert (String.prefix dquote (dquote +:+ s) = true) as -> by (by destruct s).
  change (String.substring _ _ _) with (String.substring 0 (S (String.length s)) s).
  by rewrite substring_all by lia.
Qed.

Lemma trim_quoted s : no_quote s = true -> trim [dquote] (quoted s) = s.
Proof.
  intros Hq. unfold trim, quoted. destruct (decide (s = "")) as [->|Hs]; [reflexivity|].
  assert (string_rev s <> "") as Hr.
  { intros He. apply Hs. rewrite <-(string_rev_rev s), He. done. }
  change (String.length (dquote +:+ s +:+ dquote)) with (S (String.length (s +:+ dquote))). rewrite trim_left_quote by done.
  rewrite !trim_left_stop by done. rewrite string_rev_quote. change (string_rev <$> [dquote]) with [dquote].
  rewrite string_length_quote, trim_left_quote by (by rewrite string_rev_length).
  rewrite <-(append_nil_r (string_rev s)), trim_left_stop by (by rewrite ?no_quote_rev).
  by rewrite append_nil_r, string_rev_rev.
Qed.

(** A status that can be printed: a completed one has a printable expiry, an
    ongoing one has none. *)
Definition printable `{HttpTime} (r : restoreObjStatus) : Prop :=
  if rt_ongoing r then rt_expiry r = 0
  else http_Parse (http_Format (rt_expiry r)) = Ok (rt_expiry r) /\ no_quote (http_Format (rt_expiry r)) = true.

(** The restore header round-trips.  Parsing the printed form of a restore
    status gives the status back, and an object that carries it is on disk
    exactly when the restore completed and has not expired. *)
Theorem restore_roundtrip `{HttpTime} r : printable r ->
  parseRestoreObjStatus (restore_String r) = Ok r /\
  forall now meta, meta !! AmzRestore = Some (restore_String r) ->
    isRestoredObjectOnDisk now meta = negb (rt_ongoing r) && (now <? rt_expiry r).
Proof.
  intros Hr. assert (parseRestoreObjStatus (restore_String r) = Ok r) as Hp.
  { destruct r as [[] e]; unfold printable in Hr; cbn [rt_ongoing rt_expiry] in Hr.
    { rewrite Hr. reflexivity. }
    destruct Hr as [Hpr Hq]. unfold restore_String. cbn [rt_ongoing rt_expiry].
    unfold parseRestoreObjStatus.
    assert (forall t, split2 "," ("ongoing-request=" +:+ quoted "false" +:+ ", expiry-date=" +:+ t) =
      ("ongoing-request=" +:+ quoted "false", Some (" expiry-date=" +:+ t))) as -> by reflexivity.
    assert (split2 "=" ("ongoing-request=" +:+ quoted "false") = ("ongoing-request", Some (quoted "false"))) as -> by reflexivity.
    assert (forall t, split2 "=" (" expiry-date=" +:+ t) = (" expiry-date", Some t)) as Hs by reflexivity.
    cbn beta iota. rewrite Hs. cbn beta iota. rewrite trim_quoted, Hpr by done. reflexivity. }
  split; [done|]. intros now meta Hm. unfold isRestoredObjectOnDisk. rewrite Hm, Hp.
  unfold restore_OnDisk, restore_Expiry. by destruct (rt_ongoing r).
Qed.

#[local] Instance sample_HttpTime : HttpTime := {|
  http_Format t := if t =? 5 then "Thu, 01 Jan 1970 00:00:05 GMT" else "";
  http_Parse s := if bool_decide (s = "Thu, 01 Jan 1970 00:00:05 GMT") then Ok 5 else Err (ErrNew "parse")
|}.

Lemma restore_roundtrip_witness :
  parseRestoreObjStatus (restore_String (mkRestore false 5)) = Ok (mkRestore false 5) /\
  isRestoredObjectOnDisk 4 {[AmzRestore := restore_String (mkRestore false 5)]} = true.
Proof.
  destruct (restore_roundtrip (mkRestore false 5)) as [H1 H2]; [by split|]. split; [exact H1|].
  rewrite (H2 4); [reflexivity|]. apply lookup_singleton_eq.
Defined.
