(* ===== verification/Inline.v ===== *)
(** * Inline data of an object's metadata file ([cmd/xl-storage-meta-inline.go])

    Small objects are stored inside [xl.meta], after the versions: a version byte
    followed by a MessagePack map from version keys to contents.  The operations
    below work on the serialized bytes, as the source does; [inline_refines]
    relates them to an ordered list of entries.  The MessagePack primitives are
    third-party code, the class [Msgp].  A byte slice used as a key is a [string];
    a [nil] slice returned as a value is [None]. *)

From S2P Require Import Prelude.

(** Each reader returns its value, the rest of the buffer and an error. *)
Class Msgp := {
  ReadMapHeaderBytes : bytes -> Z * bytes * option error;
  ReadMapKeyZC : bytes -> string * bytes * option error;
  ReadBytesZC : bytes -> option bytes * bytes * option error;
  AppendMapHeader : Z -> bytes;
  AppendString : string -> bytes;
  AppendBytes : bytes -> bytes
}.

(** MessagePack sizes are 32-bit. *)
Definition key_fits (k : string) : Prop := Z.of_nat (String.length k) < 2 ^ 32.
Definition bytes_fit (b : bytes) : Prop := len b < 2 ^ 32.

Class MsgpLaws (M : Msgp) := {
  Read_MapHeader : forall n rest, 0 <= n < 2 ^ 32 -> ReadMapHeaderBytes (AppendMapHeader n ++ rest) = (n, rest, None);
  Read_MapKey : forall k rest, key_fits k -> ReadMapKeyZC (AppendString k ++ rest) = (k, rest, None);
  Read_Bytes : forall b rest, bytes_fit b -> ReadBytesZC (AppendBytes b ++ rest) = (Some b, rest, None);
  Read_MapHeader_nil : (ReadMapHeaderBytes []).1.1 = 0
}.

(** ** Operations *)

Definition xlMetaInlineData := bytes.
Definition xlMetaInlineDataVer : Z := 1.

Definition byte_val (b : byte) : Z := Z.of_N (Byte.to_N b).

Definition versionOK (x : xlMetaInlineData) : bool :=
  match x with [] => true | v :: _ => (0 <? byte_val v) && (byte_val v <=? xlMetaInlineDataVer) end.

Definition afterVersion (x : xlMetaInlineData) : bytes := match x with [] => x | _ :: x => x end.

Section Inline.
Context `{Msgp}.

(** The loop of [find] over [n] more entries. *)
Fixpoint find_loop (key : string) (n : nat) (buf : bytes) : option bytes :=
  match n with
  | O => None
  | S n =>
      match ReadMapKeyZC buf with
      | (_, _, Some _) => None
      | (found, buf, None) =>
          if bool_decide (found = key) then (ReadBytesZC buf).1.1
          else match ReadBytesZC buf with
               | (_, _, Some _) => None
               | (_, buf, None) => find_loop key n buf
               end
      end
  end.

Definition find (x : xlMetaInlineData) (key : string) : option bytes :=
  if (length x =? 0)%nat || negb (versionOK x) then None
  else match ReadMapHeaderBytes (afterVersion x) with
       | (_, _, Some _) => None
       | (sz, buf, None) => if sz =? 0 then None else find_loop key (Z.to_nat sz) buf
       end.

Definition errInlineVersion : error := ErrNew "xlMetaInlineData: unknown version".
Definition errInlineKey : error := Errorf 0 "xlMetaInlineData: key is length 0".
Definition wrap_inline (e : error) : error := ErrWrap 0 "xlMetaInlineData: " e.

Fixpoint validate_loop (n : nat) (buf : bytes) : option error :=
  match n with
  | O => None
  | S n =>
      match ReadMapKeyZC buf with
      | (_, _, Some e) => Some (wrap_inline e)
      | (key, buf, None) =>
          if bool_decide (key = "") then Some errInlineKey
          else match ReadBytesZC buf with
               | (_, _, Some e) => Some (wrap_inline e)
               | (_, buf, None) => validate_loop n buf
               end
      end
  end.

Definition validate (x : xlMetaInlineData) : option error :=
  if (length x =? 0)%nat then None
  else if negb (versionOK x) then Some errInlineVersion
  else match ReadMapHeaderBytes (afterVersion x) with
       | (_, _, Some e) => Some (wrap_inline e)
       | (sz, buf, None) => validate_loop (Z.to_nat sz) buf
       end.

(** [serialize]: the payload size only reserves memory.  [None] is the panic on
    slices of different lengths. *)
Definition serialize (keys : list string) (vals : list bytes) : option xlMetaInlineData :=
  if negb (length keys =? length vals)%nat then None
  else if (length keys =? 0)%nat then Some []
  else Some (Byte.x01 :: AppendMapHeader (wrapu32 (len keys)) ++
             concat (zip_with (fun k v => AppendString k ++ AppendBytes v) keys vals)).

(** The loop that copies entries: [skip_empty] is the test of [repair] for an
    empty key.  A [nil] value is copied as an empty one. *)
Fixpoint copy_loop (skip_empty : bool) (n : nat) (buf : bytes) : list (string * bytes) :=
  match n with
  | O => []
  | S n =>
      match ReadMapKeyZC buf with
      | (_, _, Some _) => []
      | (key, buf, None) =>
          if skip_empty && bool_decide (key = "") then []
          else match ReadBytesZC buf with
               | (_, _, Some _) => []
               | (val, buf, None) => (key, default [] val) :: copy_loop skip_empty n buf
               end
      end
  end.

Definition repair (x : xlMetaInlineData) : option xlMetaInlineData :=
  if (length x =? 0)%nat then Some x
  else if negb (versionOK x) then Some []
  else match ReadMapHeaderBytes (afterVersion x) with
       | (_, _, Some _) => Some []
       | (sz, buf, None) =>
           let es := copy_loop true (Z.to_nat sz) buf in serialize es.*1 es.*2
       end.

(** The keys read before an error, and the error. *)
Fixpoint list_loop (n : nat) (buf : bytes) : list string * option error :=
  match n with
  | O => ([], None)
  | S n =>
      match ReadMapKeyZC buf with
      | (_, _, Some e) => ([], Some e)
      | (key, buf, None) =>
          if bool_decide (key = "") then ([], Some errInlineKey)
          else match ReadBytesZC buf with
               | (_, _, Some e) => ([key], Some e)
               | (_, buf, None) => let '(keys, err) := list_loop n buf in (key :: keys, err)
               end
      end
  end.

Definition inline_list (x : xlMetaInlineData) : list string * option error :=
  if (length x =? 0)%nat then ([], None)
  else if negb (versionOK x) then ([], Some errInlineVersion)
  else match ReadMapHeaderBytes (afterVersion x) with
       | (_, _, Some e) => ([], Some e)
       | (sz, buf, None) => list_loop (Z.to_nat sz) buf
       end.

Definition entries (x : xlMetaInlineData) : Z :=
  if (length x =? 0)%nat || negb (versionOK x) then 0
  else (ReadMapHeaderBytes (afterVersion x)).1.1.

(** The entries [replace], [rename] and [remove] copy. *)
Definition copied (x : xlMetaInlineData) : list (string * bytes) :=
  let '(sz, buf, _) := ReadMapHeaderBytes (afterVersion x) in copy_loop false (Z.to_nat sz) buf.

Definition replace (x : xlMetaInlineData) (key : string) (value : bytes) : option xlMetaInlineData :=
  let es := copied x in
  let es' := (fun e => if bool_decide (e.1 = key) then (e.1, value) else e) <$> es in
  let es'' := if existsb (fun e => bool_decide (e.1 = key)) es then es' else es' ++ [(key, value)] in
  serialize es''.*1 es''.*2.

(** The data after the operation, and whether the key was found. *)
Definition rename (x : xlMetaInlineData) (oldKey newKey : string) : option (xlMetaInlineData * bool) :=
  let es := copied x in
  let es' := (fun e => if bool_decide (e.1 = oldKey) then (newKey, e.2) else e) <$> es in
  if negb (existsb (fun e => bool_decide (e.1 = oldKey)) es) then Some (x, false)
  else (fun x' => (x', true)) <$> serialize es'.*1 es'.*2.

(** [removeKey]: by a set when there are many keys, by a scan otherwise. *)
Definition removeKey (sz : Z) (keys : list string) (s : string) : bool :=
  if (5 <? length keys)%nat && (5 <? sz) then bool_decide (s ∈ (list_to_set keys : gset string))
  else existsb (fun key => bool_decide (key = s)) keys.

Definition remove (x : xlMetaInlineData) (keys : list string) : option (xlMetaInlineData * bool) :=
  let sz := (ReadMapHeaderBytes (afterVersion x)).1.1 in
  let es := copied x in
  let es' := List.filter (fun e => negb (removeKey sz keys e.1)) es in
  if negb (existsb (fun e => removeKey sz keys e.1) es) then Some (x, false)
  else if (length es' =? 0)%nat then Some ([], true)
  else (fun x' => (x', true)) <$> serialize es'.*1 es'.*2.
End Inline.

(** The operations never reach the panic of [serialize]. *)
Lemma serialize_total `{Msgp} (es : list (string * bytes)) : exists x, serialize es.*1 es.*2 = Some x.
Proof.
  unfold serialize. rewrite !length_fmap, Nat.eqb_refl. cbn [negb]. destruct (length es =? 0)%nat; by eexists.
Qed.

Lemma replace_total `{Msgp} x key value : exists x', replace x key value = Some x'.
Proof. unfold replace. apply serialize_total. Qed.

(** ** The entries the bytes stand for *)

Definition fits (l : list (string * bytes)) : Prop :=
  len l < 2 ^ 32 /\ Forall (fun e => key_fits e.1 /\ bytes_fit e.2) l.

(** The operations on a list of entries. *)
Definition entries_replace (l : list (string * bytes)) (key : string) (value : bytes) : list (string * bytes) :=
  let l' := (fun e => if bool_decide (e.1 = key) then (e.1, value) else e) <$> l in
  if existsb (fun e => bool_decide (e.1 = key)) l then l' else l' ++ [(key, value)].
Definition entries_rename (l : list (string * bytes)) (oldKey newKey : string) : list (string * bytes) :=
  (fun e => if bool_decide (e.1 = oldKey) then (newKey, e.2) else e) <$> l.
Definition entries_remove (l : list (string * bytes)) (keys : list string) : list (string * bytes) :=
  List.filter (fun e => negb (bool_decide (e.1 ∈ keys))) l.
Definition entries_find (l : list (string * bytes)) (key : string) : option bytes :=
  snd <$> List.find (fun e => bool_decide (e.1 = key)) l.

Section Refinement.
Context {M : Msgp} {ML : MsgpLaws M}.

Definition entry_bytes (e : string * bytes) : bytes := AppendString e.1 ++ AppendBytes e.2.

(** The serialized form of a list of entries. *)
Definition encode (l : list (string * bytes)) : xlMetaInlineData :=
  if (length l =? 0)%nat then [] else Byte.x01 :: AppendMapHeader (len l) ++ concat (entry_bytes <$> l).

Lemma serialize_encode l : fits l -> serialize l.*1 l.*2 = Some (encode l).
Proof.
  intros [Hl _]. unfold serialize, encode. rewrite !length_fmap, Nat.eqb_refl. cbn [negb].
  destruct (length l =? 0)%nat; [done|]. unfold wrapu32. rewrite Z.mod_small by lia. do 3 f_equal.
  clear. induction l as [|e l IH]; [done|]. csimpl. by rewrite IH.
Qed.

Lemma encode_header l : fits l ->
  ReadMapHeaderBytes (afterVersion (encode l)) =
    if (length l =? 0)%nat then ReadMapHeaderBytes [] else (len l, concat (entry_bytes <$> l), None).
Proof.
  intros [Hl _]. unfold encode. destruct (length l =? 0)%nat; [done|]. cbn [afterVersion].
  apply Read_MapHeader. lia.
Qed.

Lemma fits_cons e l : fits (e :: l) -> key_fits e.1 /\ bytes_fit e.2 /\ fits l.
Proof. intros [Hl [[? ?] ?]%Forall_cons]. split_and!; [done..|]. split; [cbn in Hl; lia|done]. Qed.

Lemma copy_loop_entries skip l : fits l -> (skip = true -> Forall (fun e => e.1 <> "") l) ->
  copy_loop skip (length l) (concat (entry_bytes <$> l)) = l.
Proof.
  induction l as [|[k v] l IH]; intros Hf Hs; [done|]. apply fits_cons in Hf as (Hk & Hv & Hf). csimpl.
  cbn [copy_loop]. unfold entry_bytes at 1. cbn [fst snd]. rewrite <-!app_assoc, Read_MapKey by done.
  assert (skip && bool_decide (k = "") = false) as ->.
  { destruct skip; [|done]. specialize (Hs eq_refl). apply Forall_cons in Hs as [? _]. by rewrite bool_decide_eq_false_2. }
  rewrite Read_Bytes by done. cbn [default from_option]. rewrite IH; [done..|].
  intros ->. specialize (Hs eq_refl). by apply Forall_cons in Hs as [_ ?].
Qed.

Lemma copied_encode l : fits l -> copied (encode l) = l.
Proof.
  intros Hf. unfold copied. rewrite encode_header by done. destruct (Nat.eqb_spec (length l) 0) as [Hz|Hz].
  - pose proof Read_MapHeader_nil as Hn. destruct (ReadMapHeaderBytes []) as [[sz buf] err]. cbn in Hn. subst sz. by destruct l.
  - rewrite Nat2Z.id. by apply copy_loop_entries.
Qed.

Lemma header_size l : fits l -> (ReadMapHeaderBytes (afterVersion (encode l))).1.1 = len l.
Proof.
  intros Hf. rewrite encode_header by done. destruct (Nat.eqb_spec (length l) 0) as [->|]; [apply Read_MapHeader_nil|done].
Qed.

Lemma find_loop_entries key l : fits l -> find_loop key (length l) (concat (entry_bytes <$> l)) = entries_find l key.
Proof.
  induction l as [|[k v] l IH]; intros Hf; [done|]. apply fits_cons in Hf as (Hk & Hv & Hf). csimpl.
  cbn [find_loop]. unfold entry_bytes at 1. cbn [fst snd]. rewrite <-!app_assoc, Read_MapKey by done.
  unfold entries_find. cbn [List.find fst]. case_bool_decide; rewrite Read_Bytes by done; [done|]. by apply IH.
Qed.

Lemma list_loop_entries l : fits l -> Forall (fun e => e.1 <> "") l ->
  list_loop (length l) (concat (entry_bytes <$> l)) = (l.*1, None) /\
  validate_loop (length l) (concat (entry_bytes <$> l)) = None.
Proof.
  induction l as [|[k v] l IH]; intros Hf Hs; [done|]. apply fits_cons in Hf as (Hk & Hv & Hf).
  apply Forall_cons in Hs as [Hne Hs]. cbn [fst] in Hne. destruct (IH Hf Hs) as [IH1 IH2]. csimpl. cbn [list_loop validate_loop].
  unfold entry_bytes at 1 3. cbn [fst snd]. rewrite <-!app_assoc, Read_MapKey by done.
  rewrite bool_decide_eq_false_2 by done. rewrite Read_Bytes by done. by rewrite IH1.
Qed.

Lemma encode_nonempty l : (length (encode l) =? 0)%nat = (length l =? 0)%nat.
Proof. unfold encode. by destruct (length l =? 0)%nat. Qed.

Lemma encode_version l : versionOK (encode l) = true.
Proof. unfold encode. by destruct (length l =? 0)%nat. Qed.

Lemma fits_incl l l' : fits l -> (length l' <= length l)%nat -> (forall e, e ∈ l' -> key_fits e.1 /\ bytes_fit e.2) -> fits l'.
Proof. intros [Hl _] Hle Hall. split; [lia|]. by apply Forall_forall. Qed.

Lemma removeKey_spec sz keys s : removeKey sz keys s = bool_decide (s ∈ keys).
Proof.
  unfold removeKey. destruct (_ && _); [apply bool_decide_ext; by rewrite elem_of_list_to_set|].
  apply eq_true_iff_eq. rewrite existsb_exists, bool_decide_eq_true. split.
  - intros (k & Hk & ->%bool_decide_eq_true). by rewrite list_elem_of_In.
  - intros Hs. exists s. rewrite <-list_elem_of_In. split; [done|]. by apply bool_decide_eq_true.
Qed.
End Refinement.

Section Operations.
Context {M : Msgp} {ML : MsgpLaws M}.
Implicit Types l : list (string * bytes).

Lemma find_encode l key : fits l -> find (encode l) key = entries_find l key.
Proof.
  intros Hf. unfold find. rewrite encode_nonempty, encode_version, encode_header by done. cbn [negb]. rewrite orb_false_r.
  destruct (Nat.eqb_spec (length l) 0) as [Hz|Hz]; [by destruct l|]. destruct (Z.eqb_spec (len l) 0); [lia|].
  rewrite Nat2Z.id. by apply find_loop_entries.
Qed.

Lemma replace_encode l key value : fits l -> key_fits key -> bytes_fit value -> len l + 1 < 2 ^ 32 ->
  replace (encode l) key value = Some (encode (entries_replace l key value)).
Proof.
  intros Hf Hk Hv Hl. unfold replace. rewrite copied_encode by done. apply serialize_encode.
  destruct Hf as [_ Hall]. unfold entries_replace. split.
  - destruct (existsb _ l); rewrite ?length_app, length_fmap; cbn; lia.
  - assert (Forall (fun e => key_fits e.1 /\ bytes_fit e.2) ((fun e => if bool_decide (e.1 = key) then (e.1, value) else e) <$> l)) as Hm.
    { apply Forall_fmap. eapply Forall_impl; [done|]. intros e [? ?]. cbn. by case_bool_decide. }
    destruct (existsb _ l); [done|]. apply Forall_app. split; [done|]. by repeat constructor.
Qed.

Lemma rename_encode l k k' : fits l -> key_fits k' ->
  rename (encode l) k k' = Some (encode (entries_rename l k k'), existsb (fun e => bool_decide (e.1 = k)) l).
Proof.
  intros Hf Hk. unfold rename. rewrite copied_encode by done. destruct (existsb _ l) eqn:E; cbn [negb].
  - rewrite serialize_encode; [done|]. eapply fits_incl; [done|by rewrite length_fmap|].
    intros e (e' & -> & He)%list_elem_of_fmap. destruct Hf as [_ Hall]. rewrite Forall_forall in Hall.
    destruct (Hall e' He). by case_bool_decide.
  - do 3 f_equal. unfold entries_rename. rewrite <-(list_fmap_id l) at 1. apply list_fmap_ext. intros i e He. cbn.
    case_bool_decide as Hb; [|done]. exfalso. enough (existsb (fun e => bool_decide (e.1 = k)) l = true) by congruence.
    apply existsb_exists. exists e. rewrite <-list_elem_of_In. split; [by eapply list_elem_of_lookup_2|]. by apply bool_decide_eq_true.
Qed.

Lemma remove_encode l keys : fits l ->
  remove (encode l) keys = Some (encode (entries_remove l keys), existsb (fun e => bool_decide (e.1 ∈ keys)) l).
Proof.
  intros Hf. unfold remove. rewrite copied_encode by done. cbv zeta.
  generalize (ReadMapHeaderBytes (afterVersion (encode l))).1.1 as sz. intros sz.
  assert (List.filter (fun e => negb (removeKey sz keys e.1)) l = entries_remove l keys) as ->.
  { apply List.filter_ext. intros e. by rewrite removeKey_spec. }
  assert (existsb (fun e => removeKey sz keys e.1) l = existsb (fun e => bool_decide (e.1 ∈ keys)) l) as ->.
  { clear. induction l as [|e l IH]; [done|]. cbn [existsb]. by rewrite removeKey_spec, IH. }
  destruct (existsb _ l) eqn:E; cbn [negb].
  - destruct (length (entries_remove l keys) =? 0)%nat eqn:En; [unfold encode; by rewrite En|].
    rewrite serialize_encode; [done|]. eapply fits_incl; [done|apply List.filter_length_le|]. intros e He. unfold entries_remove in He.
    apply list_elem_of_In, List.filter_In in He as [He _]. destruct Hf as [_ Hall]. rewrite Forall_forall in Hall. apply Hall. by rewrite list_elem_of_In.
  - do 3 f_equal. unfold entries_remove. clear -E. induction l as [|e l IH]; [done|]. cbn [existsb List.filter] in *.
    apply orb_false_iff in E as [-> E]. cbn [negb]. by rewrite <-IH.
Qed.

Lemma validate_encode l : fits l -> Forall (fun e => e.1 <> "") l -> validate (encode l) = None.
Proof.
  intros Hf Hne. unfold validate. rewrite encode_nonempty, encode_version, encode_header by done. cbn [negb].
  destruct (Nat.eqb_spec (length l) 0) as [Hz|Hz]; [done|]. rewrite Nat2Z.id. apply (list_loop_entries l Hf Hne).
Qed.

Lemma entries_find_replace l key value : entries_find (entries_replace l key value) key = Some value.
Proof.
  unfold entries_find, entries_replace. induction l as [|[k v] l IH]; cbn [existsb fmap list_fmap].
  - cbn. by rewrite bool_decide_eq_true_2.
  - cbn [fst]. case_bool_decide as Hk; cbn [orb].
    + cbn [List.find fst]. by rewrite bool_decide_eq_true_2.
    + destruct (existsb _ l); cbn [List.find app fst]; rewrite bool_decide_eq_false_2 by done; exact IH.
Qed.

(** Entries that [validate] accepts, with room for one more. *)
Definition well_keyed (l : list (string * bytes)) : Prop := fits l /\ Forall (fun e => e.1 <> "") l.

Lemma well_keyed_remove l keys : well_keyed l -> well_keyed (entries_remove l keys).
Proof.
  intros [Hf Hne]. assert (forall e, e ∈ entries_remove l keys -> e ∈ l) as Hin.
  { intros e. unfold entries_remove. rewrite !list_elem_of_In, List.filter_In. tauto. }
  split.
  - eapply fits_incl; [done|apply List.filter_length_le|]. intros e He. destruct Hf as [_ Hall]. rewrite Forall_forall in Hall. by apply Hall, Hin.
  - rewrite Forall_forall in *. intros e He. by apply Hne, Hin.
Qed.

Lemma well_keyed_replace l key value : well_keyed l -> key <> "" -> key_fits key -> bytes_fit value -> len l + 1 < 2 ^ 32 ->
  well_keyed (entries_replace l key value).
Proof.
  intros [[_ Hall] Hne] Hk Hkf Hv Hl. unfold entries_replace.
  set (l' := (fun e => if bool_decide (e.1 = key) then (e.1, value) else e) <$> l).
  assert (Forall (fun e => (key_fits e.1 /\ bytes_fit e.2) /\ e.1 <> "") l') as Hl'.
  { unfold l'. rewrite Forall_fmap, Forall_forall in *. intros e He. destruct (Hall e He). specialize (Hne e He). cbn. by case_bool_decide. }
  assert (length l' = length l) as Hlen by (unfold l'; apply length_fmap).
  destruct (existsb _ l); (split; [split|]).
  - lia.
  - eapply Forall_impl; [exact Hl'|]. by intros e [? _].
  - eapply Forall_impl; [exact Hl'|]. by intros e [_ ?].
  - rewrite length_app. cbn. lia.
  - apply Forall_app. split; [eapply Forall_impl; [exact Hl'|]; by intros e [? _]|]. by repeat constructor.
  - apply Forall_app. split; [eapply Forall_impl; [exact Hl'|]; by intros e [_ ?]|]. by repeat constructor.
Qed.

(** C38: inline data is a list of entries.  On the serialized form of entries
    that fit the 32-bit sizes, every operation is the corresponding operation on
    the list: [find] returns the first entry of a key, [replace], [rename] and
    [remove] give the serialized form of the changed list and say whether the key
    was found, [entries] and [list] give its length and keys, [validate] accepts
    it and [repair] leaves it as it is; none panics. *)
Theorem inline_refines l : fits l ->
  (forall key, find (encode l) key = entries_find l key) /\
  (forall key value, key_fits key -> bytes_fit value -> len l + 1 < 2 ^ 32 ->
     replace (encode l) key value = Some (encode (entries_replace l key value))) /\
  (forall k k', key_fits k' ->
     rename (encode l) k k' = Some (encode (entries_rename l k k'), existsb (fun e => bool_decide (e.1 = k)) l)) /\
  (forall keys, remove (encode l) keys = Some (encode (entries_remove l keys), existsb (fun e => bool_decide (e.1 ∈ keys)) l)) /\
  entries (encode l) = len l /\
  (Forall (fun e => e.1 <> "") l ->
     inline_list (encode l) = (l.*1, None) /\ validate (encode l) = None /\ repair (encode l) = Some (encode l)).
Proof.
  intros Hf. split_and!; [by intros; apply find_encode|by intros; apply replace_encode|by intros; apply rename_encode
    |by intros; apply remove_encode| |].
  - unfold entries. rewrite encode_nonempty, encode_version, header_size by done. cbn [negb]. rewrite orb_false_r.
    by destruct (Nat.eqb_spec (length l) 0) as [->|].
  - intros Hne. unfold inline_list, validate, repair. rewrite encode_nonempty, encode_version, encode_header by done. cbn [negb].
    destruct (Nat.eqb_spec (length l) 0) as [Hz|Hz]; [by destruct l|]. rewrite Nat2Z.id.
    destruct (list_loop_entries l Hf Hne) as [-> ->]. rewrite copy_loop_entries by done. by rewrite serialize_encode.
Qed.
End Operations.

(** ** A concrete encoding

    The 32-bit forms of MessagePack: a type byte and a big-endian size. *)

Definition byte_of (z : Z) : byte := default Byte.x00 (Byte.of_N (Z.to_N (z mod 256))).

Lemma byte_val_of z : byte_val (byte_of z) = z mod 256.
Proof.
  unfold byte_val, byte_of. pose proof (Z.mod_pos_bound z 256 ltac:(lia)) as Hb.
  destruct (Byte.of_N (Z.to_N (z mod 256))) as [b|] eqn:E.
  - apply Byte.to_of_N in E. change (default Byte.x00 (Some b)) with b. rewrite E. lia.
  - apply Byte.of_N_None_iff in E. lia.
Qed.

Definition put32 (n : Z) : bytes := byte_of <$> [n / 2 ^ 24; n / 2 ^ 16; n / 2 ^ 8; n].
Definition get32 (b : bytes) : option (Z * bytes) :=
  match b with
  | b3 :: b2 :: b1 :: b0 :: rest =>
      Some (byte_val b3 * 2 ^ 24 + byte_val b2 * 2 ^ 16 + byte_val b1 * 2 ^ 8 + byte_val b0, rest)
  | _ => None
  end.

Lemma get_put32 n rest : 0 <= n < 2 ^ 32 -> get32 (put32 n ++ rest) = Some (n, rest).
Proof.
  intros Hn. cbn [put32 fmap list_fmap app get32]. rewrite !byte_val_of. do 2 f_equal.
  Z.div_mod_to_equations. lia.
Qed.

Definition ErrShortBytes : error := ErrNew "msgp: too few bytes left to read object".

(** A size after the type byte [t], followed by that many bytes. *)
Definition read_sized (t : byte) (b : bytes) : option (Z * bytes) :=
  match b with b0 :: b => if bool_decide (b0 = t) then get32 b else None | [] => None end.
Definition read_chunk (t : byte) (b : bytes) : option (bytes * bytes) :=
  match read_sized t b with
  | Some (n, b) => if n <=? len b then Some (take (Z.to_nat n) b, drop (Z.to_nat n) b) else None
  | None => None
  end.

Lemma read_chunk_ok t v rest : bytes_fit v -> read_chunk t ((t :: put32 (len v) ++ v) ++ rest) = Some (v, rest).
Proof.
  intros Hv. unfold bytes_fit in Hv. unfold read_chunk, read_sized. cbn [app]. rewrite bool_decide_eq_true_2 by done.
  rewrite <-app_assoc, get_put32 by lia. rewrite length_app.
  destruct (Z.leb_spec (len v) (Z.of_nat (length v + length rest))); [|lia]. by rewrite Nat2Z.id, take_app_length, drop_app_length.
Qed.

#[export] Instance msgp32 : Msgp := {|
  ReadMapHeaderBytes b := match read_sized Byte.xdf b with
                          | Some (n, b) => (n, b, None) | None => (0, [], Some ErrShortBytes) end;
  ReadMapKeyZC b := match read_chunk Byte.xdb b with
                    | Some (k, b) => (String.string_of_list_byte k, b, None) | None => ("", [], Some ErrShortBytes) end;
  ReadBytesZC b := match read_chunk Byte.xc6 b with
                   | Some (v, b) => (Some v, b, None) | None => (None, [], Some ErrShortBytes) end;
  AppendMapHeader n := Byte.xdf :: put32 n;
  AppendString k := Byte.xdb :: put32 (len (String.list_byte_of_string k)) ++ String.list_byte_of_string k;
  AppendBytes v := Byte.xc6 :: put32 (len v) ++ v
|}.

Lemma list_byte_length s : length (String.list_byte_of_string s) = String.length s.
Proof.
  unfold String.list_byte_of_string. rewrite List.length_map. induction s; cbn; congruence.
Qed.

#[export] Instance msgp32_laws : MsgpLaws msgp32.
Proof.
  split; cbn [ReadMapHeaderBytes ReadMapKeyZC ReadBytesZC AppendMapHeader AppendString AppendBytes msgp32].
  - intros n rest Hn. unfold read_sized. cbn [app]. rewrite bool_decide_eq_true_2 by done. by rewrite get_put32.
  - intros k rest Hk. rewrite read_chunk_ok; [by rewrite String.string_of_list_byte_of_string|].
    unfold bytes_fit. rewrite list_byte_length. done.
  - intros b rest Hb. by rewrite read_chunk_ok.
  - done.
Qed.

Definition sample_entries : list (string * bytes) := [("null", [Byte.x01]); ("v2", [])].

Lemma inline_refines_witness :
  find (encode sample_entries) "null" = Some [Byte.x01] /\
  remove (encode sample_entries) ["null"] = Some (encode [("v2", [])], true) /\
  repair (encode sample_entries) = Some (encode sample_entries).
Proof.
  destruct (inline_refines sample_entries) as (H1 & _ & _ & H2 & _ & H3).
  - split; [cbn; lia|]. repeat constructor.
  - split_and!; [rewrite H1; reflexivity|rewrite H2; reflexivity|]. apply H3. repeat constructor; discriminate.
Defined.
