(* ===== verification/XLMeta.v ===== *)
(** * The version journal of an object ([cmd/xl-storage-format-v2.go])

    [xl.meta] holds the versions of an object, latest first: for each a shallow
    header and the encoded version.  A [[16]byte] or [[4]byte] array is the number
    its bytes spell in big endian, so that array equality and [bytes.Compare] are
    equality and order of numbers.  A byte slice used as text is a [string].

    The message encoding of a version and its hash are generated or third-party
    code, and so are UUID parsing and printing: they are the class [XLLib].  A
    nil pointer dereference is the panic [None]. *)

From Stdlib Require Import Ascii.
From S2P Require Import Prelude Erasure FileInfo Quorum Restore Inline.

(** ** Data *)

Definition invalidVersionType : Z := 0.
Definition ObjectType : Z := 1.
Definition DeleteType : Z := 2.
Definition LegacyType : Z := 3.
Definition lastVersionType : Z := 4.
Definition VersionType_valid (e : Z) : bool := (invalidVersionType <? e) && (e <? lastVersionType).

Definition ReedSolomon : Z := 1.
Definition ErasureAlgo_valid (e : Z) : bool := (0 <? e) && (e <? 2).
Definition HighwayHash : Z := 1.
Definition ChecksumAlgo_valid (e : Z) : bool := (0 <? e) && (e <? 2).

Record xlMetaV2DeleteMarker := mkDel {
  dm_VersionID : N;
  dm_ModTime : Z;
  dm_MetaSys : gmap string string
}.

Record xlMetaV2Object := mkObj {
  ob_VersionID : N;
  ob_DataDir : N;
  ob_ErasureAlgorithm : Z;
  ob_ErasureM : Z;
  ob_ErasureN : Z;
  ob_ErasureBlockSize : Z;
  ob_ErasureIndex : Z;
  ob_ErasureDist : list Z;
  ob_BitrotChecksumAlgo : Z;
  ob_PartNumbers : list Z;
  ob_PartETags : list string;
  ob_PartSizes : list Z;
  ob_PartActualSizes : list Z;
  ob_PartIndices : list bytes;
  ob_Size : Z;
  ob_ModTime : Z;
  ob_MetaSys : gmap string string;
  ob_MetaUser : gmap string string
}.

(** [cmd/xl-storage-format-v1.go] *)
Record xlMetaV1Object := mkV1 {
  v1_Version : string;
  v1_Format : string;
  v1_Size : Z;
  v1_ModTime : time;
  v1_Name : string;
  v1_Dir : bool;
  v1_Mode : Z;
  v1_Erasure : ErasureInfo;
  v1_Release : string;
  v1_Meta : gmap string string;
  v1_Parts : list ObjectPartInfo;
  v1_VersionID : string;
  v1_DataDir : string
}.

Record xlMetaV2Version := mkVersion {
  ve_Type : Z;
  ve_ObjectV1 : option xlMetaV1Object;
  ve_ObjectV2 : option xlMetaV2Object;
  ve_DeleteMarker : option xlMetaV2DeleteMarker;
  ve_WrittenByVersion : Z
}.

Record xlMetaV2VersionHeader := mkHeader {
  vh_VersionID : N;
  vh_ModTime : Z;
  vh_Signature : N;
  vh_Type : Z;
  vh_Flags : Z
}.

#[global] Instance header_eq_dec : EqDecision xlMetaV2VersionHeader.
Proof. solve_decision. Defined.

#[global] Instance header_countable : Countable xlMetaV2VersionHeader.
Proof.
  refine (inj_countable' (fun h => (vh_VersionID h, vh_ModTime h, vh_Signature h, vh_Type h, vh_Flags h))
            (fun '(a, b, c, d, e) => mkHeader a b c d e) _). by intros [].
Defined.

Record xlMetaV2ShallowVersion := mkShallow {
  sv_header : xlMetaV2VersionHeader;
  sv_meta : bytes
}.

Record xlMetaV2 := mkXL {
  xl_versions : list xlMetaV2ShallowVersion;
  xl_data : xlMetaInlineData;
  xl_metaV : Z
}.

(** Generated and third-party code: the message encoding of a version and of its
    parts, the hash functions, UUIDs, the release time stamp. *)
Class XLLib := {
  uuid_Parse : string -> result N;
  uuid_String : N -> string;
  MarshalMsg : xlMetaV2Version -> result bytes;
  UnmarshalMsg : bytes -> result xlMetaV2Version;
  object_MarshalMsg : xlMetaV2Object -> result bytes;
  marker_MarshalMsg : xlMetaV2DeleteMarker -> result bytes;
  legacy_MarshalMsg : xlMetaV1Object -> result bytes;
  xxhash_Sum64 : bytes -> Z;
  xxh3_HashString : string -> Z;
  globalVersionUnix : Z
}.

(** What the code relies on: decoding an encoded version gives it back, parsing a
    printed UUID does, and a decoded [int64] is one. *)
Class XLLaws (L : XLLib) := {
  Unmarshal_Marshal : forall v b, MarshalMsg v = Ok b -> UnmarshalMsg b = Ok v;
  Parse_String : forall u, uuid_Parse (uuid_String u) = Ok u;
  Unmarshal_int64 : forall b v o, UnmarshalMsg b = Ok v -> ve_ObjectV2 v = Some o -> int64_range (ob_ModTime o)
}.

(** ** Constants *)

Definition nullVersionID : string := "null".
Definition reserved (s : string) : string := ReservedMetadataPrefixLower +:+ s.
Definition TransitionStatusKey : string := reserved "transition-status".
Definition TransitionedObjectNameKey : string := reserved "transitioned-object".
Definition TransitionedVersionIDKey : string := reserved "transitioned-versionID".
Definition TransitionTierKey : string := reserved "transition-tier".
Definition ReplicaStatusKey : string := reserved "replica-status".
Definition ReplicaTimestampKey : string := reserved "replica-timestamp".
Definition ReplicationStatusKey : string := reserved "replication-status".
Definition ReplicationTimestampKey : string := reserved "replication-timestamp".
Definition VersionPurgeStatusKey : string := reserved "purgestatus".
Definition freeVersionKey : string := reserved "free-version".
Definition inlineDataKey : string := reserved "inline-data".
Definition AmzRestoreExpiryDays : string := "X-Amz-Restore-Expiry-Days".
Definition AmzRestoreRequestDate : string := "X-Amz-Restore-Request-Date".

Definition errMethodNotAllowed : error := ErrNew "Method not allowed".
Definition errInvalidVersion : error := ErrNew "attempted to add invalid version".
Definition errInvalidEntry : error := ErrNew "internal error: invalid version entry generated".
Definition errAddVersion : error := ErrNew "addVersion: Internal error, unable to add version".

(** ** Headers *)

(** [xlFlagFreeVersion], [xlFlagUsesDataDir], [xlFlagInlineData]. *)
Definition xlFlagFreeVersion : Z := 1.
Definition xlFlagUsesDataDir : Z := 2.
Definition xlFlagInlineData : Z := 4.

Definition header_FreeVersion (x : xlMetaV2VersionHeader) : bool :=
  negb (Z.land (vh_Flags x) xlFlagFreeVersion =? 0).
Definition header_UsesDataDir (x : xlMetaV2VersionHeader) : bool :=
  negb (Z.land (vh_Flags x) xlFlagUsesDataDir =? 0).
Definition header_InlineData (x : xlMetaV2VersionHeader) : bool :=
  negb (Z.land (vh_Flags x) xlFlagInlineData =? 0).

Definition matchesNotStrict (x o : xlMetaV2VersionHeader) : bool :=
  if (vh_VersionID x =? 0)%N then
    (vh_VersionID x =? vh_VersionID o)%N && (vh_Type x =? vh_Type o) && (vh_ModTime o =? vh_ModTime x)
  else (vh_VersionID x =? vh_VersionID o)%N && (vh_Type x =? vh_Type o).

Definition sortsBefore (x o : xlMetaV2VersionHeader) : bool :=
  if bool_decide (x = o) then false
  else if negb (vh_ModTime x =? vh_ModTime o) then vh_ModTime o <? vh_ModTime x
  else if negb (vh_Type x =? vh_Type o) then vh_Type x <? vh_Type o
  else if negb (vh_Signature x =? vh_Signature o)%N then (vh_Signature o <? vh_Signature x)%N
  else if negb (vh_VersionID x =? vh_VersionID o)%N then (vh_VersionID o <? vh_VersionID x)%N
  else if negb (vh_Flags x =? vh_Flags o) then vh_Flags o <? vh_Flags x
  else false.

(** [sort.Slice] with [sortsBefore]: any permutation without an inversion. *)
Definition not_after (a b : xlMetaV2ShallowVersion) : Prop :=
  sortsBefore (sv_header b) (sv_header a) = false.

Class SliceSort := {
  slice_sort : list xlMetaV2ShallowVersion -> list xlMetaV2ShallowVersion;
  slice_sort_perm : forall l, slice_sort l ≡ₚ l;
  slice_sort_sorted : forall l, Sorted not_after (slice_sort l)
}.

#[global] Instance not_after_dec : RelDecision not_after.
Proof. intros a b. unfold not_after. apply _. Defined.

(** ** Methods of a version *)

Section Version.
Context `{XLLib} `{HttpTime} `{MapOrder}.

Definition isXLMetaErasureInfoValid (data parity : Z) : bool :=
  (parity <=? data) && (0 <? data) && (0 <=? parity).
Definition isXLMetaFormatValid (version format : string) : bool :=
  (bool_decide (version = "1.0.1") || bool_decide (version = "1.0.0")) && bool_decide (format = "xl").
Definition v1_valid (m : xlMetaV1Object) : bool :=
  isXLMetaFormatValid (v1_Version m) (v1_Format m) &&
  isXLMetaErasureInfoValid (ei_DataBlocks (v1_Erasure m)) (ei_ParityBlocks (v1_Erasure m)).

Definition Version_Valid (j : xlMetaV2Version) : bool :=
  if negb (VersionType_valid (ve_Type j)) then false
  else if ve_Type j =? LegacyType then
    match ve_ObjectV1 j with None => false | Some o => v1_valid o end
  else if ve_Type j =? ObjectType then
    match ve_ObjectV2 j with
    | None => false
    | Some o => ErasureAlgo_valid (ob_ErasureAlgorithm o) && ChecksumAlgo_valid (ob_BitrotChecksumAlgo o) &&
                isXLMetaErasureInfoValid (ob_ErasureM o) (ob_ErasureN o) && (0 <? ob_ModTime o)
    end
  else if ve_Type j =? DeleteType then
    match ve_DeleteMarker j with None => false | Some d => 0 <? dm_ModTime d end
  else false.

(** [cmd/xl-storage-free-version.go] *)
Definition marker_FreeVersion (j : xlMetaV2DeleteMarker) : bool :=
  bool_decide (is_Some (dm_MetaSys j !! freeVersionKey)).
Definition Version_FreeVersion (j : xlMetaV2Version) : option bool :=
  if ve_Type j =? DeleteType then marker_FreeVersion <$> ve_DeleteMarker j else Some false.

Definition object_UsesDataDir (now : time) (j : xlMetaV2Object) : bool :=
  if negb (bool_decide (default "" (ob_MetaSys j !! TransitionStatusKey) = TransitionComplete)) then true
  else isRestoredObjectOnDisk now (ob_MetaUser j).
Definition object_InlineData (j : xlMetaV2Object) : bool :=
  bool_decide (is_Some (ob_MetaSys j !! inlineDataKey)).

Definition ob_with_meta (j : xlMetaV2Object) (sys user : gmap string string) (modTime : Z) : xlMetaV2Object :=
  mkObj (ob_VersionID j) (ob_DataDir j) (ob_ErasureAlgorithm j) (ob_ErasureM j) (ob_ErasureN j)
    (ob_ErasureBlockSize j) (ob_ErasureIndex j) (ob_ErasureDist j) (ob_BitrotChecksumAlgo j)
    (ob_PartNumbers j) (ob_PartETags j) (ob_PartSizes j) (ob_PartActualSizes j) (ob_PartIndices j)
    (ob_Size j) modTime sys user.

Definition SetTransition (j : xlMetaV2Object) (fi : FileInfo) : xlMetaV2Object :=
  ob_with_meta j
    (<[TransitionTierKey := fi_TransitionTier fi]> (<[TransitionedVersionIDKey := fi_TransitionVersionID fi]>
      (<[TransitionedObjectNameKey := fi_TransitionedObjName fi]>
        (<[TransitionStatusKey := fi_TransitionStatus fi]> (ob_MetaSys j)))))
    (ob_MetaUser j) (ob_ModTime j).
Definition RemoveRestoreHdrs (j : xlMetaV2Object) : xlMetaV2Object :=
  ob_with_meta j (ob_MetaSys j)
    (delete AmzRestoreRequestDate (delete AmzRestoreExpiryDays (delete AmzRestore (ob_MetaUser j))))
    (ob_ModTime j).

(** *** Signatures

    The hash of a version that is expected to be the same on all disks
    ([cmd/xl-storage-format-utils.go] has the two map hashes, which differ in
    their seed).  [uint64] values are numbers below [2 ^ 64]. *)

Definition wrapu64 (z : Z) : Z := z mod 2 ^ 64.

Definition hashDeterministic (seed : Z) (m : gmap string string) : Z :=
  fold_left (fun crc '(k, v) =>
    Z.lxor crc (wrapu64 (Z.lxor (xxh3_HashString k) 0x4ee3bbaf7ab2506b +
                         Z.lxor (xxh3_HashString v) 0x8da4c8da66194257))) (range_map m) seed.
Definition hashDeterministicString (m : gmap string string) : Z := hashDeterministic 0xc2b40bbac11a7295 m.
Definition hashDeterministicBytes (m : gmap string string) : Z := hashDeterministic 0x1bbc7e1dde654743 m.

(** [binary.LittleEndian.PutUint32] of the upper and lower part combined; the
    array is read as a number in big endian. *)
Definition combine_crc (crc : Z) : N :=
  let v := wrapu32 (Z.lxor crc (Z.shiftr crc 32)) in
  Z.to_N (Z.land v 0xff * 2 ^ 24 + Z.land (Z.shiftr v 8) 0xff * 2 ^ 16 +
          Z.land (Z.shiftr v 16) 0xff * 2 ^ 8 + Z.shiftr v 24).

Definition xor_encoded (crc : Z) (r : result bytes) : Z :=
  match r with Ok bts => Z.lxor crc (xxhash_Sum64 bts) | Err _ => crc end.

Definition marker_Signature (j : xlMetaV2DeleteMarker) : N :=
  let c := mkDel (dm_VersionID j) (dm_ModTime j) ∅ in
  combine_crc (xor_encoded (hashDeterministicBytes (dm_MetaSys j)) (marker_MarshalMsg c)).

Definition object_Signature (j : xlMetaV2Object) : N :=
  let allEmpty := forallb (fun t => bool_decide (t = "")) (ob_PartETags j) in
  let c := mkObj (ob_VersionID j) (ob_DataDir j) (ob_ErasureAlgorithm j) (ob_ErasureM j) (ob_ErasureN j)
             (ob_ErasureBlockSize j) 0 (ob_ErasureDist j) (ob_BitrotChecksumAlgo j)
             (ob_PartNumbers j) (if allEmpty then [] else ob_PartETags j) (ob_PartSizes j)
             (ob_PartActualSizes j) (ob_PartIndices j) (ob_Size j) (ob_ModTime j) ∅ ∅ in
  combine_crc (xor_encoded (Z.lxor (hashDeterministicString (ob_MetaUser j)) (hashDeterministicBytes (ob_MetaSys j)))
                 (object_MarshalMsg c)).

(** [cmd/xl-storage-format-v1.go] *)
Definition legacy_Signature (m : xlMetaV1Object) : N :=
  let e := v1_Erasure m in
  let c := mkV1 (v1_Version m) (v1_Format m) (v1_Size m) (v1_ModTime m) (v1_Name m) (v1_Dir m) (v1_Mode m)
             (mkErasureInfo (ei_Algorithm e) (ei_DataBlocks e) (ei_ParityBlocks e) (ei_BlockSize e) 0
                (ei_Distribution e) (ei_Checksums e))
             "" ∅ (v1_Parts m) (v1_VersionID m) (v1_DataDir m) in
  combine_crc (xor_encoded (hashDeterministicString (v1_Meta m)) (legacy_MarshalMsg c)).

Definition signatureErr : N := 0x65727200.
Definition getSignature (j : xlMetaV2Version) : option N :=
  if ve_Type j =? ObjectType then object_Signature <$> ve_ObjectV2 j
  else if ve_Type j =? DeleteType then marker_Signature <$> ve_DeleteMarker j
  else if ve_Type j =? LegacyType then legacy_Signature <$> ve_ObjectV1 j
  else Some signatureErr.

Definition getModTime (j : xlMetaV2Version) : option time :=
  if ve_Type j =? ObjectType then (fun o => time_Unix_nano (ob_ModTime o)) <$> ve_ObjectV2 j
  else if ve_Type j =? DeleteType then (fun d => time_Unix_nano (dm_ModTime d)) <$> ve_DeleteMarker j
  else if ve_Type j =? LegacyType then v1_ModTime <$> ve_ObjectV1 j
  else Some 0.

Definition getVersionID (j : xlMetaV2Version) : option N :=
  if ve_Type j =? ObjectType then ob_VersionID <$> ve_ObjectV2 j
  else if ve_Type j =? DeleteType then dm_VersionID <$> ve_DeleteMarker j
  else Some 0%N.

Definition flag (b : bool) (f : Z) : Z := if b then f else 0.

Definition header (now : time) (j : xlMetaV2Version) : option xlMetaV2VersionHeader :=
  free ← Version_FreeVersion j;
  dir ← (if ve_Type j =? ObjectType then object_UsesDataDir now <$> ve_ObjectV2 j else Some false);
  inl ← (if ve_Type j =? ObjectType then object_InlineData <$> ve_ObjectV2 j else Some false);
  id ← getVersionID j;
  mt ← getModTime j;
  sig ← getSignature j;
  Some (mkHeader id (time_UnixNano mt) sig (ve_Type j)
          (Z.lor (Z.lor (flag free xlFlagFreeVersion) (flag dir xlFlagUsesDataDir)) (flag inl xlFlagInlineData))).

(** [cmd/xl-storage-format-v2-legacy.go] *)
Definition clean_etags (j : xlMetaV2Version) : xlMetaV2Version :=
  match ve_ObjectV2 j with
  | None => j
  | Some o =>
      if forallb (fun t => bool_decide (t = "")) (ob_PartETags o) then
        mkVersion (ve_Type j) (ve_ObjectV1 j)
          (Some (mkObj (ob_VersionID o) (ob_DataDir o) (ob_ErasureAlgorithm o) (ob_ErasureM o) (ob_ErasureN o)
             (ob_ErasureBlockSize o) (ob_ErasureIndex o) (ob_ErasureDist o) (ob_BitrotChecksumAlgo o)
             (ob_PartNumbers o) [] (ob_PartSizes o) (ob_PartActualSizes o) (ob_PartIndices o)
             (ob_Size o) (ob_ModTime o) (ob_MetaSys o) (ob_MetaUser o)))
          (ve_DeleteMarker j) (ve_WrittenByVersion j)
      else j
  end.

Definition unmarshalV (v : Z) (bts : bytes) : result xlMetaV2Version :=
  if (v =? 0) || (v =? 1) then
    match UnmarshalMsg bts with Ok j => Ok (clean_etags j) | Err e => Err e end
  else Err (Errorf 0 "unknown xlMetaVersion").
End Version.

(** ** Operations on the journal

    An operation returns the journal with its result; [None] is a panic.  [now]
    is the clock, which the header of a restored object depends on; an operation
    makes at most one such header. *)

Section Journal.
Context `{XLLib} `{Msgp} `{HttpTime} `{SliceSort} `{MapOrder} (now : time).

Definition with_versions (x : xlMetaV2) (vs : list xlMetaV2ShallowVersion) : xlMetaV2 :=
  mkXL vs (xl_data x) (xl_metaV x).

Definition latestModtime (x : xlMetaV2) : time :=
  match xl_versions x with [] => 0 | v :: _ => time_Unix_nano (vh_ModTime (sv_header v)) end.

(** The linear search of [addVersion] over the versions followed by the place
    holder with modification time -1; the version moved out at the end is the
    place holder. *)
Fixpoint insert_version (vs : list xlMetaV2ShallowVersion) (modTime : Z) (new : xlMetaV2ShallowVersion)
    : option (list xlMetaV2ShallowVersion) :=
  match vs with
  | [] => if -1 <=? modTime then Some [new] else None
  | v :: vs =>
      if vh_ModTime (sv_header v) <=? modTime then Some (new :: v :: vs)
      else cons v <$> insert_version vs modTime new
  end.

Definition placeholder : xlMetaV2ShallowVersion := mkShallow (mkHeader 0 (-1) 0 0 0) [].

Definition addVersion (x : xlMetaV2) (ver : xlMetaV2Version) : option (xlMetaV2 * option error) :=
  mt ← getModTime ver;
  let modTime := time_UnixNano mt in
  if negb (Version_Valid ver) then Some (x, Some errInvalidVersion)
  else match MarshalMsg ver with
       | Err e => Some (x, Some e)
       | Ok encoded =>
           h ← header now ver;
           Some match insert_version (xl_versions x) modTime (mkShallow h encoded) with
                | Some vs => (with_versions x vs, None)
                | None => (with_versions x (xl_versions x ++ [placeholder]), Some errAddVersion)
                end
       end.

Definition getIdx (x : xlMetaV2) (idx : nat) : result xlMetaV2Version :=
  match xl_versions x !! idx with
  | None => Err errFileNotFound
  | Some v => unmarshalV (xl_metaV x) (sv_meta v)
  end.

Fixpoint find_id (key : N) (vs : list xlMetaV2ShallowVersion) : option nat :=
  match vs with
  | [] => None
  | v :: vs => if (key =? vh_VersionID (sv_header v))%N then Some 0%nat else S <$> find_id key vs
  end.

Definition findVersion (x : xlMetaV2) (key : N) : result (nat * xlMetaV2Version) :=
  match find_id key (xl_versions x) with
  | None => Err errFileVersionNotFound
  | Some i => match getIdx x i with Ok v => Ok (i, v) | Err e => Err e end
  end.

(** [sort.SliceIsSorted] looks for an adjacent inversion. *)
Fixpoint SliceIsSorted (vs : list xlMetaV2ShallowVersion) : bool :=
  match vs with
  | a :: (b :: _) as rest => negb (sortsBefore (sv_header b) (sv_header a)) && SliceIsSorted rest
  | _ => true
  end.

Definition sortByModTime (vs : list xlMetaV2ShallowVersion) : list xlMetaV2ShallowVersion :=
  if (length vs <=? 1)%nat || SliceIsSorted vs then vs else slice_sort vs.

Definition setIdx (x : xlMetaV2) (idx : nat) (ver : xlMetaV2Version) : option (xlMetaV2 * option error) :=
  match xl_versions x !! idx with
  | None => Some (x, Some errFileNotFound)
  | Some update =>
      match MarshalMsg ver with
      | Err e => Some (with_versions x (<[idx := mkShallow (sv_header update) []]> (xl_versions x)), Some e)
      | Ok encoded =>
          h ← header now ver;
          let vs := <[idx := mkShallow h encoded]> (xl_versions x) in
          Some (with_versions x
                  (if negb (vh_ModTime (sv_header update) =? vh_ModTime h) then sortByModTime vs else vs), None)
      end
  end.

(** *** Adding and updating a version *)

Definition ascii_lower (c : Ascii.ascii) : Ascii.ascii :=
  let n := Ascii.N_of_ascii c in
  if (65 <=? n)%N && (n <=? 90)%N then Ascii.ascii_of_N (n + 32) else c.

Fixpoint to_lower (s : string) : string :=
  match s with EmptyString => EmptyString | String c s => String (ascii_lower c) (to_lower s) end.

(** [len(k) > len(prefix) && strings.EqualFold(k[:len(prefix)], prefix)] for the
    reserved prefix, which is ASCII. *)
Definition is_reserved_key (k : string) : bool :=
  (String.length ReservedMetadataPrefixLower <? String.length k)%nat &&
  bool_decide (to_lower (String.substring 0 (String.length ReservedMetadataPrefixLower) k)
               = ReservedMetadataPrefixLower).

(** The identifier named by a request: [""] and ["null"] are the null version. *)
Definition parse_version (versionID : string) : result N :=
  if bool_decide (versionID = "") || bool_decide (versionID = nullVersionID) then Ok 0%N
  else uuid_Parse versionID.

Definition set_nonempty (key value : string) (m : gmap string string) : gmap string string :=
  if bool_decide (value = "") then m else <[key := value]> m.

(** The object entry [AddVersion] builds. *)
Definition new_object (fi : FileInfo) (uv dd : N) : xlMetaV2Object :=
  let parts := fi_Parts fi in
  let etags := if existsb (fun p => negb (bool_decide (pt_ETag p = ""))) parts then pt_ETag <$> parts else [] in
  let indices := if existsb (fun p => (0 <? length (pt_Index p))%nat) parts then pt_Index <$> parts else [] in
  let sys := filter (fun kv : string * string =>
               is_reserved_key kv.1 = true /\ kv.1 <> tierFVIDKey /\ kv.1 <> tierFVMarkerKey) (fi_Metadata fi) in
  let user := filter (fun kv : string * string => is_reserved_key kv.1 = false) (fi_Metadata fi) in
  mkObj uv dd ReedSolomon (ei_DataBlocks (fi_Erasure fi)) (ei_ParityBlocks (fi_Erasure fi))
    (ei_BlockSize (fi_Erasure fi)) (ei_Index (fi_Erasure fi))
    (wrapu8 <$> ei_Distribution (fi_Erasure fi)) HighwayHash
    (pt_Number <$> parts) etags (pt_Size <$> parts) (pt_ActualSize <$> parts) indices
    (fi_Size fi) (time_UnixNano (fi_ModTime fi))
    (set_nonempty TransitionTierKey (fi_TransitionTier fi)
      (set_nonempty TransitionedVersionIDKey (fi_TransitionVersionID fi)
        (set_nonempty TransitionedObjectNameKey (fi_TransitionedObjName fi)
          (set_nonempty TransitionStatusKey (fi_TransitionStatus fi) sys))))
    user.

(** The entry [AddVersion] writes. *)
Definition new_entry (fi : FileInfo) (uv dd : N) : xlMetaV2Version :=
  if fi_Deleted fi then
    mkVersion DeleteType None None (Some (mkDel uv (time_UnixNano (fi_ModTime fi)) ∅)) globalVersionUnix
  else mkVersion ObjectType None (Some (new_object fi uv dd)) None globalVersionUnix.

(** The loop of [AddVersion] that looks for an entry to replace: it passes over
    an entry whose type is unknown. *)
Fixpoint find_replace (uv : N) (vs : list xlMetaV2ShallowVersion) : option nat :=
  match vs with
  | [] => None
  | v :: vs =>
      if (vh_VersionID (sv_header v) =? uv)%N && VersionType_valid (vh_Type (sv_header v)) then Some 0%nat
      else S <$> find_replace uv vs
  end.

Definition AddVersion (x : xlMetaV2) (fi : FileInfo) : option (xlMetaV2 * option error) :=
  let versionID := if bool_decide (fi_VersionID fi = "") then nullVersionID else fi_VersionID fi in
  match parse_version versionID with
  | Err e => Some (x, Some e)
  | Ok uv =>
      match (if bool_decide (fi_DataDir fi = "") then Ok 0%N else uuid_Parse (fi_DataDir fi)) with
      | Err e => Some (x, Some e)
      | Ok dd =>
          let ventry := new_entry fi uv dd in
          x ← (if negb (fi_Deleted fi) && ((0 <? length (fi_Data fi))%nat || (fi_Size fi =? 0))
               then data ← replace (xl_data x) versionID (fi_Data fi); Some (mkXL (xl_versions x) data (xl_metaV x))
               else Some x);
          if negb (Version_Valid ventry) then Some (x, Some errInvalidEntry)
          else match find_replace uv (xl_versions x) with
               | Some i => setIdx x i ventry
               | None => addVersion x ventry
               end
      end
  end.

(** The search of [UpdateObjectVersion]: the first entry with this identifier and
    a known type, which must be an object. *)
Definition UpdateObjectVersion (x : xlMetaV2) (fi : FileInfo) : option (xlMetaV2 * option error) :=
  let versionID := if bool_decide (fi_VersionID fi = "") then nullVersionID else fi_VersionID fi in
  match parse_version versionID with
  | Err e => Some (x, Some e)
  | Ok uv =>
      match find_replace uv (xl_versions x) with
      | None => Some (x, Some errFileVersionNotFound)
      | Some i =>
          v ← xl_versions x !! i;
          if negb (vh_Type (sv_header v) =? ObjectType) then Some (x, Some errMethodNotAllowed)
          else match getIdx x i with
               | Err e => Some (x, Some e)
               | Ok ver =>
                   o ← ve_ObjectV2 ver;
                   let sys := filter (fun kv : string * string => is_reserved_key kv.1 = true) (fi_Metadata fi) in
                   let user := filter (fun kv : string * string => is_reserved_key kv.1 = false) (fi_Metadata fi) in
                   let modTime := if time_IsZero (fi_ModTime fi) then ob_ModTime o
                                  else time_UnixNano (fi_ModTime fi) in
                   let o' := ob_with_meta o (sys ∪ ob_MetaSys o) (user ∪ ob_MetaUser o) modTime in
                   setIdx x i (mkVersion (ve_Type ver) (ve_ObjectV1 ver) (Some o') (ve_DeleteMarker ver)
                                 (ve_WrittenByVersion ver))
               end
      end
  end.

Definition AddLegacy (x : xlMetaV2) (m : xlMetaV1Object) : option (xlMetaV2 * option error) :=
  if negb (v1_valid m) then Some (x, Some errFileCorrupt)
  else
    let m := mkV1 (v1_Version m) (v1_Format m) (v1_Size m) (v1_ModTime m) (v1_Name m) (v1_Dir m) (v1_Mode m) (v1_Erasure m) (v1_Release m)
               (v1_Meta m) (v1_Parts m) nullVersionID (v1_DataDir m) in
    addVersion x (mkVersion LegacyType (Some m) None None globalVersionUnix).

(** *** Deleting a version *)

(** [cmd/xl-storage-free-version.go].  [None] is the panic on an invalid
    identifier of the free version. *)
Definition InitFreeVersion (j : xlMetaV2Object) (fi : FileInfo) : option (option xlMetaV2Version) :=
  match ob_MetaSys j !! TransitionStatusKey with
  | Some status =>
      if bool_decide (status = TransitionComplete) then
        match uuid_Parse (TierFreeVersionID fi) with
        | Err _ => None
        | Ok vID =>
            let tier := filter (fun kv : string * string =>
                          kv.1 ∈ [TransitionTierKey; TransitionedObjectNameKey; TransitionedVersionIDKey])
                          (ob_MetaSys j) in
            Some (Some (mkVersion DeleteType None None
                          (Some (mkDel vID (ob_ModTime j) (tier ∪ {[freeVersionKey := ""]}))) globalVersionUnix))
        end
      else Some None
  | None => Some None
  end.

(** The first object entry with this identifier. *)
Fixpoint find_object (uv : N) (vs : list xlMetaV2ShallowVersion) : option nat :=
  match vs with
  | [] => None
  | v :: vs =>
      if (vh_VersionID (sv_header v) =? uv)%N && (vh_Type (sv_header v) =? ObjectType) then Some 0%nat
      else S <$> find_object uv vs
  end.

Definition AddFreeVersion (x : xlMetaV2) (fi : FileInfo) : option (xlMetaV2 * option error) :=
  match parse_version (fi_VersionID fi) with
  | Err e => Some (x, Some e)
  | Ok uv =>
      match find_object uv (xl_versions x) with
      | None => Some (x, None)
      | Some i =>
          match getIdx x i with
          | Err e => Some (x, Some e)
          | Ok ver =>
              o ← ve_ObjectV2 ver;
              free ← InitFreeVersion o fi;
              match free with Some fv => addVersion x fv | None => Some (x, None) end
          end
      end
  end.

Definition SharedDataDirCount (x : xlMetaV2) (versionID dataDir : N) : nat :=
  if (0 <? entries (xl_data x)) && bool_decide (is_Some (find (xl_data x) (uuid_String versionID)))
  then 0
  else count (fun v =>
    (vh_Type (sv_header v) =? ObjectType) && negb (vh_VersionID (sv_header v) =? versionID)%N &&
    header_UsesDataDir (sv_header v) &&
    match UnmarshalMsg (sv_meta v) with
    | Ok d => match ve_ObjectV2 d with Some o => (ob_DataDir o =? dataDir)%N | None => false end
    | Err _ => false
    end) (xl_versions x).

Definition SharedDataDirCountStr (x : xlMetaV2) (versionID dataDir : string) : nat :=
  match parse_version versionID, uuid_Parse dataDir with
  | Ok uv, Ok ddir => SharedDataDirCount x uv ddir
  | _, _ => 0
  end.

(** The replication metadata a delete writes into a delete marker. *)
Definition marker_meta (fi : FileInfo) (m : gmap string string) : gmap string string :=
  let rs := fi_ReplicationState fi in
  let dmrs := DeleteMarkerReplicationStatus fi in
  let m := if Status_Empty dmrs then m
           else if bool_decide (dmrs = Replication_Replica) then
             <[ReplicaTimestampKey := http_Format (rs_ReplicaTimeStamp rs)]>
               (<[ReplicaStatusKey := rs_ReplicaStatus rs]> m)
           else
             <[ReplicationTimestampKey := http_Format (rs_ReplicationTimeStamp rs)]>
               (<[ReplicationStatusKey := rs_ReplicationStatusInternal rs]> m) in
  let m := if Status_Empty (VersionPurgeStatus fi) then m
           else <[VersionPurgeStatusKey := rs_VersionPurgeStatusInternal rs]> m in
  rs_ResetStatusesMap rs ∪ m.

(** Whether the delete updates the entry in place. *)
Definition update_version (fi : FileInfo) : bool :=
  let vps := VersionPurgeStatus fi in
  let dmrs := DeleteMarkerReplicationStatus fi in
  if Status_Empty vps && (bool_decide (dmrs = "REPLICA") || Status_Empty dmrs) then fi_MarkDeleted fi
  else
    (fi_Deleted fi && negb (bool_decide (vps = Purge_Complete)) &&
       (negb (Status_Empty vps) || Status_Empty dmrs)) ||
    (negb (Status_Empty vps) && negb (bool_decide (vps = Purge_Complete))).

(** [append(x.versions[:i], x.versions[i+1:]...)] *)
Definition remove_at (x : xlMetaV2) (i : nat) : xlMetaV2 :=
  with_versions x (take i (xl_versions x) ++ drop (S i) (xl_versions x)).

(** The first loop of [DeleteVersion] passes over the object entries it does not
    update; it stops at the first entry of another known type, or at the first
    object when it updates. *)
Fixpoint find_delete (uv : N) (update : bool) (vs : list xlMetaV2ShallowVersion) : option nat :=
  match vs with
  | [] => None
  | v :: vs =>
      let t := vh_Type (sv_header v) in
      if (vh_VersionID (sv_header v) =? uv)%N &&
         ((t =? LegacyType) || (t =? DeleteType) || ((t =? ObjectType) && update))
      then Some 0%nat
      else S <$> find_delete uv update vs
  end.

(** The delete marker [DeleteVersion] generates; the zero entry when the delete
    is not to leave one. *)
Definition delete_entry (fi : FileInfo) (uv : N) (meta : gmap string string) : xlMetaV2Version :=
  if fi_Deleted fi then
    mkVersion DeleteType None None (Some (mkDel uv (time_UnixNano (fi_ModTime fi)) meta)) globalVersionUnix
  else mkVersion 0 None None None 0.

(** The data directory and the error [DeleteVersion] returns. *)
Definition deleted := (string * option error)%type.

(** The part of [DeleteVersion] that acts on the entry found by its first loop. *)
Definition delete_found (x : xlMetaV2) (fi : FileInfo) (ventry : xlMetaV2Version) (update : bool) (i : nat)
    (v : xlMetaV2ShallowVersion) : option (xlMetaV2 * deleted) :=
  let t := vh_Type (sv_header v) in
  if t =? LegacyType then
    match getIdx x i with
    | Err e => Some (x, ("", Some e))
    | Ok ver =>
        '(x', err) ← (if fi_Deleted fi then addVersion (remove_at x i) ventry else Some (remove_at x i, None));
        o ← ve_ObjectV1 ver;
        Some (x', (v1_DataDir o, err))
    end
  else if t =? DeleteType then
    if update then
      match getIdx x i with
      | Err e => Some (x, ("", Some e))
      | Ok ver =>
          d ← ve_DeleteMarker ver;
          let d' := mkDel (dm_VersionID d) (dm_ModTime d) (marker_meta fi (dm_MetaSys d)) in
          '(x', err) ← setIdx x i (mkVersion (ve_Type ver) (ve_ObjectV1 ver) (ve_ObjectV2 ver) (Some d')
                                     (ve_WrittenByVersion ver));
          Some (x', ("", err))
      end
    else
      let vps := VersionPurgeStatus fi in
      '(x', err) ← (if fi_MarkDeleted fi && (Status_Empty vps || negb (bool_decide (vps = Purge_Complete)))
                    then addVersion (remove_at x i) ventry else Some (remove_at x i, None));
      Some (x', ("", err))
  else
    match getIdx x i with
    | Err e => Some (x, ("", Some e))
    | Ok ver =>
        o ← ve_ObjectV2 ver;
        let o' := ob_with_meta o
                    (rs_ResetStatusesMap (fi_ReplicationState fi) ∪
                     <[VersionPurgeStatusKey := rs_VersionPurgeStatusInternal (fi_ReplicationState fi)]> (ob_MetaSys o))
                    (ob_MetaUser o) (ob_ModTime o) in
        '(x', err) ← setIdx x i (mkVersion (ve_Type ver) (ve_ObjectV1 ver) (Some o') (ve_DeleteMarker ver)
                                   (ve_WrittenByVersion ver));
        Some (x', (uuid_String (ob_DataDir o'), err))
    end.

(** The second loop of [DeleteVersion]: an object that is not updated in place. *)
Definition delete_object (x : xlMetaV2) (fi : FileInfo) (ventry : xlMetaV2Version) (i : nat)
    : option (xlMetaV2 * deleted) :=
  match getIdx x i with
  | Err e => Some (x, ("", Some e))
  | Ok ver =>
      o ← ve_ObjectV2 ver;
      let put o' := setIdx x i (mkVersion (ve_Type ver) (ve_ObjectV1 ver) (Some o') (ve_DeleteMarker ver)
                                  (ve_WrittenByVersion ver)) in
      '(x1, err1) ←
        (if fi_ExpireRestored fi then put (RemoveRestoreHdrs o)
         else if bool_decide (fi_TransitionStatus fi = TransitionComplete) then put (SetTransition o fi)
         else free ← InitFreeVersion o fi;
              match free with
              | Some fv => addVersion (remove_at x i) fv
              | None => Some (remove_at x i, None)
              end);
      '(x2, err2) ← (if fi_Deleted fi then addVersion x1 ventry else Some (x1, err1));
      if (0 <? SharedDataDirCount x2 (ob_VersionID o) (ob_DataDir o))%nat then Some (x2, ("", None))
      else Some (x2, (uuid_String (ob_DataDir o), err2))
  end.

Definition DeleteVersion (x : xlMetaV2) (fi : FileInfo) : option (xlMetaV2 * deleted) :=
  match parse_version (fi_VersionID fi) with
  | Err _ => Some (x, ("", Some errFileVersionNotFound))
  | Ok uv =>
      if fi_Deleted fi && negb (Version_Valid (delete_entry fi uv ∅)) then Some (x, ("", Some errInvalidEntry))
      else
        let update := update_version fi in
        let ventry := delete_entry fi uv (marker_meta fi ∅) in
        match find_delete uv (update && negb (fi_Deleted fi)) (xl_versions x) with
        | Some i => v ← xl_versions x !! i; delete_found x fi ventry update i v
        | None =>
            match find_object uv (xl_versions x) with
            | Some i => delete_object x fi ventry i
            | None =>
                if fi_Deleted fi then '(x', err) ← addVersion x ventry; Some (x', ("", err))
                else Some (x, ("", Some errFileVersionNotFound))
            end
        end
  end.
End Journal.

(** ** The order of versions *)

(** [sortsBefore] is a strict total order on headers. *)
Lemma sortsBefore_lex x o : sortsBefore x o = true <->
  vh_ModTime o < vh_ModTime x \/ (vh_ModTime x = vh_ModTime o /\
  (vh_Type x < vh_Type o \/ (vh_Type x = vh_Type o /\
  ((vh_Signature o < vh_Signature x)%N \/ (vh_Signature x = vh_Signature o /\
  ((vh_VersionID o < vh_VersionID x)%N \/ (vh_VersionID x = vh_VersionID o /\ vh_Flags o < vh_Flags x))))))).
Proof.
  unfold sortsBefore. destruct (bool_decide_reflect (x = o)) as [->|Hne]; [split; [done|lia]|].
  destruct (Z.eqb_spec (vh_ModTime x) (vh_ModTime o)); cbn [negb]; [|rewrite Z.ltb_lt; lia].
  destruct (Z.eqb_spec (vh_Type x) (vh_Type o)); cbn [negb]; [|rewrite Z.ltb_lt; lia].
  destruct (N.eqb_spec (vh_Signature x) (vh_Signature o)); cbn [negb]; [|rewrite N.ltb_lt; lia].
  destruct (N.eqb_spec (vh_VersionID x) (vh_VersionID o)); cbn [negb]; [|rewrite N.ltb_lt; lia].
  destruct (Z.eqb_spec (vh_Flags x) (vh_Flags o)); cbn [negb]; [|rewrite Z.ltb_lt; lia].
  split; [done|lia].
Qed.

Lemma sortsBefore_irrefl x : sortsBefore x x = false.
Proof. apply not_true_is_false. rewrite sortsBefore_lex. lia. Qed.

Lemma sortsBefore_trans x y z : sortsBefore x y = true -> sortsBefore y z = true -> sortsBefore x z = true.
Proof. rewrite !sortsBefore_lex. lia. Qed.

Lemma sortsBefore_total x o : sortsBefore x o = true \/ x = o \/ sortsBefore o x = true.
Proof.
  rewrite !sortsBefore_lex. destruct x as [a b c d e], o as [a' b' c' d' e']. cbn.
  assert (b < b' \/ b = b' \/ b' < b) as [?|[->|?]] by lia; [tauto| |tauto].
  assert (d < d' \/ d = d' \/ d' < d) as [?|[->|?]] by lia; [tauto| |tauto].
  assert (c < c' \/ c = c' \/ c' < c)%N as [?|[->|?]] by lia; [tauto| |tauto].
  assert (a < a' \/ a = a' \/ a' < a)%N as [?|[->|?]] by lia; [tauto| |tauto].
  assert (e < e' \/ e = e' \/ e' < e) as [?|[->|?]] by lia; tauto.
Qed.

#[global] Instance not_after_total : Total not_after.
Proof.
  intros a b. unfold not_after. destruct (sortsBefore (sv_header b) (sv_header a)) eqn:E; [|by left].
  right. apply not_true_is_false. intros E'. pose proof (sortsBefore_trans _ _ _ E E') as E2.
  by rewrite sortsBefore_irrefl in E2.
Qed.

#[global] Instance not_after_trans : Transitive not_after.
Proof.
  intros a b c Hab Hbc. unfold not_after in *. apply not_true_is_false. intros Hca.
  destruct (sortsBefore_total (sv_header a) (sv_header b)) as [H1|[H1|H1]]; [| |congruence].
  - pose proof (sortsBefore_trans _ _ _ Hca H1). congruence.
  - rewrite H1 in Hca. congruence.
Qed.

(** The standard merge sort is one behaviour of [sort.Slice]. *)
#[global] Program Instance merge_slice_sort : SliceSort | 100 :=
  {| slice_sort := merge_sort not_after |}.
Next Obligation. intros l. apply merge_sort_Permutation. Qed.
Next Obligation. intros l. apply Sorted_merge_sort, _. Qed.

(** ** The journal invariant *)

Definition by_modtime (a b : xlMetaV2ShallowVersion) : Prop :=
  vh_ModTime (sv_header b) <= vh_ModTime (sv_header a).

#[global] Instance by_modtime_trans : Transitive by_modtime.
Proof. intros a b c. unfold by_modtime. lia. Qed.

Definition version_id (v : xlMetaV2ShallowVersion) : N := vh_VersionID (sv_header v).

Lemma not_after_modtime a b : not_after a b -> by_modtime a b.
Proof.
  unfold not_after, by_modtime. intros Hn. destruct (decide (vh_ModTime (sv_header a) < vh_ModTime (sv_header b))) as [Hlt|]; [|lia].
  enough (sortsBefore (sv_header b) (sv_header a) = true) by congruence. rewrite sortsBefore_lex. by left.
Qed.

Lemma Sorted_impl {A} (R R' : A -> A -> Prop) l : (forall a b, R a b -> R' a b) -> Sorted R l -> Sorted R' l.
Proof.
  intros HR. induction 1 as [|x l Hs IH Hh]; constructor; [done|]. destruct Hh; constructor. auto.
Qed.

Lemma SliceIsSorted_spec vs : SliceIsSorted vs = true -> Sorted not_after vs.
Proof.
  induction vs as [|a [|b vs] IH]; [constructor|repeat constructor|].
  cbn [SliceIsSorted]. rewrite andb_true_iff, negb_true_iff. intros [Hab Hs].
  constructor; [by apply IH|]. by constructor.
Qed.

(** The entry that a version identifier names. *)
Definition pick (vs : list xlMetaV2ShallowVersion) (id : N) : option xlMetaV2ShallowVersion :=
  List.find (fun v => (version_id v =? id)%N) vs.

Lemma pick_Some vs id v : NoDup (version_id <$> vs) -> pick vs id = Some v <-> v ∈ vs /\ version_id v = id.
Proof.
  intros Hnd. unfold pick. split.
  - intros Hf. apply List.find_some in Hf as [? ?%N.eqb_eq]. by rewrite list_elem_of_In.
  - intros [Hv <-]. induction Hv as [v vs|v w vs Hv IH]; cbn in *.
    + by rewrite N.eqb_refl.
    + apply NoDup_cons in Hnd as [Hn Hnd]. destruct (N.eqb_spec (version_id w) (version_id v)) as [He|]; [|auto].
      destruct Hn. rewrite He. apply list_elem_of_fmap. by exists v.
Qed.

Lemma pick_None vs id : pick vs id = None <-> id ∉ (version_id <$> vs).
Proof.
  unfold pick. split.
  - intros Hf (v & -> & Hv)%list_elem_of_fmap. rewrite list_elem_of_In in Hv.
    pose proof (List.find_none _ _ Hf v Hv) as Hx. cbn in Hx. by rewrite N.eqb_refl in Hx.
  - intros Hn. destruct (List.find _ vs) as [v|] eqn:E; [|done]. apply List.find_some in E as [Hv <-%N.eqb_eq].
    destruct Hn. apply list_elem_of_fmap. exists v. by rewrite list_elem_of_In.
Qed.

Lemma pick_Permutation vs vs' id : NoDup (version_id <$> vs) -> vs ≡ₚ vs' -> pick vs id = pick vs' id.
Proof.
  intros Hnd Hp. assert (NoDup (version_id <$> vs')) by (by rewrite <-Hp).
  destruct (pick vs id) as [v|] eqn:E.
  - symmetry. apply pick_Some; [done|]. rewrite <-Hp. by apply pick_Some.
  - symmetry. apply pick_None. rewrite <-Hp. by apply pick_None.
Qed.

Lemma pick_cons v vs id : pick (v :: vs) id = if (version_id v =? id)%N then Some v else pick vs id.
Proof. done. Qed.

Lemma find_id_pick key vs : match find_id key vs with
  | Some i => exists v, vs !! i = Some v /\ pick vs key = Some v
  | None => pick vs key = None
  end.
Proof.
  induction vs as [|v vs IH]; [done|]. cbn [find_id]. rewrite pick_cons. unfold version_id at 1 2.
  rewrite N.eqb_sym. destruct (N.eqb_spec (vh_VersionID (sv_header v)) key); [by exists v|].
  by destruct (find_id key vs) as [i|].
Qed.

Section JournalFacts.
Context {L : XLLib} {LL : XLLaws L} `{Msgp} `{HttpTime} `{SliceSort} `{MapOrder} (now : time).

Definition entry_ok (metaV : Z) (v : xlMetaV2ShallowVersion) : Prop :=
  VersionType_valid (vh_Type (sv_header v)) = true /\
  exists ver t, unmarshalV metaV (sv_meta v) = Ok ver /\ header t ver = Some (sv_header v).

Record journal_ok (x : xlMetaV2) : Prop := {
  jo_sorted : Sorted by_modtime (xl_versions x);
  jo_nodup : NoDup (version_id <$> xl_versions x);
  jo_entries : Forall (entry_ok (xl_metaV x)) (xl_versions x);
  jo_metaV : xl_metaV x = 0 \/ xl_metaV x = 1
}.

(** What [findVersion] finds, without the index. *)
Definition version_at (x : xlMetaV2) (id : N) : result xlMetaV2Version :=
  match findVersion x id with Ok (_, v) => Ok v | Err e => Err e end.

Lemma version_at_pick x id : version_at x id =
  match pick (xl_versions x) id with
  | None => Err errFileVersionNotFound
  | Some v => unmarshalV (xl_metaV x) (sv_meta v)
  end.
Proof.
  unfold version_at, findVersion. pose proof (find_id_pick id (xl_versions x)) as Hf.
  destruct (find_id id (xl_versions x)) as [i|]; [|by rewrite Hf].
  destruct Hf as (v & Hi & ->). unfold getIdx. rewrite Hi. by destruct (unmarshalV _ _).
Qed.

Lemma insert_version_perm vs mt new vs' : insert_version vs mt new = Some vs' -> vs' ≡ₚ new :: vs.
Proof.
  revert vs'. induction vs as [|v vs IH]; intros vs'; cbn.
  - destruct (-1 <=? mt); [|done]. by intros [= <-].
  - destruct (vh_ModTime (sv_header v) <=? mt); [by intros [= <-]|].
    destruct (insert_version vs mt new) as [ws|]; [|done]. intros [= <-]. rewrite (IH ws eq_refl). apply perm_swap.
Qed.

Lemma insert_version_sorted vs new vs' :
  Sorted by_modtime vs -> insert_version vs (vh_ModTime (sv_header new)) new = Some vs' -> Sorted by_modtime vs'.
Proof.
  intros Hs. revert vs'. induction Hs as [|v vs Hs IH Hh]; intros vs'; cbn.
  - destruct (-1 <=? _); [|done]. intros [= <-]. repeat constructor.
  - destruct (Z.leb_spec (vh_ModTime (sv_header v)) (vh_ModTime (sv_header new))) as [Hle|Hgt].
    + intros [= <-]. constructor; [by constructor|]. by constructor.
    + destruct (insert_version vs _ new) as [ws|] eqn:E; [|done]. intros [= <-].
      constructor; [by apply IH|]. destruct vs as [|w vs]; cbn in E.
      * destruct (-1 <=? _); [|done]. injection E as <-. constructor. unfold by_modtime. lia.
      * destruct (vh_ModTime (sv_header w) <=? _); [injection E as <-; constructor; unfold by_modtime; lia|].
        destruct (insert_version vs _ new); [|done]. injection E as <-. inversion Hh. by constructor.
Qed.

Lemma insert_version_total vs mt new : -1 <= mt -> exists vs', insert_version vs mt new = Some vs'.
Proof.
  intros Hm. induction vs as [|v vs [vs' IH]]; cbn.
  - destruct (Z.leb_spec (-1) mt); [by eexists|lia].
  - destruct (_ <=? _); [by eexists|]. rewrite IH. by eexists.
Qed.

Lemma header_fields t ver h : header t ver = Some h ->
  vh_Type h = ve_Type ver /\ getVersionID ver = Some (vh_VersionID h) /\
  exists mt, getModTime ver = Some mt /\ vh_ModTime h = time_UnixNano mt.
Proof.
  unfold header. destruct (Version_FreeVersion ver); [|done]. cbn [mbind option_bind].
  destruct (if ve_Type ver =? ObjectType then object_UsesDataDir t <$> _ else _); [|done]. cbn [mbind option_bind].
  destruct (if ve_Type ver =? ObjectType then object_InlineData <$> _ else _); [|done]. cbn [mbind option_bind].
  destruct (getVersionID ver); [|done]. destruct (getModTime ver) as [mt|]; [|done]. destruct (getSignature ver); [|done].
  cbn. intros [= <-]. split_and!; [done..|]. by exists mt.
Qed.

Lemma valid_header ver : Version_Valid ver = true -> exists h, header now ver = Some h.
Proof.
  unfold Version_Valid, header, Version_FreeVersion, getVersionID, getModTime, getSignature.
  destruct (VersionType_valid (ve_Type ver)); [|done]. cbn [negb].
  destruct (Z.eqb_spec (ve_Type ver) LegacyType) as [->|].
  { cbn. destruct (ve_ObjectV1 ver); [|done]. intros _. by eexists. }
  destruct (Z.eqb_spec (ve_Type ver) ObjectType) as [->|].
  { cbn. destruct (ve_ObjectV2 ver); [|done]. intros _. by eexists. }
  destruct (Z.eqb_spec (ve_Type ver) DeleteType) as [->|]; [|done].
  cbn. destruct (ve_DeleteMarker ver); [|done]. intros _. by eexists.
Qed.

Lemma valid_type ver : Version_Valid ver = true -> VersionType_valid (ve_Type ver) = true.
Proof. unfold Version_Valid. by destruct (VersionType_valid _). Qed.

(** A version that is written and read back unchanged: part tags that are all
    empty are not kept. *)
Definition tags_clean (ver : xlMetaV2Version) : Prop := clean_etags ver = ver.

Lemma encoded_entry_ok metaV ver h b : metaV = 0 \/ metaV = 1 -> tags_clean ver ->
  VersionType_valid (ve_Type ver) = true -> MarshalMsg ver = Ok b -> header now ver = Some h ->
  unmarshalV metaV b = Ok ver /\ entry_ok metaV (mkShallow h b).
Proof.
  intros Hm Hc Hv Hb Hh. assert (unmarshalV metaV b = Ok ver) as Hu.
  { unfold unmarshalV. rewrite (Unmarshal_Marshal _ _ Hb), Hc. by destruct Hm as [->| ->]. }
  split; [done|]. split; [|by exists ver, now]. cbn. by destruct (header_fields _ _ _ Hh) as (-> & _).
Qed.

(** A new entry replaces the entries [old] of the journal. *)
Definition replaced (x x' : xlMetaV2) (ver : xlMetaV2Version) (rest : list xlMetaV2ShallowVersion) : Prop :=
  exists v, xl_versions x' ≡ₚ v :: rest /\ unmarshalV (xl_metaV x) (sv_meta v) = Ok ver /\
    header now ver = Some (sv_header v) /\ entry_ok (xl_metaV x) v /\ xl_metaV x' = xl_metaV x.

Lemma addVersion_spec x ver x' : Sorted by_modtime (xl_versions x) -> xl_metaV x = 0 \/ xl_metaV x = 1 ->
  tags_clean ver -> addVersion now x ver = Some (x', None) ->
  Sorted by_modtime (xl_versions x') /\ replaced x x' ver (xl_versions x) /\ xl_data x' = xl_data x.
Proof.
  intros Hs Hm Hc. unfold addVersion. destruct (getModTime ver) as [mt|] eqn:Emt; [|done]. cbn [mbind option_bind].
  destruct (Version_Valid ver) eqn:Ev; [|done]. cbn [negb]. destruct (MarshalMsg ver) as [b|] eqn:Eb; [|done].
  destruct (header now ver) as [h|] eqn:Eh; [|done]. cbn [mbind option_bind].
  destruct (header_fields _ _ _ Eh) as (Ht & _ & mt' & Emt' & Hmt). rewrite Emt in Emt'. injection Emt' as <-.
  rewrite <-Hmt. destruct (insert_version _ _ _) as [vs|] eqn:Ei; [|done]. intros [= <-]. cbn.
  destruct (encoded_entry_ok (xl_metaV x) ver h b Hm Hc (valid_type _ Ev) Eb Eh) as [Hu Hok].
  split; [|split; [|done]].
  - by apply (insert_version_sorted (xl_versions x) (mkShallow h b)).
  - exists (mkShallow h b). split_and!; [by apply insert_version_perm in Ei|done..].
Qed.

Lemma take_drop_perm {A} (l : list A) i y : l !! i = Some y -> l ≡ₚ y :: (take i l ++ drop (S i) l).
Proof. intros Hi. rewrite <-(take_drop_middle l i y Hi) at 1. symmetry. apply Permutation_middle. Qed.

Lemma insert_take_drop {A} (l : list A) i x : (i < length l)%nat ->
  <[i := x]> l = take i l ++ x :: drop (S i) l.
Proof. intros Hi. by apply insert_take_drop. Qed.

Lemma Sorted_by_strong vs : Sorted by_modtime vs -> StronglySorted by_modtime vs.
Proof. apply Sorted_StronglySorted, _. Qed.

(** Replacing an entry by one of the same modification time keeps the order. *)
Lemma Sorted_insert_same vs i v w : Sorted by_modtime vs -> vs !! i = Some v ->
  vh_ModTime (sv_header v) = vh_ModTime (sv_header w) -> Sorted by_modtime (<[i := w]> vs).
Proof.
  intros Hs. revert i. induction Hs as [|a vs Hs IH Hh]; intros i Hi He; [done|]. destruct i as [|i]; cbn in *.
  - injection Hi as ->. constructor; [done|]. destruct Hh; constructor. unfold by_modtime in *. lia.
  - constructor; [by apply IH|]. destruct vs as [|b vs]; [done|]. destruct i as [|i]; cbn in *.
    + injection Hi as ->. inversion Hh; subst. constructor. unfold by_modtime in *. lia.
    + inversion Hh; subst. by constructor.
Qed.

Lemma sortByModTime_spec vs : sortByModTime vs ≡ₚ vs /\ Sorted by_modtime (sortByModTime vs).
Proof.
  unfold sortByModTime. destruct (Nat.leb_spec (length vs) 1) as [Hl|Hl]; cbn [orb].
  { split; [done|]. destruct vs as [|a [|b vs]]; [constructor|repeat constructor|cbn in Hl; lia]. }
  destruct (SliceIsSorted vs) eqn:E.
  - split; [done|]. eapply Sorted_impl; [apply not_after_modtime|by apply SliceIsSorted_spec].
  - split; [apply slice_sort_perm|]. eapply Sorted_impl; [apply not_after_modtime|apply slice_sort_sorted].
Qed.

Lemma setIdx_spec x i ver x' old : Sorted by_modtime (xl_versions x) -> xl_metaV x = 0 \/ xl_metaV x = 1 ->
  tags_clean ver -> VersionType_valid (ve_Type ver) = true -> xl_versions x !! i = Some old ->
  setIdx now x i ver = Some (x', None) ->
  Sorted by_modtime (xl_versions x') /\
  replaced x x' ver (take i (xl_versions x) ++ drop (S i) (xl_versions x)) /\ xl_data x' = xl_data x.
Proof.
  intros Hs Hm Hc Hv Hi. unfold setIdx. rewrite Hi. destruct (MarshalMsg ver) as [b|] eqn:Eb; [|done].
  destruct (header now ver) as [h|] eqn:Eh; [|done]. cbn [mbind option_bind]. intros [= <-]. cbn.
  destruct (encoded_entry_ok (xl_metaV x) ver h b Hm Hc Hv Eb Eh) as [Hu Hok].
  set (vs := <[i := mkShallow h b]> (xl_versions x)).
  assert (vs ≡ₚ mkShallow h b :: (take i (xl_versions x) ++ drop (S i) (xl_versions x))) as Hp.
  { unfold vs. rewrite insert_take_drop by (by eapply lookup_lt_Some). symmetry. apply Permutation_middle. }
  destruct (sortByModTime_spec vs) as [Hsp Hss].
  destruct (Z.eqb_spec (vh_ModTime (sv_header old)) (vh_ModTime h)); cbn [negb].
  - split; [by eapply Sorted_insert_same|]. split; [|done]. by exists (mkShallow h b).
  - split; [done|]. split; [|done]. exists (mkShallow h b). split_and!; [exact (Permutation_trans Hsp Hp)|done..].
Qed.

(** The journal after an entry was put in the place of the entries that are
    not in [rest]. *)
Lemma replaced_ok x x' ver rest id : Sorted by_modtime (xl_versions x') -> replaced x x' ver rest ->
  NoDup (version_id <$> rest) -> Forall (entry_ok (xl_metaV x)) rest -> xl_metaV x = 0 \/ xl_metaV x = 1 ->
  getVersionID ver = Some id -> id ∉ (version_id <$> rest) ->
  journal_ok x' /\ version_at x' id = Ok ver /\
  forall id', id' <> id -> version_at x' id' =
    match pick rest id' with None => Err errFileVersionNotFound | Some v => unmarshalV (xl_metaV x) (sv_meta v) end.
Proof.
  intros Hs (v & Hp & Hu & Hh & Hok & Hm) Hnd Hall HmV Hid Hn.
  assert (version_id v = id) as Hv.
  { destruct (header_fields _ _ _ Hh) as (_ & Hg & _). rewrite Hid in Hg. by injection Hg as ->. }
  assert (NoDup (version_id <$> xl_versions x')) as Hnd'.
  { rewrite Hp. cbn. apply NoDup_cons. by rewrite Hv. }
  split; [|split].
  - split; [done|done| |by rewrite Hm]. rewrite Hm. rewrite Hp. by constructor.
  - rewrite version_at_pick, (pick_Permutation _ _ _ Hnd' Hp), pick_cons, Hv, N.eqb_refl, Hm. done.
  - intros id' Hne. rewrite version_at_pick, (pick_Permutation _ _ _ Hnd' Hp), pick_cons, Hv, Hm.
    by destruct (N.eqb_spec id id'); [congruence|].
Qed.

Lemma find_replace_spec uv vs : Forall (fun v => VersionType_valid (vh_Type (sv_header v)) = true) vs ->
  match find_replace uv vs with
  | Some i => exists v, vs !! i = Some v /\ version_id v = uv
  | None => uv ∉ (version_id <$> vs)
  end.
Proof.
  induction 1 as [|v vs Hv Hf IH]; [by cbn; apply not_elem_of_nil|]. cbn [find_replace]. rewrite Hv, andb_true_r.
  destruct (N.eqb_spec (vh_VersionID (sv_header v)) uv) as [He|Hne]; [by exists v|].
  destruct (find_replace uv vs) as [i|]; [done|]. cbn. rewrite not_elem_of_cons. split; [|done].
  unfold version_id. congruence.
Qed.

Lemma Sorted_remove vs i : Sorted by_modtime vs -> Sorted by_modtime (take i vs ++ drop (S i) vs).
Proof.
  intros Hs%Sorted_by_strong. apply StronglySorted_Sorted. revert i.
  induction Hs as [|a vs Hs IH Hf]; intros [|i]; cbn; [constructor..|done|].
  constructor; [apply IH|]. rewrite Forall_forall in *. intros y Hy. apply Hf. apply elem_of_app in Hy as [Hy|Hy].
  - eapply elem_of_take in Hy as (j & ? & _). by eapply list_elem_of_lookup_2.
  - apply list_elem_of_lookup_1 in Hy as [j Hj]. rewrite lookup_drop in Hj. by eapply list_elem_of_lookup_2.
Qed.

Lemma rest_ok x i old : journal_ok x -> xl_versions x !! i = Some old ->
  let rest := take i (xl_versions x) ++ drop (S i) (xl_versions x) in
  NoDup (version_id <$> rest) /\ Forall (entry_ok (xl_metaV x)) rest /\ (version_id old ∉ (version_id <$> rest)) /\
  Sorted by_modtime rest /\ forall id, id <> version_id old -> pick rest id = pick (xl_versions x) id.
Proof.
  intros [Hs Hnd Hall Hm] Hi rest. pose proof (take_drop_perm _ _ _ Hi) as Hp. fold rest in Hp.
  assert (Forall (entry_ok (xl_metaV x)) (old :: rest)) as Hall' by (by rewrite <-Hp).
  assert (NoDup (version_id <$> (old :: rest))) as Hnd' by (by rewrite <-Hp).
  apply Forall_cons in Hall' as [_ Hall']. pose proof Hnd' as Hnd2. cbn in Hnd2. apply NoDup_cons in Hnd2 as [Hn Hnd2].
  split_and!; [done..| |].
  - by apply Sorted_remove.
  - intros id Hne. rewrite (pick_Permutation _ _ id Hnd Hp), pick_cons.
    by destruct (N.eqb_spec (version_id old) id); [congruence|].
Qed.

Lemma new_entry_clean fi uv dd : tags_clean (new_entry fi uv dd).
Proof.
  unfold tags_clean, new_entry. destruct (fi_Deleted fi); [done|]. unfold clean_etags. cbn [ve_ObjectV2].
  unfold new_object at 1. cbn [ob_PartETags].
  destruct (existsb (fun p => negb (bool_decide (pt_ETag p = ""))) (fi_Parts fi)) eqn:E.
  - destruct (forallb _ _) eqn:Ef; [|done]. exfalso. apply existsb_exists in E as (p & Hp & Hn).
    rewrite forallb_forall in Ef. specialize (Ef (pt_ETag p)). rewrite Ef in Hn; [done|].
    apply List.in_map. done.
  - cbn [forallb]. unfold new_object. rewrite E. done.
Qed.

Lemma new_entry_id fi uv dd : getVersionID (new_entry fi uv dd) = Some uv.
Proof. unfold new_entry, getVersionID. by destruct (fi_Deleted fi). Qed.

Lemma parse_normal id : parse_version (if bool_decide (id = "") then nullVersionID else id) = parse_version id.
Proof. destruct (decide (id = "")) as [->|Hn]; [reflexivity|]. by rewrite (bool_decide_eq_false_2 (id = "")). Qed.

Lemma time_UnixNano_Unix n : int64_range n -> time_UnixNano (time_Unix_nano n) = n.
Proof.
  intros Hn. unfold time_UnixNano, time_Unix_nano. replace (unix_epoch + n - unix_epoch) with n by lia.
  by apply wrap64_id.
Qed.

Lemma new_entry_header fi uv dd : exists h, header now (new_entry fi uv dd) = Some h /\
  vh_ModTime h = time_UnixNano (fi_ModTime fi).
Proof.
  unfold new_entry. destruct (fi_Deleted fi); eexists; (split; [reflexivity|]); cbn [vh_ModTime];
    apply time_UnixNano_Unix, wrap64_range.
Qed.

Lemma new_entry_modtime fi uv dd : Version_Valid (new_entry fi uv dd) = true -> 0 < time_UnixNano (fi_ModTime fi).
Proof.
  unfold Version_Valid, new_entry. destruct (fi_Deleted fi); cbn.
  - intros ?%Z.ltb_lt. done.
  - rewrite !andb_true_iff. intros [_ ?%Z.ltb_lt]. done.
Qed.

(** *** Deleting *)

(** A delete outside replication and tiering. *)
Definition plain_delete (fi : FileInfo) : Prop :=
  Status_Empty (VersionPurgeStatus fi) = true /\ Status_Empty (DeleteMarkerReplicationStatus fi) = true /\
  fi_MarkDeleted fi = false /\ fi_ExpireRestored fi = false /\ fi_TransitionStatus fi <> TransitionComplete.

Lemma plain_update fi : plain_delete fi -> update_version fi = false.
Proof. intros (Hv & Hd & Hm & _). unfold update_version. rewrite Hv, Hd, Hm. by rewrite orb_true_r. Qed.

Lemma remove_at_ok x i old : journal_ok x -> xl_versions x !! i = Some old ->
  journal_ok (remove_at x i) /\ version_at (remove_at x i) (version_id old) = Err errFileVersionNotFound /\
  forall id, id <> version_id old -> version_at (remove_at x i) id = version_at x id.
Proof.
  intros Hok Hi. pose proof (jo_metaV _ Hok) as Hm. destruct (rest_ok x i old Hok Hi) as (N1 & N2 & N3 & N4 & N5).
  split; [|split].
  - by split.
  - rewrite version_at_pick. change (xl_versions (remove_at x i)) with (take i (xl_versions x) ++ drop (S i) (xl_versions x)).
    by apply pick_None in N3 as ->.
  - intros id Hid. rewrite !version_at_pick.
    change (xl_versions (remove_at x i)) with (take i (xl_versions x) ++ drop (S i) (xl_versions x)). by rewrite N5.
Qed.

Lemma find_delete_spec uv vs : NoDup (version_id <$> vs) ->
  match find_delete uv false vs with
  | Some i => exists v, vs !! i = Some v /\ version_id v = uv /\
      (vh_Type (sv_header v) = LegacyType \/ vh_Type (sv_header v) = DeleteType)
  | None => forall v, v ∈ vs -> version_id v = uv ->
      vh_Type (sv_header v) <> LegacyType /\ vh_Type (sv_header v) <> DeleteType
  end.
Proof.
  intros _. induction vs as [|v vs IH]; [by cbn; intros v ?%elem_of_nil|]. cbn [find_delete].
  rewrite andb_false_r, orb_false_r. unfold version_id in *.
  destruct (N.eqb_spec (vh_VersionID (sv_header v)) uv) as [He|Hne]; cbn [andb].
  - destruct (Z.eqb_spec (vh_Type (sv_header v)) LegacyType); [exists v; auto|].
    destruct (Z.eqb_spec (vh_Type (sv_header v)) DeleteType); cbn [orb]; [exists v; auto|].
    destruct (find_delete uv false vs); [done|]. intros w [->|Hw]%elem_of_cons; [done|by apply IH].
  - destruct (find_delete uv false vs); [done|]. intros w [->|Hw]%elem_of_cons; [done|by apply IH].
Qed.

Lemma find_object_spec uv vs :
  match find_object uv vs with
  | Some i => exists v, vs !! i = Some v /\ version_id v = uv /\ vh_Type (sv_header v) = ObjectType
  | None => forall v, v ∈ vs -> version_id v = uv -> vh_Type (sv_header v) <> ObjectType
  end.
Proof.
  induction vs as [|v vs IH]; [by cbn; intros v ?%elem_of_nil|]. cbn [find_object]. unfold version_id in *.
  destruct (N.eqb_spec (vh_VersionID (sv_header v)) uv) as [He|Hne]; cbn [andb].
  - destruct (Z.eqb_spec (vh_Type (sv_header v)) ObjectType); [exists v; auto|].
    destruct (find_object uv vs); [done|]. intros w [->|Hw]%elem_of_cons; [done|by apply IH].
  - destruct (find_object uv vs); [done|]. intros w [->|Hw]%elem_of_cons; [done|by apply IH].
Qed.

Lemma entry_version x v : journal_ok x -> v ∈ xl_versions x ->
  exists ver t, version_at x (version_id v) = Ok ver /\ unmarshalV (xl_metaV x) (sv_meta v) = Ok ver /\
    header t ver = Some (sv_header v) /\ VersionType_valid (vh_Type (sv_header v)) = true.
Proof.
  intros Hok Hv. pose proof (jo_entries _ Hok) as Hall. rewrite Forall_forall in Hall.
  destruct (Hall v Hv) as (Ht & ver & t & Hu & Hh). exists ver, t. split_and!; [|done..].
  rewrite version_at_pick. assert (pick (xl_versions x) (version_id v) = Some v) as ->; [|done].
  by apply pick_Some; [apply (jo_nodup _ Hok)|].
Qed.

Lemma getIdx_lookup x i v ver : xl_versions x !! i = Some v -> unmarshalV (xl_metaV x) (sv_meta v) = Ok ver ->
  getIdx x i = Ok ver.
Proof. intros Hi Hu. unfold getIdx. by rewrite Hi. Qed.

Lemma header_object t ver h : header t ver = Some h -> vh_Type h = ObjectType ->
  exists o, ve_ObjectV2 ver = Some o /\ vh_VersionID h = ob_VersionID o.
Proof.
  intros Hh Ht. destruct (header_fields _ _ _ Hh) as (Hty & Hid & _). rewrite Ht in Hty.
  unfold getVersionID in Hid. rewrite <-Hty in Hid. cbn in Hid.
  destruct (ve_ObjectV2 ver) as [o|]; [|done]. exists o. by injection Hid as <-.
Qed.

Lemma header_legacy t ver h : header t ver = Some h -> vh_Type h = LegacyType -> exists o, ve_ObjectV1 ver = Some o.
Proof.
  intros Hh Ht. destruct (header_fields _ _ _ Hh) as (Hty & _ & mt & Hmt & _). rewrite Ht in Hty.
  unfold getModTime in Hmt. rewrite <-Hty in Hmt. cbn in Hmt. destruct (ve_ObjectV1 ver); [by eexists|done].
Qed.
End JournalFacts.

(** The object version [v] of the journal uses data directory [dd]. *)
Definition uses_dir `{XLLib} (dd : N) (v : xlMetaV2ShallowVersion) : Prop :=
  vh_Type (sv_header v) = ObjectType /\ header_UsesDataDir (sv_header v) = true /\
  exists d o, UnmarshalMsg (sv_meta v) = Ok d /\ ve_ObjectV2 d = Some o /\ ob_DataDir o = dd.

Lemma SharedDataDirCount_zero `{XLLib} `{Msgp} x uv dd : find (xl_data x) (uuid_String uv) = None ->
  SharedDataDirCount x uv dd = 0%nat -> forall v, v ∈ xl_versions x -> version_id v <> uv -> ~ uses_dir dd v.
Proof.
  intros Hi. unfold SharedDataDirCount. rewrite Hi. rewrite (bool_decide_eq_false_2 (is_Some None)) by (by intros [? ?]).
  rewrite andb_false_r. intros Hc v Hv Hne (Ht & Hu & d & o & Hd & Ho & Hdd).
  match type of Hc with count ?p _ = _ => assert (0 < count p (xl_versions x))%nat; [|lia] end.
  apply (count_NoDup _ _ [v]); [apply NoDup_singleton|]. intros w ->%list_elem_of_singleton. split; [done|].
  rewrite Ht, Hu, Hd, Ho, Hdd, N.eqb_refl. unfold version_id in Hne.
  by destruct (N.eqb_spec (vh_VersionID (sv_header v)) uv).
Qed.

(** Adding a version whose entry is valid and can be encoded succeeds, whether
    the entry replaces an existing one or is inserted, and however ties are
    sorted. *)
Lemma AddVersion_spec {L : XLLib} {LL : XLLaws L} `{Msgp} `{HttpTime} `{SliceSort} `{MapOrder} now x fi uv dd b :
  journal_ok x -> parse_version (fi_VersionID fi) = Ok uv ->
  (if bool_decide (fi_DataDir fi = "") then Ok 0%N else uuid_Parse (fi_DataDir fi)) = Ok dd ->
  Version_Valid (new_entry fi uv dd) = true -> MarshalMsg (new_entry fi uv dd) = Ok b ->
  exists x', AddVersion now x fi = Some (x', None) /\ journal_ok x' /\
    version_at x' uv = Ok (new_entry fi uv dd) /\
    forall id, id <> uv -> version_at x' id = version_at x id.
Proof.
  intros Hok Hp Hdd Hv Hb. unfold AddVersion. rewrite parse_normal, Hp, Hdd, Hv. cbn [negb].
  destruct (replace_total (xl_data x) (if bool_decide (fi_VersionID fi = "") then nullVersionID else fi_VersionID fi) (fi_Data fi))
    as [data Hdata].
  match goal with |- context [mbind _ ?e] => assert (exists x1, e = Some x1 /\
    (journal_ok x1 /\ xl_versions x1 = xl_versions x /\ xl_metaV x1 = xl_metaV x)) as (x1 & -> & Hok1 & Hvs & Hm1) end.
  { destruct (negb (fi_Deleted fi) && _); [|by exists x]. rewrite Hdata. cbn [mbind option_bind]. eexists. split; [done|].
    destruct Hok. by split. }
  cbn [mbind option_bind].
  assert (forall id, version_at x1 id = version_at x id) as Hat.
  { intros id. by rewrite !version_at_pick, Hvs, Hm1. }
  destruct (new_entry_header now fi uv dd) as (h & Hh & Hmt). pose proof (new_entry_clean fi uv dd) as Hc.
  pose proof (find_replace_spec uv (xl_versions x1)) as Hf. destruct (find_replace uv (xl_versions x1)) as [i|] eqn:Ef.
  - destruct Hf as (v & Hi & Hvid).
    { eapply Forall_impl; [apply (jo_entries _ Hok1)|]. by intros ? [? _]. }
    destruct (setIdx now x1 i (new_entry fi uv dd)) as [[x' err]|] eqn:Es.
    2:{ exfalso. revert Es. unfold setIdx. by rewrite Hi, Hb, Hh. }
    assert (err = None) as ->. { revert Es. unfold setIdx. rewrite Hi, Hb, Hh. by intros [= _ <-]. }
    destruct (setIdx_spec now x1 i _ x' v (jo_sorted _ Hok1) (jo_metaV _ Hok1) Hc (valid_type _ Hv) Hi Es) as (Hs' & Hr & _).
    destruct (rest_ok x1 i v Hok1 Hi) as (R1 & R2 & R3 & _ & R5).
    exists x'. split; [done|]. rewrite Hvid in R3, R5.
    destruct (replaced_ok now x1 x' _ _ uv Hs' Hr R1 R2 (jo_metaV _ Hok1) (new_entry_id _ _ _) R3) as (? & ? & Ho).
    split_and!; [done..|]. intros id Hid. rewrite (Ho id Hid), (R5 id Hid), <-Hat, version_at_pick. done.
  - assert (uv ∉ (version_id <$> xl_versions x1)) as Hn.
    { apply Hf. eapply Forall_impl; [apply (jo_entries _ Hok1)|]. by intros ? [? _]. }
    destruct (addVersion now x1 (new_entry fi uv dd)) as [[x' err]|] eqn:Es.
    2:{ exfalso. revert Es. unfold addVersion. destruct (header_fields _ _ _ Hh) as (_ & _ & mt & -> & _).
        cbn. by rewrite Hv, Hb, Hh. }
    assert (err = None) as ->.
    { revert Es. unfold addVersion. destruct (header_fields _ _ _ Hh) as (_ & _ & mt & Hg & Hmt'). rewrite Hg. cbn [mbind option_bind].
      rewrite Hv, Hb, Hh. cbn [negb mbind option_bind]. rewrite <-Hmt', Hmt.
      destruct (insert_version_total (xl_versions x1) (time_UnixNano (fi_ModTime fi)) (mkShallow h b)) as [vs ->];
        [pose proof (new_entry_modtime _ _ _ Hv); lia|]. by intros [= _ <-]. }
    destruct (addVersion_spec now x1 _ x' (jo_sorted _ Hok1) (jo_metaV _ Hok1) Hc Es) as (Hs' & Hr & _).
    exists x'. split; [done|].
    destruct (replaced_ok now x1 x' _ _ uv Hs' Hr (jo_nodup _ Hok1) (jo_entries _ Hok1) (jo_metaV _ Hok1) (new_entry_id _ _ _) Hn)
      as (? & ? & Ho).
    split_and!; [done..|]. intros id Hid. rewrite (Ho id Hid), <-Hat, version_at_pick. done.
Qed.

(** The entries of the journal after [AddVersion], the new one apart, were there
    before; the inline data is replaced under the version's key when the request
    carries data. *)
Lemma AddVersion_entries {L : XLLib} `{Msgp} `{HttpTime} `{SliceSort} `{MapOrder} now x fi uv x' err :
  parse_version (fi_VersionID fi) = Ok uv -> AddVersion now x fi = Some (x', err) -> err = None ->
  (forall v, v ∈ xl_versions x' -> version_id v <> uv -> v ∈ xl_versions x) /\ xl_metaV x' = xl_metaV x /\
  (if negb (fi_Deleted fi) && ((0 <? length (fi_Data fi))%nat || (fi_Size fi =? 0))
   then replace (xl_data x) (if bool_decide (fi_VersionID fi = "") then nullVersionID else fi_VersionID fi) (fi_Data fi)
   else Some (xl_data x)) = Some (xl_data x').
Proof.
  intros Hp Ha Hn. revert Ha. unfold AddVersion. rewrite parse_normal, Hp. subst err.
  destruct (if bool_decide (fi_DataDir fi = "") then _ else _) as [dd|]; [|done].
  match goal with |- mbind _ ?e = _ -> _ => destruct e as [x1|] eqn:E1; [|done] end. cbn [mbind option_bind].
  destruct (Version_Valid (new_entry fi uv dd)); [|done]. cbn [negb].
  assert (xl_versions x1 = xl_versions x /\ xl_metaV x1 = xl_metaV x /\
    (if negb (fi_Deleted fi) && ((0 <? length (fi_Data fi))%nat || (fi_Size fi =? 0))
     then replace (xl_data x) (if bool_decide (fi_VersionID fi = "") then nullVersionID else fi_VersionID fi) (fi_Data fi)
     else Some (xl_data x)) = Some (xl_data x1)) as (Hvs & Hm & Hdata).
  { destruct (_ && _); [|by injection E1 as <-]. destruct (replace _ _ _); [|done]. by injection E1 as <-. }
  rewrite Hdata, <-Hvs, <-Hm. destruct (new_entry_header now fi uv dd) as (h & Hh & _).
  assert (vh_VersionID h = uv) as Hid. { destruct (header_fields _ _ _ Hh) as (_ & Hg & _). rewrite new_entry_id in Hg. by injection Hg as ->. }
  destruct (find_replace uv (xl_versions x1)) as [i|].
  - unfold setIdx. destruct (xl_versions x1 !! i) as [old|]; [|done]. destruct (MarshalMsg _) as [b|]; [|done]. rewrite Hh. cbn [mbind option_bind].
    intros [= <-]. split; [|done]. intros v Hv Hne. cbn [with_versions xl_versions] in Hv.
    assert (v ∈ <[i := mkShallow h b]> (xl_versions x1)) as Hv'.
    { match type of Hv with context [if ?c then _ else _] => destruct c end; [|done]. by rewrite (proj1 (sortByModTime_spec _)) in Hv. }
    apply list_elem_of_lookup_1 in Hv' as [j Hj]. apply list_lookup_insert_Some in Hj as [(_ & <- & _)|[_ Hj]]; [by destruct Hne|].
    by eapply list_elem_of_lookup_2.
  - unfold addVersion. destruct (getModTime _); [|done]. cbn [mbind option_bind]. destruct (Version_Valid _); [cbn [negb]|done].
    destruct (MarshalMsg _) as [b|]; [|done]. rewrite Hh. cbn [mbind option_bind].
    destruct (insert_version _ _ _) as [vs|] eqn:Ei; [|done]. intros [= <-]. split; [|done]. intros v Hv Hne.
    cbn [with_versions xl_versions] in Hv. rewrite (insert_version_perm _ _ _ _ Ei) in Hv.
    apply elem_of_cons in Hv as [->|Hv]; [by destruct Hne|done].
Qed.

Lemma DeleteVersion_spec {L : XLLib} {LL : XLLaws L} `{Msgp} `{HttpTime} `{SliceSort} `{MapOrder} now x fi uv ver :
  journal_ok x -> plain_delete fi -> fi_Deleted fi = false ->
  parse_version (fi_VersionID fi) = Ok uv -> version_at x uv = Ok ver ->
  (forall o, ve_ObjectV2 ver = Some o -> ob_MetaSys o !! TransitionStatusKey = None) ->
  exists x' dir, DeleteVersion now x fi = Some (x', (dir, None)) /\ journal_ok x' /\
    version_at x' uv = Err errFileVersionNotFound /\
    (forall id, id <> uv -> version_at x' id = version_at x id) /\
    (ve_Type ver = ObjectType -> find (xl_data x) (uuid_String uv) = None ->
     forall dd v, dir = uuid_String dd -> v ∈ xl_versions x' -> dir <> "" -> ~ uses_dir dd v).
Proof.
  intros Hok Hpl Hnd Hp Hver Htr. unfold DeleteVersion. rewrite Hp, Hnd. cbn [andb].
  rewrite (plain_update fi Hpl). cbn [andb]. destruct Hpl as (Hvps & Hdmrs & Hmk & Hex & Hts).
  assert (exists v t, v ∈ xl_versions x /\ version_id v = uv /\ unmarshalV (xl_metaV x) (sv_meta v) = Ok ver /\
    header t ver = Some (sv_header v) /\ VersionType_valid (vh_Type (sv_header v)) = true) as (v & th & Hv & Hvid & Hu & Hh & Hty).
  { rewrite version_at_pick in Hver. destruct (pick (xl_versions x) uv) as [v|] eqn:E; [|done].
    apply pick_Some in E as [Hv Hvid]; [|apply (jo_nodup _ Hok)].
    destruct (entry_version x v Hok Hv) as (ver' & th & _ & Hu' & Hh' & ?). rewrite Hver in Hu'. injection Hu' as <-. by exists v, th. }
  assert (forall i w, xl_versions x !! i = Some w -> version_id w = uv -> w = v) as Huniq.
  { intros i w Hi Hw. assert (pick (xl_versions x) uv = Some w) as E1.
    { apply pick_Some; [apply (jo_nodup _ Hok)|]. split; [by eapply list_elem_of_lookup_2|done]. }
    assert (pick (xl_versions x) uv = Some v) as E2 by (apply pick_Some; [apply (jo_nodup _ Hok)|done]). congruence. }
  destruct (header_fields _ _ _ Hh) as (Htv & _ & _).
  pose proof (find_delete_spec uv (xl_versions x) (jo_nodup _ Hok)) as Hfd.
  destruct (find_delete uv false (xl_versions x)) as [i|].
  - destruct Hfd as (w & Hi & Hw & Hwt). assert (w = v) as -> by (by eapply Huniq). rewrite Hi. cbn [mbind option_bind].
    unfold delete_found. rewrite (getIdx_lookup _ _ _ _ Hi Hu), Hnd, Hmk. cbn [andb].
    destruct (remove_at_ok x i v Hok Hi) as (? & ? & ?). rewrite Hw in *.
    destruct Hwt as [Hwt|Hwt]; rewrite Hwt; cbn.
    + destruct (header_legacy _ _ _ Hh Hwt) as [o ->]. cbn. eexists _, _. split_and!; [done..|].
      rewrite <-Htv, Hwt. done.
    + eexists _, _. split_and!; [done..|]. rewrite <-Htv, Hwt. done.
  - pose proof (find_object_spec uv (xl_versions x)) as Hfo. destruct (find_object uv (xl_versions x)) as [i|].
    2:{ exfalso. destruct (Hfd v Hv Hvid) as [? ?]. specialize (Hfo v Hv Hvid).
        unfold VersionType_valid, invalidVersionType, lastVersionType, LegacyType, DeleteType, ObjectType in *.
        apply andb_true_iff in Hty as [?%Z.ltb_lt ?%Z.ltb_lt]. lia. }
    destruct Hfo as (w & Hi & Hw & Hwt). assert (w = v) as -> by (by eapply Huniq). unfold delete_object.
    rewrite (getIdx_lookup _ _ _ _ Hi Hu). destruct (header_object _ _ _ Hh Hwt) as (o & Ho & Hoid). rewrite Ho.
    cbn [mbind option_bind]. rewrite Hex, bool_decide_eq_false_2 by done.
    unfold InitFreeVersion. rewrite (Htr o Ho). cbn [mbind option_bind]. rewrite Hnd. cbn [mbind option_bind].
    destruct (remove_at_ok x i v Hok Hi) as (Hr1 & Hr2 & Hr3). rewrite Hw in Hr2, Hr3.
    unfold version_id in Hw. rewrite Hw in Hoid. rewrite <-Hoid.
    destruct (Nat.ltb_spec 0 (SharedDataDirCount (remove_at x i) uv (ob_DataDir o))) as [Hlt|Hz].
    + eexists _, _. split_and!; [done..|]. by intros _ _ dd w Hdir _ [].
    + eexists _, _. split_and!; [done..|]. intros _ Hinl dd w Hdir Hwin _.
      assert (dd = ob_DataDir o) as ->.
      { apply (f_equal uuid_Parse) in Hdir. rewrite !Parse_String in Hdir. by injection Hdir. }
      eapply (SharedDataDirCount_zero (remove_at x i) uv); [done|lia|done|].
      destruct (rest_ok x i v Hok Hi) as (_ & _ & R3 & _). intros He. apply R3. rewrite Hvid, <-He.
      apply list_elem_of_fmap. by exists w.
Qed.

(** Deleting a version for good.  Outside replication and tiering,
    [DeleteVersion] of a version that exists succeeds and removes exactly that
    version; the data directory it returns for an object, for the caller to
    remove, is used by no version that is left. *)
Theorem DeleteVersion_permanent {L : XLLib} {LL : XLLaws L} `{Msgp} `{HttpTime} `{SliceSort} `{MapOrder} now x fi uv ver :
  journal_ok x -> plain_delete fi -> fi_Deleted fi = false ->
  parse_version (fi_VersionID fi) = Ok uv -> version_at x uv = Ok ver ->
  (forall o, ve_ObjectV2 ver = Some o -> ob_MetaSys o !! TransitionStatusKey = None) ->
  exists x' dir, DeleteVersion now x fi = Some (x', (dir, None)) /\ journal_ok x' /\
    version_at x' uv = Err errFileVersionNotFound /\
    (forall id, id <> uv -> version_at x' id = version_at x id) /\
    (ve_Type ver = ObjectType -> find (xl_data x) (uuid_String uv) = None ->
     forall dd v, dir = uuid_String dd -> v ∈ xl_versions x' -> dir <> "" -> ~ uses_dir dd v).
Proof. apply DeleteVersion_spec. Qed.

(** ** Headers across disks *)

Lemma xor_fold_perm {A} (f : A -> Z) l l' z : l ≡ₚ l' ->
  fold_left (fun crc x => Z.lxor crc (f x)) l z = fold_left (fun crc x => Z.lxor crc (f x)) l' z.
Proof.
  intros Hp. revert z. induction Hp as [|x l l' Hp IH|x y l|l1 l2 l3 _ IH1 _ IH2]; intros z; cbn; [done|apply IH| |].
  - by rewrite !Z.lxor_assoc, (Z.lxor_comm (f x)).
  - by rewrite IH1.
Qed.

Lemma hashDeterministic_order `{XLLib} (o1 o2 : MapOrder) seed m :
  @hashDeterministic _ o1 seed m = @hashDeterministic _ o2 seed m.
Proof.
  unfold hashDeterministic. set (f := fun kv : string * string =>
    wrapu64 (Z.lxor (xxh3_HashString kv.1) 0x4ee3bbaf7ab2506b + Z.lxor (xxh3_HashString kv.2) 0x8da4c8da66194257)).
  rewrite (fold_left_ext _ (fun crc kv => Z.lxor crc (f kv)) (@range_map o1 _ _ _ _ m)) by (by intros ? []).
  rewrite (fold_left_ext _ (fun crc kv => Z.lxor crc (f kv)) (@range_map o2 _ _ _ _ m)) by (by intros ? []).
  apply xor_fold_perm. unfold range_map. by rewrite !range_order_perm.
Qed.

(** The entry a disk stores for the erasure shard [i] of an object. *)
Definition on_shard (i : Z) (j : xlMetaV2Version) : xlMetaV2Version :=
  mkVersion (ve_Type j)
    ((fun m => mkV1 (v1_Version m) (v1_Format m) (v1_Size m) (v1_ModTime m) (v1_Name m) (v1_Dir m) (v1_Mode m)
        (ei_with_Index (v1_Erasure m) i) (v1_Release m) (v1_Meta m) (v1_Parts m) (v1_VersionID m) (v1_DataDir m))
     <$> ve_ObjectV1 j)
    ((fun o => mkObj (ob_VersionID o) (ob_DataDir o) (ob_ErasureAlgorithm o) (ob_ErasureM o) (ob_ErasureN o)
        (ob_ErasureBlockSize o) i (ob_ErasureDist o) (ob_BitrotChecksumAlgo o) (ob_PartNumbers o) (ob_PartETags o)
        (ob_PartSizes o) (ob_PartActualSizes o) (ob_PartIndices o) (ob_Size o) (ob_ModTime o)
        (ob_MetaSys o) (ob_MetaUser o)) <$> ve_ObjectV2 j)
    (ve_DeleteMarker j) (ve_WrittenByVersion j).

(** The disks of an object agree on the header of a version.  The header,
    signature included, depends neither on the shard a disk holds nor on the
    order in which a map happens to be iterated: disks that store shards of the
    same version write equal headers, which is what merging relies on. *)
Theorem header_same_on_disks `{XLLib} `{HttpTime} (o1 o2 : MapOrder) now i j ver :
  @header _ _ o1 now (on_shard i ver) = @header _ _ o2 now (on_shard j ver).
Proof.
  unfold header.
  assert (@getSignature _ o1 (on_shard i ver) = @getSignature _ o2 (on_shard j ver)) as ->.
  { unfold getSignature, object_Signature, marker_Signature, legacy_Signature, hashDeterministicString, hashDeterministicBytes.
    destruct ver as [t [m|] [o|] [d|] w]; cbn [on_shard ve_Type ve_ObjectV1 ve_ObjectV2 ve_DeleteMarker fmap option_fmap option_map];
      cbn; by rewrite ?(hashDeterministic_order o1 o2). }
  destruct ver as [t [m|] [o|] d w]; reflexivity.
Qed.

(** ** The journal over time *)

(** An operation on the journal of an object. *)
Inductive xl_op :=
| OpAdd (fi : FileInfo)
| OpUpdate (fi : FileInfo)
| OpLegacy (m : xlMetaV1Object)
| OpFree (fi : FileInfo)
| OpDelete (fi : FileInfo).

Section JournalRuns.
Context {L : XLLib} {LL : XLLaws L} `{Msgp} `{HttpTime} `{SliceSort} `{MapOrder}.

Definition xl_exec (now : time) (x : xlMetaV2) (op : xl_op) : option xlMetaV2 :=
  match op with
  | OpAdd fi => fst <$> AddVersion now x fi
  | OpUpdate fi => fst <$> UpdateObjectVersion now x fi
  | OpLegacy m => fst <$> AddLegacy now x m
  | OpFree fi => fst <$> AddFreeVersion now x fi
  | OpDelete fi => fst <$> DeleteVersion now x fi
  end.

(** Runs of operations at any times, whether an operation succeeds or not.  A
    legacy object was written after 1970. *)
Definition op_ok (op : xl_op) : Prop :=
  match op with OpLegacy m => 0 <= time_UnixNano (v1_ModTime m) | _ => True end.

Inductive xl_reachable : xlMetaV2 -> Prop :=
| reach_new : xl_reachable (mkXL [] [] 1)
| reach_step now x op x' : xl_reachable x -> op_ok op -> xl_exec now x op = Some x' -> xl_reachable x'.

Lemma addVersion_sorted now x ver x' err : Sorted by_modtime (xl_versions x) ->
  (forall mt, Version_Valid ver = true -> getModTime ver = Some mt -> -1 <= time_UnixNano mt) ->
  addVersion now x ver = Some (x', err) -> Sorted by_modtime (xl_versions x').
Proof.
  intros Hs Hmt. unfold addVersion. destruct (getModTime ver) as [mt|] eqn:Emt; [|done]. cbn [mbind option_bind].
  destruct (Version_Valid ver) eqn:Ev; cbn [negb]; [|by intros [= <- _]].
  destruct (MarshalMsg ver) as [b|]; [|by intros [= <- _]].
  destruct (header now ver) as [h|] eqn:Eh; [|done]. cbn [mbind option_bind].
  destruct (header_fields _ _ _ Eh) as (_ & _ & mt' & Emt' & Hh). rewrite Emt in Emt'. injection Emt' as <-.
  destruct (insert_version_total (xl_versions x) (time_UnixNano mt) (mkShallow h b) (Hmt mt eq_refl eq_refl)) as [vs Ei].
  rewrite Ei. intros [= <- _]. rewrite <-Hh in Ei. by apply (insert_version_sorted (xl_versions x) (mkShallow h b)).
Qed.

Lemma setIdx_sorted now x i ver x' err : Sorted by_modtime (xl_versions x) ->
  setIdx now x i ver = Some (x', err) -> Sorted by_modtime (xl_versions x').
Proof.
  intros Hs. unfold setIdx. destruct (xl_versions x !! i) as [old|] eqn:Ei; [|by intros [= <- _]].
  destruct (MarshalMsg ver) as [b|].
  2:{ intros [= <- _]. by eapply Sorted_insert_same. }
  destruct (header now ver) as [h|]; [|done]. cbn [mbind option_bind].
  destruct (Z.eqb_spec (vh_ModTime (sv_header old)) (vh_ModTime h)); cbn [negb]; intros [= <- _].
  - by eapply Sorted_insert_same.
  - apply sortByModTime_spec.
Qed.

Lemma valid_modtime ver mt : Version_Valid ver = true -> ve_Type ver <> LegacyType ->
  (forall o, ve_ObjectV2 ver = Some o -> int64_range (ob_ModTime o)) ->
  (forall d, ve_DeleteMarker ver = Some d -> int64_range (dm_ModTime d)) ->
  getModTime ver = Some mt -> -1 <= time_UnixNano mt.
Proof.
  unfold Version_Valid, getModTime. destruct (VersionType_valid (ve_Type ver)); [|done]. cbn [negb].
  destruct (Z.eqb_spec (ve_Type ver) LegacyType); [done|].
  destruct (Z.eqb_spec (ve_Type ver) ObjectType).
  - destruct (ve_ObjectV2 ver) as [o|]; [|done]. rewrite !andb_true_iff. intros [_ ?%Z.ltb_lt] _ Ho _ [= <-].
    rewrite time_UnixNano_Unix by auto. lia.
  - destruct (Z.eqb_spec (ve_Type ver) DeleteType); [|done].
    destruct (ve_DeleteMarker ver) as [d|]; [|done]. intros ?%Z.ltb_lt _ _ Hd [= <-].
    rewrite time_UnixNano_Unix by auto. lia.
Qed.

Lemma getIdx_int64 x i ver o : getIdx x i = Ok ver -> ve_ObjectV2 ver = Some o -> int64_range (ob_ModTime o).
Proof.
  unfold getIdx, unmarshalV. destruct (xl_versions x !! i) as [v|]; [|done]. destruct (_ || _); [|done].
  destruct (UnmarshalMsg (sv_meta v)) as [u|] eqn:Eu; [|done]. intros [= <-]. unfold clean_etags.
  destruct (ve_ObjectV2 u) as [o'|] eqn:Eo; [|congruence].
  pose proof (Unmarshal_int64 _ _ _ Eu Eo). destruct (forallb _ _); cbn; [intros [= <-]; done|congruence].
Qed.

Lemma new_entry_sorted now x fi uv dd x' err : Sorted by_modtime (xl_versions x) ->
  addVersion now x (new_entry fi uv dd) = Some (x', err) -> Sorted by_modtime (xl_versions x').
Proof.
  intros Hs. apply addVersion_sorted; [done|]. intros mt Hv. apply valid_modtime; [done|..]; unfold new_entry;
    destruct (fi_Deleted fi); cbn; intros; simplify_eq; try done; apply wrap64_range.
Qed.

Lemma delete_entry_sorted now x fi uv m x' err : Sorted by_modtime (xl_versions x) ->
  addVersion now x (delete_entry fi uv m) = Some (x', err) -> Sorted by_modtime (xl_versions x').
Proof.
  intros Hs. apply addVersion_sorted; [done|]. intros mt Hv. apply valid_modtime; [done|..]; unfold delete_entry;
    destruct (fi_Deleted fi); cbn; intros; simplify_eq; try done; apply wrap64_range.
Qed.

Lemma free_version_sorted now x fi o fv x' err : Sorted by_modtime (xl_versions x) -> int64_range (ob_ModTime o) ->
  InitFreeVersion o fi = Some (Some fv) -> addVersion now x fv = Some (x', err) -> Sorted by_modtime (xl_versions x').
Proof.
  intros Hs Ho Hf. apply addVersion_sorted; [done|]. intros mt Hv. unfold InitFreeVersion in Hf.
  destruct (ob_MetaSys o !! TransitionStatusKey) as [st|]; [|done]. destruct (bool_decide _); [|done].
  destruct (uuid_Parse _); [|done]. injection Hf as <-. by apply valid_modtime; cbn; intros; simplify_eq.
Qed.

Lemma remove_at_sorted x i : Sorted by_modtime (xl_versions x) -> Sorted by_modtime (xl_versions (remove_at x i)).
Proof. apply Sorted_remove. Qed.

(** Takes apart the monadic structure of an operation that returned. *)
Ltac xl_step :=
  repeat first
    [ progress cbn [mbind option_bind fst snd] in *
    | match goal with
      | H : Some _ = Some _ |- _ => injection H; clear H; intros; subst
      | H : None = Some _ |- _ => discriminate H
      | H : context [mbind _ ?e] |- _ => destruct e as [[??]|] eqn:?
      | H : context [mbind _ ?e] |- _ => destruct e eqn:?
      | H : context [if ?b then _ else _] |- _ => destruct b eqn:?
      | H : match ?e with Ok _ => _ | Err _ => _ end = _ |- _ => destruct e eqn:?
      | H : match ?e with Some _ => _ | None => _ end = _ |- _ => destruct e eqn:?
      end ].

#[local] Create HintDb xl.
#[local] Hint Resolve remove_at_sorted setIdx_sorted delete_entry_sorted new_entry_sorted : xl.

Lemma delete_found_sorted now x fi uv m update i v x' r : Sorted by_modtime (xl_versions x) ->
  delete_found now x fi (delete_entry fi uv m) update i v = Some (x', r) -> Sorted by_modtime (xl_versions x').
Proof. intros Hs Hd. unfold delete_found in Hd. xl_step; eauto with xl. Qed.

Lemma delete_object_sorted now x fi uv m i x' r : Sorted by_modtime (xl_versions x) ->
  delete_object now x fi (delete_entry fi uv m) i = Some (x', r) -> Sorted by_modtime (xl_versions x').
Proof.
  intros Hs. unfold delete_object. destruct (getIdx x i) as [ver|] eqn:Eg; [|by intros [= <- _]].
  destruct (ve_ObjectV2 ver) as [o|] eqn:Eo; [|done]. pose proof (getIdx_int64 _ _ _ _ Eg Eo) as Hi.
  cbn [mbind option_bind]. set (act := if fi_ExpireRestored fi then _ else _).
  assert (forall x1 e, act = Some (x1, e) -> Sorted by_modtime (xl_versions x1)) as Hact.
  { intros x1 e Ha. unfold act in Ha. clear act. xl_step; eauto using free_version_sorted with xl. }
  destruct act as [[x1 e1]|]; [|done]. pose proof (Hact _ _ eq_refl) as Hs1. intros Hd. xl_step; eauto with xl.
Qed.

Lemma xl_exec_sorted now x op x' : Sorted by_modtime (xl_versions x) -> op_ok op ->
  xl_exec now x op = Some x' -> Sorted by_modtime (xl_versions x').
Proof.
  intros Hs Hop He. assert (exists r, match op with
    | OpAdd fi => AddVersion now x fi = Some (x', r) | OpUpdate fi => UpdateObjectVersion now x fi = Some (x', r)
    | OpLegacy m => AddLegacy now x m = Some (x', r) | OpFree fi => AddFreeVersion now x fi = Some (x', r)
    | OpDelete fi => exists d, DeleteVersion now x fi = Some (x', d) end) as [r Hr].
  { destruct op; cbn [xl_exec] in He; apply fmap_Some in He as ([? r] & ? & ->); [by exists r..|]. exists None. by exists r. }
  clear He. destruct op as [fi|fi|m|fi|fi].
  - unfold AddVersion in Hr. xl_step; cbn; try done; first [eapply setIdx_sorted; [|done]; done|eapply new_entry_sorted; [|done]; done].
  - unfold UpdateObjectVersion in Hr. xl_step; eauto with xl.
  - unfold AddLegacy in Hr. xl_step; [done|]. eapply addVersion_sorted; [done| |done]. intros mt _ [= <-].
    cbn in Hop. cbn. lia.
  - unfold AddFreeVersion in Hr. xl_step; eauto using free_version_sorted, getIdx_int64 with xl.
  - destruct Hr as [d Hd]. unfold DeleteVersion in Hd.
    xl_step; eauto using delete_found_sorted, delete_object_sorted with xl.
Qed.

(** C36: the journal of an object is ordered by time.  Whatever operations run,
    at whatever times and whether they succeed or fail, the versions stay ordered
    by modification time, latest first; so [latestModtime] is the greatest
    modification time of a version. *)
Theorem journal_stays_sorted x : xl_reachable x ->
  Sorted by_modtime (xl_versions x) /\
  forall v, v ∈ xl_versions x -> time_Unix_nano (vh_ModTime (sv_header v)) <= latestModtime x.
Proof.
  intros Hr. assert (Sorted by_modtime (xl_versions x)) as Hs.
  { induction Hr as [|now x op x' _ IH Hop He]; [constructor|by eapply xl_exec_sorted]. }
  split; [done|]. intros v Hv. unfold latestModtime, time_Unix_nano. apply Sorted_by_strong in Hs.
  destruct Hs as [|a vs Hs Hf]; [by apply elem_of_nil in Hv|]. apply elem_of_cons in Hv as [->|Hv]; [lia|].
  rewrite Forall_forall in Hf. pose proof (Hf v Hv) as Hle. unfold by_modtime in Hle. lia.
Qed.
End JournalRuns.

(** ** Witnesses

    A concrete library: UUIDs are printed in binary, least digit first, and two
    object versions and a delete marker can be encoded. *)

Fixpoint bits_String (p : positive) : string :=
  match p with xH => "1" | xO p => "o" +:+ bits_String p | xI p => "i" +:+ bits_String p end.
Fixpoint bits_Parse (s : string) : option positive :=
  match s with
  | String "1"%char "" => Some xH
  | String "o"%char s => xO <$> bits_Parse s
  | String "i"%char s => xI <$> bits_Parse s
  | _ => None
  end.

Lemma bits_Parse_String p : bits_Parse (bits_String p) = Some p.
Proof.
  induction p as [p IH|p IH|]; [| |done].
  - change (bits_String p~1) with (String "i"%char (bits_String p)). cbn [bits_Parse]. by rewrite IH.
  - change (bits_String p~0) with (String "o"%char (bits_String p)). cbn [bits_Parse]. by rewrite IH.
Qed.

Definition sample_object (id dd : N) (mt : Z) : xlMetaV2Object :=
  mkObj id dd ReedSolomon 2 2 100 1 [1; 2; 3; 4] HighwayHash [1] [] [5] [5] [] 5 mt ∅ ∅.
Definition sample_version (o : xlMetaV2Object) : xlMetaV2Version := mkVersion ObjectType None (Some o) None 7.
Definition sample_ver1 : xlMetaV2Version := sample_version (sample_object 1 10 100).
Definition sample_ver2 : xlMetaV2Version := sample_version (sample_object 2 10 200).

#[local] Instance part_eq_dec : EqDecision ObjectPartInfo.
Proof. solve_decision. Defined.
#[local] Instance checksum_eq_dec : EqDecision ChecksumInfo.
Proof. solve_decision. Defined.
#[local] Instance erasure_info_eq_dec : EqDecision ErasureInfo.
Proof. solve_decision. Defined.
#[local] Instance v1_eq_dec : EqDecision xlMetaV1Object.
Proof. solve_decision. Defined.
#[local] Instance object_eq_dec : EqDecision xlMetaV2Object.
Proof. solve_decision. Defined.
#[local] Instance marker_eq_dec : EqDecision xlMetaV2DeleteMarker.
Proof. solve_decision. Defined.
#[local] Instance version_eq_dec : EqDecision xlMetaV2Version.
Proof. solve_decision. Defined.

#[local] Instance sample_lib : XLLib := {|
  uuid_Parse s := match s with
                  | String "u"%char "" => Ok 0%N
                  | String "u"%char s => match bits_Parse s with Some p => Ok (Npos p) | None => Err (ErrNew "invalid UUID") end
                  | _ => Err (ErrNew "invalid UUID")
                  end;
  uuid_String u := match u with 0%N => "u" | Npos p => String "u"%char (bits_String p) end;
  MarshalMsg v := if decide (v = sample_ver1) then Ok [Byte.x01]
                  else if decide (v = sample_ver2) then Ok [Byte.x02] else Err (ErrNew "marshal");
  UnmarshalMsg b := match b with
                    | [Byte.x01] => Ok sample_ver1 | [Byte.x02] => Ok sample_ver2 | _ => Err (ErrNew "unmarshal")
                    end;
  object_MarshalMsg o := Ok [];
  marker_MarshalMsg d := Ok [];
  legacy_MarshalMsg m := Ok [];
  xxhash_Sum64 b := Z.of_nat (length b);
  xxh3_HashString s := Z.of_nat (String.length s);
  globalVersionUnix := 7
|}.

#[local] Instance sample_laws : XLLaws sample_lib.
Proof.
  split.
  - intros v b. cbn. destruct (decide (v = sample_ver1)) as [->|]; [by intros [= <-]|].
    destruct (decide (v = sample_ver2)) as [->|]; [by intros [= <-]|done].
  - intros [|p]; [done|]. cbn. rewrite bits_Parse_String. by destruct p.
  - intros b v o Hu Ho. cbn in Hu. destruct b as [|[] [|]]; try done; injection Hu as <-; injection Ho as <-; done.
Qed.

#[local] Instance sample_http : HttpTime := {| http_Format _ := ""; http_Parse _ := Err (ErrNew "parse") |}.

Definition sample_request (id : string) (mt : Z) : FileInfo :=
  mkFileInfo "" "" id false false "" "" "" "" false "uoio1" false (time_Unix_nano mt) 5 0 0 ∅
    [mkPart "" 1 5 5 0 []] (mkErasureInfo "" 2 2 100 1 [1; 2; 3; 4] []) false zero_ReplicationState [] 0 0 false 0 0.

Definition sample_shallow (v : xlMetaV2Version) (b : byte) : xlMetaV2ShallowVersion :=
  mkShallow (default (mkHeader 0 0 0 0 0) (header 0 v)) [b].
Definition sample_journal (vs : list xlMetaV2ShallowVersion) : xlMetaV2 := mkXL vs [] 1.

Lemma sample_entry_ok v b : UnmarshalMsg [b] = Ok v -> clean_etags v = v -> (exists h, header 0 v = Some h) ->
  VersionType_valid (ve_Type v) = true -> entry_ok 1 (sample_shallow v b).
Proof.
  intros Hu Hc [h Hh] Ht. unfold entry_ok, sample_shallow. cbn [sv_header sv_meta]. rewrite Hh. change (default _ (Some h)) with h.
  destruct (header_fields _ _ _ Hh) as (-> & _). split; [done|]. exists v, 0. split; [|done].
  unfold unmarshalV. cbn [Z.eqb orb]. by rewrite Hu, Hc.
Qed.

Lemma sample_journal_ok2 : journal_ok (sample_journal [sample_shallow sample_ver2 Byte.x02; sample_shallow sample_ver1 Byte.x01]).
Proof.
  split.
  - constructor; [repeat constructor|]. constructor. unfold by_modtime. vm_compute. discriminate.
  - apply (bool_decide_unpack _). vm_compute. exact I.
  - constructor; [|constructor; [|constructor]]; apply sample_entry_ok; try done; by eexists.
  - by right.
Qed.

Lemma DeleteVersion_permanent_witness :
  exists x' dir, DeleteVersion 0 (sample_journal [sample_shallow sample_ver2 Byte.x02; sample_shallow sample_ver1 Byte.x01])
      (sample_request "uo1" 0) = Some (x', (dir, None)) /\
    version_at x' 2 = Err errFileVersionNotFound /\ version_at x' 1 = Ok sample_ver1.
Proof.
  destruct (DeleteVersion_permanent 0 (sample_journal [sample_shallow sample_ver2 Byte.x02; sample_shallow sample_ver1 Byte.x01])
    (sample_request "uo1" 0) 2 sample_ver2) as (x' & dir & H1 & _ & H2 & H3 & _).
  - exact sample_journal_ok2.
  - repeat split; done.
  - reflexivity.
  - vm_compute. reflexivity.
  - vm_compute. reflexivity.
  - by intros o [= <-].
  - exists x', dir. split_and!; [exact H1|exact H2|]. rewrite (H3 1%N) by done. vm_compute. reflexivity.
Defined.

Lemma journal_stays_sorted_witness :
  exists x, AddVersion 0 (sample_journal []) (sample_request "u1" 100) = Some (x, None) /\
    Sorted by_modtime (xl_versions x).
Proof.
  eexists. split; [vm_compute; reflexivity|]. refine (proj1 (journal_stays_sorted _ _)).
  eapply (reach_step 0 (sample_journal []) (OpAdd (sample_request "u1" 100))); [apply reach_new|exact I|].
  vm_compute. reflexivity.
Defined.
