(* ===== verification/XLMerge.v ===== *)
(** * Merging the version journals of the disks ([mergeXLV2Versions])

    Every disk of an erasure set keeps its own journal of an object.  A reader
    merges the journals into the versions that a quorum of disks agrees on
    ([cmd/xl-storage-format-v2.go]). *)

From S2P Require Import Prelude Erasure FileInfo Quorum Restore XLMeta.

(** The zero [xlMetaV2ShallowVersion]. *)
Definition zero_shallow : xlMetaV2ShallowVersion := mkShallow (mkHeader 0 0 0 0 0) [].

(** ** The algorithm *)

Section Merge.
Context `{MapOrder} (strict : bool).

(** Step 1: the top versions, and whether their headers are the same.  An empty
    journal after the first top version makes the tops inconsistent. *)
Fixpoint top_versions (versions : list (list xlMetaV2ShallowVersion)) (tops : list xlMetaV2ShallowVersion)
    (topSig : xlMetaV2VersionHeader) (consistent : bool) : list xlMetaV2ShallowVersion * bool :=
  match versions with
  | [] => (tops, consistent)
  | [] :: versions => top_versions versions tops topSig false
  | (ver :: _) :: versions =>
      match tops with
      | [] => top_versions versions [ver] (sv_header ver) true
      | _ => top_versions versions (tops ++ [ver]) topSig (consistent && bool_decide (sv_header ver = topSig))
      end
  end.

(** The header under which a version is counted. *)
Definition count_key (h : xlMetaV2VersionHeader) : xlMetaV2VersionHeader :=
  if strict then h else mkHeader (vh_VersionID h) (vh_ModTime h) 0 (vh_Type h) (vh_Flags h).

(** The counting map over the tops that have the version id of [ver]. *)
Definition count_tops (id : N) (tops : list xlMetaV2ShallowVersion) : gmap xlMetaV2VersionHeader nat :=
  fold_left (fun x a =>
    if negb (vh_VersionID (sv_header a) =? id)%N then x
    else <[count_key (sv_header a) := S (default 0%nat (x !! count_key (sv_header a)))]> x) tops ∅.

(** The last top counted under [k]. *)
Definition last_top (tops : list xlMetaV2ShallowVersion) (k : xlMetaV2VersionHeader) (latest : xlMetaV2ShallowVersion)
    : xlMetaV2ShallowVersion :=
  fold_left (fun latest a => if bool_decide (count_key (sv_header a) = k) then a else latest) tops latest.

(** The pure counting algorithm: the loop over the counting map and its body. *)
Definition count_step (tops : list xlMetaV2ShallowVersion) (r : xlMetaV2ShallowVersion * nat)
    (kv : xlMetaV2VersionHeader * nat) : xlMetaV2ShallowVersion * nat :=
  let '(latest, latestCount) := r in
  let '(k, v) := kv in
  if (v <? latestCount)%nat then (latest, latestCount)
  else if (v =? latestCount)%nat && sortsBefore (sv_header latest) k then (latest, latestCount)
  else (last_top tops k latest, v).

Definition count_latest (id : N) (tops : list xlMetaV2ShallowVersion) (latest : xlMetaV2ShallowVersion)
    : xlMetaV2ShallowVersion * nat :=
  fold_left (count_step tops) (range_map (count_tops id tops)) (latest, 0%nat).

(** The loop that finds the latest of the [tops]; [first] is [i == 0]. *)
Fixpoint latest_loop (tops : list xlMetaV2ShallowVersion) (first : bool) (rest : list xlMetaV2ShallowVersion)
    (latest : xlMetaV2ShallowVersion) (latestCount : nat) : xlMetaV2ShallowVersion * nat :=
  match rest with
  | [] => (latest, latestCount)
  | ver :: rest =>
      if bool_decide (sv_header ver = sv_header latest) then latest_loop tops false rest latest (S latestCount)
      else if first || sortsBefore (sv_header ver) (sv_header latest) then
        latest_loop tops false rest ver
          (if first || (latestCount =? 0)%nat then 1
           else if negb strict && matchesNotStrict (sv_header ver) (sv_header latest) then S latestCount
           else 1%nat)
      else if (0 <? latestCount)%nat && negb strict && matchesNotStrict (sv_header ver) (sv_header latest)
      then latest_loop tops false rest latest (S latestCount)
      else if (0 <? latestCount)%nat && (vh_VersionID (sv_header ver) =? vh_VersionID (sv_header latest))%N
      then count_latest (vh_VersionID (sv_header ver)) tops latest
      else latest_loop tops false rest latest latestCount
  end.

(** The removal loop over one journal: [None] is the panic when a slice is cut
    beyond its end.  The [continue] in the loop over [merged] continues that
    loop, so that as many versions are cut as [merged] has entries with the
    identifier of the version looked at. *)
Fixpoint cut_versions (latest : xlMetaV2VersionHeader) (merged : list xlMetaV2ShallowVersion)
    (vers : list xlMetaV2ShallowVersion) : option (list xlMetaV2ShallowVersion) :=
  match vers with
  | [] => Some []
  | ver :: vers' =>
      let h := sv_header ver in
      if (vh_ModTime latest <? vh_ModTime h) || bool_decide (h = latest) || (vh_VersionID latest =? vh_VersionID h)%N
      then cut_versions latest merged vers'
      else
        let n := count (fun m => (vh_VersionID h =? vh_VersionID (sv_header m))%N) merged in
        if (n <=? length vers)%nat then Some (drop n vers) else None
  end.

(** The selected version and the number of tops it stands for. *)
Definition select (tops : list xlMetaV2ShallowVersion) (consistent : bool) : xlMetaV2ShallowVersion * nat :=
  match tops with
  | top :: _ => if consistent then (top, length tops) else latest_loop tops true tops zero_shallow 0
  | [] => (zero_shallow, 0%nat)
  end.

Inductive merge_result :=
| Merged (versions : list xlMetaV2ShallowVersion)
| MergePanic
| MergeNoFuel.

(** Adds the selected version to the result and counts it when it is not free. *)
Definition emit (latest : xlMetaV2ShallowVersion) (merged : list xlMetaV2ShallowVersion) (nVersions : Z)
    : list xlMetaV2ShallowVersion * Z :=
  (merged ++ [latest], if header_FreeVersion (sv_header latest) then nVersions else nVersions + 1).

Fixpoint merge_loop (fuel : nat) (quorum requestedVersions : Z) (versions : list (list xlMetaV2ShallowVersion))
    (merged : list xlMetaV2ShallowVersion) (nVersions : Z) : merge_result :=
  match fuel with
  | O => MergeNoFuel
  | S fuel =>
      let '(tops, consistent) := top_versions versions [] (mkHeader 0 0 0 0 0) true in
      if len tops <? quorum then Merged merged
      else
        let '(latest, latestCount) := select tops consistent in
        let '(merged, nVersions) :=
          if consistent || (quorum <=? Z.of_nat latestCount) then emit latest merged nVersions
          else (merged, nVersions) in
        match mapM (cut_versions (sv_header latest) merged) versions with
        | None => MergePanic
        | Some versions =>
            if (0 <? requestedVersions) && (requestedVersions =? nVersions)
            then Merged (merged ++ default [] (head versions))
            else merge_loop fuel quorum requestedVersions versions merged nVersions
        end
  end.
End Merge.

Definition mergeXLV2Versions `{MapOrder} (quorum : Z) (strict : bool) (requestedVersions : Z)
    (versions : list (list xlMetaV2ShallowVersion)) : merge_result :=
  let quorum := if quorum <=? 0 then 1 else quorum in
  if (len versions <? quorum) || (length versions =? 0)%nat then Merged []
  else match versions with
       | [vs] => Merged vs
       | _ =>
           let strict := if quorum =? 1 then true else strict in
           merge_loop strict (S (length (concat versions))) quorum requestedVersions versions [] 0
       end.

(** ** Journals that lose or repeat a version *)

Definition hdr (id : N) (mt : Z) : xlMetaV2ShallowVersion := mkShallow (mkHeader id mt 0 ObjectType 2) [].

Example merge_quorum :
  mergeXLV2Versions 2 true 0 [[hdr 2 10; hdr 1 9]; [hdr 1 9]; [hdr 2 10; hdr 1 9]; [hdr 3 20; hdr 2 10]]
  = Merged [hdr 2 10; hdr 1 9].
Proof. vm_compute. reflexivity. Qed.

(** Merging disks that disagree can repeat a version, panic, and lose a
    version.  In a round that emits a version, a journal is cut by one already
    emitted version only: if two follow each other, the second is emitted again
    in the next round, although the comment says "Skip versions with version id we
    already emitted".  The [continue] of that loop then cuts a journal once for
    every emitted version with the identifier, beyond its end if there are two of
    them.  And three of seven disks that disagree about one version make the
    counting algorithm select an old entry that has no quorum; everything newer is
    then cut from every journal, the version that four disks have included. *)
Theorem merge_faults :
  let stale := [hdr 3 8; hdr 2 5; hdr 1 4] in
  mergeXLV2Versions 2 true 0 [[hdr 2 10; hdr 1 9]; [hdr 2 10; hdr 1 9]; stale; stale]
    = Merged [hdr 2 10; hdr 1 9; hdr 3 8; hdr 1 4] /\
  mergeXLV2Versions 2 true 0 [[hdr 2 10; hdr 1 9]; [hdr 2 10; hdr 1 9]; stale; stale;
    [hdr 4 2; hdr 1 1]; [hdr 4 2; hdr 1 1]] = MergePanic /\
  mergeXLV2Versions 4 true 0
    [[hdr 1 12]; [hdr 1 3]; [hdr 1 3]; [hdr 2 10]; [hdr 2 10]; [hdr 2 10]; [hdr 2 10]] = Merged [].
Proof. vm_compute. split_and!; reflexivity. Qed.

(** ** Facts *)

Definition hdr_is (h : xlMetaV2VersionHeader) (v : xlMetaV2ShallowVersion) : bool := bool_decide (sv_header v = h).
Definition has_hdr (h : xlMetaV2VersionHeader) (vs : list xlMetaV2ShallowVersion) : bool := existsb (hdr_is h) vs.

Lemma hdr_is_true h v : hdr_is h v = true <-> sv_header v = h.
Proof. apply bool_decide_eq_true. Qed.

Lemma has_hdr_true h vs : has_hdr h vs = true <-> exists v, v ∈ vs /\ sv_header v = h.
Proof.
  unfold has_hdr. rewrite existsb_exists. split; intros (v & Hv & Hh); exists v; revert Hv Hh;
    rewrite list_elem_of_In, hdr_is_true; done.
Qed.

Lemma top_versions_tops versions : forall tops sig c,
  (top_versions versions tops sig c).1 = tops ++ omap head versions.
Proof.
  induction versions as [|[|v vs] versions IH]; intros tops sig c; cbn.
  - by rewrite app_nil_r.
  - apply IH.
  - destruct tops as [|t tops]; rewrite IH; [done|]. by rewrite <-app_assoc.
Qed.

Lemma top_versions_same versions : forall tops sig c, tops <> [] ->
  (top_versions versions tops sig c).2 = true ->
  c = true /\ Forall (fun v => sv_header v = sig) (omap head versions).
Proof.
  induction versions as [|[|v vs] versions IH]; intros tops sig c Ht; cbn; [done| |].
  - intros Hc. by destruct (IH _ _ _ Ht Hc).
  - destruct tops as [|t tops]; [done|]. intros Hc. apply IH in Hc as [Hc Hf]; [|done].
    apply andb_true_iff in Hc as [-> Hv%bool_decide_eq_true]. split; [done|]. by constructor.
Qed.

Lemma top_versions_consistent versions t tops sig c :
  top_versions versions [] sig c = (t :: tops, true) -> Forall (fun v => sv_header v = sv_header t) (t :: tops).
Proof.
  intros He. pose proof (top_versions_tops versions [] sig c) as Ht. rewrite He in Ht. cbn in Ht. rewrite Ht.
  revert c He Ht. induction versions as [|[|v vs] versions IH]; intros c He Ht; cbn in *; [done|eauto|].
  injection Ht as <- ->. assert ((top_versions versions [t] (sv_header t) true).2 = true) as Hc by (by rewrite He).
  apply top_versions_same in Hc as [_ Hf]; [|done]. by constructor.
Qed.

(** *** The selected version *)

Section Latest.
Context `{MapOrder} (strict : bool) (tops : list xlMetaV2ShallowVersion).

(** A version whose header is that of a top. *)
Definition top_like (l : xlMetaV2ShallowVersion) : Prop := exists t, t ∈ tops /\ sv_header t = sv_header l.

Lemma last_top_cases k ts latest :
  (last_top strict ts k latest = latest /\ Forall (fun a => count_key strict (sv_header a) <> k) ts) \/
  (last_top strict ts k latest ∈ ts /\ count_key strict (sv_header (last_top strict ts k latest)) = k).
Proof.
  unfold last_top. revert latest. induction ts as [|a ts IH]; intros latest; cbn; [by left|].
  destruct (IH (if bool_decide (count_key strict (sv_header a) = k) then a else latest)) as [[-> Hf]|[Hin Hk]].
  - destruct (bool_decide_reflect (count_key strict (sv_header a) = k)) as [He|Hne].
    + right. split; [left|done].
    + left. split; [done|]. by constructor.
  - right. split; [by right|done].
Qed.

Lemma count_latest_like id latest : top_like latest -> top_like (count_latest strict id tops latest).1.
Proof.
  unfold count_latest. generalize (range_map (count_tops strict id tops)) as kvs. intros kvs Hl.
  generalize 0%nat as c. revert latest Hl. induction kvs as [|[k v] kvs IH]; intros latest Hl c; cbn [fold_left]; [done|]. unfold count_step at 2.
  destruct (_ <? _)%nat; [by apply IH|]. destruct (_ && _); [by apply IH|]. apply IH.
  destruct (last_top_cases k tops latest) as [[-> _]|[Hin _]]; [done|]. by eexists.
Qed.

Lemma latest_loop_like rest : forall first latest c, rest ⊆ tops -> (first = true \/ top_like latest) -> rest <> [] \/ top_like latest ->
  top_like (latest_loop strict tops first rest latest c).1.
Proof.
  induction rest as [|ver rest IH]; intros first latest c Hs Hl Hn; cbn [latest_loop].
  { by destruct Hn. }
  assert (ver ∈ tops) as Hv by (apply Hs; left). assert (rest ⊆ tops) as Hs' by (intros w Hw; apply Hs; by right).
  destruct (bool_decide_reflect (sv_header ver = sv_header latest)) as [He|He].
  { assert (top_like latest) by (by exists ver). apply IH; auto. }
  assert (top_like ver) by (by exists ver).
  destruct (first || _) eqn:Ef; [apply IH; auto|].
  assert (top_like latest) by (by destruct Hl as [->|]; [destruct (sortsBefore _ _)|]).
  destruct (_ && _); [apply IH; auto|]. destruct (_ && _); [by apply count_latest_like|]. apply IH; auto.
Qed.
End Latest.

(** *** Strict merging *)

Lemma count_all {A} (p : A -> bool) l : (forall x, x ∈ l -> p x = true) -> count p l = length l.
Proof.
  intros Hp. rewrite (count_ext p (fun _ => true)) by auto. clear. induction l as [|x l IH]; [done|].
  rewrite count_cons, IH. done.
Qed.

Lemma count_pos_elem {A} (p : A -> bool) l x : x ∈ l -> p x = true -> (0 < count p l)%nat.
Proof. intros Hx Hp. apply (count_NoDup p l [x]); [apply NoDup_singleton|]. by intros ? ->%list_elem_of_singleton. Qed.

Section Strict.
Context `{MapOrder} (tops : list xlMetaV2ShallowVersion).

Lemma count_tops_spec id k : default 0%nat (count_tops true id tops !! k) =
  if (vh_VersionID k =? id)%N then count (hdr_is k) tops else 0%nat.
Proof.
  unfold count_tops. enough (forall m, default 0%nat (fold_left (fun x a =>
    if negb (vh_VersionID (sv_header a) =? id)%N then x
    else <[count_key true (sv_header a) := S (default 0%nat (x !! count_key true (sv_header a)))]> x) tops m !! k) =
    (default 0%nat (m !! k) + if (vh_VersionID k =? id)%N then count (hdr_is k) tops else 0)%nat) as ->.
  { by rewrite lookup_empty. }
  induction tops as [|a ts IH]; intros m; cbn [fold_left].
  { rewrite count_nil. by destruct (_ =? _)%N; rewrite Nat.add_0_r. }
  rewrite IH, count_cons. unfold hdr_is at 2. destruct (N.eqb_spec (vh_VersionID (sv_header a)) id) as [He|Hne]; cbn [negb].
  - cbn [count_key]. destruct (bool_decide_reflect (sv_header a = k)) as [<-|Hk].
    + rewrite lookup_insert_eq, He, N.eqb_refl. unfold hdr_is. cbn. lia.
    + rewrite lookup_insert_ne by done. done.
  - destruct (bool_decide_reflect (sv_header a = k)) as [<-|Hk]; [|done].
    by destruct (N.eqb_spec (vh_VersionID (sv_header a)) id).
Qed.

Lemma count_tops_pos id k : count_tops true id tops !! k <> Some 0%nat.
Proof.
  unfold count_tops. enough (forall m : gmap xlMetaV2VersionHeader nat, m !! k <> Some 0%nat -> fold_left (fun x a =>
    if negb (vh_VersionID (sv_header a) =? id)%N then x
    else <[count_key true (sv_header a) := S (default 0%nat (x !! count_key true (sv_header a)))]> x) tops m !! k <> Some 0%nat) as He.
  { by apply He. }
  induction tops as [|a ts IH]; intros m Hm; cbn [fold_left]; [done|]. apply IH.
  destruct (negb _); [done|]. destruct (decide (count_key true (sv_header a) = k)) as [->|Hk].
  - by rewrite lookup_insert_eq.
  - by rewrite lookup_insert_ne.
Qed.

(** A pair of a top, up to its encoding, and its number of occurrences. *)
Definition counted (r : xlMetaV2ShallowVersion * nat) : Prop :=
  top_like tops r.1 /\ r.2 = count (hdr_is (sv_header r.1)) tops.

Lemma count_latest_counted id ver latest : ver ∈ tops -> vh_VersionID (sv_header ver) = id ->
  counted (count_latest true id tops latest).
Proof.
  intros Hv Hid. unfold count_latest.
  assert (forall kvs r, (forall k v, (k, v) ∈ kvs -> v = count (hdr_is k) tops /\ (0 < v)%nat) ->
    counted r \/ (r.2 = 0%nat /\ kvs <> []) -> counted (fold_left (count_step true tops) kvs r)) as Hfold.
  { induction kvs as [|[k v] kvs IH]; intros r Hkv Hr; cbn [fold_left]; [by destruct Hr as [|[_ ?]]|].
    destruct (Hkv k v ltac:(left)) as [Hc Hpos]. apply IH; [intros; apply Hkv; by right|]. left.
    unfold count_step. destruct r as [l c]. destruct (Nat.ltb_spec v c) as [Hlt|Hge].
    { destruct Hr as [|[Hr _]]; [done|cbn in Hr; lia]. }
    destruct (Nat.eqb_spec v c) as [->|Hne]; cbn [andb].
    { destruct (sortsBefore (sv_header l) k).
      - destruct Hr as [|[Hr _]]; [done|cbn in Hr; lia].
      - destruct (last_top_cases true k tops l) as [[_ Hf]|[Hin Hk]]; [|by split; [eexists|cbn in *; rewrite Hk]].
        exfalso. rewrite Hc in Hpos. apply count_pos in Hpos as (a & Ha & He%hdr_is_true).
        rewrite Forall_forall in Hf. by apply (Hf a). }
    destruct (last_top_cases true k tops l) as [[_ Hf]|[Hin Hk]]; [|by split; [eexists|cbn in *; rewrite Hk]].
    exfalso. rewrite Hc in Hpos. apply count_pos in Hpos as (a & Ha & He%hdr_is_true).
    rewrite Forall_forall in Hf. by apply (Hf a). }
  apply Hfold.
  - intros k v Hkv%elem_of_range_map. pose proof (count_tops_spec id k) as Hs. rewrite Hkv in Hs. cbn in Hs.
    assert (v <> 0%nat) by (intros ->; by apply (count_tops_pos id k)). destruct (_ =? _)%N; lia.
  - right. split; [done|]. intros Hn. pose proof (count_tops_spec id (sv_header ver)) as Hs.
    rewrite Hid, N.eqb_refl in Hs. destruct (count_tops true id tops !! sv_header ver) as [v|] eqn:E.
    + apply elem_of_range_map in E. rewrite Hn in E. by apply elem_of_nil in E.
    + cbn in Hs. assert (0 < count (hdr_is (sv_header ver)) tops)%nat; [|lia].
      by apply (count_pos_elem _ _ ver); [|apply hdr_is_true].
Qed.

(** Nothing of [ts] sorts before [latest]. *)
Definition greatest (ts : list xlMetaV2ShallowVersion) (latest : xlMetaV2ShallowVersion) : Prop :=
  forall t, t ∈ ts -> sv_header t = sv_header latest \/ sortsBefore (sv_header latest) (sv_header t) = true.

Definition ids_unique (ts : list xlMetaV2ShallowVersion) : Prop :=
  forall a b, a ∈ ts -> b ∈ ts -> vh_VersionID (sv_header a) = vh_VersionID (sv_header b) -> sv_header a = sv_header b.

Lemma latest_loop_strict rest : forall pre latest c, tops = pre ++ rest -> top_like pre latest ->
  c = count (hdr_is (sv_header latest)) pre -> greatest pre latest ->
  let r := latest_loop true tops false rest latest c in
  counted r /\ (ids_unique tops -> greatest tops r.1).
Proof.
  induction rest as [|ver rest IH]; intros pre latest c Ht Hl Hc Hg; cbn [latest_loop].
  { rewrite app_nil_r in Ht. subst pre. done. }
  assert (tops = (pre ++ [ver]) ++ rest) as Ht' by (by rewrite <-app_assoc).
  assert (forall a, top_like pre a -> top_like (pre ++ [ver]) a) as Hlike.
  { intros a (t & Hin & He). exists t. split; [|done]. apply elem_of_app. by left. }
  assert (top_like (pre ++ [ver]) ver) as Hvl.
  { exists ver. split; [|done]. apply elem_of_app. right. by apply list_elem_of_singleton. }
  assert (0 < c)%nat as Hpos.
  { rewrite Hc. destruct Hl as (t & Hin & He). apply (count_pos_elem _ _ t); [done|by apply hdr_is_true]. }
  destruct (bool_decide_reflect (sv_header ver = sv_header latest)) as [He|He].
  { apply (IH (pre ++ [ver])); [done|auto| |].
    - rewrite count_app, count_cons, count_nil. unfold hdr_is at 2. rewrite bool_decide_eq_true_2 by done. lia.
    - intros t [Hin| ->%list_elem_of_singleton]%elem_of_app; [auto|by left]. }
  cbn [orb negb andb]. rewrite andb_false_r. cbn [andb].
  destruct (sortsBefore (sv_header ver) (sv_header latest)) eqn:Es.
  { destruct (Nat.eqb_spec c 0); [lia|]. apply (IH (pre ++ [ver])); [done|done| |].
    - rewrite count_app, count_cons, count_nil. unfold hdr_is at 2. rewrite bool_decide_eq_true_2 by done.
      enough (count (hdr_is (sv_header ver)) pre = 0%nat) as -> by done.
      destruct (decide (0 < count (hdr_is (sv_header ver)) pre)%nat) as [Hp|]; [|lia].
      exfalso. apply count_pos in Hp as (t & Hin & Ht2%hdr_is_true).
      destruct (Hg t Hin) as [Hgt|Hgt]; [congruence|]. rewrite Ht2 in Hgt.
      pose proof (sortsBefore_trans _ _ _ Es Hgt) as Hx. by rewrite sortsBefore_irrefl in Hx.
    - intros t [Hin| ->%list_elem_of_singleton]%elem_of_app; [|by left]. right.
      destruct (Hg t Hin) as [->|Hgt]; [done|]. by eapply sortsBefore_trans. }
  destruct (Nat.ltb_spec 0 c); [|lia]. cbn [andb].
  assert (ver ∈ tops) as Hin. { rewrite Ht. apply elem_of_app. right. left. }
  destruct (N.eqb_spec (vh_VersionID (sv_header ver)) (vh_VersionID (sv_header latest))) as [Hid|Hid].
  { split; [by apply (count_latest_counted _ ver)|]. intros Hu. exfalso. destruct Hl as (t & Htin & Hte).
    apply He. rewrite <-Hte in *. apply Hu; [done| |done]. rewrite Ht. apply elem_of_app. by left. }
  apply (IH (pre ++ [ver])); [done|auto| |].
  - rewrite count_app, count_cons, count_nil. unfold hdr_is at 2. rewrite bool_decide_eq_false_2 by done. lia.
  - intros t [Hin'| ->%list_elem_of_singleton]%elem_of_app; [auto|].
    destruct (sortsBefore_total (sv_header ver) (sv_header latest)) as [?|[?|?]]; [congruence|by left|by right].
Qed.

Lemma latest_loop_first : tops <> [] ->
  let r := latest_loop true tops true tops zero_shallow 0 in counted r /\ (ids_unique tops -> greatest tops r.1).
Proof.
  intros Hn. destruct tops as [|t ts] eqn:Et; [done|]. cbn [latest_loop orb].
  assert (forall a, sv_header t = sv_header a -> top_like [t] a /\ 1%nat = count (hdr_is (sv_header a)) [t] /\ greatest [t] a) as Ha.
  { intros a Ha. split_and!.
    - exists t. split; [left|done].
    - rewrite count_cons, count_nil. unfold hdr_is. by rewrite bool_decide_eq_true_2.
    - intros b ->%list_elem_of_singleton. by left. }
  rewrite <-Et. destruct (bool_decide_reflect (sv_header t = sv_header zero_shallow)) as [He|He].
  - destruct (Ha _ He) as (? & ? & ?). by apply (latest_loop_strict ts [t]).
  - destruct (Ha _ eq_refl) as (? & ? & ?). by apply (latest_loop_strict ts [t]).
Qed.
End Strict.

(** *** Selecting and cutting *)

Lemma select_like `{MapOrder} strict versions tops c :
  top_versions versions [] (mkHeader 0 0 0 0 0) true = (tops, c) -> tops <> [] -> top_like tops (select strict tops c).1.
Proof.
  intros _ Hn. destruct tops as [|t ts]; [done|]. unfold select. destruct c.
  - exists t. split; [left|done].
  - apply latest_loop_like; [done|by left|by left].
Qed.

Lemma select_strict `{MapOrder} versions tops c :
  top_versions versions [] (mkHeader 0 0 0 0 0) true = (tops, c) -> tops <> [] ->
  counted tops (select true tops c) /\ (ids_unique tops -> greatest tops (select true tops c).1).
Proof.
  intros He Hn. destruct tops as [|t ts]; [done|]. unfold select. destruct c; [|by apply latest_loop_first].
  apply top_versions_consistent in He. split.
  - split; [exists t; split; [left|done]|]. cbn [fst snd]. symmetry. apply count_all.
    rewrite Forall_forall in He. intros v Hv. by apply hdr_is_true, He.
  - intros _ v Hv. left. rewrite Forall_forall in He. cbn [fst]. by apply He.
Qed.

Lemma cut_versions_suffix latest merged vs vs' : cut_versions latest merged vs = Some vs' -> vs' `suffix_of` vs.
Proof.
  induction vs as [|v vs IH]; cbn [cut_versions]; [by intros [= <-]|].
  destruct (_ || _ || _); [intros Hc; by apply suffix_cons_r, IH|].
  destruct (_ <=? _)%nat; [|done]. intros [= <-]. apply suffix_drop.
Qed.

Lemma cut_versions_head latest merged v vs vs' : cut_versions latest merged (v :: vs) = Some vs' ->
  sv_header v = latest -> (length vs' < length (v :: vs))%nat.
Proof.
  intros Hc Hv. cbn [cut_versions] in Hc. rewrite (bool_decide_eq_true_2 (sv_header v = latest)), orb_true_r in Hc by done.
  apply cut_versions_suffix, suffix_length in Hc. cbn. lia.
Qed.

Lemma cut_all_length latest merged versions versions' : mapM (cut_versions latest merged) versions = Some versions' ->
  (exists t, t ∈ omap head versions /\ sv_header t = latest) -> (length (concat versions') < length (concat versions))%nat.
Proof.
  intros Hm%mapM_Some (t & Ht & Hl). assert (forall vss vss', Forall2 (fun x y => cut_versions latest merged x = Some y) vss vss' ->
    (length (concat vss') <= length (concat vss))%nat) as Hle.
  { induction 1 as [|vs vs' vss vss' Hc _ IH]; cbn; [done|]. rewrite !length_app.
    apply cut_versions_suffix, suffix_length in Hc. lia. }
  induction Hm as [|vs vs' vss vss' Hc Hf IH]; cbn; [by apply elem_of_nil in Ht|]. rewrite !length_app.
  destruct vs as [|v vs]; cbn in Ht.
  - injection Hc as <-. specialize (IH Ht). cbn. lia.
  - apply elem_of_cons in Ht as [->|Ht].
    + pose proof (cut_versions_head _ _ _ _ _ Hc Hl). pose proof (Hle _ _ Hf). cbn in *. lia.
    + specialize (IH Ht). apply cut_versions_suffix, suffix_length in Hc. lia.
Qed.

Lemma merge_loop_fuel `{MapOrder} strict quorum requested fuel : 1 <= quorum -> forall versions merged n,
  (length (concat versions) < fuel)%nat -> merge_loop strict fuel quorum requested versions merged n <> MergeNoFuel.
Proof.
  intros Hq. induction fuel as [|fuel IH]; intros versions merged n Hf; [lia|]. cbn [merge_loop].
  destruct (top_versions versions [] _ true) as [tops c] eqn:Et.
  destruct (Z.ltb_spec (len tops) quorum) as [|Hge]; [done|].
  assert (tops <> []) as Hn by (intros ->; cbn in Hge; lia).
  pose proof (select_like strict versions tops c Et Hn) as Hl.
  pose proof (top_versions_tops versions [] (mkHeader 0 0 0 0 0) true) as Ht. rewrite Et in Ht. cbn in Ht.
  destruct (select strict tops c) as [latest cnt]. destruct (if c || _ then _ else _) as [merged' n'].
  destruct (mapM _ versions) as [versions'|] eqn:Em; [|done]. destruct (_ && _); [done|]. apply IH.
  destruct Hl as (t & Hin & He). rewrite Ht in Hin.
  pose proof (cut_all_length _ _ _ _ Em (ex_intro _ t (conj Hin He))). lia.
Qed.

(** Every round of the loop removes a version, so the fuel is never used up. *)
Lemma mergeXLV2Versions_total `{MapOrder} quorum strict requested versions :
  mergeXLV2Versions quorum strict requested versions <> MergeNoFuel.
Proof.
  unfold mergeXLV2Versions. destruct (_ || _); [done|].
  assert (1 <= if quorum <=? 0 then 1 else quorum) by (destruct (Z.leb_spec quorum 0); lia).
  destruct versions as [|vs [|ws versions]]; [..|]; try done; apply merge_loop_fuel; lia.
Qed.

(** *** What is merged has a quorum *)

(** A quorum of the journals has a version with this header. *)
Definition agreed (quorum : Z) (versions : list (list xlMetaV2ShallowVersion)) (h : xlMetaV2VersionHeader) : Prop :=
  quorum <= Z.of_nat (count (has_hdr h) versions).

#[global] Instance agreed_dec quorum versions h : Decision (agreed quorum versions h).
Proof. unfold agreed. apply _. Defined.

Lemma count_tops_lists h versions orig : Forall2 (fun cur o => cur `suffix_of` o) versions orig ->
  (count (hdr_is h) (omap head versions) <= count (has_hdr h) orig)%nat.
Proof.
  induction 1 as [|cur o versions orig Hs _ IH]; [done|]. rewrite count_cons.
  destruct cur as [|v cur]; cbn [omap list_omap head]; [destruct (has_hdr h o); lia|]. rewrite count_cons.
  destruct (hdr_is h v) eqn:E; [|destruct (has_hdr h o); lia].
  assert (has_hdr h o = true) as ->; [|lia]. apply has_hdr_true. exists v. split; [|by apply hdr_is_true].
  destruct Hs as [k ->]. apply elem_of_app. right. left.
Qed.

Lemma merge_loop_sound `{MapOrder} quorum requested fuel orig : 1 <= quorum -> requested <= 0 -> forall versions merged n m,
  Forall2 (fun cur o => cur `suffix_of` o) versions orig -> Forall (fun v => agreed quorum orig (sv_header v)) merged ->
  merge_loop true fuel quorum requested versions merged n = Merged m -> Forall (fun v => agreed quorum orig (sv_header v)) m.
Proof.
  intros Hq Hr. induction fuel as [|fuel IH]; intros versions merged n m Hs Hm; [done|]. cbn [merge_loop].
  destruct (top_versions versions [] _ true) as [tops c] eqn:Et.
  destruct (Z.ltb_spec (len tops) quorum) as [|Hge]; [by intros [= <-]|].
  assert (tops <> []) as Hn by (intros ->; cbn in Hge; lia).
  destruct (select_strict versions tops c Et Hn) as [[_ Hc] _].
  pose proof (top_versions_tops versions [] (mkHeader 0 0 0 0 0) true) as Ht. rewrite Et in Ht. cbn in Ht.
  assert (c = true -> (select true tops c).2 = length tops) as Hall.
  { intros ->. by destruct tops. }
  destruct (select true tops c) as [latest cnt]. cbn [fst snd] in *.
  destruct (if c || _ then _ else _) as [merged' n'] eqn:Ee.
  assert (Forall (fun v => agreed quorum orig (sv_header v)) merged') as Hm'.
  { destruct (c || _) eqn:Ec; injection Ee as <- _; [|done]. apply Forall_app. split; [done|]. constructor; [|done].
    unfold agreed. pose proof (count_tops_lists (sv_header latest) versions orig Hs) as Hle. rewrite <-Ht in Hle.
    destruct c; [specialize (Hall eq_refl); lia|]. cbn in Ec. apply Z.leb_le in Ec. lia. }
  destruct (mapM _ versions) as [versions'|] eqn:Em; [|done].
  destruct (Z.ltb_spec 0 requested); [lia|]. cbn [andb]. apply IH; [|done].
  apply mapM_Some in Em. clear -Hs Em. revert versions' Em. induction Hs as [|cur o vss orig Hco _ IH]; intros vss' Em.
  - by apply Forall2_nil_inv_l in Em as ->.
  - apply Forall2_cons_inv_l in Em as (cur' & vss2 & Hcut & Hf & ->). constructor; [|by apply IH].
    etrans; [by eapply cut_versions_suffix|done].
Qed.

(** Merging terminates, and what is merged has a quorum.  For any journals,
    quorum and mode the loop ends; in strict mode every merged version has a
    header that at least [quorum] of the journals contain: nothing is made up,
    whatever the journals hold. *)
Theorem mergeXLV2Versions_sound `{MapOrder} quorum strict requested versions :
  mergeXLV2Versions quorum strict requested versions <> MergeNoFuel /\
  (1 <= quorum -> requested <= 0 -> (2 <= length versions)%nat ->
   forall m v, mergeXLV2Versions quorum true requested versions = Merged m -> v ∈ m -> agreed quorum versions (sv_header v)).
Proof.
  split; [apply mergeXLV2Versions_total|]. intros Hq Hr Hl m v. unfold mergeXLV2Versions. destruct (Z.leb_spec quorum 0); [lia|].
  destruct (_ || _). { intros [= <-] Hv. by apply elem_of_nil in Hv. }
  destruct versions as [|vs [|ws versions]]; [cbn in Hl; lia..|].
  assert ((if quorum =? 1 then true else true) = true) as -> by (by destruct (_ =? _)).
  intros Hm Hv. eapply merge_loop_sound in Hm; [|done..| |constructor].
  - rewrite Forall_forall in Hm. by apply Hm.
  - apply Forall_Forall2_diag, Forall_true. done.
Qed.

Lemma mergeXLV2Versions_sound_witness : agreed 2 [[hdr 2 10; hdr 1 9]; [hdr 1 9]; [hdr 2 10]] (mkHeader 2 10 0 ObjectType 2).
Proof.
  refine (proj2 (mergeXLV2Versions_sound 2 true 0 [[hdr 2 10; hdr 1 9]; [hdr 1 9]; [hdr 2 10]]) _ _ _ [hdr 2 10; hdr 1 9] (hdr 2 10) _ _);
    [lia|lia|cbn; lia|vm_compute; reflexivity|left].
Defined.

(** *** Disks that missed writes *)

(** Distinct headers in the order of a journal. *)
Record history (hs : list xlMetaV2VersionHeader) : Prop := {
  hi_sorted : StronglySorted (fun a b => sortsBefore a b = true) hs;
  hi_ids : NoDup (vh_VersionID <$> hs)
}.

Definition headers (vs : list xlMetaV2ShallowVersion) : list xlMetaV2VersionHeader := sv_header <$> vs.

(** The journal without [h] at its top. *)
Definition strip (h : xlMetaV2VersionHeader) (vs : list xlMetaV2ShallowVersion) : list xlMetaV2ShallowVersion :=
  match vs with v :: vs' => if hdr_is h v then vs' else vs | [] => [] end.

(** The merged versions so far and those to come have different identifiers. *)
Definition fresh_ids (merged : list xlMetaV2ShallowVersion) (hs : list xlMetaV2VersionHeader) : Prop :=
  forall v h, v ∈ merged -> h ∈ hs -> vh_VersionID h <> version_id v.

Lemma history_cons h hs : history (h :: hs) -> history hs /\
  (forall k, k ∈ hs -> sortsBefore h k = true /\ vh_VersionID h <> vh_VersionID k /\ vh_ModTime k <= vh_ModTime h /\ k <> h).
Proof.
  intros [Hs Hn]. apply StronglySorted_inv in Hs as [Hs Hf]. cbn in Hn. apply NoDup_cons in Hn as [Hn1 Hn2].
  split; [by split|]. intros k Hk. rewrite Forall_forall in Hf. pose proof (Hf k Hk) as Hb.
  assert (vh_VersionID h <> vh_VersionID k) as Hid.
  { intros He. apply Hn1. rewrite He. by apply list_elem_of_fmap_2. }
  split_and!; [done|done| |by intros ->]. apply sortsBefore_lex in Hb. lia.
Qed.

Lemma sublist_headers vs v hs : headers vs `sublist_of` hs -> v ∈ vs -> sv_header v ∈ hs.
Proof. intros Hs Hv. eapply elem_of_sublist; [|done]. by apply list_elem_of_fmap_2. Qed.

(** Cutting keeps what comes later. *)
Lemma cut_keep h hs merged vs : (forall k, k ∈ hs -> vh_VersionID h <> vh_VersionID k /\ vh_ModTime k <= vh_ModTime h /\ k <> h) ->
  fresh_ids merged hs -> headers vs `sublist_of` hs -> cut_versions h merged vs = Some vs.
Proof.
  intros Hh Hf Hs. destruct vs as [|v vs]; [done|]. cbn [cut_versions].
  assert (sv_header v ∈ hs) as Hv by (eapply sublist_headers; [done|left]). destruct (Hh _ Hv) as (Hid & Hmt & Hne).
  destruct (Z.ltb_spec (vh_ModTime h) (vh_ModTime (sv_header v))); [lia|]. cbn [orb].
  rewrite bool_decide_eq_false_2 by done. cbn [orb]. destruct (N.eqb_spec (vh_VersionID h) (vh_VersionID (sv_header v))); [done|].
  assert (count (fun m => (vh_VersionID (sv_header v) =? vh_VersionID (sv_header m))%N) merged = 0%nat) as ->; [|done].
  match goal with |- count ?p _ = _ => destruct (decide (0 < count p merged)%nat) as [Hp|]; [|lia] end.
  apply count_pos in Hp as (m & Hm & He%N.eqb_eq). by destruct (Hf m (sv_header v) Hm Hv).
Qed.

Lemma sublist_top vs h hs : history (h :: hs) -> headers vs `sublist_of` (h :: hs) ->
  headers (strip h vs) `sublist_of` hs /\ has_hdr h vs = (match vs with v :: _ => hdr_is h v | [] => false end).
Proof.
  intros Hh Hs. destruct (history_cons _ _ Hh) as [_ Hk]. destruct vs as [|v vs]; [split; [apply sublist_nil_l|done]|].
  apply sublist_cons_r in Hs as [Hs|(l' & He & Hs)].
  - assert (hdr_is h v = false) as Hv.
    { apply bool_decide_eq_false. intros <-. destruct (Hk (sv_header v)) as (_ & ? & _); [|done].
      by eapply sublist_headers; [|left]. }
    cbn [strip]. rewrite Hv. split; [done|]. cbn [has_hdr existsb]. rewrite Hv. cbn [orb].
    apply not_true_is_false. change (existsb (hdr_is h) vs) with (has_hdr h vs). rewrite has_hdr_true.
    intros (w & Hw & <-). destruct (Hk (sv_header w)) as (_ & ? & _); [|done]. by eapply sublist_headers; [|right].
  - injection He as Hv <-. assert (hdr_is h v = true) as Hv' by (by apply hdr_is_true).
    cbn [strip]. rewrite Hv'. split; [done|]. cbn [has_hdr existsb]. by rewrite Hv'.
Qed.

Lemma cut_strip h hs merged versions : history (h :: hs) -> fresh_ids merged hs ->
  Forall (fun vs => headers vs `sublist_of` (h :: hs)) versions ->
  mapM (cut_versions h merged) versions = Some (strip h <$> versions).
Proof.
  intros Hh Hf Hall. apply mapM_Some. induction Hall as [|vs versions Hs _ IH]; [constructor|]. constructor; [|done].
  destruct (history_cons _ _ Hh) as [_ Hk].
  assert (forall k, k ∈ hs -> vh_VersionID h <> vh_VersionID k /\ vh_ModTime k <= vh_ModTime h /\ k <> h) as Hk'.
  { intros k Hin. by destruct (Hk k Hin) as (_ & ? & ? & ?). }
  destruct (sublist_top _ _ _ Hh Hs) as [Hst _]. destruct vs as [|v vs]; [done|]. cbn [strip] in *.
  destruct (hdr_is h v) eqn:Ev; [|by apply (cut_keep h hs)]. apply hdr_is_true in Ev. cbn [cut_versions].
  rewrite (bool_decide_eq_true_2 (sv_header v = h)), orb_true_r by done. cbn [orb]. by apply (cut_keep h hs).
Qed.

Lemma has_hdr_strip h hs k vs : history (h :: hs) -> headers vs `sublist_of` (h :: hs) -> k ∈ hs ->
  has_hdr k (strip h vs) = has_hdr k vs.
Proof.
  intros Hh Hs Hk. destruct vs as [|v vs]; [done|]. cbn [strip]. destruct (hdr_is h v) eqn:Ev; [|done].
  cbn [has_hdr existsb]. assert (hdr_is k v = false) as ->; [|done]. apply hdr_is_true in Ev.
  apply bool_decide_eq_false. destruct (history_cons _ _ Hh) as [_ Hx]. destruct (Hx k Hk) as (_ & _ & _ & ?). congruence.
Qed.

Lemma agreed_strip quorum h hs versions k : history (h :: hs) ->
  Forall (fun vs => headers vs `sublist_of` (h :: hs)) versions -> k ∈ hs ->
  agreed quorum (strip h <$> versions) k <-> agreed quorum versions k.
Proof.
  intros Hh Hall Hk. unfold agreed. enough (count (has_hdr k) (strip h <$> versions) = count (has_hdr k) versions) as -> by done.
  induction Hall as [|vs versions Hs _ IH]; [done|]. csimpl. rewrite !count_cons, IH. by erewrite has_hdr_strip.
Qed.

Lemma count_has_top h hs versions : history (h :: hs) -> Forall (fun vs => headers vs `sublist_of` (h :: hs)) versions ->
  count (hdr_is h) (omap head versions) = count (has_hdr h) versions.
Proof.
  intros Hh. induction 1 as [|vs versions Hs _ IH]; [done|]. rewrite count_cons.
  destruct (sublist_top _ _ _ Hh Hs) as [_ ->]. destruct vs as [|v vs]; cbn [omap list_omap head]; [done|].
  rewrite count_cons. by rewrite IH.
Qed.

Lemma count_nonempty h versions : (count (has_hdr h) versions <= length (omap head versions))%nat.
Proof.
  induction versions as [|[|v vs] versions IH]; [done|exact IH|]. rewrite count_cons. cbn [omap list_omap head length].
  destruct (has_hdr h (v :: vs)); cbn; lia.
Qed.

Lemma length_omap_head {A} (l : list (list A)) : (length (omap head l) <= length l)%nat.
Proof. induction l as [|[|x k] l IH]; cbn; lia. Qed.

Lemma filter_ext_in {A} (P Q : A -> Prop) `{forall x, Decision (P x)} `{forall x, Decision (Q x)} (l : list A) :
  (forall x, x ∈ l -> P x <-> Q x) -> filter P l = filter Q l.
Proof.
  induction l as [|x l IH]; intros He; [done|]. rewrite !filter_cons, IH by (intros; apply He; by right).
  pose proof (He x ltac:(left)). destruct (decide (P x)), (decide (Q x)); tauto.
Qed.

Lemma no_agreement quorum versions hs : len (omap head versions) < quorum -> filter (agreed quorum versions) hs = [].
Proof.
  intros Hl. induction hs as [|h hs IH]; [done|]. rewrite filter_cons_False; [done|]. unfold agreed.
  pose proof (count_nonempty h versions). lia.
Qed.

(** The version selected when one of the journals still has the latest one. *)
Lemma select_history `{MapOrder} versions tops c h hs : history (h :: hs) ->
  Forall (fun vs => headers vs `sublist_of` (h :: hs)) versions ->
  top_versions versions [] (mkHeader 0 0 0 0 0) true = (tops, c) -> (exists t, t ∈ tops /\ sv_header t = h) ->
  sv_header (select true tops c).1 = h /\ (select true tops c).2 = count (has_hdr h) versions /\
  (c = true -> (select true tops c).2 = length tops).
Proof.
  intros Hh Hall Et (t & Ht & Hth). pose proof (top_versions_tops versions [] (mkHeader 0 0 0 0 0) true) as Htops.
  rewrite Et in Htops. cbn in Htops. assert (tops <> []) as Hn by (intros ->; by apply elem_of_nil in Ht).
  destruct (history_cons _ _ Hh) as [_ Hk].
  assert (forall a, a ∈ tops -> sv_header a ∈ h :: hs) as Hin.
  { intros a Ha. rewrite Htops in Ha. apply list_elem_of_omap in Ha as (vs & Hvs & Hhd).
    rewrite Forall_forall in Hall. eapply sublist_headers; [by apply Hall|]. destruct vs; [done|]. injection Hhd as ->. left. }
  destruct (select_strict versions tops c Et Hn) as [[Hl Hc] Hg].
  assert (ids_unique tops) as Hu.
  { intros a b Ha Hb Hid. pose proof (Hin a Ha) as Ha'. pose proof (Hin b Hb) as Hb'.
    apply list_elem_of_lookup in Ha' as [i Hi]. apply list_elem_of_lookup in Hb' as [j Hj].
    assert (i = j) as ->; [|congruence]. destruct Hh as [_ Hnd]. eapply NoDup_lookup; [done|..];
      rewrite list_lookup_fmap, ?Hi, ?Hj; cbn; [reflexivity|by rewrite Hid]. }
  specialize (Hg Hu). assert (sv_header (select true tops c).1 = h) as He.
  { destruct (Hg t Ht) as [Hx|Hx]; [congruence|]. rewrite Hth in Hx. destruct Hl as (a & Ha & Hae).
    pose proof (Hin a Ha) as Ha'. rewrite Hae in Ha'. apply elem_of_cons in Ha' as [?|Ha']; [done|].
    destruct (Hk _ Ha') as (Hy & _). pose proof (sortsBefore_trans _ _ _ Hx Hy) as Hz. by rewrite sortsBefore_irrefl in Hz. }
  split_and!; [done| |].
  - rewrite Hc, He, Htops. by eapply count_has_top.
  - intros ->. by destruct tops.
Qed.

Lemma merge_loop_end `{MapOrder} strict fuel quorum requested versions merged n : (length (concat versions) < fuel)%nat ->
  len (omap head versions) < quorum -> merge_loop strict fuel quorum requested versions merged n = Merged merged.
Proof.
  intros Hf Hl. destruct fuel as [|fuel]; [lia|]. cbn [merge_loop].
  pose proof (top_versions_tops versions [] (mkHeader 0 0 0 0 0) true) as Ht.
  destruct (top_versions versions [] _ true) as [tops c]. cbn in Ht. rewrite Ht.
  by destruct (Z.ltb_spec (len (omap head versions)) quorum); [|lia].
Qed.

(** A version that no journal has is passed over. *)
Lemma history_unseen h hs versions : history (h :: hs) -> Forall (fun vs => headers vs `sublist_of` (h :: hs)) versions ->
  count (has_hdr h) versions = 0%nat -> Forall (fun vs => headers vs `sublist_of` hs) versions.
Proof.
  intros Hh Hall Hz. rewrite Forall_forall in *. intros vs Hvs.
  destruct (sublist_top _ _ _ Hh (Hall vs Hvs)) as [Hs Ht]. destruct vs as [|v vs]; [done|].
  cbn [strip] in Hs. destruct (hdr_is h v); [|done]. exfalso. pose proof (count_pos_elem _ _ _ Hvs Ht). lia.
Qed.

(** A round of the loop when one of the journals has the version. *)
Lemma merge_round `{MapOrder} quorum requested h hs fuel versions merged n : requested <= 0 -> history (h :: hs) ->
  Forall (fun vs => headers vs `sublist_of` (h :: hs)) versions -> fresh_ids merged (h :: hs) ->
  (0 < count (has_hdr h) versions)%nat -> quorum <= len (omap head versions) ->
  exists new n', merge_loop true (S fuel) quorum requested versions merged n =
      merge_loop true fuel quorum requested (strip h <$> versions) (merged ++ new) n' /\
    headers new = filter (agreed quorum versions) [h] /\ fresh_ids (merged ++ new) hs /\
    (length (concat (strip h <$> versions)) < length (concat versions))%nat.
Proof.
  intros Hr Hh Hall Hfr Hpos Hge. destruct (top_versions versions [] (mkHeader 0 0 0 0 0) true) as [tops c] eqn:Et.
  pose proof (top_versions_tops versions [] (mkHeader 0 0 0 0 0) true) as Htops. rewrite Et in Htops. cbn in Htops.
  destruct (history_cons _ _ Hh) as [_ Hk].
  assert (exists t, t ∈ tops /\ sv_header t = h) as Hex.
  { rewrite <-(count_has_top h hs), <-Htops in Hpos by done. apply count_pos in Hpos as (t & Ht & ?%hdr_is_true). by exists t. }
  destruct (select_history versions tops c h hs Hh Hall Et Hex) as (He & Hc & Hcc).
  cbn [merge_loop]. rewrite Et. destruct (Z.ltb_spec (len tops) quorum); [subst tops; lia|].
  destruct (select true tops c) as [latest cnt]. cbn [fst snd] in *.
  assert (c || (quorum <=? Z.of_nat cnt) = bool_decide (agreed quorum versions h)) as ->.
  { assert (agreed quorum versions h <-> quorum <= Z.of_nat cnt) as Ha by (unfold agreed; lia). symmetry. destruct c.
    - specialize (Hcc eq_refl). apply bool_decide_eq_true, Ha. lia.
    - cbn [orb]. destruct (Z.leb_spec quorum (Z.of_nat cnt)); [apply bool_decide_eq_true|apply bool_decide_eq_false]; rewrite Ha; lia. }
  set (new := if bool_decide (agreed quorum versions h) then [latest] else []).
  assert (exists n', (if bool_decide (agreed quorum versions h) then emit latest merged n else (merged, n)) = (merged ++ new, n')) as [n' ->].
  { unfold new. case_bool_decide; cbn; [by eexists|]. rewrite app_nil_r. by eexists. }
  assert (fresh_ids (merged ++ new) hs) as Hfr'.
  { intros v k [Hv|Hv]%elem_of_app Hin; [apply Hfr; [done|by right]|]. unfold new in Hv.
    case_bool_decide; [|by apply elem_of_nil in Hv]. apply list_elem_of_singleton in Hv as ->. unfold version_id. rewrite He.
    destruct (Hk k Hin) as (_ & ? & _). congruence. }
  pose proof (cut_strip h hs (merged ++ new) versions Hh Hfr' Hall) as Hcut. rewrite He, Hcut.
  destruct (Z.ltb_spec 0 requested); [lia|]. cbn [andb]. exists new, n'. split_and!; [done| |done|].
  - rewrite filter_cons, filter_nil. unfold new. case_bool_decide; destruct (decide _); try done. cbn. by rewrite He.
  - apply cut_all_length in Hcut; [done|]. destruct Hex as (t & Ht & Hth). exists t. by rewrite <-Htops.
Qed.

Lemma merge_loop_history `{MapOrder} quorum requested hs : 1 <= quorum -> requested <= 0 -> history hs ->
  forall fuel versions merged n, Forall (fun vs => headers vs `sublist_of` hs) versions -> fresh_ids merged hs ->
  (length (concat versions) < fuel)%nat ->
  exists m, merge_loop true fuel quorum requested versions merged n = Merged (merged ++ m) /\
    headers m = filter (agreed quorum versions) hs.
Proof.
  intros Hq Hr. induction hs as [|h hs IH]; intros Hh fuel versions merged n Hall Hfr Hfu.
  all: destruct (decide (len (omap head versions) < quorum)) as [Hlt|Hge];
    [exists []; split; [rewrite app_nil_r; by apply merge_loop_end|by rewrite no_agreement]|].
  { exfalso. apply Hge. enough (omap head versions = []) as -> by (cbn; lia).
    clear -Hall. induction Hall as [|vs versions Hs _ IH]; [done|]. apply sublist_nil_r in Hs. by destruct vs. }
  destruct (history_cons _ _ Hh) as [Hh' _].
  destruct (decide (0 < count (has_hdr h) versions)%nat) as [Hpos|Hz].
  - destruct fuel as [|fuel]; [lia|].
    destruct (merge_round quorum requested h hs fuel versions merged n) as (new & n' & -> & Hnew & Hfr' & Hlt); [done..|lia|].
    destruct (IH Hh' fuel (strip h <$> versions) (merged ++ new) n') as (m & -> & Hf); [|done|lia|].
    { apply Forall_fmap. eapply Forall_impl; [done|]. intros vs Hs. by destruct (sublist_top _ _ _ Hh Hs). }
    exists (new ++ m). split; [by rewrite <-app_assoc|]. unfold headers in *. rewrite fmap_app, Hf, Hnew.
    rewrite (filter_ext_in (agreed quorum (strip h <$> versions)) (agreed quorum versions)) by (intros; by apply agreed_strip with hs).
    by rewrite <-filter_app.
  - destruct (IH Hh' fuel versions merged n) as (m & Hm & Hf); [by eapply history_unseen; [|done|lia]| |done|].
    { intros v k Hv Hin. apply Hfr; [done|by right]. }
    exists m. split; [done|]. rewrite filter_cons_False; [done|]. unfold agreed. lia.
Qed.


