(* ===== verification/XLRead.v ===== *)
(** * Reading versions out of the journal

    The conversion of a stored version into the [FileInfo] the object layer works
    with, for objects, delete markers and legacy objects
    ([cmd/xl-storage-format-v2.go], [cmd/xl-storage-format-v1.go]), the replication
    state kept in the metadata ([cmd/erasure-metadata.go],
    [cmd/bucket-replication-utils.go]), and the lookup and listing of versions.
    A panic is [None]; the [FileInfo] a Go function returns next to an error is
    not kept. *)

From Stdlib Require Import Ascii.
From stdpp Require Import pretty.
From S2P Require Import Prelude Erasure FileInfo Quorum Bitrot Restore Inline XLMeta.

(** ** Case folding

    [strings.EqualFold] and [strings.ToLower], as far as the comparison with ASCII
    text goes: beside the ASCII letters one two-byte character and the Kelvin sign
    fold to an ASCII letter. *)

Definition is_char (c : ascii) (n : nat) : bool := (nat_of_ascii c =? n)%nat.

Fixpoint fold_with (a0 b0 : nat) (image : ascii) (s : string) : string :=
  match s with
  | EmptyString => EmptyString
  | String a s1 =>
      match s1 with
      | String b s2 =>
          if is_char a a0 && is_char b b0 then String image (fold_with a0 b0 image s2)
          else match s2 with
               | String c s3 =>
                   if is_char a 226 && is_char b 132 && is_char c 170 then String "k" (fold_with a0 b0 image s3)
                   else String (ascii_lower a) (fold_with a0 b0 image s1)
               | EmptyString => String (ascii_lower a) (fold_with a0 b0 image s1)
               end
      | EmptyString => String (ascii_lower a) EmptyString
      end
  end.

(** U+017F folds to [s]; U+0130 has the lower case [i]. *)
Definition fold_key (s : string) : string := fold_with 197 191 "s" s.
Definition ToLower (s : string) : string := fold_with 196 176 "i" s.

Definition equals (k1 : string) (keys : list string) : bool :=
  existsb (fun k2 => bool_decide (fold_key k1 = fold_key k2)) keys.

(** ** Replication statuses

    [replStatusRegex] is [([^=].*?)=([^,].*?);]: the leftmost match, with the
    shortest key and the shortest value.  [.] does not match a newline. *)

Definition newline : ascii := ascii_of_nat 10.

(** [.*?;] after a first character: the characters up to the first semicolon. *)
Fixpoint match_semicolon (s : string) : option (string * string) :=
  match s with
  | EmptyString => None
  | String c s =>
      if Ascii.eqb c ";" then Some ("", s)
      else if Ascii.eqb c newline then None
      else '(v, rest) ← match_semicolon s; Some (String c v, rest)
  end.
Definition match_value (s : string) : option (string * string) :=
  match s with
  | EmptyString => None
  | String c s => if Ascii.eqb c "," then None else '(v, rest) ← match_semicolon s; Some (String c v, rest)
  end.
(** [.*?=] and the value: the first equals sign after which the value matches. *)
Fixpoint match_key (s : string) : option (string * string * string) :=
  match s with
  | EmptyString => None
  | String c s =>
      match (if Ascii.eqb c "=" then match_value s else None) with
      | Some (v, rest) => Some ("", v, rest)
      | None => if Ascii.eqb c newline then None else '(k, v, rest) ← match_key s; Some (String c k, v, rest)
      end
  end.
Definition match_status (s : string) : option (string * string * string) :=
  match s with
  | EmptyString => None
  | String c s => if Ascii.eqb c "=" then None else '(k, v, rest) ← match_key s; Some (String c k, v, rest)
  end.

(** [FindAllStringSubmatch]: every match consumes a character, so the length of
    the text is enough fuel. *)
Fixpoint find_statuses (fuel : nat) (s : string) : list (string * string) :=
  match fuel with
  | O => []
  | S fuel =>
      match match_status s with
      | Some (k, v, rest) => (k, v) :: find_statuses fuel rest
      | None => match s with EmptyString => [] | String _ s => find_statuses fuel s end
      end
  end.

Definition replicationStatusesMap (s : string) : gmap string string :=
  fold_left (fun targets kv => <[kv.1 := kv.2]> targets) (find_statuses (String.length s) s) ∅.
Definition versionPurgeStatusesMap (s : string) : gmap string string :=
  fold_left (fun targets kv => <[kv.1 := kv.2]> targets) (find_statuses (String.length s) s) ∅.

(** ** The replication state in the metadata *)

Definition ReplicationResetKey : string := reserved "replication-reset".

(** [strings.TrimPrefix]. *)
Definition TrimPrefix (s prefix : string) : string :=
  if String.prefix prefix s then String.substring (String.length prefix) (String.length s) s else s.

Section Replication.
Context `{HttpTime} `{MapOrder}.

(** The zero time when the text is not a time. *)
Definition parse_or_zero (v : string) : time := match http_Parse v with Ok t => t | Err _ => 0 end.

Definition replication_step (d : ReplicationState) (kv : string * string) : ReplicationState :=
  let '(k, v) := kv in
  let '(mkReplicationState rts rst dm repts rsi vpsi rds tg ptg reset) := d in
  if equals k [ReplicationTimestampKey] then mkReplicationState rts rst dm (parse_or_zero v) rsi vpsi rds tg ptg reset
  else if equals k [ReplicaTimestampKey] then mkReplicationState (parse_or_zero v) rst dm repts rsi vpsi rds tg ptg reset
  else if equals k [ReplicaStatusKey] then mkReplicationState rts v dm repts rsi vpsi rds tg ptg reset
  else if equals k [ReplicationStatusKey] then
    mkReplicationState rts rst dm repts v vpsi rds (replicationStatusesMap v) ptg reset
  else if equals k [VersionPurgeStatusKey] then
    mkReplicationState rts rst dm repts rsi v rds tg (versionPurgeStatusesMap v) reset
  else if String.prefix ReplicationResetKey k then
    mkReplicationState rts rst dm repts rsi vpsi rds tg ptg (<[TrimPrefix k (ReplicationResetKey +:+ "-") := v]> reset)
  else d.

Definition getInternalReplicationState (m : gmap string string) : ReplicationState :=
  fold_left replication_step (range_map m) zero_ReplicationState.
End Replication.

(** ** Conversions *)

Definition AmzMetaUnencryptedContentLength : string := "X-Amz-Meta-X-Amz-Unencrypted-Content-Length".
Definition AmzMetaUnencryptedContentMD5 : string := "X-Amz-Meta-X-Amz-Unencrypted-Content-Md5".
Definition AmzBucketReplicationStatus : string := "X-Amz-Replication-Status".

(** [ErasureAlgo.String], generated by [stringer]. *)
Definition ErasureAlgo_String (e : Z) : string :=
  if e =? 0 then "invalidErasureAlgo" else if e =? 1 then "ReedSolomon" else if e =? 2 then "lastErasureAlgo"
  else "ErasureAlgo(" +:+ pretty e +:+ ")".

Definition errUnknownChecksum : error := Errorf 0 "unknown BitrotChecksumAlgo".

Section Conversions.
Context `{XLLib} `{HttpTime} `{MapOrder}.

Definition version_string (id : N) : string := if (id =? 0)%N then "" else uuid_String id.

Definition marker_ToFileInfo (volume path : string) (j : xlMetaV2DeleteMarker) : FileInfo :=
  let rs := getInternalReplicationState (dm_MetaSys j) in
  let get k := default "" (dm_MetaSys j !! k) in
  let free := marker_FreeVersion j in
  mkFileInfo volume path (version_string (dm_VersionID j)) false true ""
    (if free then get TransitionedObjectNameKey else "") (if free then get TransitionTierKey else "")
    (if free then get TransitionedVersionIDKey else "") false "" false (time_Unix_nano (dm_ModTime j)) 0 0 0
    (if free then {[tierFVMarkerKey := ""]} else ∅) [] zero_ErasureInfo false rs [] 0 0 false 0 0.

(** Part [i]: reading a size list beyond its end panics. *)
Definition object_part (j : xlMetaV2Object) (i : nat) (number : Z) : option ObjectPartInfo :=
  size ← ob_PartSizes j !! i;
  actual ← ob_PartActualSizes j !! i;
  let n := length (ob_PartNumbers j) in
  Some (mkPart (if (length (ob_PartETags j) =? n)%nat then default "" (ob_PartETags j !! i) else "") number size actual 0
          (if (length (ob_PartIndices j) =? n)%nat then default [] (ob_PartIndices j !! i) else [])).

Fixpoint object_parts (j : xlMetaV2Object) (i : nat) (numbers : list Z) : option (list ObjectPartInfo) :=
  match numbers with
  | [] => Some []
  | n :: numbers => p ← object_part j i n; ps ← object_parts j (S i) numbers; Some (p :: ps)
  end.

(** One checksum for every part size; those of the parts are filled in, and a
    part beyond the sizes panics. *)
Definition object_checksums (j : xlMetaV2Object) : option (result (list ChecksumInfo)) :=
  let parts := length (ob_PartNumbers j) in
  if negb (ob_BitrotChecksumAlgo j =? HighwayHash) && (0 <? parts)%nat && (0 <? length (ob_PartSizes j))%nat
  then Some (Err errUnknownChecksum)
  else if (length (ob_PartSizes j) <? parts)%nat then None
  else Some (Ok (((fun n => mkChecksum n HighwayHash256S []) <$> ob_PartNumbers j) ++
                 replicate (length (ob_PartSizes j) - parts) (mkChecksum 0 0 []))).

Definition object_metadata (j : xlMetaV2Object) : gmap string string :=
  let user := filter (fun kv : string * string =>
                equals kv.1 [AmzMetaUnencryptedContentLength; AmzMetaUnencryptedContentMD5] = false) (ob_MetaUser j) in
  let sys := filter (fun kv : string * string =>
               String.prefix ReservedMetadataPrefixLower (ToLower kv.1) || equals kv.1 [VersionPurgeStatusKey] = true)
               (ob_MetaSys j) in
  sys ∪ user.

Definition object_ToFileInfo (volume path : string) (j : xlMetaV2Object) : option (result FileInfo) :=
  parts ← object_parts j 0 (ob_PartNumbers j);
  cs ← object_checksums j;
  Some match cs with
       | Err e => Err e
       | Ok checksums =>
           let meta := object_metadata j in
           let rs := getInternalReplicationState meta in
           let replStatus := CompositeReplicationStatus rs in
           let meta := if bool_decide (replStatus = "") then meta else <[AmzBucketReplicationStatus := replStatus]> meta in
           let get k := default "" (ob_MetaSys j !! k) in
           Ok (mkFileInfo volume path (version_string (ob_VersionID j)) false
                 (negb (Status_Empty (CompositeVersionPurgeStatus rs)))
                 (get TransitionStatusKey) (get TransitionedObjectNameKey) (get TransitionTierKey)
                 (get TransitionedVersionIDKey) false (uuid_String (ob_DataDir j)) false
                 (time_Unix_nano (ob_ModTime j)) (ob_Size j) 0 0 meta parts
                 (mkErasureInfo (ErasureAlgo_String (ob_ErasureAlgorithm j)) (ob_ErasureM j) (ob_ErasureN j)
                    (ob_ErasureBlockSize j) (ob_ErasureIndex j) (ob_ErasureDist j) checksums)
                 false rs [] 0 0 false 0 0)
       end.

Definition legacy_ToFileInfo (volume path : string) (m : xlMetaV1Object) : result FileInfo :=
  if negb (v1_valid m) then Err errFileCorrupt
  else Ok (mkFileInfo volume path (v1_VersionID m) false false "" "" "" "" false (v1_DataDir m) true (v1_ModTime m)
             (v1_Size m) 0 0 (v1_Meta m) (v1_Parts m) (v1_Erasure m) false zero_ReplicationState [] 1 0 false 0 0).

Definition fi_with_written (f : FileInfo) (w : Z) : FileInfo :=
  match f with
  | mkFileInfo v n vid il d ts ton tr tv er dd x1 mt sz md _ meta ps ei mk rs da nv sm fr ix dm =>
    mkFileInfo v n vid il d ts ton tr tv er dd x1 mt sz md w meta ps ei mk rs da nv sm fr ix dm
  end.

Definition version_ToFileInfo (volume path : string) (j : xlMetaV2Version) : option (result FileInfo) :=
  let written r := match r with Ok fi => Ok (fi_with_written fi (ve_WrittenByVersion j)) | Err e => Err e end in
  if ve_Type j =? ObjectType then o ← ve_ObjectV2 j; written <$> object_ToFileInfo volume path o
  else if ve_Type j =? DeleteType then d ← ve_DeleteMarker j; Some (written (Ok (marker_ToFileInfo volume path d)))
  else if ve_Type j =? LegacyType then m ← ve_ObjectV1 j; Some (written (legacy_ToFileInfo volume path m))
  else Some (Err errFileNotFound).

(** ** Lookup *)

Definition fi_with_position (f : FileInfo) (latest : bool) (succ : time) (num : Z) : FileInfo :=
  match f with
  | mkFileInfo v n vid _ d ts ton tr tv er dd x1 mt sz md w meta ps ei mk rs da _ _ fr ix dm =>
    mkFileInfo v n vid latest d ts ton tr tv er dd x1 mt sz md w meta ps ei mk rs da num succ fr ix dm
  end.

(** The loop of [ToFileInfo]: [found] is the version found so far. *)
Fixpoint lookup_loop (metaV : Z) (volume path versionID : string) (uv : N) (vs : list xlMetaV2ShallowVersion)
    (succModTime : Z) (isLatest : bool) (nonFree : Z) (found : option FileInfo) : option (result (option FileInfo * Z)) :=
  match vs with
  | [] => Some (Ok (found, nonFree))
  | ver :: vs =>
      let h := sv_header ver in
      let nonFree := if header_FreeVersion h then nonFree - 1 else nonFree in
      if header_FreeVersion h && negb (vh_VersionID h =? uv)%N then
        lookup_loop metaV volume path versionID uv vs succModTime isLatest nonFree found
      else match found with
           | Some _ => lookup_loop metaV volume path versionID uv vs succModTime isLatest nonFree found
           | None =>
               if negb (bool_decide (versionID = "")) && negb (uv =? vh_VersionID h)%N then
                 lookup_loop metaV volume path versionID uv vs (vh_ModTime h) false nonFree found
               else match unmarshalV metaV (sv_meta ver) with
                    | Err e => Some (Err e)
                    | Ok version =>
                        r ← version_ToFileInfo volume path version;
                        match r with
                        | Err e => Some (Err e)
                        | Ok fi =>
                            let fi := fi_with_position fi isLatest
                                        (if succModTime =? 0 then fi_SuccessorModTime fi else time_Unix_nano succModTime)
                                        (fi_NumVersions fi) in
                            lookup_loop metaV volume path versionID uv vs succModTime isLatest nonFree (Some fi)
                        end
                    end
           end
  end.

Definition xl_ToFileInfo (x : xlMetaV2) (volume path versionID : string) : option (result FileInfo) :=
  match parse_version versionID with
  | Err _ => Some (Err errFileVersionNotFound)
  | Ok uv =>
      r ← lookup_loop (xl_metaV x) volume path versionID uv (xl_versions x) 0 true (len (xl_versions x)) None;
      Some match r with
           | Err e => Err e
           | Ok (None, _) => Err (if bool_decide (versionID = "") then errFileNotFound else errFileVersionNotFound)
           | Ok (Some fi, nonFree) => Ok (fi_with_position fi (fi_IsLatest fi) (fi_SuccessorModTime fi) nonFree)
           end
  end.

(** ** Listing *)

Fixpoint convert_all (metaV : Z) (volume path : string) (vs : list xlMetaV2ShallowVersion) : option (result (list FileInfo)) :=
  match vs with
  | [] => Some (Ok [])
  | ver :: vs =>
      match unmarshalV metaV (sv_meta ver) with
      | Err e => Some (Err e)
      | Ok dst =>
          r ← version_ToFileInfo volume path dst;
          match r with
          | Err e => Some (Err e)
          | Ok fi => rs ← convert_all metaV volume path vs;
                     Some match rs with Ok fis => Ok (fi :: fis) | Err e => Err e end
          end
      end
  end.

(** The second loop: the number of versions, the successor and the latest. *)
Fixpoint set_positions (num : Z) (prev : option time) (fis : list FileInfo) : list FileInfo :=
  match fis with
  | [] => []
  | fi :: fis =>
      fi_with_position fi (match prev with None => true | Some _ => fi_IsLatest fi end)
        (default (fi_SuccessorModTime fi) prev) num :: set_positions num (Some (fi_ModTime fi)) fis
  end.

Definition ListVersions (x : xlMetaV2) (volume path : string) : option (result (list FileInfo)) :=
  r ← convert_all (xl_metaV x) volume path (xl_versions x);
  Some match r with Ok fis => Ok (set_positions (len fis) None fis) | Err e => Err e end.
End Conversions.

(** ** The version found *)

Section Lookup.
Context `{XLLib} `{HttpTime} `{MapOrder}.

Definition is_free (v : xlMetaV2ShallowVersion) : bool := header_FreeVersion (sv_header v).
(** The versions a listing shows. *)
Definition visible (vs : list xlMetaV2ShallowVersion) : list xlMetaV2ShallowVersion :=
  List.filter (fun v => negb (is_free v)) vs.

(** The modification time of the next newer visible version, 0 if there is none. *)
Definition successor (pre : list xlMetaV2ShallowVersion) (succ : Z) : Z :=
  match last (visible pre) with Some w => vh_ModTime (sv_header w) | None => succ end.

Lemma visible_cons v vs : visible (v :: vs) = if is_free v then visible vs else v :: visible vs.
Proof. unfold visible. cbn [List.filter]. by destruct (is_free v). Qed.

Lemma lookup_found metaV volume path versionID uv vs : forall succ latest n f,
  lookup_loop metaV volume path versionID uv vs succ latest n (Some f) = Some (Ok (Some f, n - len vs + len (visible vs))).
Proof.
  induction vs as [|v vs IH]; intros succ latest n f.
  { cbn [lookup_loop visible List.filter length]. do 4 f_equal. lia. }
  cbn [lookup_loop]. rewrite visible_cons. unfold is_free.
  destruct (header_FreeVersion (sv_header v)); cbn [andb]; [destruct (negb _)|]; rewrite IH; do 3 f_equal; cbn [length]; lia.
Qed.

Lemma lookup_skip metaV volume path versionID uv pre rest : versionID <> "" ->
  Forall (fun v => version_id v <> uv) pre -> forall succ latest n,
  lookup_loop metaV volume path versionID uv (pre ++ rest) succ latest n None =
  lookup_loop metaV volume path versionID uv rest (successor pre succ) (latest && bool_decide (visible pre = []))
    (n - len pre + len (visible pre)) None.
Proof.
  intros Hne Hpre. induction Hpre as [|v pre Hv _ IH]; intros succ latest n.
  { cbn [app]. unfold successor. cbn [visible List.filter last length]. rewrite bool_decide_eq_true_2, andb_true_r by done.
    f_equal. cbn. lia. }
  cbn [app lookup_loop]. rewrite (bool_decide_eq_false_2 (versionID = "")) by done. unfold version_id in Hv.
  destruct (N.eqb_spec (vh_VersionID (sv_header v)) uv); [done|]. destruct (N.eqb_spec uv (vh_VersionID (sv_header v))); [done|].
  cbn [negb andb]. rewrite andb_true_r. unfold successor. rewrite visible_cons. unfold is_free.
  destruct (header_FreeVersion (sv_header v)); cbn [negb]; rewrite IH.
  - f_equal. cbn [length]. lia.
  - rewrite andb_false_l, (bool_decide_eq_false_2 (_ :: _ = [])), andb_false_r by done. f_equal; [|cbn [length]; lia].
    unfold successor. rewrite last_cons. by destruct (last (visible pre)).
Qed.

(** The version with the requested identifier is returned with its place among
    the visible versions. *)
Lemma ToFileInfo_finds x volume path versionID uv pre v post ver f :
  versionID <> "" -> parse_version versionID = Ok uv -> NoDup (version_id <$> xl_versions x) ->
  xl_versions x = pre ++ v :: post -> version_id v = uv ->
  unmarshalV (xl_metaV x) (sv_meta v) = Ok ver -> version_ToFileInfo volume path ver = Some (Ok f) ->
  xl_ToFileInfo x volume path versionID =
    Some (Ok (fi_with_position f (bool_decide (visible pre = []))
      (if successor pre 0 =? 0 then fi_SuccessorModTime f else time_Unix_nano (successor pre 0))
      (len (visible (xl_versions x))))).
Proof.
  intros Hne Hp Hnd Hvs Hid Hu Hf. unfold xl_ToFileInfo. rewrite Hp.
  assert (Forall (fun w => version_id w <> uv) pre) as Hpre.
  { rewrite Hvs, fmap_app, fmap_cons in Hnd. apply NoDup_app in Hnd as (_ & Hd & _). rewrite Forall_forall. intros w Hw He.
    apply (Hd (version_id w)); [by apply list_elem_of_fmap_2|]. rewrite He, Hid. left. }
  rewrite Hvs at 1. rewrite lookup_skip by done. cbn [lookup_loop]. unfold version_id in Hid. rewrite Hid, N.eqb_refl.
  cbn [negb]. rewrite !andb_false_r, Hu, Hf. cbn [mbind option_bind]. rewrite lookup_found. cbn [andb].
  set (n := _ - len post + _). assert (n = len (visible (xl_versions x))) as ->.
  { unfold n. rewrite Hvs. unfold visible. rewrite List.filter_app, !length_app. cbn [List.filter length]. unfold is_free.
    destruct (header_FreeVersion (sv_header v)); cbn [negb length]; lia. }
  by destruct f.
Qed.
End Lookup.

(** ** What [AddVersion] wrote *)

Lemma append_empty_l s : "" +:+ s = s.
Proof. done. Qed.

Section ReadBack.
Context {L : XLLib} {LL : XLLaws L} `{Msgp} `{HttpTime} `{SliceSort} `{MapOrder}.

(** The part of a request without its own modification time, which is not kept. *)
Definition kept_part (p : ObjectPartInfo) : ObjectPartInfo :=
  mkPart (pt_ETag p) (pt_Number p) (pt_Size p) (pt_ActualSize p) 0 (pt_Index p).

(** A list that is stored only when some element is not the default. *)
Lemma sparse_lookup {A} (f : ObjectPartInfo -> A) (d : A) (test : ObjectPartInfo -> bool) (parts : list ObjectPartInfo) i p :
  (forall q, test q = false -> f q = d) -> parts !! i = Some p ->
  let l := if existsb test parts then f <$> parts else [] in
  (if (length l =? length parts)%nat then default d (l !! i) else d) = f p.
Proof.
  intros Hd Hi l. unfold l. destruct (existsb test parts) eqn:E.
  - rewrite length_fmap, Nat.eqb_refl, list_lookup_fmap, Hi. done.
  - assert (f p = d) as Hp.
    { apply Hd. destruct (test p) eqn:Ep; [|done]. exfalso.
      enough (existsb test parts = true) by congruence. apply existsb_exists. exists p.
      split; [|done]. rewrite <-list_elem_of_In. by eapply list_elem_of_lookup_2. }
    destruct (_ =? _)%nat; [|done]. by rewrite lookup_nil.
Qed.

Lemma object_part_new fi uv dd i p : fi_Parts fi !! i = Some p ->
  object_part (new_object fi uv dd) i (pt_Number p) = Some (kept_part p).
Proof.
  intros Hi. unfold object_part, new_object, kept_part.
  cbn [ob_PartSizes ob_PartActualSizes ob_PartETags ob_PartIndices ob_PartNumbers].
  rewrite !list_lookup_fmap, Hi. cbn [fmap option_fmap option_map mbind option_bind]. rewrite length_fmap.
  rewrite (sparse_lookup pt_ETag "" _ (fi_Parts fi) i p); [|by intros q ?%negb_false_iff%bool_decide_eq_true|done].
  rewrite (sparse_lookup pt_Index [] _ (fi_Parts fi) i p); [done| |done].
  intros q Hq. apply Nat.ltb_ge in Hq. by destruct (pt_Index q); [|cbn in Hq; lia].
Qed.

Lemma object_parts_new fi uv dd : object_parts (new_object fi uv dd) 0 (ob_PartNumbers (new_object fi uv dd)) =
  Some (kept_part <$> fi_Parts fi).
Proof.
  change (ob_PartNumbers _) with (pt_Number <$> fi_Parts fi).
  enough (forall ps i, drop i (fi_Parts fi) = ps -> object_parts (new_object fi uv dd) i (pt_Number <$> ps) = Some (kept_part <$> ps)) as Hx
    by (by apply Hx).
  induction ps as [|p ps IH]; intros i Hd; [done|]. rewrite !fmap_cons. cbn [object_parts].
  assert (fi_Parts fi !! i = Some p) as Hi. { rewrite <-(Nat.add_0_r i), <-lookup_drop, Hd. done. }
  rewrite (object_part_new _ _ _ _ _ Hi). cbn [mbind option_bind]. rewrite IH; [done|].
  replace (S i) with (i + 1)%nat by lia. rewrite <-drop_drop, Hd. done.
Qed.

(** Characters that do not start a special sequence fold one by one. *)
Lemma fold_plain a0 b0 i a s : is_char a a0 = false -> is_char a 226 = false ->
  fold_with a0 b0 i (String a s) = String (ascii_lower a) (fold_with a0 b0 i s).
Proof. intros Ha Hb. destruct s as [|b [|c s]]; cbn [fold_with]; by rewrite ?Ha, ?Hb. Qed.

Lemma reserved_key t : t <> "" -> is_reserved_key (reserved t) = true /\
  String.prefix ReservedMetadataPrefixLower (ToLower (reserved t)) = true.
Proof.
  intros Ht. split.
  - destruct t as [|c [|d t]]; [done|reflexivity..].
  - unfold ToLower, reserved, ReservedMetadataPrefixLower. rewrite !append_cons, append_empty_l.
    do 19 (rewrite fold_plain by reflexivity). by destruct (fold_with 196 176 "i" t).
Qed.

Definition hidden_key (k : string) : bool := equals k [AmzMetaUnencryptedContentLength; AmzMetaUnencryptedContentMD5].

Lemma set_nonempty_ne key value m k : k <> key -> set_nonempty key value m !! k = m !! k.
Proof. intros Hk. unfold set_nonempty. case_bool_decide; [done|]. by rewrite lookup_insert_ne. Qed.

(** Which metadata of the request is read back. *)
Lemma metadata_user fi uv dd k : is_reserved_key k = false -> hidden_key k = false ->
  object_metadata (new_object fi uv dd) !! k = fi_Metadata fi !! k.
Proof.
  intros Hr Hh. unfold object_metadata. rewrite lookup_union, !map_lookup_filter.
  assert (forall key, is_reserved_key key = true -> k <> key) as Hne by (intros key Hk ->; congruence).
  unfold new_object. cbn [ob_MetaSys ob_MetaUser].
  rewrite !set_nonempty_ne by (apply Hne; reflexivity). rewrite !map_lookup_filter.
  destruct (fi_Metadata fi !! k) as [v|]; [|done]. cbn [mbind option_bind fst].
  rewrite (option_guard_False (_ /\ _)) by (by rewrite Hr; intros [? _]). cbn [mbind option_bind].
  rewrite option_guard_True by done. cbn [mbind option_bind]. rewrite option_guard_True by exact Hh. done.
Qed.

Lemma metadata_reserved fi uv dd t : t <> "" ->
  reserved t ∉ [TransitionTierKey; TransitionedVersionIDKey; TransitionedObjectNameKey; TransitionStatusKey; tierFVIDKey; tierFVMarkerKey] ->
  object_metadata (new_object fi uv dd) !! reserved t = fi_Metadata fi !! reserved t.
Proof.
  intros Ht Hk. destruct (reserved_key t Ht) as [Hr Hp]. rewrite !not_elem_of_cons in Hk. destruct Hk as (? & ? & ? & ? & ? & ? & _).
  unfold object_metadata. rewrite lookup_union, !map_lookup_filter. unfold new_object. cbn [ob_MetaSys ob_MetaUser].
  rewrite !set_nonempty_ne by done. rewrite !map_lookup_filter. destruct (fi_Metadata fi !! reserved t) as [v|]; [|done].
  cbn [mbind option_bind fst]. rewrite (option_guard_True (_ /\ _)) by done. cbn [mbind option_bind].
  rewrite (option_guard_True ((_ || _) = true)) by (by rewrite Hp). rewrite (option_guard_False (is_reserved_key _ = false)) by congruence. done.
Qed.

Lemma wrapu8_id l : Forall (fun d => 0 <= d < 256) l -> wrapu8 <$> l = l.
Proof. induction 1 as [|d l Hd _ IH]; [done|]. rewrite fmap_cons, IH. unfold wrapu8. by rewrite Z.mod_small by lia. Qed.

(** The entry written for an object, as it is read. *)
Lemma new_entry_ToFileInfo fi uv dd volume path : fi_Deleted fi = false -> int64_range (fi_ModTime fi - unix_epoch) ->
  Forall (fun d => 0 <= d < 256) (ei_Distribution (fi_Erasure fi)) ->
  exists f, version_ToFileInfo volume path (new_entry fi uv dd) = Some (Ok f) /\
    (fi_Volume f, fi_Name f, fi_VersionID f) = (volume, path, version_string uv) /\
    (fi_Size f, fi_ModTime f, fi_DataDir f) = (fi_Size fi, fi_ModTime fi, uuid_String dd) /\
    fi_Parts f = kept_part <$> fi_Parts fi /\
    (ei_DataBlocks (fi_Erasure f), ei_ParityBlocks (fi_Erasure f), ei_BlockSize (fi_Erasure f)) =
      (ei_DataBlocks (fi_Erasure fi), ei_ParityBlocks (fi_Erasure fi), ei_BlockSize (fi_Erasure fi)) /\
    (ei_Index (fi_Erasure f), ei_Distribution (fi_Erasure f)) = (ei_Index (fi_Erasure fi), ei_Distribution (fi_Erasure fi)) /\
    (forall k, k <> AmzBucketReplicationStatus -> fi_Metadata f !! k = object_metadata (new_object fi uv dd) !! k).
Proof.
  intros Hd Hmt Hdist. unfold version_ToFileInfo, new_entry. rewrite Hd.
  cbn [ve_Type ve_ObjectV2 Z.eqb ObjectType Pos.eqb mbind option_bind ve_WrittenByVersion].
  unfold object_ToFileInfo. rewrite object_parts_new. cbn [mbind option_bind]. unfold object_checksums.
  assert (length (ob_PartSizes (new_object fi uv dd)) = length (ob_PartNumbers (new_object fi uv dd))) as -> by
    (unfold new_object; cbn [ob_PartSizes ob_PartNumbers]; by rewrite !length_fmap).
  rewrite Nat.ltb_irrefl. cbn [negb Z.eqb andb new_object ob_BitrotChecksumAlgo HighwayHash Pos.eqb mbind option_bind].
  eexists. split; [reflexivity|]. cbn [fi_with_written fi_Volume fi_Name fi_VersionID fi_Size fi_ModTime fi_DataDir fi_Parts
    fi_Erasure ei_DataBlocks ei_ParityBlocks ei_BlockSize ei_Index ei_Distribution fi_Metadata ob_VersionID ob_ModTime
    ob_Size ob_DataDir ob_ErasureM ob_ErasureN ob_ErasureBlockSize ob_ErasureIndex ob_ErasureDist].
  split_and!; [done| |done|done| |].
  - cbn [new_object ob_ModTime ob_Size ob_DataDir]. unfold time_Unix_nano, time_UnixNano.
    rewrite wrap64_id by done. do 2 f_equal. lia.
  - f_equal. by apply wrapu8_id.
  - intros k Hk. case_bool_decide; [done|]. by rewrite lookup_insert_ne.
Qed.

(** The description [f] of the object that the request [fi] writes as version [uv]:
    its size, time, parts, erasure parameters, data directory, and every metadata
    entry, except the keys the code reserves for tiering and the two it hides. *)
Definition describes (volume path : string) (fi : FileInfo) (uv dd : N) (f : FileInfo) : Prop :=
  (fi_Volume f, fi_Name f, fi_VersionID f) = (volume, path, version_string uv) /\
  (fi_Size f, fi_ModTime f, fi_DataDir f) = (fi_Size fi, fi_ModTime fi, uuid_String dd) /\
  fi_Parts f = kept_part <$> fi_Parts fi /\
  (ei_DataBlocks (fi_Erasure f), ei_ParityBlocks (fi_Erasure f), ei_BlockSize (fi_Erasure f)) =
    (ei_DataBlocks (fi_Erasure fi), ei_ParityBlocks (fi_Erasure fi), ei_BlockSize (fi_Erasure fi)) /\
  (ei_Index (fi_Erasure f), ei_Distribution (fi_Erasure f)) = (ei_Index (fi_Erasure fi), ei_Distribution (fi_Erasure fi)) /\
  (forall k, k <> AmzBucketReplicationStatus -> is_reserved_key k = false -> hidden_key k = false ->
     fi_Metadata f !! k = fi_Metadata fi !! k) /\
  (forall t, t <> "" -> reserved t ∉ [TransitionTierKey; TransitionedVersionIDKey; TransitionedObjectNameKey;
      TransitionStatusKey; tierFVIDKey; tierFVMarkerKey] ->
     fi_Metadata f !! reserved t = fi_Metadata fi !! reserved t).

(** The identifier a version is asked for by. *)
Definition asked_as (id : string) : string := if bool_decide (id = "") then nullVersionID else id.

(** The entry of a request, once it is in a journal, is read back. *)
Lemma entry_read_back y fi uv dd volume path : journal_ok y -> parse_version (fi_VersionID fi) = Ok uv ->
  version_at y uv = Ok (new_entry fi uv dd) -> fi_Deleted fi = false -> int64_range (fi_ModTime fi - unix_epoch) ->
  Forall (fun d => 0 <= d < 256) (ei_Distribution (fi_Erasure fi)) ->
  exists f, xl_ToFileInfo y volume path (asked_as (fi_VersionID fi)) = Some (Ok f) /\ describes volume path fi uv dd f.
Proof.
  intros Hok Hp Hat Hdel Hmt Hdist.
  destruct (new_entry_ToFileInfo fi uv dd volume path Hdel Hmt Hdist) as (f & Hf & F1 & F2 & F3 & F4 & F5 & F6).
  rewrite version_at_pick in Hat. destruct (pick (xl_versions y) uv) as [v|] eqn:Ep; [|done].
  apply pick_Some in Ep as [Hin Hvid]; [|apply (jo_nodup _ Hok)]. apply list_elem_of_split in Hin as (pre & post & Hvs).
  assert (asked_as (fi_VersionID fi) <> "") as Hne by (unfold asked_as; by case_bool_decide).
  eexists. split.
  - eapply (ToFileInfo_finds y volume path _ uv pre v post); try done; [|apply (jo_nodup _ Hok)].
    unfold asked_as. by rewrite parse_normal.
  - unfold describes. split_and!; [by destruct f..| |].
    + intros k Hk Hr Hh. rewrite <-(metadata_user fi uv dd) by done. rewrite <-F6 by done. by destruct f.
    + intros t Ht Hk. rewrite <-(metadata_reserved fi uv dd) by done. rewrite <-F6; [by destruct f|].
      intros He. apply (f_equal (String.prefix ReservedMetadataPrefixLower)) in He. by destruct t.
Qed.

(** C6: a version that was written is read back.  When the entry made from a
    request is valid and can be encoded, [AddVersion] succeeds, leaves every
    other version as it was and keeps the journal in order, and [ToFileInfo] of
    the version returns the object that was written: its size, time, parts,
    erasure parameters, data directory, and every metadata entry, except the keys
    the code reserves for tiering and the two it hides. *)
Theorem AddVersion_read_back now x fi uv dd b volume path :
  journal_ok x -> parse_version (fi_VersionID fi) = Ok uv ->
  (if bool_decide (fi_DataDir fi = "") then Ok 0%N else uuid_Parse (fi_DataDir fi)) = Ok dd ->
  Version_Valid (new_entry fi uv dd) = true -> MarshalMsg (new_entry fi uv dd) = Ok b ->
  fi_Deleted fi = false -> int64_range (fi_ModTime fi - unix_epoch) ->
  Forall (fun d => 0 <= d < 256) (ei_Distribution (fi_Erasure fi)) ->
  exists x' f, AddVersion now x fi = Some (x', None) /\ journal_ok x' /\
    (forall id, id <> uv -> version_at x' id = version_at x id) /\
    xl_ToFileInfo x' volume path (asked_as (fi_VersionID fi)) = Some (Ok f) /\ describes volume path fi uv dd f.
Proof.
  intros Hok Hp Hdd Hv Hb Hdel Hmt Hdist.
  destruct (AddVersion_spec now x fi uv dd b Hok Hp Hdd Hv Hb) as (x' & Ha & Hok' & Hat & Hother).
  destruct (entry_read_back x' fi uv dd volume path Hok' Hp Hat Hdel Hmt Hdist) as (f & Hf & Hd).
  by exists x', f.
Qed.
End ReadBack.

#[local] Existing Instance sample_lib.
#[local] Existing Instance sample_laws.
#[local] Existing Instance sample_http.

Lemma AddVersion_read_back_witness : exists x' f,
  AddVersion 0 (sample_journal []) (sample_request "u1" 100) = Some (x', None) /\
  xl_ToFileInfo x' "bucket" "object" "u1" = Some (Ok f) /\ fi_Size f = 5 /\ fi_DataDir f = "uoio1".
Proof.
  destruct (AddVersion_read_back 0 (sample_journal []) (sample_request "u1" 100) 1 10 [Byte.x01] "bucket" "object")
    as (x' & f & H1 & _ & _ & H2 & (_ & H3 & _)).
  - split; [constructor..|by right].
  - reflexivity.
  - reflexivity.
  - reflexivity.
  - vm_compute. reflexivity.
  - reflexivity.
  - split; [discriminate|reflexivity].
  - repeat constructor; discriminate.
  - exists x', f. split; [exact H1|]. split; [exact H2|]. injection H3 as E1 _ E3.
    split; [exact E1|]. rewrite E3. reflexivity.
Defined.
