(* ===== verification/XLFormat.v ===== *)
(** * The metadata file on disk ([cmd/xl-storage-format-v2.go])

    [xl.meta] is a signature and a format version, the version journal as one
    length-prefixed block with a checksum, and the inline data.  This file holds
    the encoder ([AppendTo]), the decoders ([Load] of the whole journal, the
    readers of [xlMetaBuf] that walk the block without loading it, the partial
    reader [readXLMetaNoData]) and what the storage layer builds from them
    ([getFileInfo], [getFileInfoVersions]).

    The MessagePack primitives for numbers and arrays are third-party code, the
    class [MsgpNum] next to [Msgp] of [Inline.v].  The code that converts the
    formats before 1.3 also needs the generated decoder of a version inside a
    longer buffer and a JSON decoder, the class [OldFormats].  The memory of a
    slice is not modelled: a version count that cannot be allocated is only a
    count.  A byte array [[n]byte] is a number, as in [XLMeta.v]. *)

From S2P Require Import Prelude FileInfo Quorum Restore Inline XLMeta XLRead.

(** ** Numbers as bytes *)

(** The bytes of an array of [k] bytes. *)
Fixpoint be_bytes (k : nat) (n : Z) : bytes :=
  match k with O => [] | S k => byte_of (n / 256 ^ Z.of_nat k) :: be_bytes k n end.

Definition be_val (b : bytes) : Z := fold_left (fun a c => a * 256 + byte_val c) b 0.

(** [binary.LittleEndian] on 16 bits. *)
Definition PutUint16 (n : Z) : bytes := [byte_of n; byte_of (n / 2 ^ 8)].
Definition Uint16 (b : bytes) : option Z :=
  match b with b0 :: b1 :: _ => Some (byte_val b0 + byte_val b1 * 2 ^ 8) | _ => None end.

(** ** Primitives *)

Class MsgpNum := {
  ReadUint8Bytes : bytes -> Z * bytes * option error;
  ReadIntBytes : bytes -> Z * bytes * option error;
  ReadInt64Bytes : bytes -> Z * bytes * option error;
  ReadUint32Bytes : bytes -> Z * bytes * option error;
  ReadArrayHeaderBytes : bytes -> Z * bytes * option error;
  ReadBytesHeader : bytes -> Z * bytes * option error;
  ReadExactBytes : bytes -> nat -> bytes * bytes * option error;
  AppendUint : Z -> bytes;
  AppendUint8 : Z -> bytes;
  AppendInt : Z -> bytes;
  AppendInt64 : Z -> bytes;
  WrapError : error -> string -> error
}.

(** The format of MessagePack, as far as the two sides rely on it: what is
    appended is read back and has the documented size, [0xc6] and [0xce] start a
    byte string and a number with four more bytes, and [0x95] an array of five. *)
Class MsgpNumLaws (M : Msgp) (N : MsgpNum) := {
  Read_AppendUint : forall n rest, 0 <= n < 2 ^ 8 -> ReadUint8Bytes (AppendUint n ++ rest) = (n, rest, None);
  Read_AppendUint8 : forall n rest, 0 <= n < 2 ^ 8 -> ReadUint8Bytes (AppendUint8 n ++ rest) = (n, rest, None);
  Read_AppendInt : forall n rest, int64_range n -> ReadIntBytes (AppendInt n ++ rest) = (n, rest, None);
  Read_AppendInt64 : forall n rest, int64_range n -> ReadInt64Bytes (AppendInt64 n ++ rest) = (n, rest, None);
  Read_Exact : forall b rest, bytes_fit b -> ReadExactBytes (AppendBytes b ++ rest) (length b) = (b, rest, None);
  Read_Array5 : forall rest, ReadArrayHeaderBytes (Byte.x95 :: rest) = (5, rest, None);
  Read_bin32 : forall b rest, bytes_fit b -> ReadBytesZC (Byte.xc6 :: put32 (len b) ++ b ++ rest) = (Some b, rest, None);
  Read_bin32_header : forall n rest, 0 <= n < 2 ^ 32 -> ReadBytesHeader (Byte.xc6 :: put32 n ++ rest) = (n, rest, None);
  Read_uint32 : forall n rest, 0 <= n < 2 ^ 32 -> ReadUint32Bytes (Byte.xce :: put32 n ++ rest) = (n, rest, None);
  BytesPrefixSize : forall b, len b <= len (AppendBytes b) <= len b + 5;
  Int64Size : forall n, len (AppendInt64 n) <= 9;
  Uint8Size : forall n, len (AppendUint8 n) <= 2
}.

Definition Uint32Size : Z := 5.

(** A reader of the library used as fallible code. *)
Definition rd {A} (r : A * bytes * option error) : result (A * bytes) :=
  match r with (_, _, Some e) => Err e | (a, b, None) => Ok (a, b) end.
Definition rd_as {A} `{MsgpNum} (field : string) (r : A * bytes * option error) : result (A * bytes) :=
  match rd r with Ok x => Ok x | Err e => Err (WrapError e field) end.

(** ** Format *)

Definition xlHeader : bytes := [Byte.x58; Byte.x4c; Byte.x32; Byte.x20].
Definition xlVersionMajor : Z := 1.
Definition xlVersionMinor : Z := 3.
Definition xlVersionCurrent : bytes := PutUint16 xlVersionMajor ++ PutUint16 xlVersionMinor.
Definition xlHeaderVersion : Z := 2.
Definition xlMetaVersion : Z := 1.
(** The four bytes of ["1   "]. *)
Definition firstVersion : bytes := [Byte.x31; Byte.x20; Byte.x20; Byte.x20].

Definition errNoData : error := Errorf 0 "xlMeta: no data".
Definition errXLHeader : error := Errorf 0 "xlMeta: unknown XLv2 header".
Definition errXLMajor : error := Errorf 0 "xlMeta: unknown major version found".
Definition errHeaderVersion : error := Errorf 0 "decodeXLHeaders: Unknown xl header version".
Definition errMetaVersion : error := Errorf 0 "decodeXLHeaders: Unknown xl meta version".
Definition errNegativeCount : error := Errorf 0 "decodeXLHeaders: Negative version count".
Definition errCRC : error := Errorf 0 "xlMetaV2.Load, CRC mismatch".
Definition errUnknownMinor : error := ErrNew "unknown minor metadata version".
Definition errUnknownMajor : error := ErrNew "unknown major metadata version".
Definition ArrayError : error := ErrNew "msgp: wanted array of another size".

(** The payload and the format version. *)
Definition checkXL2V1 (buf : bytes) : result (bytes * Z * Z) :=
  match buf with
  | b0 :: b1 :: b2 :: b3 :: b4 :: b5 :: b6 :: b7 :: ((_ :: _) as payload) =>
      if negb (bool_decide ([b0; b1; b2; b3] = xlHeader)) then Err errXLHeader
      else
        let '(major, minor) :=
          if bool_decide ([b4; b5; b6; b7] = firstVersion) then (1, 0)
          else (byte_val b4 + byte_val b5 * 2 ^ 8, byte_val b6 + byte_val b7 * 2 ^ 8) in
        if xlVersionMajor <? major then Err errXLMajor else Ok (payload, major, minor)
  | _ => Err errNoData
  end.

Definition isXL2V1Format (buf : bytes) : bool := match checkXL2V1 buf with Ok _ => true | Err _ => false end.

(** What the callback of [decodeVersions] returns, with the state it updates:
    [nil], [errDoneForNow] or another error. *)
Inductive called (S : Type) := Next (s : S) | DoneForNow (s : S) | Failed (s : S) (e : error).
Arguments Next {S} s.
Arguments DoneForNow {S} s.
Arguments Failed {S} s e.

Section Format.
Context `{XLLib} {M : Msgp} {MN : MsgpNum}.

(** *** The header of a version ([cmd/xl-storage-format-v2_gen.go]) *)

Definition header_MarshalMsg (z : xlMetaV2VersionHeader) : bytes :=
  Byte.x95 :: AppendBytes (be_bytes 16 (Z.of_N (vh_VersionID z))) ++ AppendInt64 (vh_ModTime z) ++
    AppendBytes (be_bytes 4 (Z.of_N (vh_Signature z))) ++ AppendUint8 (vh_Type z) ++ AppendUint8 (vh_Flags z).

Open Scope go_scope.

Definition header_UnmarshalMsg (bts : bytes) : result (xlMetaV2VersionHeader * bytes) :=
  let* (n, bts) := rd_as "" (ReadArrayHeaderBytes bts) in
  if negb (n =? 5) then Err ArrayError else
  let* (id, bts) := rd_as "VersionID" (ReadExactBytes bts 16) in
  let* (mt, bts) := rd_as "ModTime" (ReadInt64Bytes bts) in
  let* (sig, bts) := rd_as "Signature" (ReadExactBytes bts 4) in
  let* (ty, bts) := rd_as "Type" (ReadUint8Bytes bts) in
  let* (fl, bts) := rd_as "Flags" (ReadUint8Bytes bts) in
  Ok (mkHeader (Z.to_N (be_val id)) mt (Z.to_N (be_val sig)) ty fl, bts).

(** [cmd/xl-storage-format-v2-legacy.go]: the first header had no signature. *)
Definition header_unmarshalV1 (bts : bytes) : result (xlMetaV2VersionHeader * bytes) :=
  let* (n, bts) := rd_as "" (ReadArrayHeaderBytes bts) in
  if negb (n =? 4) then Err ArrayError else
  let* (id, bts) := rd_as "VersionID" (ReadExactBytes bts 16) in
  let* (mt, bts) := rd_as "ModTime" (ReadInt64Bytes bts) in
  let* (ty, bts) := rd_as "Type" (ReadUint8Bytes bts) in
  let* (fl, bts) := rd_as "Flags" (ReadUint8Bytes bts) in
  Ok (mkHeader (Z.to_N (be_val id)) mt 0 ty fl, bts).

Definition header_unmarshalV (v : Z) (bts : bytes) : result (xlMetaV2VersionHeader * bytes) :=
  if v =? 1 then header_unmarshalV1 bts
  else if v =? xlHeaderVersion then header_UnmarshalMsg bts
  else Err (Errorf 0 "unknown xlHeaderVersion").

(** *** The journal block *)

(** The number of versions, the two format versions and the rest. *)
Definition decodeXLHeaders (buf : bytes) : result (Z * Z * Z * bytes) :=
  let* (hdrVer, buf) := rd (ReadUint8Bytes buf) in
  let* (metaVer, buf) := rd (ReadUint8Bytes buf) in
  if xlHeaderVersion <? hdrVer then Err errHeaderVersion
  else if xlMetaVersion <? metaVer then Err errMetaVersion else
  let* (versions, buf) := rd (ReadIntBytes buf) in
  if versions <? 0 then Err errNegativeCount else Ok (versions, hdrVer, metaVer, buf).

(** [n] more versions; [None] is a panic of the callback. *)
Fixpoint decodeVersions {S} (fn : bytes -> bytes -> S -> option (called S)) (n : nat) (buf : bytes) (s : S)
    : option (S * option error) :=
  match n with
  | O => Some (s, None)
  | Datatypes.S n =>
      match rd (ReadBytesZC buf) with
      | Err e => Some (s, Some e)
      | Ok (tHdr, buf) =>
          match rd (ReadBytesZC buf) with
          | Err e => Some (s, Some e)
          | Ok (tMeta, buf) =>
              let? r := fn (default [] tHdr) (default [] tMeta) s in
              match r with
              | Next s => decodeVersions fn n buf s
              | DoneForNow s => Some (s, None)
              | Failed s e => Some (s, Some e)
              end
          end
      end
  end.

(** [validate] and, when it fails, [repair]. *)
Definition repaired (data : xlMetaInlineData) : option xlMetaInlineData :=
  match validate data with None => Some data | Some _ => repair data end.

(** The journal block ([None] when the file is not indexed) and the inline data. *)
Definition isIndexedMetaV2 (buf : bytes) : option (result (option bytes * xlMetaInlineData)) :=
  match checkXL2V1 buf with
  | Err _ => Some (Ok (None, []))
  | Ok (buf, major, minor) =>
      if negb (major =? 1) || (minor <? 3) then Some (Ok (None, []))
      else match rd (ReadBytesZC buf) with
           | Err e => Some (Err e)
           | Ok (meta, buf) =>
               match rd (ReadUint32Bytes buf) with
               | Err e => Some (Err e)
               | Ok (crc, nbuf) =>
                   if negb (wrapu32 (xxhash_Sum64 (default [] meta)) =? crc) then Some (Err errCRC)
                   else let? data := repaired nbuf in Some (Ok (meta, data))
               end
           end
  end.

Definition loadIndexed (buf : bytes) (data : xlMetaInlineData) : option (result xlMetaV2) :=
  match decodeXLHeaders buf with
  | Err e => Some (Err e)
  | Ok (versions, headerV, metaV, buf) =>
      let? data := repaired data in
      let? (vs, err) := decodeVersions (fun hdr meta vs =>
        Some match header_unmarshalV headerV hdr with
             | Ok (h, _) => Next (vs ++ [mkShallow h meta])
             | Err e => Failed vs e
             end) (Z.to_nat versions) buf [] in
      Some match err with None => Ok (mkXL vs data metaV) | Some e => Err e end
  end.
End Format.

(** Decoders the conversion of older formats uses: of a version at the start of a
    buffer, of any value to skip, of the JSON file. *)
Class OldFormats := {
  UnmarshalMsg_rest : bytes -> result (xlMetaV2Version * bytes);
  msgp_Skip : bytes -> result bytes;
  json_Unmarshal : bytes -> result xlMetaV1Object
}.

Section Codec.
Context `{XLLib} {M : Msgp} {MN : MsgpNum} `{OldFormats} `{HttpTime} `{SliceSort} `{MapOrder} (now : time).
Open Scope go_scope.

(** *** Writing *)

(** The encoding of one version in the block. *)
Definition entry_block (v : xlMetaV2ShallowVersion) : bytes :=
  AppendBytes (header_MarshalMsg (sv_header v)) ++ AppendBytes (sv_meta v).

(** The block that is length-prefixed: the two format versions, the number of
    versions, and each version's header and encoding. *)
Definition journal_block (vs : list xlMetaV2ShallowVersion) : bytes :=
  AppendUint xlHeaderVersion ++ AppendUint xlMetaVersion ++ AppendInt (len vs) ++
  concat (entry_block <$> vs).

Definition AppendTo (dst : bytes) (x : xlMetaV2) : result bytes :=
  match validate (xl_data x) with
  | Some e => Err e
  | None =>
      let block := journal_block (xl_versions x) in
      Ok (dst ++ xlHeader ++ xlVersionCurrent ++ Byte.xc6 :: put32 (wrapu32 (len block)) ++ block ++
          Byte.xce :: put32 (wrapu32 (xxhash_Sum64 block)) ++ xl_data x)
  end.

(** *** Loading the formats before 1.3 *)

Fixpoint legacy_versions (n : nat) (bts : bytes) : option (result (list xlMetaV2ShallowVersion * bytes)) :=
  match n with
  | O => Some (Ok ([], bts))
  | S n =>
      match UnmarshalMsg_rest bts with
      | Err e => Some (Err (WrapError e "Versions"))
      | Ok (tmp, rest) =>
          let? h := header now (clean_etags tmp) in
          let? r := legacy_versions n rest in
          Some match r with
               | Ok (vs, rest') => Ok (mkShallow h (take (length bts - length rest) bts) :: vs, rest')
               | Err e => Err e
               end
      end
  end.

Fixpoint legacy_fields (n : nat) (bts : bytes) (vs : list xlMetaV2ShallowVersion)
    : option (result (list xlMetaV2ShallowVersion)) :=
  match n with
  | O => Some (Ok vs)
  | S n =>
      match rd_as "loadLegacy.ReadMapKey" (ReadMapKeyZC bts) with
      | Err e => Some (Err e)
      | Ok (field, bts) =>
          if bool_decide (field = "Versions") then
            match rd_as "Versions" (ReadArrayHeaderBytes bts) with
            | Err e => Some (Err e)
            | Ok (m, bts) =>
                let? r := legacy_versions (Z.to_nat m) bts in
                match r with Err e => Some (Err e) | Ok (vs, bts) => legacy_fields n bts vs end
            end
          else match msgp_Skip bts with
               | Err e => Some (Err (WrapError e "loadLegacy.Skip"))
               | Ok bts => legacy_fields n bts vs
               end
      end
  end.

(** The journal block and the inline data of an older file. *)
Definition legacy_block (buf : bytes) (minor : Z) : option (result (bytes * xlMetaInlineData)) :=
  if minor =? 0 then Some (Ok (buf, []))
  else if (minor =? 1) || (minor =? 2) then
    match rd (ReadBytesZC buf) with
    | Err e => Some (Err (ErrWrap 0 "xlMetaV2.Load" e))
    | Ok (v, buf) =>
        match (if 2 <=? minor then
                 match rd (ReadUint32Bytes buf) with
                 | Err e => Err (ErrWrap 0 "xlMetaV2.Load loading CRC" e)
                 | Ok (crc, nbuf) =>
                     if negb (wrapu32 (xxhash_Sum64 (default [] v)) =? crc) then Err errCRC else Ok nbuf
                 end
               else Ok buf) with
        | Err e => Some (Err e)
        | Ok buf =>
            let? data := repaired buf in
            Some match v with None => Err errFileCorrupt | Some v => Ok (v, data) end
        end
    end
  else Some (Err errUnknownMinor).

Definition loadLegacy (buf : bytes) : option (result xlMetaV2) :=
  match checkXL2V1 buf with
  | Err e => Some (Err (ErrWrap 0 "xlMetaV2.Load" e))
  | Ok (buf, major, minor) =>
      if negb (major =? 1) then Some (Err errUnknownMajor) else
      let? r := legacy_block buf minor in
      match r with
      | Err e => Some (Err e)
      | Ok (allMeta, data) =>
          match rd_as "loadLegacy.ReadMapHeader" (ReadMapHeaderBytes allMeta) with
          | Err e => Some (Err e)
          | Ok (n, bts) =>
              let? vs := legacy_fields (Z.to_nat n) bts [] in
              Some match vs with Ok vs => Ok (mkXL (sortByModTime vs) data 1) | Err e => Err e end
          end
      end
  end.

(** *** Loading *)

Definition Load (buf : bytes) : option (result xlMetaV2) :=
  let? r := isIndexedMetaV2 buf in
  match r with
  | Err e => Some (Err e)
  | Ok (Some meta, data) => loadIndexed meta data
  | Ok (None, _) => loadLegacy buf
  end.

Definition LoadOrConvert (buf : bytes) : option (result xlMetaV2) :=
  if isXL2V1Format buf then Load buf
  else match json_Unmarshal buf with
       | Err _ => Some (Err errFileCorrupt)
       | Ok m => let? (x, err) := AddLegacy now (mkXL [] [] xlMetaVersion) m in
                 Some match err with None => Ok x | Some e => Err e end
       end.

(** *** Reading the block without loading it *)

(** The variables the callback of [ToFileInfo] updates. *)
Record scan := mkScan {
  sc_succ : Z;
  sc_latest : bool;
  sc_nonFree : Z;
  sc_found : bool;
  sc_fi : FileInfo
}.

Definition scan_version (headerV metaV : Z) (volume path versionID : string) (uv : N) (hdr meta : bytes) (s : scan)
    : option (called scan) :=
  match header_unmarshalV headerV hdr with
  | Err e => Some (Failed s e)
  | Ok (h, _) =>
      let s := if header_FreeVersion h then mkScan (sc_succ s) (sc_latest s) (sc_nonFree s - 1) (sc_found s) (sc_fi s) else s in
      if header_FreeVersion h && negb (vh_VersionID h =? uv)%N then Some (Next s)
      else if sc_found s then Some (Next s)
      else if negb (bool_decide (versionID = "")) && negb (uv =? vh_VersionID h)%N then
        Some (Next (mkScan (vh_ModTime h) false (sc_nonFree s) false (sc_fi s)))
      else match unmarshalV metaV meta with
           | Err e => Some (Failed (mkScan (sc_succ s) (sc_latest s) (sc_nonFree s) true (sc_fi s)) e)
           | Ok version =>
               let? r := version_ToFileInfo volume path version in
               Some match r with
                    | Err e => Failed (mkScan (sc_succ s) (sc_latest s) (sc_nonFree s) true (sc_fi s)) e
                    | Ok fi =>
                        Next (mkScan (sc_succ s) (sc_latest s) (sc_nonFree s) true
                          (fi_with_position fi (sc_latest s)
                             (if sc_succ s =? 0 then fi_SuccessorModTime fi else time_Unix_nano (sc_succ s)) (fi_NumVersions fi)))
                    end
           end
  end.

Definition buf_ToFileInfo (x : bytes) (volume path versionID : string) : option (result FileInfo) :=
  match parse_version versionID with
  | Err _ => Some (Err errFileVersionNotFound)
  | Ok uv =>
      match decodeXLHeaders x with
      | Err e => Some (Err e)
      | Ok (versions, headerV, metaV, buf) =>
          let? (s, err) := decodeVersions (scan_version headerV metaV volume path versionID uv) (Z.to_nat versions) buf
                             (mkScan 0 true versions false zero_FileInfo) in
          Some (if negb (sc_found s) then Err (if bool_decide (versionID = "") then errFileNotFound else errFileVersionNotFound)
                else match err with
                     | Some e => Err e
                     | None => let fi := sc_fi s in
                               Ok (fi_with_position fi (fi_IsLatest fi) (fi_SuccessorModTime fi) (sc_nonFree s))
                     end)
      end
  end.

(** [ListVersions]: the versions so far and the time of the last one. *)
Definition list_version (metaV : Z) (volume path : string) (vers : Z) (meta : bytes) (s : list FileInfo * time)
    : option (called (list FileInfo * time)) :=
  match unmarshalV metaV meta with
  | Err e => Some (Failed s e)
  | Ok xl =>
      if negb (Version_Valid xl) then Some (Failed s errFileCorrupt) else
      let? r := version_ToFileInfo volume path xl in
      match r with
      | Err e => Some (Failed s e)
      | Ok fi => let? mt := getModTime xl in
                 Some (Next (s.1 ++ [fi_with_position fi (bool_decide (s.1 = [])) s.2 vers], mt))
      end
  end.

Definition buf_ListVersions (x : bytes) (volume path : string) : option (result (list FileInfo)) :=
  match decodeXLHeaders x with
  | Err e => Some (Err e)
  | Ok (vers, _, metaV, buf) =>
      let? (s, err) := decodeVersions (fun _ meta => list_version metaV volume path vers meta) (Z.to_nat vers) buf ([], 0) in
      Some match err with None => Ok s.1 | Some e => Err e end
  end.

Definition IsLatestDeleteMarker (x : bytes) : option bool :=
  match decodeXLHeaders x with
  | Err _ => Some false
  | Ok (vers, headerV, _, buf) =>
      if vers =? 0 then Some true
      else let? (s, _) := decodeVersions (fun hdr _ s =>
             Some match header_unmarshalV headerV hdr with
                  | Err _ => DoneForNow s
                  | Ok (xl, _) => DoneForNow (vh_Type xl =? DeleteType)
                  end) (Z.to_nat vers) buf false in
           Some s
  end.
End Codec.

(** *** Reading a file without its inline data *)

Definition metaDataReadDefault : Z := 4 * 2 ^ 10.

(** [readMore]: the buffer extended to [n] bytes. *)
Definition readMore (hasFull : bool) (size : Z) (r : stream) (buf : bytes) (n : Z) : result bytes :=
  if n <=? len buf then Ok buf
  else if hasFull || (size <? n) then Err ErrUnexpectedEOF
  else match ReadFull r (Z.to_nat (n - len buf)) with
       | (_, more, None) => Ok (buf ++ more)
       | (_, _, Some e) => Err (ErrWrap 0 "readXLMetaNoData(readMore)" (if error_Is e EOF then ErrUnexpectedEOF else e))
       end.

Section Partial.
Context `{MsgpNum}.
Open Scope go_scope.

Definition readXLMetaNoData (r : stream) (size : Z) : result bytes :=
  let hasFull := size <=? metaDataReadDefault in
  match ReadFull r (Z.to_nat (Z.min size metaDataReadDefault)) with
  | (_, _, Some e) => Err (ErrWrap 0 "readXLMetaNoData(io.ReadFull)" e)
  | (r, buf, None) =>
      match checkXL2V1 buf with
      | Err _ => readMore hasFull size r buf size
      | Ok (tmp, major, minor) =>
          if negb (major =? 1) then Err errUnknownMajor
          else if minor =? 0 then readMore hasFull size r buf size
          else if (minor =? 1) || (minor =? 2) || (minor =? 3) then
            match rd (ReadBytesHeader tmp) with
            | Err e => Err (ErrWrap 0 "readXLMetaNoData(read_meta): uknown metadata version" e)
            | Ok (sz, tmp) =>
                let want := sz + (len buf - len tmp) in
                if minor <? 2 then let* buf := readMore hasFull size r buf want in Ok (slice_to buf want)
                else
                  let* buf := readMore hasFull size r buf (Z.min (want + Uint32Size) size) in
                  if len buf <? want then Err (ErrWrap 0 "buffer shorter than expected" errFileCorrupt)
                  else match rd (ReadUint32Bytes (slice_from buf want)) with
                       | Err e => Err (ErrWrap 0 "readXLMetaNoData(read_meta): unknown metadata version" e)
                       | Ok (_, after) => Ok (slice_to buf (want + (len (slice_from buf want) - len after)))
                       end
            end
          else Err errUnknownMinor
      end
  end.
End Partial.

(** ** The versions of a file ([cmd/xl-storage-format-utils.go]) *)

(** [cmd/storage-datatypes.go] *)
Record FileInfoVersions := mkVersions {
  fv_Volume : string;
  fv_Name : string;
  fv_LatestModTime : time;
  fv_Versions : list FileInfo;
  fv_FreeVersions : list FileInfo
}.

(** [cmd/erasure-healing-common.go] *)
Definition timeSentinel1970 : time := time_Unix_nano 1.

Definition fi_with_Data (f : FileInfo) (data : bytes) : FileInfo :=
  match f with
  | mkFileInfo v n vid il d ts ton tr tv er dd x1 mt sz md wv meta ps ei mk rs _ nv sm fr ix dm =>
    mkFileInfo v n vid il d ts ton tr tv er dd x1 mt sz md wv meta ps ei mk rs data nv sm fr ix dm
  end.

(** What stands for a file without versions. *)
Definition no_versions (volume path versionID : string) : FileInfo :=
  mkFileInfo volume path versionID true true "" "" "" "" false "" false timeSentinel1970 0 0 0 ∅ [] zero_ErasureInfo
    false zero_ReplicationState [] 0 0 false 0 0.

Section Utils.
Context `{XLLib} {M : Msgp} {MN : MsgpNum} `{OldFormats} `{HttpTime} `{SliceSort} `{MapOrder} (now : time).
Open Scope go_scope.

(** [None] is also the index out of range of a listing that is empty. *)
Definition getAllFileInfoVersions (buf : bytes) (volume path : string) : option (result FileInfoVersions) :=
  let? r := isIndexedMetaV2 buf in
  let? versions := match r with
                   | Err e => Some (Err e)
                   | Ok (Some meta, _) => buf_ListVersions meta volume path
                   | Ok (None, _) =>
                       let? r := LoadOrConvert now buf in
                       match r with Err e => Some (Err e) | Ok x => ListVersions x volume path end
                   end in
  match versions with
  | Err e => Some (Err e)
  | Ok versions =>
      let versions := if bool_decide (versions = []) then [no_versions volume path ""] else versions in
      let? first := versions !! 0%nat in
      Some (Ok (mkVersions volume path (fi_ModTime first) versions []))
  end.

Definition getFileInfoVersions (buf : bytes) (volume path : string) : option (result FileInfoVersions) :=
  let? r := getAllFileInfoVersions buf volume path in
  Some match r with
       | Err e => Err e
       | Ok fivs =>
           let vs := List.filter (fun fi => negb (TierFreeVersion fi)) (fv_Versions fivs) in
           Ok (mkVersions (fv_Volume fivs) (fv_Name fivs) (fv_LatestModTime fivs)
                 ((fun fi => fi_with_position fi (fi_IsLatest fi) (fi_SuccessorModTime fi) (len vs)) <$> vs)
                 (fv_FreeVersions fivs ++ List.filter TierFreeVersion (fv_Versions fivs)))
       end.

(** The inline data of a version, under its identifier or, as one release wrote
    it, its data directory. *)
Definition inline_of (inData : xlMetaInlineData) (fi : FileInfo) : bytes :=
  let versionID := if bool_decide (fi_VersionID fi = "") then nullVersionID else fi_VersionID fi in
  let d := default [] (find inData versionID) in
  if (length d =? 0)%nat then default [] (find inData (fi_DataDir fi)) else d.

Definition getFileInfo (buf : bytes) (volume path versionID : string) (data : bool) : option (result FileInfo) :=
  let? r := isIndexedMetaV2 buf in
  let finish inData r := match r with
                         | Err e => Err e
                         | Ok fi => if negb data then Ok fi else Ok (fi_with_Data fi (inline_of inData fi))
                         end in
  match r with
  | Err e => Some (Err e)
  | Ok (Some meta, inData) =>
      let? r := buf_ToFileInfo meta volume path versionID in
      Some match r with
           | Err e => if negb (length meta =? 0)%nat && error_Is e errFileNotFound then Ok (no_versions volume path versionID)
                      else Err e
           | Ok fi => finish inData (Ok fi)
           end
  | Ok (None, _) =>
      let? r := LoadOrConvert now buf in
      match r with
      | Err e => Some (Err e)
      | Ok x => if (length (xl_versions x) =? 0)%nat then Some (Ok (no_versions volume path versionID))
                else let? r := xl_ToFileInfo x volume path versionID in Some (finish (xl_data x) r)
      end
  end.
End Utils.

(** ** What is written is read *)

Lemma be_bytes_length k n : length (be_bytes k n) = k.
Proof. induction k; cbn; congruence. Qed.

Lemma be_fold k : forall n a, fold_left (fun a c => a * 256 + byte_val c) (be_bytes k n) a =
  a * 256 ^ Z.of_nat k + n mod 256 ^ Z.of_nat k.
Proof.
  induction k as [|k IH]; intros n a.
  - cbn. rewrite Z.mod_1_r. lia.
  - cbn [be_bytes fold_left]. rewrite IH, byte_val_of, Nat2Z.inj_succ, Z.pow_succ_r by lia.
    rewrite (Z.mul_comm 256), (Z.rem_mul_r n) by lia. lia.
Qed.

Lemma be_val_bytes k n : 0 <= n < 256 ^ Z.of_nat k -> be_val (be_bytes k n) = n.
Proof. intros Hn. unfold be_val. rewrite be_fold, Z.mod_small by done. lia. Qed.

(** A header whose fields have their width in Go. *)
Definition header_fits (h : xlMetaV2VersionHeader) : Prop :=
  (vh_VersionID h < 2 ^ 128)%N /\ int64_range (vh_ModTime h) /\ (vh_Signature h < 2 ^ 32)%N /\
  0 <= vh_Type h < 2 ^ 8 /\ 0 <= vh_Flags h < 2 ^ 8.

Section RoundTrip.
Context `{XLLib} {M : Msgp} {ML : MsgpLaws M} {MN : MsgpNum} {MNL : MsgpNumLaws M MN}.

Lemma header_roundtrip h rest : header_fits h -> header_UnmarshalMsg (header_MarshalMsg h ++ rest) = Ok (h, rest).
Proof.
  intros (Hid & Hmt & Hsig & Hty & Hfl). unfold header_UnmarshalMsg, header_MarshalMsg, rd_as. cbn [app].
  rewrite Read_Array5. cbn [rd result_bind]. rewrite <-!app_assoc. cbn [negb Z.eqb Pos.eqb].
  assert (forall k n rest, (k <= 16)%nat -> ReadExactBytes (AppendBytes (be_bytes k n) ++ rest) k = (be_bytes k n, rest, None)) as Hx.
  { intros k n r Hk. rewrite <-(be_bytes_length k n) at 2. apply Read_Exact. unfold bytes_fit. rewrite be_bytes_length. lia. }
  rewrite Hx by lia. cbn [rd result_bind]. rewrite Read_AppendInt64 by done. cbn [rd result_bind].
  rewrite Hx by lia. cbn [rd result_bind]. rewrite Read_AppendUint8 by done. cbn [rd result_bind].
  rewrite Read_AppendUint8 by done. cbn [rd result_bind]. rewrite !be_val_bytes by lia. rewrite !N2Z.id. by destruct h.
Qed.

Lemma header_unmarshalV_current h : header_fits h -> header_unmarshalV xlHeaderVersion (header_MarshalMsg h) = Ok (h, []).
Proof. intros Hh. rewrite <-(app_nil_r (header_MarshalMsg h)). by apply header_roundtrip. Qed.

Lemma header_length h : 1 <= len (header_MarshalMsg h) <= 48.
Proof.
  unfold header_MarshalMsg. cbn [length]. rewrite !length_app.
  pose proof (BytesPrefixSize (be_bytes 16 (Z.of_N (vh_VersionID h)))) as H1.
  pose proof (BytesPrefixSize (be_bytes 4 (Z.of_N (vh_Signature h)))) as H2. rewrite be_bytes_length in H1, H2.
  pose proof (Int64Size (vh_ModTime h)). pose proof (Uint8Size (vh_Type h)). pose proof (Uint8Size (vh_Flags h)). lia.
Qed.

Lemma entry_block_length v : 1 + len (sv_meta v) <= len (entry_block v).
Proof.
  unfold entry_block. rewrite length_app. pose proof (header_length (sv_header v)).
  pose proof (BytesPrefixSize (header_MarshalMsg (sv_header v))). pose proof (BytesPrefixSize (sv_meta v)). lia.
Qed.

Lemma entries_length vs : Forall (fun v => len (sv_meta v) <= len (concat (entry_block <$> vs))) vs /\
  len vs <= len (concat (entry_block <$> vs)).
Proof.
  induction vs as [|v vs [IH1 IH2]]; [split; [constructor|done]|]. rewrite fmap_cons. cbn [concat]. rewrite length_app.
  pose proof (entry_block_length v). split; [|cbn [length]; lia]. constructor; [lia|].
  eapply Forall_impl; [exact IH1|]. cbn. intros w Hw. lia.
Qed.

(** [decodeVersions] on the versions themselves. *)
Fixpoint walk {S} (fn : bytes -> bytes -> S -> option (called S)) (vs : list xlMetaV2ShallowVersion) (s : S)
    : option (S * option error) :=
  match vs with
  | [] => Some (s, None)
  | v :: vs =>
      r ← fn (header_MarshalMsg (sv_header v)) (sv_meta v) s;
      match r with Next s => walk fn vs s | DoneForNow s => Some (s, None) | Failed s e => Some (s, Some e) end
  end.

Lemma decodeVersions_walk {S} fn vs rest : forall s : S, Forall (fun v => bytes_fit (sv_meta v)) vs ->
  decodeVersions fn (length vs) (concat (entry_block <$> vs) ++ rest) s = walk fn vs s.
Proof.
  induction vs as [|v vs IH]; intros s Hf; [done|]. apply Forall_cons in Hf as [Hv Hf].
  rewrite fmap_cons. cbn [length decodeVersions concat walk]. unfold entry_block at 1. rewrite <-!app_assoc, Read_Bytes.
  2:{ unfold bytes_fit. pose proof (header_length (sv_header v)). lia. }
  cbn [rd]. rewrite Read_Bytes by done. cbn [rd default]. destruct (fn _ _ s) as [[s'|s'|s' e]|]; cbn; try done. by apply IH.
Qed.

(** A journal that can be written: the fields have their width and the block its
    32-bit length. *)
Definition xl_fits (vs : list xlMetaV2ShallowVersion) : Prop :=
  Forall (fun v => header_fits (sv_header v)) vs /\ bytes_fit (journal_block vs).

Lemma block_entries vs : xl_fits vs -> Forall (fun v => bytes_fit (sv_meta v)) vs /\ int64_range (len vs).
Proof.
  intros [_ Hb]. unfold bytes_fit, journal_block in Hb. rewrite !length_app in Hb.
  destruct (entries_length vs) as [H1 H2]. split; [|unfold int64_range; lia].
  eapply Forall_impl; [exact H1|]. cbn. intros v Hv. unfold bytes_fit. lia.
Qed.

Lemma journal_block_nonempty vs : length (journal_block vs) <> 0%nat.
Proof.
  unfold journal_block. rewrite !length_app. intros Hl.
  assert (AppendUint xlHeaderVersion = [] /\ AppendUint xlMetaVersion = []) as [E1 E2] by (split; apply nil_length_inv; lia).
  pose proof (Read_AppendUint xlHeaderVersion [] ltac:(done)) as H1. pose proof (Read_AppendUint xlMetaVersion [] ltac:(done)) as H2.
  rewrite E1 in H1. rewrite E2, H1 in H2. discriminate H2.
Qed.

Lemma decodeXLHeaders_block vs rest : xl_fits vs ->
  decodeXLHeaders (journal_block vs ++ rest) = Ok (len vs, xlHeaderVersion, xlMetaVersion, concat (entry_block <$> vs) ++ rest).
Proof.
  intros Hf. destruct (block_entries vs Hf) as [_ Hl]. unfold decodeXLHeaders, journal_block. rewrite <-!app_assoc.
  rewrite Read_AppendUint by done. cbn [rd result_bind]. rewrite Read_AppendUint by done. cbn [rd result_bind].
  change (xlHeaderVersion <? xlHeaderVersion) with false. change (xlMetaVersion <? xlMetaVersion) with false. cbn iota.
  rewrite Read_AppendInt by done. cbn [rd result_bind]. destruct (Z.ltb_spec (len vs) 0); [lia|]. done.
Qed.

Lemma loadIndexed_block vs data : xl_fits vs -> validate data = None ->
  loadIndexed (journal_block vs) data = Some (Ok (mkXL vs data 1)).
Proof.
  intros Hf Hd. unfold loadIndexed, repaired. rewrite <-(app_nil_r (journal_block vs)), decodeXLHeaders_block by done. rewrite Hd.
  cbn [mbind option_bind]. rewrite Nat2Z.id, decodeVersions_walk by (by apply block_entries). destruct Hf as [Hh _].
  match goal with |- context [walk ?fn vs []] => enough (forall acc, walk fn vs acc = Some (acc ++ vs, None)) as -> by done end.
  induction Hh as [|v vs Hv _ IH]; intros acc; [cbn; by rewrite app_nil_r|]. cbn [walk].
  rewrite header_unmarshalV_current by done.
  cbn [mbind option_bind]. rewrite IH, <-app_assoc. by destruct v.
Qed.

(** The file of a journal: what comes before the inline data. *)
Definition file_head (vs : list xlMetaV2ShallowVersion) : bytes :=
  xlHeader ++ xlVersionCurrent ++ Byte.xc6 :: put32 (wrapu32 (len (journal_block vs))) ++ journal_block vs ++
    Byte.xce :: put32 (wrapu32 (xxhash_Sum64 (journal_block vs))).

Lemma AppendTo_file dst x b : AppendTo dst x = Ok b ->
  validate (xl_data x) = None /\ b = dst ++ file_head (xl_versions x) ++ xl_data x.
Proof.
  unfold AppendTo, file_head. destruct (validate (xl_data x)); [done|]. intros [= <-]. split; [done|].
  rewrite <-!app_assoc. do 2 f_equal. cbn [app]. f_equal. rewrite <-!app_assoc. done.
Qed.

Lemma checkXL2V1_current b rest : checkXL2V1 (xlHeader ++ xlVersionCurrent ++ b :: rest) = Ok (b :: rest, xlVersionMajor, xlVersionMinor).
Proof. reflexivity. Qed.

Lemma file_parts vs data : file_head vs ++ data = (xlHeader ++ xlVersionCurrent ++ Byte.xc6 :: put32 (wrapu32 (len (journal_block vs)))) ++
  journal_block vs ++ Byte.xce :: put32 (wrapu32 (xxhash_Sum64 (journal_block vs))) ++ data.
Proof. unfold file_head. rewrite <-!app_assoc. cbn [app]. rewrite <-!app_assoc. done. Qed.

Lemma checkXL2V1_file vs data : checkXL2V1 (file_head vs ++ data) =
  Ok (Byte.xc6 :: put32 (wrapu32 (len (journal_block vs))) ++ journal_block vs ++
      Byte.xce :: put32 (wrapu32 (xxhash_Sum64 (journal_block vs))) ++ data, xlVersionMajor, xlVersionMinor).
Proof. rewrite file_parts, <-!app_assoc. apply checkXL2V1_current. Qed.

Lemma wrapu32_fits n : 0 <= wrapu32 n < 2 ^ 32.
Proof. unfold wrapu32. apply Z.mod_pos_bound. lia. Qed.

Lemma isIndexed_file vs data : xl_fits vs -> validate data = None ->
  isIndexedMetaV2 (file_head vs ++ data) = Some (Ok (Some (journal_block vs), data)).
Proof.
  intros [_ Hb] Hd. unfold isIndexedMetaV2, repaired. rewrite checkXL2V1_file. cbn [xlVersionMajor xlVersionMinor Z.eqb Pos.eqb negb orb Z.ltb Z.compare Pos.compare Pos.compare_cont].
  assert (wrapu32 (len (journal_block vs)) = len (journal_block vs)) as -> by (unfold wrapu32; apply Z.mod_small; unfold bytes_fit in Hb; lia).
  rewrite Read_bin32 by done. cbn [rd]. rewrite Read_uint32 by apply wrapu32_fits. cbn [rd default].
  rewrite Z.eqb_refl, Hd. done.
Qed.

(** [readMore] within the file. *)
Lemma readMore_file (file : bytes) (k n : nat) : (k <= length file)%nat -> (n <= length file)%nat ->
  readMore (len file <=? metaDataReadDefault) (len file) (mkStream (drop k file) EOF) (take k file) (Z.of_nat n) =
    if (n <=? k)%nat then Ok (take k file)
    else if len file <=? metaDataReadDefault then Err ErrUnexpectedEOF else Ok (take n file).
Proof.
  intros Hk Hn. unfold readMore. rewrite length_take, Nat.min_l by done.
  destruct (Nat.leb_spec n k) as [Hle|Hgt]; [by destruct (Z.leb_spec (Z.of_nat n) (Z.of_nat k)); [|lia]|].
  destruct (Z.leb_spec (Z.of_nat n) (Z.of_nat k)); [lia|]. destruct (len file <=? metaDataReadDefault); [done|].
  destruct (Z.ltb_spec (len file) (Z.of_nat n)); [lia|]. cbn [orb]. unfold ReadFull. cbn [st_data st_end].
  replace (Z.to_nat (Z.of_nat n - Z.of_nat k)) with (n - k)%nat by lia. rewrite length_drop.
  destruct (Nat.leb_spec (n - k) (length file - k)); [|lia]. f_equal.
  rewrite <-(take_drop k file) at 3. rewrite take_app_ge by (rewrite length_take; lia). rewrite length_take, Nat.min_l by done. done.
Qed.

Lemma file_head_length vs : length (file_head vs) = (length (journal_block vs) + 18)%nat.
Proof. unfold file_head. rewrite !length_app. cbn. rewrite length_app. cbn. lia. Qed.

(** A file read beyond its checksum, from the checksum on. *)
Lemma file_tail vs data k : (length (journal_block vs) + 18 <= k)%nat ->
  slice_from (take k (file_head vs ++ data)) (len (journal_block vs) + 13) =
  Byte.xce :: put32 (wrapu32 (xxhash_Sum64 (journal_block vs))) ++ take (k - (length (journal_block vs) + 18)) data.
Proof.
  intros Hk. unfold slice_from. replace (Z.to_nat (len (journal_block vs) + 13)) with (13 + length (journal_block vs))%nat by lia.
  rewrite file_parts, take_app_ge by (cbn; lia). rewrite drop_app_ge by (cbn; lia).
  replace (13 + length (journal_block vs) - length _)%nat with (length (journal_block vs)) by (cbn; lia).
  replace (k - length _)%nat with (k - 13)%nat by (cbn; lia). rewrite take_app_ge by lia.
  rewrite drop_app_length. change (Byte.xce :: ?a ++ data) with ((Byte.xce :: a) ++ data). rewrite take_app_ge by (cbn; lia). cbn [app].
  do 3 f_equal. cbn. lia.
Qed.

(** The partial read of a file is the file without its inline data. *)
Lemma readXLMetaNoData_file vs data : xl_fits vs ->
  readXLMetaNoData (mkStream (file_head vs ++ data) EOF) (len (file_head vs ++ data)) = Ok (file_head vs).
Proof.
  intros [_ Hb]. unfold bytes_fit in Hb. set (file := file_head vs ++ data).
  assert (length file = length (journal_block vs) + 18 + length data)%nat as Hlen by (unfold file; rewrite length_app, file_head_length; lia).
  unfold readXLMetaNoData, ReadFull. cbn [st_data st_end].
  set (k := Z.to_nat (Z.min (len file) metaDataReadDefault)).
  assert (18 <= k <= length file)%nat as Hk by (unfold k, metaDataReadDefault; lia).
  destruct (Nat.leb_spec k (length file)); [|lia].
  assert (wrapu32 (len (journal_block vs)) = len (journal_block vs)) as Hw by (unfold wrapu32; apply Z.mod_small; lia).
  set (rest := journal_block vs ++ Byte.xce :: put32 (wrapu32 (xxhash_Sum64 (journal_block vs))) ++ data).
  assert (file = (xlHeader ++ xlVersionCurrent ++ Byte.xc6 :: put32 (len (journal_block vs))) ++ rest) as Hfile
    by (unfold file, rest; by rewrite file_parts, Hw).
  assert (take k file = (xlHeader ++ xlVersionCurrent ++ Byte.xc6 :: put32 (len (journal_block vs))) ++ take (k - 13) rest) as Ht.
  { rewrite Hfile. rewrite take_app_ge by (cbn; lia). done. }
  assert (checkXL2V1 (take k file) = Ok (Byte.xc6 :: put32 (len (journal_block vs)) ++ take (k - 13) rest, xlVersionMajor, xlVersionMinor)) as ->.
  { rewrite Ht, <-!app_assoc. apply checkXL2V1_current. }
  cbn [xlVersionMajor xlVersionMinor Z.eqb Pos.eqb negb orb]. rewrite Read_bin32_header by lia. cbn [rd].
  change (xlVersionMinor <? 2) with false. cbn iota.
  assert (len (journal_block vs) + (len (take k file) - len (take (k - 13) rest)) = len (journal_block vs) + 13) as ->.
  { rewrite Ht, length_app. cbn [length app xlHeader xlVersionCurrent PutUint16 put32 fmap list_fmap]. lia. }
  replace (Z.min (len (journal_block vs) + 13 + Uint32Size) (len file)) with (Z.of_nat (length (journal_block vs) + 18)) by (unfold Uint32Size; lia).
  rewrite readMore_file by lia.
  match goal with |- result_bind ?r _ = _ => assert (exists k', r = Ok (take k' file) /\ (length (journal_block vs) + 18 <= k' <= length file)%nat) as (k' & -> & Hk') end.
  { destruct (Nat.leb_spec (length (journal_block vs) + 18) k); [by exists k|].
    destruct (Z.leb_spec (len file) metaDataReadDefault); [unfold k in *; lia|]. eexists. split; [done|]. lia. }
  cbn [result_bind]. rewrite length_take, Nat.min_l by lia.
  destruct (Z.ltb_spec (Z.of_nat k') (len (journal_block vs) + 13)); [lia|].
  unfold file. rewrite file_tail by lia.
  rewrite Read_uint32 by apply wrapu32_fits. cbn [rd]. f_equal. unfold slice_to.
  replace (Z.to_nat _) with (length (file_head vs)) by (rewrite file_head_length; cbn [length]; rewrite length_app; cbn; lia).
  rewrite take_take, Nat.min_l by (rewrite file_head_length; lia). apply take_app_length.
Qed.
End RoundTrip.

Section Readers.
Context {L : XLLib} {M : Msgp} {ML : MsgpLaws M} {MN : MsgpNum} {MNL : MsgpNumLaws M MN} `{OldFormats} `{HttpTime} `{SliceSort} `{MapOrder}.

Lemma Load_file now vs data : xl_fits vs -> validate data = None ->
  Load now (file_head vs ++ data) = Some (Ok (mkXL vs data 1)).
Proof.
  intros Hf Hd. unfold Load. rewrite isIndexed_file by done. cbn [mbind option_bind]. by apply loadIndexed_block.
Qed.

(** The found version of a scan, as the loop over the journal keeps it. *)
Definition sc_result (s : scan) : option FileInfo := if sc_found s then Some (sc_fi s) else None.

(** The scan of the block finds what the loop over the journal finds. *)
Lemma scan_lookup volume path versionID uv vs fn : Forall (fun v => header_fits (sv_header v)) vs ->
  fn = scan_version xlHeaderVersion xlMetaVersion volume path versionID uv -> forall s,
  match lookup_loop xlMetaVersion volume path versionID uv vs (sc_succ s) (sc_latest s) (sc_nonFree s) (sc_result s) with
  | None => walk fn vs s = None
  | Some (Err e) => exists s', walk fn vs s = Some (s', Some e) /\ sc_found s' = true
  | Some (Ok (found, nonFree)) => exists s', walk fn vs s = Some (s', None) /\ sc_result s' = found /\ sc_nonFree s' = nonFree
  end.
Proof.
  intros Hall Hfn. induction Hall as [|v vs Hv _ IH]; intros s; [by exists s|]. cbn [lookup_loop walk].
  eassert (fn (header_MarshalMsg (sv_header v)) (sv_meta v) s = _) as ->.
  { rewrite Hfn. unfold scan_version. rewrite (header_unmarshalV_current _ Hv). reflexivity. }
  destruct s as [succ latest nf found fi0]. unfold sc_result in IH |- *. cbn [sc_succ sc_latest sc_nonFree sc_found sc_fi].
  set (free := header_FreeVersion (sv_header v)). destruct (free && negb (vh_VersionID (sv_header v) =? uv)%N) eqn:Efree.
  - apply andb_true_iff in Efree as [-> _]. cbn [mbind option_bind]. apply (IH (mkScan succ latest (nf - 1) found fi0)).
  - destruct free, found; cbn [mbind option_bind sc_found sc_succ sc_latest sc_nonFree sc_fi];
      try (destruct (negb (bool_decide (versionID = "")) && negb (uv =? vh_VersionID (sv_header v))%N);
           [cbn [mbind option_bind]|destruct (unmarshalV xlMetaVersion (sv_meta v)) as [ver|e]; cbn [mbind option_bind];
             [destruct (version_ToFileInfo volume path ver) as [[fi|e]|]; cbn [mbind option_bind]|]]);
      first [done|by eexists|match goal with |- context [walk _ vs ?s'] => apply (IH s') end].
Qed.

Lemma buf_ToFileInfo_block vs data volume path versionID : xl_fits vs ->
  buf_ToFileInfo (journal_block vs) volume path versionID = xl_ToFileInfo (mkXL vs data 1) volume path versionID.
Proof.
  intros Hf. unfold buf_ToFileInfo, xl_ToFileInfo. destruct (parse_version versionID) as [uv|]; [|done].
  rewrite <-(app_nil_r (journal_block vs)), decodeXLHeaders_block by done. rewrite Nat2Z.id, decodeVersions_walk by (by apply block_entries).
  pose proof (scan_lookup volume path versionID uv vs _ (proj1 Hf) eq_refl (mkScan 0 true (len vs) false zero_FileInfo)) as Hs.
  cbn [sc_succ sc_latest sc_nonFree sc_result sc_found xl_metaV xl_versions] in Hs |- *. unfold xlMetaVersion in Hs.
  destruct (lookup_loop 1 volume path versionID uv vs 0 true (len vs) None) as [[[found nf]|e]|].
  - destruct Hs as (s & Hw & Hr & Hn). unfold xlMetaVersion. rewrite Hw. cbn [mbind option_bind]. unfold sc_result in Hr.
    rewrite <-Hr, <-Hn. by destruct (sc_found s).
  - destruct Hs as (s & Hw & Hfound). unfold xlMetaVersion. rewrite Hw. cbn [mbind option_bind]. by rewrite Hfound.
  - unfold xlMetaVersion. by rewrite Hs.
Qed.

(** The time of a version is that of its description, which has no position yet. *)
Lemma ToFileInfo_fields volume path ver fi : version_ToFileInfo volume path ver = Some (Ok fi) ->
  getModTime ver = Some (fi_ModTime fi) /\ fi_IsLatest fi = false /\ fi_SuccessorModTime fi = 0.
Proof.
  unfold version_ToFileInfo, getModTime. destruct (ve_Type ver =? ObjectType).
  { destruct (ve_ObjectV2 ver) as [o|]; [|done]. cbn. unfold object_ToFileInfo. destruct (object_parts _ _ _); [|done]. cbn.
    destruct (object_checksums o) as [[?|?]|]; cbn; [|done..]. by intros [= <-]. }
  destruct (ve_Type ver =? DeleteType).
  { destruct (ve_DeleteMarker ver) as [o|]; [|done]. cbn. by intros [= <-]. }
  destruct (ve_Type ver =? LegacyType); [|done].
  destruct (ve_ObjectV1 ver) as [o|]; [|done]. cbn. unfold legacy_ToFileInfo. destruct (v1_valid o); [|done]. cbn. by intros [= <-].
Qed.

Definition all_valid (vs : list xlMetaV2ShallowVersion) : Prop :=
  Forall (fun v => forall ver, unmarshalV xlMetaVersion (sv_meta v) = Ok ver -> Version_Valid ver = true) vs.

Lemma convert_all_length metaV volume path vs fis : convert_all metaV volume path vs = Some (Ok fis) -> length fis = length vs.
Proof.
  revert fis. induction vs as [|v vs IH]; intros fis; [by intros [= <-]|]. cbn [convert_all].
  destruct (unmarshalV metaV (sv_meta v)) as [ver|]; [|done]. destruct (version_ToFileInfo volume path ver) as [[fi|]|]; [|done..].
  cbn [mbind option_bind]. destruct (convert_all metaV volume path vs) as [[fis'|]|]; [|done..]. cbn. intros [= <-]. cbn. by rewrite (IH fis').
Qed.

Lemma walk_convert volume path vers vs fn : all_valid vs ->
  fn = (fun _ meta => list_version xlMetaVersion volume path vers meta) -> forall acc mt, (acc = [] -> mt = 0) ->
  match convert_all xlMetaVersion volume path vs with
  | None => walk fn vs (acc, mt) = None
  | Some (Err e) => exists s, walk fn vs (acc, mt) = Some (s, Some e)
  | Some (Ok fis) => exists mt', walk fn vs (acc, mt) =
      Some (acc ++ set_positions vers (match acc with [] => None | _ => Some mt end) fis, mt', None)
  end.
Proof.
  intros Hall Hfn. induction Hall as [|v vs Hv _ IH]; intros acc mt Hmt; [exists mt; cbn; by rewrite app_nil_r|].
  cbn [convert_all walk]. eassert (fn (header_MarshalMsg (sv_header v)) (sv_meta v) (acc, mt) = _) as ->.
  { rewrite Hfn. unfold list_version. reflexivity. }
  destruct (unmarshalV xlMetaVersion (sv_meta v)) as [ver|e]; [|by eexists].
  rewrite (Hv ver eq_refl). cbn [negb]. destruct (version_ToFileInfo volume path ver) as [[fi|e]|] eqn:Ef; [|by eexists|done].
  destruct (ToFileInfo_fields _ _ _ _ Ef) as (Hg & Hl & Hs). cbn [mbind option_bind fst snd]. rewrite Hg. cbn [mbind option_bind].
  specialize (IH (acc ++ [fi_with_position fi (bool_decide (acc = [])) mt vers]) (fi_ModTime fi) ltac:(by destruct acc)).
  destruct (convert_all xlMetaVersion volume path vs) as [[fis|e]|]; [|done..]. cbn [mbind option_bind].
  destruct IH as [mt' IH]. exists mt'. refine (eq_trans IH _). rewrite <-app_assoc. cbn [app set_positions]. destruct acc as [|a acc].
  - rewrite (Hmt eq_refl), <-Hs. done.
  - cbn [default]. rewrite Hl. done.
Qed.

Lemma IsLatestDeleteMarker_block vs : xl_fits vs ->
  IsLatestDeleteMarker (journal_block vs) = Some match vs with [] => true | v :: _ => vh_Type (sv_header v) =? DeleteType end.
Proof.
  intros Hf. unfold IsLatestDeleteMarker. rewrite <-(app_nil_r (journal_block vs)), decodeXLHeaders_block by done.
  destruct (Z.eqb_spec (len vs) 0) as [He|Hn]; [by destruct vs|].
  rewrite Nat2Z.id, decodeVersions_walk by (by apply block_entries). destruct vs as [|v vs]; [done|]. cbn [walk].
  destruct Hf as [Hh _]. apply Forall_cons in Hh as [Hv _]. rewrite header_unmarshalV_current by done. done.
Qed.

Lemma buf_ListVersions_block vs data volume path : xl_fits vs -> all_valid vs ->
  buf_ListVersions (journal_block vs) volume path = ListVersions (mkXL vs data 1) volume path.
Proof.
  intros Hf Hv. unfold buf_ListVersions, ListVersions. rewrite <-(app_nil_r (journal_block vs)), decodeXLHeaders_block by done.
  rewrite Nat2Z.id, decodeVersions_walk by (by apply block_entries).
  pose proof (walk_convert volume path (len vs) vs _ Hv eq_refl [] 0 ltac:(done)) as Hw. unfold xlMetaVersion in *. cbn [xl_metaV xl_versions].
  destruct (convert_all 1 volume path vs) as [[fis|e]|] eqn:Ec.
  - destruct Hw as [mt ->]. cbn. by rewrite (convert_all_length _ _ _ _ _ Ec).
  - by destruct Hw as [s ->].
  - by rewrite Hw.
Qed.
End Readers.

(** ** Claims *)

Section Claims.
Context {L : XLLib} {M : Msgp} {ML : MsgpLaws M} {MN : MsgpNum} {MNL : MsgpNumLaws M MN} `{OldFormats} `{HttpTime} `{SliceSort} `{MapOrder}.

Lemma getFileInfo_file now vs data volume path versionID (withData : bool) : xl_fits vs -> validate data = None ->
  getFileInfo now (file_head vs ++ data) volume path versionID withData =
    match xl_ToFileInfo (mkXL vs data 1) volume path versionID with
    | None => None
    | Some (Ok fi) => Some (Ok (if withData then fi_with_Data fi (inline_of data fi) else fi))
    | Some (Err e) => Some (if error_Is e errFileNotFound then Ok (no_versions volume path versionID) else Err e)
    end.
Proof.
  intros Hf Hd. unfold getFileInfo. rewrite isIndexed_file by done. cbn [mbind option_bind].
  rewrite (buf_ToFileInfo_block vs data) by done.
  destruct (xl_ToFileInfo (mkXL vs data 1) volume path versionID) as [[fi|e]|]; cbn [mbind option_bind negb]; [by destruct withData| |done].
  assert ((length (journal_block vs) =? 0)%nat = false) as ->; [|done].
  apply Nat.eqb_neq, journal_block_nonempty.
Qed.

(** C10: the metadata file round trip.  A journal whose fields have their Go width
    and whose block has a 32-bit length, once written by [AppendTo], is loaded as
    it was: the versions in their order with their headers and encodings, and the
    inline data byte for byte, under the current metadata version.  The partial
    reader, which fetches 4 KiB and then only what is missing, returns exactly the
    file without its inline data, whatever the sizes, and that prefix still loads
    to the same versions. *)
Theorem xl_meta_roundtrip now x b : AppendTo [] x = Ok b -> xl_fits (xl_versions x) ->
  Load now b = Some (Ok (mkXL (xl_versions x) (xl_data x) xlMetaVersion)) /\
  LoadOrConvert now b = Load now b /\
  exists head, b = head ++ xl_data x /\ readXLMetaNoData (mkStream b EOF) (len b) = Ok head /\
    Load now head = Some (Ok (mkXL (xl_versions x) [] xlMetaVersion)).
Proof.
  intros (Hd & ->)%AppendTo_file Hf. cbn [app]. split_and!.
  - by apply Load_file.
  - unfold LoadOrConvert, isXL2V1Format. by rewrite checkXL2V1_file.
  - exists (file_head (xl_versions x)). split_and!; [done|by apply readXLMetaNoData_file|].
    rewrite <-(app_nil_r (file_head _)). by apply Load_file.
Qed.

(** C16: reading a version without loading the journal.  On the file of a journal,
    the readers of [xlMetaBuf], which decode the block entry by entry and stop
    early, agree with the operations on the loaded journal: [ToFileInfo] for every
    version asked for, free versions, errors and panics included; [ListVersions]
    when the stored versions are valid; and [IsLatestDeleteMarker] is the type of
    the first entry.  [getFileInfo] of the file is the version of the journal with
    its inline data, and a file none of whose versions is visible is a deleted
    object. *)
Theorem xlMetaBuf_equivalent now x b volume path versionID : AppendTo [] x = Ok b -> xl_fits (xl_versions x) -> xl_metaV x = xlMetaVersion ->
  exists meta, isIndexedMetaV2 b = Some (Ok (Some meta, xl_data x)) /\
    buf_ToFileInfo meta volume path versionID = xl_ToFileInfo x volume path versionID /\
    (all_valid (xl_versions x) -> buf_ListVersions meta volume path = ListVersions x volume path) /\
    IsLatestDeleteMarker meta = Some match xl_versions x with [] => true | v :: _ => vh_Type (sv_header v) =? DeleteType end /\
    getFileInfo now b volume path versionID true =
      match xl_ToFileInfo x volume path versionID with
      | None => None
      | Some (Ok fi) => Some (Ok (fi_with_Data fi (inline_of (xl_data x) fi)))
      | Some (Err e) => Some (if error_Is e errFileNotFound then Ok (no_versions volume path versionID) else Err e)
      end.
Proof.
  intros (Hd & ->)%AppendTo_file Hf Hm. cbn [app]. exists (journal_block (xl_versions x)).
  assert (x = mkXL (xl_versions x) (xl_data x) 1) as Hx by (destruct x; cbn in *; by rewrite Hm).
  assert (isIndexedMetaV2 (file_head (xl_versions x) ++ xl_data x) = Some (Ok (Some (journal_block (xl_versions x)), xl_data x))) as Hi
    by (by apply isIndexed_file).
  assert (buf_ToFileInfo (journal_block (xl_versions x)) volume path versionID = xl_ToFileInfo x volume path versionID) as Ht.
  { rewrite Hx at 2. by apply buf_ToFileInfo_block. }
  split_and!; [done|done| |by apply IsLatestDeleteMarker_block|].
  - intros Hv. rewrite Hx at 2. by apply buf_ListVersions_block.
  - rewrite getFileInfo_file by done. by rewrite <-Hx.
Qed.

(** Only the first entry of a listing is the latest. *)
Lemma set_positions_tail num prev fis : Forall (fun f => fi_IsLatest f = false) fis ->
  Forall (fun f => fi_IsLatest f = false) (set_positions num (Some prev) fis).
Proof.
  intros Hf. revert prev. induction Hf as [|f fis Hl _ IH]; intros prev; [constructor|]. cbn [set_positions]. constructor; [by destruct f|apply IH].
Qed.

Lemma convert_all_latest metaV volume path vs fis : convert_all metaV volume path vs = Some (Ok fis) ->
  Forall (fun f => fi_IsLatest f = false) fis.
Proof.
  revert fis. induction vs as [|v vs IH]; intros fis; [by intros [= <-]|]. cbn [convert_all].
  destruct (unmarshalV metaV (sv_meta v)) as [ver|]; [|done]. destruct (version_ToFileInfo volume path ver) as [[fi|]|] eqn:Ef; [|done..].
  cbn [mbind option_bind]. destruct (convert_all metaV volume path vs) as [[fis'|]|]; [|done..]. cbn. intros [= <-].
  constructor; [by destruct (ToFileInfo_fields _ _ _ _ Ef) as (_ & ? & _)|by apply IH].
Qed.

Lemma ListVersions_tail x volume path f fis : ListVersions x volume path = Some (Ok (f :: fis)) ->
  Forall (fun g => fi_IsLatest g = false) fis /\ forall g, head fis = Some g -> fi_SuccessorModTime g = fi_ModTime f.
Proof.
  unfold ListVersions. destruct (convert_all (xl_metaV x) volume path (xl_versions x)) as [[fs|]|] eqn:Ec; [|done..].
  apply convert_all_latest in Ec. cbn [mbind option_bind]. destruct fs as [|f0 fs]; [done|]. apply Forall_cons in Ec as [_ Hl].
  cbn [set_positions]. intros [= <- <-]. split; [by apply set_positions_tail|]. destruct fs as [|f1 fs]; [done|].
  cbn [set_positions head]. intros g [= <-]. cbn [default]. by destruct f0, f1.
Qed.

Lemma getFileInfoVersions_file now vs data volume path : xl_fits vs -> all_valid vs -> validate data = None ->
  forall f fis, ListVersions (mkXL vs data 1) volume path = Some (Ok (f :: fis)) ->
  let vis := List.filter (fun fi => negb (TierFreeVersion fi)) (f :: fis) in
  getFileInfoVersions now (file_head vs ++ data) volume path =
    Some (Ok (mkVersions volume path (fi_ModTime f)
      ((fun fi => fi_with_position fi (fi_IsLatest fi) (fi_SuccessorModTime fi) (len vis)) <$> vis)
      (List.filter TierFreeVersion (f :: fis)))).
Proof.
  intros Hf Hv Hd f fis Hl vis. unfold getFileInfoVersions, getAllFileInfoVersions. rewrite isIndexed_file by done. cbn [mbind option_bind].
  rewrite (buf_ListVersions_block vs data) by done. rewrite Hl. cbn [mbind option_bind].
  rewrite bool_decide_eq_false_2 by done. cbn [lookup list_lookup mbind option_bind]. done.
Qed.

(** A free version on top hides the latest version.  A free version keeps the
    modification time of the tiered version it stands for, so deleting the latest
    version of an object leaves it first in the journal.  [ToFileInfo] passes over
    it and reports the next version as the latest; the listing that the scanner
    acts on marks the first entry of the journal as the latest and then drops it,
    so that no version it returns is the latest, and the current version carries
    the free version's time as its successor, which makes it a noncurrent version
    for the lifecycle rules. *)
Theorem free_version_hides_latest now x b volume path w v vs ver f0 f fis :
  AppendTo [] x = Ok b -> xl_fits (xl_versions x) -> all_valid (xl_versions x) -> xl_metaV x = xlMetaVersion ->
  xl_versions x = w :: v :: vs -> is_free w = true -> version_id w <> 0%N -> is_free v = false ->
  unmarshalV xlMetaVersion (sv_meta v) = Ok ver -> version_ToFileInfo volume path ver = Some (Ok f) ->
  ListVersions x volume path = Some (Ok (f0 :: fis)) -> TierFreeVersion f0 = true ->
  exists cur fivs, xl_ToFileInfo x volume path "" = Some (Ok cur) /\ fi_IsLatest cur = true /\ fi_VersionID cur = fi_VersionID f /\
    getFileInfoVersions now b volume path = Some (Ok fivs) /\
    Forall (fun g => fi_IsLatest g = false) (fv_Versions fivs) /\
    forall g, head fis = Some g -> fi_SuccessorModTime g = fi_ModTime f0.
Proof.
  intros (Hd & ->)%AppendTo_file Hf Hv Hm Hvs Hw Hid Hnf Hu Hver Hl Hfree.
  assert (x = mkXL (xl_versions x) (xl_data x) 1) as Hx by (destruct x; cbn in *; by rewrite Hm).
  pose proof Hl as Hl'. rewrite Hx in Hl'. pose proof (getFileInfoVersions_file now _ _ volume path Hf Hv Hd f0 fis Hl') as Hg.
  destruct (ListVersions_tail _ _ _ _ _ Hl) as [Hlast Hsucc]. eexists _, _. split_and!; [| | |exact Hg| |exact Hsucc].
  - unfold xl_ToFileInfo. change (parse_version "") with (@Ok N 0%N). rewrite Hm, Hvs. cbn [lookup_loop].
    unfold is_free in Hw, Hnf. unfold version_id in Hid. rewrite Hw, Hnf. destruct (N.eqb_spec (vh_VersionID (sv_header w)) 0); [done|].
    cbn [negb andb]. rewrite bool_decide_eq_true_2 by done. cbn [negb andb]. rewrite Hu, Hver. cbn [mbind option_bind].
    rewrite lookup_found. cbn [mbind option_bind]. reflexivity.
  - by destruct f.
  - by destruct f.
  - cbn [fv_Versions List.filter]. rewrite Hfree. cbn [negb]. rewrite Forall_fmap, Forall_forall in *. intros g Hg'.
    apply list_elem_of_In, List.filter_In in Hg' as [Hg' _]. apply list_elem_of_In in Hg'.
    specialize (Hlast g Hg'). cbn. by destruct g.
Qed.
End Claims.

(** ** Instances

    The fixed-size forms of MessagePack. *)

Definition read_uint8 (b : bytes) : Z * bytes * option error :=
  match b with t :: n :: b => if bool_decide (t = Byte.xcc) then (byte_val n, b, None) else (0, [], Some ErrShortBytes)
             | _ => (0, [], Some ErrShortBytes) end.
Definition read_int64 (b : bytes) : Z * bytes * option error :=
  match b with
  | t :: b => if bool_decide (t = Byte.xd3) && (8 <=? length b)%nat then (wrap64 (be_val (take 8 b)), drop 8 b, None)
              else (0, [], Some ErrShortBytes)
  | [] => (0, [], Some ErrShortBytes)
  end.
Definition append_int64 (n : Z) : bytes := Byte.xd3 :: be_bytes 8 (n mod 2 ^ 64).
Definition read_num32 (t : byte) (b : bytes) : Z * bytes * option error :=
  match read_sized t b with Some (n, b) => (n, b, None) | None => (0, [], Some ErrShortBytes) end.

#[export] Instance msgpnum32 : MsgpNum := {|
  ReadUint8Bytes := read_uint8;
  ReadIntBytes := read_int64;
  ReadInt64Bytes := read_int64;
  ReadUint32Bytes := read_num32 Byte.xce;
  ReadArrayHeaderBytes b := match b with t :: b => if bool_decide (t = Byte.x95) then (5, b, None)
                                                   else if bool_decide (t = Byte.x94) then (4, b, None)
                                                   else (0, [], Some ErrShortBytes)
                                       | [] => (0, [], Some ErrShortBytes) end;
  ReadBytesHeader := read_num32 Byte.xc6;
  ReadExactBytes b n := match read_chunk Byte.xc6 b with
                        | Some (v, b) => if (length v =? n)%nat then (v, b, None) else ([], [], Some ArrayError)
                        | None => ([], [], Some ErrShortBytes) end;
  AppendUint n := [Byte.xcc; byte_of n];
  AppendUint8 n := [Byte.xcc; byte_of n];
  AppendInt := append_int64;
  AppendInt64 := append_int64;
  WrapError e s := ErrWrap 0 s e
|}.

Lemma read_append_int64 n rest : int64_range n -> read_int64 (append_int64 n ++ rest) = (n, rest, None).
Proof.
  intros Hn. unfold append_int64, read_int64. cbn [app]. rewrite bool_decide_eq_true_2 by done.
  rewrite length_app, be_bytes_length. cbn [andb Nat.leb Nat.add].
  rewrite <-(be_bytes_length 8 (n mod 2 ^ 64)) at 1 3. rewrite take_app_length, drop_app_length.
  rewrite be_val_bytes by (apply Z.mod_pos_bound; lia). do 2 f_equal. unfold int64_range in Hn. unfold wrap64.
  Z.div_mod_to_equations. lia.
Qed.

#[export] Instance msgpnum32_laws : MsgpNumLaws msgp32 msgpnum32.
Proof.
  split; cbn [ReadUint8Bytes ReadIntBytes ReadInt64Bytes ReadUint32Bytes ReadArrayHeaderBytes ReadBytesHeader ReadExactBytes
    AppendUint AppendUint8 AppendInt AppendInt64 msgpnum32 ReadBytesZC AppendBytes msgp32].
  1,2: intros n rest Hn; cbn [app read_uint8]; rewrite bool_decide_eq_true_2, byte_val_of, Z.mod_small by done; done.
  1,2: apply read_append_int64.
  - intros b rest Hb. rewrite read_chunk_ok by done. by rewrite Nat.eqb_refl.
  - done.
  - intros b rest Hb. rewrite app_assoc. change (Byte.xc6 :: (?a ++ b) ++ rest) with ((Byte.xc6 :: a ++ b) ++ rest).
    by rewrite read_chunk_ok.
  - intros n rest Hn. unfold read_num32, read_sized. rewrite bool_decide_eq_true_2 by done. by rewrite get_put32.
  - intros n rest Hn. unfold read_num32, read_sized. rewrite bool_decide_eq_true_2 by done. by rewrite get_put32.
  - intros b. cbn [length]. rewrite length_app. cbn [put32 fmap list_fmap length]. lia.
  - intros n. cbn [append_int64 length]. rewrite be_bytes_length. lia.
  - done.
Qed.

(** A journal of two objects, and one whose latest entry is a free version. *)
Definition sample_free : xlMetaV2Version :=
  mkVersion DeleteType None None (Some (mkDel 3 200 {[freeVersionKey := ""]})) 7.

#[local] Existing Instance sample_http.
#[local] Instance format_lib : XLLib := {|
  uuid_Parse := @uuid_Parse sample_lib;
  uuid_String := @uuid_String sample_lib;
  MarshalMsg := @MarshalMsg sample_lib;
  UnmarshalMsg b := match b with [Byte.x03] => Ok sample_free | _ => @UnmarshalMsg sample_lib b end;
  object_MarshalMsg o := Ok [];
  marker_MarshalMsg d := Ok [];
  legacy_MarshalMsg m := Ok [];
  xxhash_Sum64 b := Z.of_nat (length b);
  xxh3_HashString s := Z.of_nat (String.length s);
  globalVersionUnix := 7
|}.
#[local] Instance no_old_formats : OldFormats := {|
  UnmarshalMsg_rest _ := Err (ErrNew "unmarshal");
  msgp_Skip _ := Err (ErrNew "skip");
  json_Unmarshal _ := Err (ErrNew "json")
|}.

Definition sample_file : xlMetaV2 :=
  mkXL [sample_shallow sample_ver2 Byte.x02; sample_shallow sample_ver1 Byte.x01] (encode sample_entries) 1.
Definition sample_freed : xlMetaV2 :=
  mkXL [sample_shallow sample_free Byte.x03; sample_shallow sample_ver1 Byte.x01] [] 1.

Definition written (x : xlMetaV2) : bytes := match AppendTo [] x with Ok b => b | Err _ => [] end.

Lemma sample_fits : xl_fits (xl_versions sample_file) /\ xl_fits (xl_versions sample_freed).
Proof.
  assert (forall b, header_fits b <-> (N.ltb (vh_VersionID b) (2 ^ 128) && (- 2 ^ 63 <=? vh_ModTime b) && (vh_ModTime b <? 2 ^ 63) &&
    N.ltb (vh_Signature b) (2 ^ 32) && (0 <=? vh_Type b) && (vh_Type b <? 2 ^ 8) && (0 <=? vh_Flags b) && (vh_Flags b <? 2 ^ 8)) = true) as Hb.
  { intros b. unfold header_fits, int64_range. rewrite !andb_true_iff, !N.ltb_lt, !Z.leb_le, !Z.ltb_lt. tauto. }
  unfold xl_fits. rewrite !Forall_forall. split; (split; [|vm_compute; reflexivity]); cbn [xl_versions sample_file sample_freed];
    intros v [->|[->|[]%elem_of_nil]%elem_of_cons]%elem_of_cons; apply Hb; vm_compute; reflexivity.
Qed.

Lemma xl_meta_roundtrip_witness :
  Load 0 (written sample_file) = Some (Ok sample_file) /\
  exists head, readXLMetaNoData (mkStream (written sample_file) EOF) (len (written sample_file)) = Ok head /\
    Load 0 head = Some (Ok (mkXL (xl_versions sample_file) [] 1)).
Proof.
  destruct (xl_meta_roundtrip 0 sample_file (written sample_file)) as (H1 & _ & head & _ & H2 & H3).
  - vm_compute. reflexivity.
  - exact (proj1 sample_fits).
  - split; [exact H1|]. exists head. split; [exact H2|exact H3].
Defined.

Lemma xlMetaBuf_equivalent_witness : exists meta, isIndexedMetaV2 (written sample_file) = Some (Ok (Some meta, xl_data sample_file)) /\
  buf_ToFileInfo meta "bucket" "object" "u" = xl_ToFileInfo sample_file "bucket" "object" "u" /\
  IsLatestDeleteMarker meta = Some false.
Proof.
  destruct (xlMetaBuf_equivalent 0 sample_file (written sample_file) "bucket" "object" "u") as (meta & H1 & H2 & _ & H3 & _).
  - vm_compute. reflexivity.
  - exact (proj1 sample_fits).
  - reflexivity.
  - exists meta. split; [exact H1|]. split; [exact H2|]. rewrite H3. vm_compute. reflexivity.
Defined.

Definition listed (x : xlMetaV2) : list FileInfo :=
  match ListVersions x "bucket" "object" with Some (Ok fis) => fis | _ => [] end.

Lemma free_version_hides_latest_witness : exists cur fivs,
  xl_ToFileInfo sample_freed "bucket" "object" "" = Some (Ok cur) /\ fi_IsLatest cur = true /\
  getFileInfoVersions 0 (written sample_freed) "bucket" "object" = Some (Ok fivs) /\
  Forall (fun g => fi_IsLatest g = false) (fv_Versions fivs).
Proof.
  destruct (free_version_hides_latest 0 sample_freed (written sample_freed) "bucket" "object"
    (sample_shallow sample_free Byte.x03) (sample_shallow sample_ver1 Byte.x01) [] sample_ver1
    (nth 0 (listed sample_freed) zero_FileInfo)
    (match version_ToFileInfo "bucket" "object" sample_ver1 with Some (Ok f) => f | _ => zero_FileInfo end)
    (tail (listed sample_freed))) as (cur & fivs & H1 & H2 & _ & H3 & H4 & _).
  - vm_compute. reflexivity.
  - exact (proj2 sample_fits).
  - unfold all_valid. rewrite Forall_forall. intros v [->|[->|[]%elem_of_nil]%elem_of_cons]%elem_of_cons ver.
    + intros Hu. assert (unmarshalV xlMetaVersion [Byte.x03] = Ok sample_free) as E by (vm_compute; reflexivity).
      change (sv_meta _) with [Byte.x03] in Hu. rewrite E in Hu. injection Hu as <-. vm_compute. reflexivity.
    + intros Hu. assert (unmarshalV xlMetaVersion [Byte.x01] = Ok sample_ver1) as E by (vm_compute; reflexivity).
      change (sv_meta _) with [Byte.x01] in Hu. rewrite E in Hu. injection Hu as <-. vm_compute. reflexivity.
  - reflexivity.
  - reflexivity.
  - vm_compute. reflexivity.
  - vm_compute. discriminate.
  - vm_compute. reflexivity.
  - vm_compute. reflexivity.
  - vm_compute. reflexivity.
  - vm_compute. reflexivity.
  - vm_compute. reflexivity.
  - exists cur, fivs. split; [exact H1|]. split; [exact H2|]. split; [exact H3|exact H4].
Defined.
