(* ===== verification/Healing.v ===== *)
(** * Which disks to heal, and when to give an object up
    ([cmd/erasure-healing-common.go], [cmd/erasure-healing.go])

    Healing reads the metadata of an object on every disk, finds the disks that
    have the latest version with all its parts, rewrites the others from them, and
    deletes an object as dangling when too many disks have lost it.  This file
    models these decisions.  A disk is of a type [D] with its two verification
    calls; [None] stands for an offline disk, for a [nil] error and, as the result
    of a function, for a panic. *)

From S2P Require Import Prelude Erasure FileInfo Quorum Bitrot Restore.

Definition errVolumeNotFound : error := StorageErr "volume not found".

(** The text of an error. *)
Fixpoint error_text (e : error) : string :=
  match e with
  | StorageErr s | ErrNew s | Errorf _ s => s
  | ErrWrap _ s e => s +:+ error_text e
  end.

Inductive HealScanMode := HealUnknownScan | HealNormalScan | HealDeepScan.

Section Disks.
Context {D : Type} `{HashLib} `{HttpTime} `{MapOrder}.
Context (VerifyFile CheckParts : D -> string -> string -> FileInfo -> option error).
(** The clock, [shardDiskTimeDelta], and the object. *)
Context (now : time) (shardDiskTimeDelta : Z) (bucket object : string).

(** Whether the metadata of disk [i] contradicts its erasure distribution. *)
Definition meta_inconsistent (n i : nat) (meta : FileInfo) : option bool :=
  if negb (FileInfo_IsValid meta) then Some false
  else if fi_Deleted meta then Some false
  else if negb (len (ei_Distribution (fi_Erasure meta)) =? Z.of_nat n) then Some true
  else index ← ei_Distribution (fi_Erasure meta) !! i; Some (negb (index =? ei_Index (fi_Erasure meta))).

Fixpoint count_inconsistent (n i : nat) (metas : list FileInfo) : option Z :=
  match metas with
  | [] => Some 0
  | meta :: metas =>
      b ← meta_inconsistent n i meta;
      c ← count_inconsistent n (S i) metas;
      Some (if b : bool then c + 1 else c)
  end.

(** What the main loop finds for a disk: the disk when it is available, its data
    error, its metadata (cleared when it is not to be trusted), and whether it was
    skipped because of its time. *)
Record disk_check := mkDiskCheck {
  dc_avail : option D;
  dc_err : option error;
  dc_meta : FileInfo;
  dc_fix : bool
}.

Definition unavailable (e : error) (meta : FileInfo) : disk_check := mkDiskCheck None (Some e) meta false.
Definition corrupt : disk_check := unavailable errFileCorrupt zero_FileInfo.

(** The end of the loop body: a disk without a data error is available. *)
Definition checked (disk : D) (err : option error) (meta : FileInfo) : disk_check :=
  match err with
  | None => mkDiskCheck (Some disk) None meta false
  | Some e => unavailable e zero_FileInfo
  end.

(** The files of the parts are checked on the disk, except for delete markers and
    objects in a remote tier. *)
Definition check_parts (scanMode : HealScanMode) (disk : D) (meta : FileInfo) : option error :=
  if fi_Deleted meta || IsRemote now meta then None
  else match scanMode with
       | HealDeepScan => VerifyFile disk bucket object meta
       | HealNormalScan => CheckParts disk bucket object meta
       | HealUnknownScan => None
       end.

(** Inline data is verified in place. *)
Definition check_inline (meta : FileInfo) (part : ObjectPartInfo) : option (option error) :=
  let checksumInfo := GetChecksumInfo (fi_Erasure meta) (pt_Number part) in
  size ← ErasureInfo_ShardFileSize (fi_Erasure meta) (fi_Size meta);
  bitrotVerify (mkStream (fi_Data meta) EOF) (len (fi_Data meta)) size (ck_Algorithm checksumInfo)
    (ck_Hash checksumInfo) (ErasureInfo_ShardSize (fi_Erasure meta)).

Definition check_data (scanMode : HealScanMode) (disk : D) (meta : FileInfo) : option disk_check :=
  match fi_Parts meta with
  | part :: _ =>
      if (0 <? length (fi_Data meta))%nat || (fi_Size meta =? 0)
      then err ← check_inline meta part; Some (checked disk err meta)
      else Some (checked disk (check_parts scanMode disk meta) meta)
  | [] => Some (checked disk (check_parts scanMode disk meta) meta)
  end.

(** The metadata is wrong for its place in a distribution that can be trusted. *)
Definition misplaced (n i : nat) (meta : FileInfo) : option bool :=
  if negb (FileInfo_IsValid meta) then Some true
  else if fi_Deleted meta then Some false
  else if negb (len (ei_Distribution (fi_Erasure meta)) =? Z.of_nat n) then Some true
  else index ← ei_Distribution (fi_Erasure meta) !! i; Some (negb (index =? ei_Index (fi_Erasure meta))).

(** The body of the main loop.  After the first test [meta.DataDir] is that of the
    latest metadata, so that the assignment to it before the parts are checked
    changes nothing. *)
Definition check_disk (reliable : bool) (diskMTime : time) (latestMeta : FileInfo) (scanMode : HealScanMode)
    (n i : nat) (onlineDisk : option D) (err : option error) (meta : FileInfo) : option disk_check :=
  match err, onlineDisk with
  | Some e, _ => Some (unavailable e meta)
  | None, None => Some (unavailable errDiskNotFound meta)
  | None, Some disk =>
      if negb (bool_decide (fi_ModTime meta = fi_ModTime latestMeta)) ||
         negb (bool_decide (fi_DataDir meta = fi_DataDir latestMeta)) then Some corrupt
      else
        bad ← (if reliable then misplaced n i meta else Some false);
        if bad : bool then Some corrupt
        else if negb (bool_decide (diskMTime = timeSentinel)) && negb (time_IsZero diskMTime) &&
                negb (AcceptableDelta meta diskMTime shardDiskTimeDelta)
        then Some (mkDiskCheck None (Some errFileCorrupt) zero_FileInfo true)
        else check_data scanMode disk meta
  end.

Fixpoint check_disks (reliable : bool) (diskMTime : time) (latestMeta : FileInfo) (scanMode : HealScanMode)
    (n i : nat) (onlineDisks : list (option D)) (errs : list (option error)) (metas : list FileInfo)
    : option (list disk_check) :=
  match onlineDisks with
  | [] => Some []
  | disk :: onlineDisks =>
      match errs, metas with
      | err :: errs, meta :: metas =>
          c ← check_disk reliable diskMTime latestMeta scanMode n i disk err meta;
          cs ← check_disks reliable diskMTime latestMeta scanMode n (S i) onlineDisks errs metas;
          Some (c :: cs)
      | _, _ => None
      end
  end.

(** The available disks, the data errors, the disk time and the metadata, which
    the function updates in place. *)
Definition disksWithAllParts (onlineDisks : list (option D)) (partsMetadata : list FileInfo) (errs : list (option error))
    (latestMeta : FileInfo) (scanMode : HealScanMode)
    : option (list (option D) * list (option error) * time * list FileInfo) :=
  let diskMTime := if DataShardFixed latestMeta then 0
                   else pickValidDiskTimeWithQuorum shardDiskTimeDelta partsMetadata (ei_DataBlocks (fi_Erasure latestMeta)) in
  let n := length onlineDisks in
  inconsistent ← count_inconsistent n 0 partsMetadata;
  let reliable := negb (len partsMetadata / 2 <? inconsistent) in
  cs ← check_disks reliable diskMTime latestMeta scanMode n 0 onlineDisks errs partsMetadata;
  Some (dc_avail <$> cs, dc_err <$> cs, if existsb dc_fix cs then diskMTime else timeSentinel,
        (dc_meta <$> cs) ++ drop n partsMetadata).

Definition shouldHealObjectOnDisk (erErr dataErr : option error) (meta latestMeta : FileInfo) : bool :=
  if errors_Is erErr (Some errFileNotFound) || errors_Is erErr (Some errFileVersionNotFound) then true
  else if errors_Is erErr (Some errFileCorrupt) then true
  else match erErr with
       | Some _ => false
       | None =>
           if fi_XLV1 meta then true
           else if negb (fi_Deleted meta) && negb (IsRemote now meta) &&
                   IsErr dataErr [errFileNotFound; errFileVersionNotFound; errFileCorrupt] then true
           else negb (FileInfo_Equals latestMeta meta)
       end.

(** ** Dangling objects *)

Definition not_found (e : option error) : bool :=
  errors_Is e (Some errFileNotFound) || errors_Is e (Some errFileVersionNotFound).
Definition corrupted (e : option error) : bool := negb (not_found e) && errors_Is e (Some errFileCorrupt).

(** [danglingErrsCount]: the missing and the corrupted. *)
Definition danglingErrsCount (cerrs : list (option error)) : Z * Z :=
  (Z.of_nat (count not_found cerrs), Z.of_nat (count corrupted cerrs)).

(** The part errors that are not the metadata error of the same disk. *)
Fixpoint part_errs (errs dataErrs : list (option error)) : option (list (option error)) :=
  match dataErrs with
  | [] => Some []
  | d :: dataErrs =>
      match errs with
      | e :: errs => rest ← part_errs errs dataErrs; Some ((if bool_decide (e = d) then None else d) :: rest)
      | [] => None
      end
  end.

Definition isObjectDangling (metaArr : list FileInfo) (errs dataErrs : list (option error)) : option (FileInfo * bool) :=
  ndataErrs ← part_errs errs dataErrs;
  let '(notFoundMetaErrs, corruptedMetaErrs) := danglingErrsCount errs in
  let '(notFoundPartsErrs, corruptedPartsErrs) := danglingErrsCount ndataErrs in
  let validMeta := default zero_FileInfo (List.find FileInfo_IsValid metaArr) in
  Some (validMeta,
    if negb (FileInfo_IsValid validMeta) then false
    else if fi_Deleted validMeta then len errs / 2 <? corruptedMetaErrs + notFoundMetaErrs
    else
      let totalErrs := if IsRemote now validMeta then notFoundMetaErrs + corruptedMetaErrs
                       else notFoundMetaErrs + corruptedMetaErrs + notFoundPartsErrs + corruptedPartsErrs in
      ei_ParityBlocks (fi_Erasure validMeta) <? totalErrs).
End Disks.

(** Errors are compared by their text. *)
Definition isAllNotFound (errs : list (option error)) : bool :=
  forallb (fun e => match e with
                    | Some e => bool_decide (error_text e ∈ ["file not found"; "volume not found"; "file version not found"])
                    | None => false
                    end) errs && (0 <? length errs)%nat.

Definition isObjectDirDangling (errs : list (option error)) : bool :=
  let notFound := count (fun e => bool_decide (e = Some errFileNotFound) || bool_decide (e = Some errVolumeNotFound)) errs in
  let found := (length errs - notFound)%nat in
  (found <? notFound)%nat && (0 <? found)%nat.

(** ** Facts *)

Section Facts.
Context {D : Type} `{HashLib} `{HttpTime} `{MapOrder}.
Context (VerifyFile CheckParts : D -> string -> string -> FileInfo -> option error).
Context (now : time) (delta : Z) (bucket object : string).

#[local] Abbreviation check := (check_disk VerifyFile CheckParts now delta bucket object).
#[local] Abbreviation checks := (check_disks VerifyFile CheckParts now delta bucket object).
#[local] Abbreviation all_parts := (disksWithAllParts VerifyFile CheckParts now delta bucket object).

(** The data of the disk was found missing or corrupted. *)
Definition lost (e : option error) : bool := not_found e || corrupted e.

(** What the loop says about a disk: a metadata error is its data error; a disk
    with a data error of its own has its metadata cleared or is offline. *)
Definition check_spec (disk : option D) (err : option error) (c : @disk_check D) : Prop :=
  match err with
  | Some e => dc_err c = Some e /\ dc_avail c = None
  | None => match disk with
            | None => dc_err c = Some errDiskNotFound /\ dc_avail c = None
            | Some d => (dc_avail c = Some d /\ dc_err c = None) \/
                        (dc_avail c = None /\ is_Some (dc_err c) /\ dc_meta c = zero_FileInfo)
            end
  end.

Lemma checked_spec d e meta : check_spec (Some d) None (checked d e meta).
Proof. destruct e; cbn; [right|by left]. split_and!; [done|by eexists|done]. Qed.

Lemma check_disk_spec reliable t latest mode n i disk err meta c :
  check reliable t latest mode n i disk err meta = Some c -> check_spec disk err c.
Proof.
  unfold check_disk. destruct err as [e|]; [by intros [= <-]|]. destruct disk as [d|]; [|by intros [= <-]].
  assert (check_spec (Some d) None corrupt) as Hcor. { right. split_and!; [done|by eexists|done]. }
  destruct (_ || _); [by intros [= <-]|]. destruct (if reliable then _ else _) as [[]|]; cbn [mbind option_bind]; [by intros [= <-]| |done].
  destruct (_ && _ && _); [intros [= <-]; right; split_and!; [done|by eexists|done]|].
  unfold check_data. destruct (fi_Parts meta) as [|p ps]; [intros [= <-]; apply checked_spec|].
  destruct (_ || _); [|intros [= <-]; apply checked_spec].
  destruct (check_inline meta p) as [e|]; [|done]. intros [= <-]. apply checked_spec.
Qed.

Lemma check_disks_spec reliable t latest mode n disks : forall i errs metas cs,
  checks reliable t latest mode n i disks errs metas = Some cs ->
  length cs = length disks /\ forall j c, cs !! j = Some c -> exists d e, disks !! j = Some d /\ errs !! j = Some e /\ check_spec d e c.
Proof.
  induction disks as [|d disks IH]; intros i errs metas cs; cbn [check_disks]; [by intros [= <-]|].
  destruct errs as [|e errs], metas as [|m metas]; try done.
  destruct (check _ _ _ _ _ _ _ _ _) as [c|] eqn:Ec; [|done]. cbn [mbind option_bind].
  destruct (checks _ _ _ _ _ _ _ _ _) as [cs'|] eqn:Ecs; [|done]. intros [= <-].
  destruct (IH _ _ _ _ Ecs) as [Hl Hj]. split; [cbn; lia|]. intros [|j] c' Hc; cbn in Hc; [|by apply Hj].
  injection Hc as <-. exists d, e. split_and!; [done..|]. by eapply check_disk_spec.
Qed.

(** Every disk is lost at most once: the errors counted by [isObjectDangling] are
    the disks that lost their metadata or their parts. *)
Lemma lost_once errs dataErrs nd : part_errs errs dataErrs = Some nd -> length errs = length dataErrs ->
  (forall j e d, errs !! j = Some e -> dataErrs !! j = Some d -> e = None \/ d = e) ->
  (count lost errs + count lost nd = count (fun ed => lost ed.1 || lost ed.2) (zip errs dataErrs))%nat.
Proof.
  revert errs nd. induction dataErrs as [|d ds IH]; intros [|e es] nd Hp Hl Hd; try done; cbn [part_errs] in Hp.
  { by injection Hp as <-. }
  destruct (part_errs es ds) as [rest|] eqn:Er; [|done]. injection Hp as <-. cbn [zip zip_with]. rewrite !count_cons. cbn [fst snd].
  specialize (IH es rest Er ltac:(cbn in Hl; lia) ltac:(intros j; apply (Hd (S j)))).
  destruct (Hd 0%nat e d eq_refl eq_refl) as [->| ->].
  - case_bool_decide as Hb; [subst d|]; change (lost None) with false in *; cbn [orb]; lia.
  - case_bool_decide; [|done]. change (lost None) with false. rewrite orb_diag. lia.
Qed.

Lemma count_lost errs : Z.of_nat (count lost errs) = Z.of_nat (count not_found errs) + Z.of_nat (count corrupted errs).
Proof.
  induction errs as [|e errs IH]; [done|]. rewrite !count_cons. unfold lost at 1. unfold corrupted at 1 2.
  destruct (not_found e); cbn [negb andb orb]; [lia|]. destruct (errors_Is e _); lia.
Qed.

Lemma count_negb {A} (p : A -> bool) l : (count (fun x => negb (p x)) l + count p l = length l)%nat.
Proof. induction l as [|x l IH]; [done|]. rewrite !count_cons. cbn [length]. destruct (p x); cbn; lia. Qed.

(** The results of [disksWithAllParts], disk by disk. *)
Lemma disksWithAllParts_spec disks metas errs latest mode avail dataErrs t metas' :
  all_parts disks metas errs latest mode = Some (avail, dataErrs, t, metas') ->
  length avail = length disks /\ length dataErrs = length disks /\
  forall j e, (j < length disks)%nat -> errs !! j = Some e -> exists d c,
    disks !! j = Some d /\ check_spec d e c /\ avail !! j = Some (dc_avail c) /\ dataErrs !! j = Some (dc_err c) /\
    metas' !! j = Some (dc_meta c).
Proof.
  unfold disksWithAllParts. destruct (count_inconsistent _ _ _); [|done]. cbn [mbind option_bind].
  destruct (checks _ _ _ _ _ _ _ _ _) as [cs|] eqn:Ec; [|done]. intros [= <- <- _ <-].
  destruct (check_disks_spec _ _ _ _ _ _ _ _ _ _ Ec) as [Hl Hj]. rewrite !length_fmap. split_and!; [done..|].
  intros j e Hlt He. destruct (lookup_lt_is_Some_2 cs j) as [c Hc]; [lia|]. destruct (Hj j c Hc) as (d & e' & Hd & He' & Hs).
  rewrite He in He'. injection He' as <-. exists d, c. rewrite !list_lookup_fmap, Hc. split_and!; try done.
  rewrite lookup_app_l by (by rewrite length_fmap; eapply lookup_lt_Some). by rewrite list_lookup_fmap, Hc.
Qed.

(** An object is given up only when it cannot be recovered.  When, after
    [disksWithAllParts], [isObjectDangling] calls an object dangling, the disks
    that did not lose their metadata or parts, the offline ones included, are
    fewer than the data blocks: the object could not be read even if every
    disk without an answer came back with its data. *)
Theorem purge_only_unrecoverable disks metas errs latest mode avail dataErrs t metas' m :
  all_parts disks metas errs latest mode = Some (avail, dataErrs, t, metas') ->
  length errs = length disks -> isObjectDangling now metas' errs dataErrs = Some (m, true) ->
  fi_Deleted m = false -> IsRemote now m = false ->
  ei_DataBlocks (fi_Erasure m) + ei_ParityBlocks (fi_Erasure m) = len disks ->
  Z.of_nat (count (fun ed => negb (lost ed.1 || lost ed.2)) (zip errs dataErrs)) < ei_DataBlocks (fi_Erasure m).
Proof.
  intros Hall Hle Hdang Hdel Hrem Hn. destruct (disksWithAllParts_spec _ _ _ _ _ _ _ _ _ Hall) as (_ & Hld & Hspec).
  unfold isObjectDangling in Hdang. destruct (part_errs errs dataErrs) as [nd|] eqn:Ep; [|done].
  cbn [mbind option_bind danglingErrsCount] in Hdang. injection Hdang as <- Hd. rewrite Hdel, Hrem in Hd.
  destruct (negb _); [done|]. apply Z.ltb_lt in Hd.
  pose proof (lost_once errs dataErrs nd Ep ltac:(lia)) as Hlost.
  pose proof (count_negb (fun ed => lost ed.1 || lost ed.2) (zip errs dataErrs)) as Hneg.
  rewrite length_zip_with, Nat.min_l in Hneg by lia.
  rewrite <-Hlost in Hneg; [pose proof (count_lost errs); pose proof (count_lost nd); lia|].
  intros j e d He Hdj. destruct (Hspec j e) as (disk & c & _ & Hs & _ & Hdj' & _); [rewrite <-Hle; by eapply lookup_lt_Some|done|].
  rewrite Hdj in Hdj'. injection Hdj' as ->. destruct e as [e|]; [right|by left]. by destruct Hs.
Qed.

(** Healing misses no disk.  After [disksWithAllParts], every disk that
    answered and is not available, or whose metadata is missing or corrupted, is
    marked for healing by [shouldHealObjectOnDisk]. *)
Theorem heal_misses_no_disk disks metas errs latest mode avail dataErrs t metas' i e d m' :
  all_parts disks metas errs latest mode = Some (avail, dataErrs, t, metas') ->
  errs !! i = Some e -> dataErrs !! i = Some d -> metas' !! i = Some m' ->
  fi_ModTime latest <> 0 ->
  lost e = true \/ (e = None /\ (exists x, disks !! i = Some (Some x)) /\ avail !! i = Some None) ->
  shouldHealObjectOnDisk now e d m' latest = true.
Proof.
  intros Hall He Hd Hm Hmt Hcase. destruct (disksWithAllParts_spec _ _ _ _ _ _ _ _ _ Hall) as (_ & Hld & Hspec).
  unfold shouldHealObjectOnDisk. destruct Hcase as [Hl|(-> & [x Hx] & Ha)].
  { unfold lost, corrupted, not_found in Hl.
    destruct (errors_Is e (Some errFileNotFound) || errors_Is e (Some errFileVersionNotFound)); [done|].
    cbn [orb negb andb] in Hl. by rewrite Hl. }
  destruct (Hspec i None) as (disk & c & Hdisk & Hs & Ha' & _ & Hm'); [rewrite <-Hld; by eapply lookup_lt_Some|done|].
  rewrite Hx in Hdisk. injection Hdisk as <-. cbn in Hs. rewrite Ha in Ha'. injection Ha' as Hav.
  rewrite Hm in Hm'. injection Hm' as ->. destruct Hs as [[Hs _]|(_ & _ & ->)]; [congruence|].
  change (fi_XLV1 zero_FileInfo) with false. cbn [errors_Is orb]. destruct (_ && _ && _); [done|].
  unfold FileInfo_Equals. destruct (negb (MetadataEquals _ _)); [done|]. destruct (negb (ReplicationInfoEquals _ _)); [done|].
  destruct (negb (TransitionInfoEquals _ _)); [done|]. change (fi_ModTime zero_FileInfo) with 0. by rewrite bool_decide_eq_false_2.
Qed.
End Facts.

(** ** Witnesses: four disks, three of which have lost the object *)

#[local] Existing Instance toy_hash.
#[local] Instance sample_http : HttpTime := {| http_Format _ := ""; http_Parse _ := Err (ErrNew "parse") |}.

Definition sample_meta : FileInfo :=
  mkFileInfo "" "" "" false false "" "" "" "" false "dir" false 7 10 0 0 ∅ []
    (mkErasureInfo "" 2 2 10 4 [1; 2; 3; 4] []) false zero_ReplicationState [] 0 0 false 0 0.
Definition sample_disks : list (option unit) := replicate 4 (Some tt).
Definition sample_metas : list FileInfo := [zero_FileInfo; zero_FileInfo; zero_FileInfo; sample_meta].
Definition sample_errs : list (option error) :=
  [Some errFileNotFound; Some errFileNotFound; Some errFileCorrupt; None].

Lemma purge_only_unrecoverable_witness :
  let dataErrs := [Some errFileNotFound; Some errFileNotFound; Some errFileCorrupt; None] in
  isObjectDangling 0 sample_metas sample_errs dataErrs = Some (sample_meta, true) /\
  Z.of_nat (count (fun ed => negb (lost ed.1 || lost ed.2)) (zip sample_errs dataErrs)) < 2.
Proof.
  split; [vm_compute; reflexivity|].
  apply (purge_only_unrecoverable (fun _ _ _ _ => None) (fun _ _ _ _ => None) 0 60 "b" "o"
    sample_disks sample_metas sample_errs sample_meta HealNormalScan [None; None; None; Some tt]
    [Some errFileNotFound; Some errFileNotFound; Some errFileCorrupt; None] timeSentinel sample_metas sample_meta);
    [vm_compute; reflexivity|reflexivity|vm_compute; reflexivity|reflexivity|reflexivity|reflexivity].
Defined.

Lemma heal_misses_no_disk_witness :
  shouldHealObjectOnDisk 0 None (Some errFileCorrupt) zero_FileInfo sample_meta = true.
Proof.
  apply (heal_misses_no_disk (fun _ _ _ _ => None) (fun _ _ _ _ => Some errFileCorrupt) 0 60 "b" "o"
    sample_disks sample_metas sample_errs sample_meta HealNormalScan
    [None; None; None; None] [Some errFileNotFound; Some errFileNotFound; Some errFileCorrupt; Some errFileCorrupt]
    timeSentinel [zero_FileInfo; zero_FileInfo; zero_FileInfo; zero_FileInfo] 3);
    [vm_compute; reflexivity|reflexivity|reflexivity|reflexivity|discriminate|].
  right. split; [reflexivity|]. split; [by exists tt|reflexivity].
Defined.
