(* ===== verification/HTTPRange.v ===== *)
(** * Byte ranges of requests ([cmd/httprange.go], [cmd/copy-part-range.go])

    A GET request can ask for a part of an object.  This file models the parser of
    the range header, its arithmetic against the size of the object, and the
    printed form.  A [nil] specification is [None] and stands for the whole
    object. *)

From Stdlib Require Import Ascii.
From S2P Require Import Prelude Restore.

(** ** Decimal numbers ([strconv]) *)

Definition digit_value (c : ascii) : option Z :=
  let n := Z.of_nat (nat_of_ascii c) in if (48 <=? n) && (n <=? 57) then Some (n - 48) else None.
Definition digit_char (d : Z) : ascii := ascii_of_nat (Z.to_nat (48 + d)).

(** The value of digits after digits of value [v]. *)
Fixpoint parse_from (v : Z) (s : string) : option Z :=
  match s with
  | EmptyString => Some v
  | String c s => d ← digit_value c; parse_from (v * 10 + d) s
  end.

(** [strconv.ParseInt(s, 10, 64)], without the reason of an error. *)
Definition ParseInt (s : string) : option Z :=
  let '(neg, digits) := match s with
                        | String c rest => if Ascii.eqb c "-" then (true, rest)
                                           else if Ascii.eqb c "+" then (false, rest) else (false, s)
                        | EmptyString => (false, s)
                        end in
  if bool_decide (digits = "") then None
  else n ← parse_from 0 digits;
       let z := if neg : bool then - n else n in
       if (- 2 ^ 63 <=? z) && (z <? 2 ^ 63) then Some z else None.

(** [strconv.Itoa]: a 64-bit number has at most 20 digits. *)
Fixpoint digits (fuel : nat) (n : Z) (acc : string) : string :=
  match fuel with
  | O => acc
  | S fuel => let acc := String (digit_char (n mod 10)) acc in
              if n <? 10 then acc else digits fuel (n / 10) acc
  end.
Definition Itoa (n : Z) : string := if n <? 0 then String "-" (digits 20 (- n) "") else digits 20 n "".

(** ** Specifications *)

Definition errInvalidRange : error := ErrNew "Invalid range".
Definition errInvalidRangeSource : error := ErrNew "Range specified exceeds source object size".
Definition errResourceSize : error := ErrNew "Resource size cannot be negative".
Definition errUnexpectedRange : error := ErrNew "Unexpected range specification case".
Definition range_error (s : string) : error := Errorf 0 s.

Record HTTPRangeSpec := mkRange {
  hr_IsSuffixLength : bool;
  hr_Start : Z;
  hr_End : Z
}.

Definition GetLength (h : option HTTPRangeSpec) (resourceSize : Z) : result Z :=
  if resourceSize <? 0 then Err errResourceSize
  else match h with
       | None => Ok resourceSize
       | Some h =>
           if hr_IsSuffixLength h then
             let specifiedLen := neg64 (hr_Start h) in
             Ok (if resourceSize <? specifiedLen then resourceSize else specifiedLen)
           else if resourceSize <=? hr_Start h then Err errInvalidRange
           else if -1 <? hr_End h then
             let end_ := if resourceSize <=? hr_End h then sub64 resourceSize 1 else hr_End h in
             Ok (end_ - hr_Start h + 1)%int64
           else if hr_End h =? -1 then Ok (sub64 resourceSize (hr_Start h))
           else Err errUnexpectedRange
       end.

Definition GetOffsetLength (h : option HTTPRangeSpec) (resourceSize : Z) : result (Z * Z) :=
  match h with
  | None => Ok (0, resourceSize)
  | Some h =>
      match GetLength (Some h) resourceSize with
      | Err e => Err e
      | Ok length =>
          let start := if hr_IsSuffixLength h then
                         let start := add64 resourceSize (hr_Start h) in if start <? 0 then 0 else start
                       else hr_Start h in
          Ok (start, length)
      end
  end.

(** ** Parsing *)

(** An offset of the header: absent, or a number that is not negative. *)
Definition parse_offset (s : string) (what : string) : result Z :=
  match s with
  | EmptyString => Ok (-1)
  | String c _ =>
      if Ascii.eqb c "+" then Err (range_error "Byte position must not have a sign")
      else match ParseInt s with
           | None => Err (range_error ("does not have a valid " +:+ what +:+ " byte position value"))
           | Some n => if n <? 0 then Err (range_error (what +:+ " byte position is negative")) else Ok n
           end
  end.

Definition byteRangePrefix : string := "bytes=".

Definition parseRequestRangeSpec (rangeString : string) : result HTTPRangeSpec :=
  if negb (String.prefix byteRangePrefix rangeString) then Err (range_error "does not start with 'bytes='")
  else
    let byteRangeString := String.substring (String.length byteRangePrefix) (String.length rangeString) rangeString in
    match split2 "-" byteRangeString with
    | (_, None) => Err (range_error "does not have a valid range value")
    | (offsetBeginString, Some offsetEndString) =>
        (let* offsetBegin := parse_offset offsetBeginString "first" in
         let* offsetEnd := parse_offset offsetEndString "last" in
         if (-1 <? offsetBegin) && (-1 <? offsetEnd) then
           if offsetEnd <? offsetBegin then Err errInvalidRange else Ok (mkRange false offsetBegin offsetEnd)
         else if -1 <? offsetBegin then Ok (mkRange false offsetBegin (-1))
         else if -1 <? offsetEnd then
           if offsetEnd =? 0 then Err errInvalidRange else Ok (mkRange true (neg64 offsetEnd) (-1))
         else Err (range_error "does not have valid range value"))%go
    end.

(** ** Printing *)

Definition Range_String (h : option HTTPRangeSpec) (resourceSize : Z) : string :=
  match h with
  | None => ""
  | Some h =>
      match GetOffsetLength (Some h) resourceSize with
      | Err _ => ""
      | Ok (off, length) => Itoa off +:+ "-" +:+ Itoa (off + length - 1)%int64
      end
  end.

Definition ToHeader (h : option HTTPRangeSpec) : result string :=
  match h with
  | None => Ok ""
  | Some h =>
      let print start end_ := Ok ("bytes=" +:+ start +:+ "-" +:+ end_) in
      if (0 <=? hr_Start h) && (0 <=? hr_End h) then
        if hr_End h <? hr_Start h then Err errInvalidRange else print (Itoa (hr_Start h)) (Itoa (hr_End h))
      else if hr_IsSuffixLength h then print "" (Itoa (mul64 (hr_Start h) (-1)))
      else if -1 <? hr_Start h then print (Itoa (hr_Start h)) ""
      else Err (range_error "does not have valid range value")
  end.

(** ** Copying a part *)

Definition parseCopyPartRangeSpec (rangeString : string) : result HTTPRangeSpec :=
  match parseRequestRangeSpec rangeString with
  | Err e => Err e
  | Ok h => if hr_IsSuffixLength h || (hr_Start h <? 0) || (hr_End h <? 0) then Err errInvalidRange else Ok h
  end.

Definition checkCopyPartRangeWithSize (rs : option HTTPRangeSpec) (resourceSize : Z) : option error :=
  match rs with
  | None => None
  | Some rs =>
      if hr_IsSuffixLength rs || (resourceSize <=? hr_Start rs) || (resourceSize <=? hr_End rs)
      then Some errInvalidRangeSource else None
  end.

Example parse_range : parseRequestRangeSpec "bytes=2-10" = Ok (mkRange false 2 10).
Proof. reflexivity. Qed.

(** ** Facts *)

Lemma digit_value_char d : 0 <= d < 10 -> digit_value (digit_char d) = Some d.
Proof.
  intros Hd. assert (d = 0 \/ d = 1 \/ d = 2 \/ d = 3 \/ d = 4 \/ d = 5 \/ d = 6 \/ d = 7 \/ d = 8 \/ d = 9) as Hc by lia.
  by repeat (destruct Hc as [->|Hc]; [reflexivity|]); rewrite Hc.
Qed.

Lemma parse_digits fuel n acc : 0 <= n < 10 ^ Z.of_nat fuel -> (0 < fuel)%nat ->
  parse_from 0 (digits fuel n acc) = parse_from n acc.
Proof.
  revert n acc. induction fuel as [|fuel IH]; intros n acc Hn Hf; [lia|]. cbn [digits].
  pose proof (Z.mod_pos_bound n 10 ltac:(lia)) as Hm. destruct (Z.ltb_spec n 10).
  - cbn [parse_from]. rewrite digit_value_char by lia. cbn [mbind option_bind]. by rewrite Z.mod_small by lia.
  - rewrite Nat2Z.inj_succ, Z.pow_succ_r in Hn by lia. rewrite IH.
    + cbn [parse_from]. rewrite digit_value_char by lia. cbn [mbind option_bind]. f_equal.
      pose proof (Z.div_mod n 10 ltac:(lia)). lia.
    + split; [apply Z.div_pos; lia|apply Z.div_lt_upper_bound; lia].
    + destruct fuel; [cbn in Hn; lia|lia].
Qed.

Definition no_dash (s : string) : bool := List.forallb (fun c => negb (Ascii.eqb c "-")) (String.list_ascii_of_string s).

(** What is printed before [acc] starts with a digit and has no dash. *)
Lemma digits_shape fuel n acc : 0 <= n -> (0 < fuel)%nat -> exists c ds,
  digits fuel n acc = String c ds +:+ acc /\ no_dash (String c ds) = true /\ Ascii.eqb c "+" = false.
Proof.
  revert n acc. induction fuel as [|fuel IH]; intros n acc Hn Hf; [lia|]. cbn [digits].
  pose proof (Z.mod_pos_bound n 10 ltac:(lia)) as Hm.
  assert (negb (Ascii.eqb (digit_char (n mod 10)) "-") = true /\ Ascii.eqb (digit_char (n mod 10)) "+" = false) as [Hd Hp].
  { pose proof (digit_value_char (n mod 10) Hm) as Hv. split; [apply negb_true_iff|]; apply Ascii.eqb_neq; intros He;
      by rewrite He in Hv. }
  destruct (n <? 10) eqn:E; [|destruct fuel as [|fuel]].
  - exists (digit_char (n mod 10)), "". split_and!; [done| |done]. unfold no_dash. cbn. by rewrite Hd.
  - exists (digit_char (n mod 10)), "". split_and!; [done| |done]. unfold no_dash. cbn. by rewrite Hd.
  - destruct (IH (n / 10) (String (digit_char (n mod 10)) acc)) as (c & ds & -> & Hnd & Hc); [apply Z.div_pos; lia|lia|].
    exists c, (ds +:+ String (digit_char (n mod 10)) ""). split_and!; [|clear E|done].
    + rewrite !append_cons. f_equal. clear. induction ds as [|d ds IH]; [done|]. rewrite !append_cons. by rewrite IH.
    + unfold no_dash in *. cbn [String.list_ascii_of_string forallb] in *. apply andb_true_iff in Hnd as [-> Hnd].
      rewrite list_ascii_app, List.forallb_app, Hnd. cbn. by rewrite Hd.
Qed.

Lemma Itoa_shape n : 0 <= n -> exists c ds, Itoa n = String c ds /\ no_dash (String c ds) = true /\ Ascii.eqb c "+" = false.
Proof.
  intros Hn. unfold Itoa. destruct (Z.ltb_spec n 0); [lia|].
  destruct (digits_shape 20 n "" Hn ltac:(lia)) as (c & ds & -> & ? & ?). exists c, ds. by rewrite append_nil_r.
Qed.

Lemma no_dash_head c ds : no_dash (String c ds) = true -> Ascii.eqb c "-" = false.
Proof. unfold no_dash. cbn. intros [H _]%andb_true_iff. by apply negb_true_iff in H. Qed.

Lemma ParseInt_Itoa n : 0 <= n < 2 ^ 63 -> ParseInt (Itoa n) = Some n.
Proof.
  intros Hn. destruct (Itoa_shape n ltac:(lia)) as (c & ds & He & Hd & Hp). pose proof (no_dash_head _ _ Hd) as Hm.
  unfold ParseInt. rewrite He, Hm, Hp, bool_decide_eq_false_2 by done. rewrite <-He. unfold Itoa.
  destruct (Z.ltb_spec n 0); [lia|]. rewrite parse_digits by lia. cbn [parse_from mbind option_bind].
  destruct (Z.leb_spec (- 2 ^ 63) n); [|lia]. by destruct (Z.ltb_spec n (2 ^ 63)); [|lia].
Qed.

Lemma parse_offset_Itoa n what : 0 <= n < 2 ^ 63 -> parse_offset (Itoa n) what = Ok n.
Proof.
  intros Hn. pose proof (ParseInt_Itoa n Hn) as Hp. destruct (Itoa_shape n ltac:(lia)) as (c & ds & He & _ & Hc).
  rewrite He in *. cbn [parse_offset]. rewrite Hc, Hp. by destruct (Z.ltb_spec n 0); [lia|].
Qed.

Lemma split2_no_dash s t : no_dash s = true -> split2 "-" (s +:+ String "-" t) = (s, Some t).
Proof.
  induction s as [|c s IH]; intros Hs; [done|]. rewrite append_cons. cbn [split2]. rewrite (no_dash_head _ _ Hs).
  unfold no_dash in Hs. cbn in Hs. apply andb_true_iff in Hs as [_ Hs]. by rewrite IH.
Qed.

(** The specifications the parser returns. *)
Definition range_ok (h : HTTPRangeSpec) : Prop :=
  if hr_IsSuffixLength h then - 2 ^ 63 < hr_Start h < 0 /\ hr_End h = -1
  else 0 <= hr_Start h < 2 ^ 63 /\ (hr_End h = -1 \/ hr_Start h <= hr_End h < 2 ^ 63).

Lemma parse_offset_range s what n : parse_offset s what = Ok n -> -1 <= n < 2 ^ 63.
Proof.
  unfold parse_offset. destruct s as [|c s]; [intros [= <-]; lia|]. destruct (Ascii.eqb c "+"); [done|].
  unfold ParseInt. destruct (if Ascii.eqb c "-" then _ else _) as [neg ds]. destruct (bool_decide _); [done|].
  destruct (parse_from 0 ds) as [v|]; [|done]. cbn [mbind option_bind].
  destruct (_ && _) eqn:E; [|done]. apply andb_true_iff in E as [?%Z.leb_le ?%Z.ltb_lt].
  destruct (Z.ltb_spec (if neg then - v else v) 0); [done|]. intros [= <-]. lia.
Qed.

Lemma parse_range_ok s h : parseRequestRangeSpec s = Ok h -> range_ok h.
Proof.
  unfold parseRequestRangeSpec. destruct (negb _); [done|]. destruct (split2 _ _) as [b [e|]]; [|done].
  destruct (parse_offset b "first") as [x|] eqn:Eb; [|done]. destruct (parse_offset e "last") as [y|] eqn:Ee; [|done].
  cbn [result_bind]. apply parse_offset_range in Eb, Ee. unfold range_ok.
  destruct (Z.ltb_spec (-1) x), (Z.ltb_spec (-1) y); cbn [andb]; [| | |done].
  - destruct (Z.ltb_spec y x); [done|]. intros [= <-]. cbn. lia.
  - intros [= <-]. cbn. lia.
  - destruct (Z.eqb_spec y 0); [done|]. intros [= <-]. cbn [hr_IsSuffixLength hr_Start hr_End]. unfold neg64.
    rewrite wrap64_id by (unfold int64_range; lia). lia.
Qed.

(** Parsing what [ToHeader] prints. *)
Lemma parse_printed b e : no_dash b = true ->
  parseRequestRangeSpec ("bytes=" +:+ b +:+ "-" +:+ e) =
  (let* x := parse_offset b "first" in
   let* y := parse_offset e "last" in
   if (-1 <? x) && (-1 <? y) then if y <? x then Err errInvalidRange else Ok (mkRange false x y)
   else if -1 <? x then Ok (mkRange false x (-1))
   else if -1 <? y then if y =? 0 then Err errInvalidRange else Ok (mkRange true (neg64 y) (-1))
   else Err (range_error "does not have valid range value"))%go.
Proof.
  intros Hb. unfold parseRequestRangeSpec. set (t := b +:+ "-" +:+ e).
  assert (String.prefix byteRangePrefix ("bytes=" +:+ t) = true) as -> by (by destruct t).
  change (String.substring _ _ _) with (String.substring 0 (String.length ("bytes=" +:+ t)) t).
  rewrite substring_all by (change (String.length ("bytes=" +:+ t)) with (6 + String.length t)%nat; lia).
  unfold t. change ("-" +:+ e) with (String "-" e). by rewrite split2_no_dash.
Qed.

Lemma Itoa_no_dash n : 0 <= n -> no_dash (Itoa n) = true.
Proof. intros Hn. by destruct (Itoa_shape n Hn) as (c & ds & -> & ? & _). Qed.

Lemma ToHeader_parse h : range_ok h -> exists s, ToHeader (Some h) = Ok s /\ parseRequestRangeSpec s = Ok h.
Proof.
  destruct h as [[] st en]; unfold range_ok, ToHeader; cbn [hr_IsSuffixLength hr_Start hr_End].
  - intros [Hs ->]. destruct (Z.leb_spec 0 st); [lia|]. cbn [andb].
    eexists. split; [reflexivity|]. rewrite parse_printed by done. unfold mul64.
    rewrite wrap64_id by (unfold int64_range; lia). cbn [parse_offset result_bind].
    rewrite parse_offset_Itoa by lia. cbn [result_bind]. destruct (Z.ltb_spec (-1) (st * -1)); [|lia]. cbn [andb Z.ltb].
    destruct (Z.eqb_spec (st * -1) 0); [lia|]. unfold neg64. rewrite wrap64_id by (unfold int64_range; lia).
    cbn. repeat f_equal. lia.
  - intros [Hs He]. destruct (Z.leb_spec 0 st); [|lia]. cbn [andb]. destruct He as [->|He].
    + cbn [Z.leb Z.compare]. destruct (Z.ltb_spec (-1) st); [|lia]. eexists. split; [reflexivity|].
      rewrite parse_printed by (apply Itoa_no_dash; lia). rewrite parse_offset_Itoa by lia. cbn [result_bind parse_offset].
      destruct (Z.ltb_spec (-1) st); [|lia]. done.
    + destruct (Z.leb_spec 0 en); [|lia]. destruct (Z.ltb_spec en st); [lia|]. eexists. split; [reflexivity|].
      rewrite parse_printed by (apply Itoa_no_dash; lia). rewrite !parse_offset_Itoa by lia. cbn [result_bind].
      destruct (Z.ltb_spec (-1) st); [|lia]. destruct (Z.ltb_spec (-1) en); [|lia]. cbn [andb].
      by destruct (Z.ltb_spec en st); [lia|].
Qed.

(** Position [i] of a resource of [size] bytes is asked for. *)
Definition asks_for (h : HTTPRangeSpec) (size i : Z) : Prop :=
  0 <= i < size /\
  if hr_IsSuffixLength h then size + hr_Start h <= i
  else hr_Start h <= i /\ (hr_End h = -1 \/ i <= hr_End h).

Lemma GetOffsetLength_exact h size : range_ok h -> 0 <= size < 2 ^ 63 ->
  match GetOffsetLength (Some h) size with
  | Ok (off, n) => 0 <= off /\ 0 <= n /\ off + n <= size /\ forall i, off <= i < off + n <-> asks_for h size i
  | Err e => e = errInvalidRange /\ forall i, ~ asks_for h size i
  end.
Proof.
  intros Hh Hsz. unfold GetOffsetLength, GetLength. destruct (Z.ltb_spec size 0); [lia|].
  destruct h as [[] st en]; unfold range_ok, asks_for in *; cbn [hr_IsSuffixLength hr_Start hr_End] in *.
  - destruct Hh as [Hs ->]. unfold neg64, add64. rewrite !wrap64_id by (unfold int64_range; lia).
    destruct (Z.ltb_spec size (- st)), (Z.ltb_spec (size + st) 0); (split_and!; [lia..|intros i; lia]).
  - destruct Hh as [Hs He]. destruct (Z.leb_spec size st); [split; [done|intros i; lia]|].
    destruct (Z.ltb_spec (-1) en).
    + unfold sub64, add64. rewrite (wrap64_id (size - 1)) by (unfold int64_range; lia).
      destruct (Z.leb_spec size en).
      * rewrite (wrap64_id (size - 1 - st)), wrap64_id by (unfold int64_range; lia). (split_and!; [lia..|intros i; lia]).
      * rewrite (wrap64_id (en - st)), wrap64_id by (unfold int64_range; lia). (split_and!; [lia..|intros i; lia]).
    + destruct (Z.eqb_spec en (-1)); [|lia]. unfold sub64. rewrite wrap64_id by (unfold int64_range; lia). (split_and!; [lia..|intros i; lia]).
Qed.

(** Byte ranges.  A range specification that the parser accepts is printed by
    [ToHeader] to a header that parses to it again.  Against an object of any size
    its offset and length lie inside the object and select exactly the positions
    asked for; the only error is [errInvalidRange], when no position of the object
    is asked for. *)
Theorem HTTPRange_correct s h : parseRequestRangeSpec s = Ok h ->
  (exists s', ToHeader (Some h) = Ok s' /\ parseRequestRangeSpec s' = Ok h) /\
  forall size, 0 <= size < 2 ^ 63 ->
    match GetOffsetLength (Some h) size with
    | Ok (off, n) => 0 <= off /\ 0 <= n /\ off + n <= size /\ forall i, off <= i < off + n <-> asks_for h size i
    | Err e => e = errInvalidRange /\ forall i, ~ asks_for h size i
    end.
Proof.
  intros Hp%parse_range_ok. split; [by apply ToHeader_parse|]. intros size. by apply GetOffsetLength_exact.
Qed.

Lemma HTTPRange_correct_witness :
  (exists s', ToHeader (Some (mkRange true (-30) (-1))) = Ok s' /\ parseRequestRangeSpec s' = Ok (mkRange true (-30) (-1))) /\
  (forall i, 70 <= i < 70 + 30 <-> asks_for (mkRange true (-30) (-1)) 100 i).
Proof.
  destruct (HTTPRange_correct "bytes=-30" (mkRange true (-30) (-1))) as [H1 H2]; [reflexivity|].
  split; [exact H1|]. apply (H2 100). lia.
Defined.
