(* ===== verification/ObjectRead.v ===== *)
(** * Reading an object from an erasure set ([cmd/erasure-object.go])

    [getObjectWithFileInfo] streams a range of an object to a writer: it finds the
    parts that hold the range, opens a bitrot reader for every disk with valid
    metadata, decodes each part, asks for a heal when shards were missing, and
    drops the disks whose readers failed.  This file models it over disks behind an
    interface, with the paths ([cmd/object-api-utils.go]) and the errors
    ([cmd/object-api-errors.go]) it makes, and shows that it delivers the bytes of
    the range. *)

From Stdlib Require Import Ascii.
From S2P Require Import Prelude Erasure FileInfo Quorum Distribution Bitrot ParallelRead ErasureIO.
From S2P Require Import ObjectStream Healing HTTPRange XLMeta.

(** ** Strings and paths *)

Definition HasSuffix (s suffix : string) : bool :=
  let k := (String.length s - String.length suffix)%nat in
  (String.length suffix <=? String.length s)%nat &&
  bool_decide (String.substring k (String.length suffix) s = suffix).
Definition TrimSuffix (s suffix : string) : string :=
  if HasSuffix s suffix then String.substring 0 (String.length s - String.length suffix) s else s.

Definition globalDirSuffix : string := "__XLDIR__".
Definition SlashSeparator : string := "/".

Definition decodeDirObject (object : string) : string :=
  if HasSuffix object globalDirSuffix then TrimSuffix object globalDirSuffix +:+ SlashSeparator
  else object.

(** The elements between slashes; [cur] is the element being read. *)
Fixpoint path_elements (cur s : string) : list string :=
  match s with
  | EmptyString => [cur]
  | String c s => if Ascii.eqb c "/" then cur :: path_elements "" s
                  else path_elements (cur +:+ String c "") s
  end.

(** One element of [path.Clean], onto the reversed elements before it. *)
Definition clean_element (rooted : bool) (acc : list string) (c : string) : list string :=
  if bool_decide (c = "") || bool_decide (c = ".") then acc
  else if bool_decide (c = "..") then
    match acc with
    | [] => if rooted then [] else [c]
    | h :: t => if bool_decide (h = "..") then c :: acc else t
    end
  else c :: acc.

Definition path_Clean (s : string) : string :=
  let rooted := String.prefix "/" s in
  let elems := rev (fold_left (clean_element rooted) (path_elements "" s) []) in
  let body := String.concat "/" elems in
  if rooted then "/" +:+ body else if bool_decide (body = "") then "." else body.

Definition path_Join (elems : list string) : string :=
  match filter (fun s => s <> "") elems with
  | [] => ""
  | elems => path_Clean (String.concat "/" elems)
  end.

Definition pathJoin (elems : list string) : string :=
  let trailingSlash := match last elems with
                       | Some e => if HasSuffix e SlashSeparator then SlashSeparator else ""
                       | None => ""
                       end in
  path_Join elems +:+ trailingSlash.

(** ** Errors of the object layer *)

Definition errVolumeNotEmpty : error := StorageErr "volume is not empty".
Definition errVolumeExists : error := StorageErr "volume already exists".
Definition errDiskFull : error := StorageErr "disk path full".
Definition errTooManyOpenFiles : error := StorageErr "too many open files, please increase 'ulimit -n'".
Definition errFileAccessDenied : error := StorageErr "file access denied".
Definition errIsNotRegular : error := StorageErr "not of regular file type".
Definition errFileNameTooLong : error := StorageErr "file name too long".
Definition errUploadIDNotFound : error := ErrNew "Specified Upload ID is not found".
Definition errDataTooLarge : error := ErrNew "Object size larger than allowed limit".
Definition errDataTooSmall : error := ErrNew "Object size smaller than expected".
Definition DeadlineExceeded : error := ErrNew "context deadline exceeded".

(** The types defined as [GenericError]. *)
Inductive api_error :=
| BucketNotFound | BucketNotEmpty | BucketExists | PrefixAccessDenied | ObjectExistsAsDirectory
| VersionNotFound | MethodNotAllowed | ObjectNotFound | ObjectNameInvalid | ObjectTooLarge
| ObjectTooSmall | InsufficientReadQuorum | InsufficientWriteQuorum | IncompleteBody.

Record GenericError := mkGeneric { ge_Bucket : string; ge_Object : string; ge_VersionID : string }.

Inductive ObjectErr :=
| ApiErr (k : api_error) (g : GenericError)
| InvalidUploadID (bucket object uploadID : string)
| InvalidRangeErr (offsetBegin offsetEnd resourceSize : Z)
| StorageFull
| SlowDown
| PlainErr (e : error).

Definition toObjectErr (err : option error) (params : list string) : option ObjectErr :=
  match err with
  | None => None
  | Some err =>
      if errors_Is (Some err) (Some Canceled) then Some (PlainErr Canceled)
      else
        let bucket := default "" (params !! 0%nat) in
        let object := default "" (decodeDirObject <$> params !! 1%nat) in
        let third := default "" (params !! 2%nat) in
        let on_bucket k := ApiErr k (mkGeneric bucket "" "") in
        let on_object k := ApiErr k (mkGeneric bucket object "") in
        let says e := bool_decide (error_text err = error_text e) in
        Some (
          if says errVolumeNotFound then on_bucket BucketNotFound
          else if says errVolumeNotEmpty then on_bucket BucketNotEmpty
          else if says errVolumeExists then on_bucket BucketExists
          else if says errDiskFull then StorageFull
          else if says errTooManyOpenFiles then SlowDown
          else if says errFileAccessDenied then on_object PrefixAccessDenied
          else if says errIsNotRegular then on_object ObjectExistsAsDirectory
          else if says errFileVersionNotFound then ApiErr VersionNotFound (mkGeneric bucket object third)
          else if says errMethodNotAllowed then on_object MethodNotAllowed
          else if says errFileNotFound then on_object ObjectNotFound
          else if says errUploadIDNotFound then InvalidUploadID bucket object third
          else if says errFileNameTooLong then on_object ObjectNameInvalid
          else if says errDataTooLarge then on_object ObjectTooLarge
          else if says errDataTooSmall then on_object ObjectTooSmall
          else if says errErasureReadQuorum then on_object InsufficientReadQuorum
          else if says errErasureWriteQuorum then on_object InsufficientWriteQuorum
          else if says ErrUnexpectedEOF || says ErrShortWrite || says Canceled || says DeadlineExceeded
          then on_object IncompleteBody
          else PlainErr err)
  end.

(** ** Disks and their readers *)

(** What reading uses of [StorageAPI].  [ReadFile] is given the length of its
    buffer and the algorithm and sum of its verifier. *)
Class DiskReads (D : Type) := {
  Hostname : D -> string;
  ReadFileStream : D -> string -> string -> Z -> Z -> result stream;
  ReadFile : D -> string -> string -> Z -> nat -> Z -> bytes -> bytes * option error
}.

Inductive bitrotReader :=
| StreamingReader (b : streamingBitrotReader)
| WholeReader (b : wholeBitrotReader).

Section Read.
Context `{HashLib} {L : RSLibrary} {D : Type} `{DiskReads D}.

Definition newBitrotReader (disk : D) (data : bytes) (bucket filePath : string)
    (tillOffset algo : Z) (sum : bytes) (shardSize : Z) : option bitrotReader :=
  if algo =? HighwayHash256S then
    StreamingReader <$> newStreamingBitrotReader (ReadFileStream disk bucket filePath) data
                          tillOffset algo shardSize
  else Some (WholeReader (mkWhole (fun offset n => ReadFile disk bucket filePath offset n algo sum)
                            tillOffset None)).

(** [ReadAt] of an [io.ReaderAt] slot; a [nil] slot is never called. *)
Definition slot_ReadAt (r : option bitrotReader) (n offset : Z) : option bitrotReader * result bytes :=
  match r with
  | None => (None, Err errUnexpected)
  | Some (StreamingReader b) =>
      let '(b, res) := bitrot_ReadAt b n offset in (Some (StreamingReader b), res)
  | Some (WholeReader b) =>
      if n <? 0 then (r, Err errUnexpected)
      else match whole_ReadAt b (Z.to_nat n) offset with
           | Some (b, res) => (Some (WholeReader b), res)
           | None => (r, Err errUnexpected)
           end
  end.

(** The readers of one part, with the preference for local disks. *)
Fixpoint part_readers (bucket partPath : string) (e : Erasure) (partNumber tillOffset : Z)
    (disks : list (option D)) (metaArr : list FileInfo) : option (list (option bitrotReader * bool)) :=
  match disks with
  | [] => Some []
  | disk :: disks =>
      slot ← match disk with
             | None => Some (None, false)
             | Some disk =>
                 meta ← head metaArr;
                 if negb (FileInfo_IsValid meta) then Some (None, false)
                 else
                   let checksumInfo := GetChecksumInfo (fi_Erasure meta) partNumber in
                   r ← newBitrotReader disk (fi_Data meta) bucket partPath tillOffset
                         (ck_Algorithm checksumInfo) (ck_Hash checksumInfo) (ShardSize e);
                   Some (Some r, bool_decide (Hostname disk = ""))
             end;
      slots ← part_readers bucket partPath e partNumber tillOffset disks (tail metaArr);
      Some (slot :: slots)
  end.

(** The pointers to the readers of the slots. *)
Definition slot_ids (slots : list (option bitrotReader)) : list (option nat) :=
  imap (fun i r => match r with Some _ => Some i | None => None end) slots.

Definition part_name (partNumber : Z) : string := "part." +:+ Itoa partNumber.

(** ** The range of the object *)

Context (W : Writer) (bucket object : string) (fi : FileInfo).
(** Whether a disk of the set is being healed, as [getOnlineDisksWithHealing]
    says, and the schedules of the read goroutines by part and block. *)
Context (healing : bool) (sched : Z -> Z -> list nat).

(** [gs_once] is [healOnce]; [gs_heals] the scans that were asked for. *)
Record get_state := mkGet {
  gs_disks : list (option D);
  gs_writer : wstate W;
  gs_total : Z;
  gs_partOffset : Z;
  gs_once : bool;
  gs_heals : list HealScanMode
}.

Definition heal_scan (err : option error) : HealScanMode :=
  if errors_Is err (Some errFileNotFound) then HealNormalScan
  else if errors_Is err (Some errFileCorrupt) then HealDeepScan else HealUnknownScan.

(** The error of a decoded part that is left, and the heals asked for. *)
Definition after_decode (err : option error) (written partLength : Z) (once : bool)
    (heals : list HealScanMode) : option error * bool * list HealScanMode :=
  match err with
  | None => (None, once, heals)
  | Some _ =>
      if negb (written =? partLength) then (err, once, heals)
      else match heal_scan err with
           | HealUnknownScan => (err, once, heals)
           | scan => (None, true, if once || healing then heals else heals ++ [scan])
           end
  end.

(** The loop over the parts; [k] of them are left. *)
Fixpoint get_parts (e : Erasure) (metaArr : list FileInfo) (length : Z) (k : nat) (partIndex : nat)
    (s : get_state) : option (get_state * option ObjectErr) :=
  match k with
  | O => Some (s, None)
  | S k =>
      if length =? gs_total s then Some (s, None)
      else
        part ← fi_Parts fi !! partIndex;
        let partNumber := pt_Number part in
        let partSize := pt_Size part in
        let partOffset := gs_partOffset s in
        let partLength := (partSize - partOffset)%int64 in
        let left := sub64 length (gs_total s) in
        let partLength := if left <? partLength then left else partLength in
        tillOffset ← ShardFileOffset e partOffset partLength partSize;
        let partPath := pathJoin [object; fi_DataDir fi; part_name partNumber] in
        slots ← part_readers bucket partPath e partNumber tillOffset (gs_disks s) metaArr;
        let readers := slot_ids (slots.*1) in
        res ← Decode slot_ReadAt W e (sched (Z.of_nat partIndex)) (gs_writer s) readers (slots.*1)
                partOffset partLength partSize (slots.*2);
        let '(err, once, heals) :=
          after_decode (dr_err W res) (dr_written W res) partLength (gs_once s) (gs_heals s) in
        match err with
        | Some _ =>
            Some (mkGet (gs_disks s) (dr_writer W res) (gs_total s) partOffset once heals,
                  toObjectErr err [bucket; object])
        | None =>
            let disks := zip_with (fun (r : option nat) d => match r with None => None | Some _ => d end)
                           (dr_readers W res) (gs_disks s) in
            get_parts e metaArr length k (S partIndex)
              (mkGet disks (dr_writer W res) (gs_total s + partLength)%int64 0 once heals)
        end
  end.

(** The result: the writer, the heals asked for, and the returned error. *)
Definition getObjectWithFileInfo (startOffset length : Z) (writer : wstate W) (metaArr : list FileInfo)
    (onlineDisks : list (option D)) : option (wstate W * list HealScanMode * option ObjectErr) :=
  '(onlineDisks, metaArr) ← shuffleDisksAndPartsMetadataByIndex onlineDisks metaArr fi;
  let length := if length <? 0 then sub64 (fi_Size fi) startOffset else length in
  let invalid := Some (writer, [], Some (InvalidRangeErr startOffset length (fi_Size fi))) in
  if (fi_Size fi <? startOffset) || (fi_Size fi <? add64 startOffset length) then invalid
  else
    match ObjectToPartOffset fi startOffset with
    | Err _ => invalid
    | Ok (partIndex, partOffset) =>
        let endOffset := if 0 <? length then (startOffset + (length - 1))%int64 else startOffset in
        match ObjectToPartOffset fi endOffset with
        | Err _ => invalid
        | Ok (lastPartIndex, _) =>
            match NewErasure (ei_DataBlocks (fi_Erasure fi)) (ei_ParityBlocks (fi_Erasure fi))
                    (ei_BlockSize (fi_Erasure fi)) with
            | Err err => Some (writer, [], toObjectErr (Some err) [bucket; object])
            | Ok e =>
                '(s, err) ← get_parts e metaArr length (Z.to_nat (lastPartIndex - partIndex + 1))
                              (Z.to_nat partIndex) (mkGet onlineDisks writer 0 partOffset false []);
                Some (gs_writer s, gs_heals s, err)
            end
        end
    end.
End Read.

(** ** At most one preferred slot

    With at most one local disk [preferReaders] swaps at most once, and its table
    of buffers is right. *)

Lemma prefer_loop_none prefer : forall i next readers r2b,
  Forall (fun b => b = false) prefer -> prefer_loop prefer i next readers r2b = (readers, r2b).
Proof.
  induction prefer as [|b prefer IH]; intros i next readers r2b Hall; [done|].
  apply Forall_cons in Hall as [-> Hall]. by apply IH.
Qed.

Definition single (prefer : list bool) : Prop :=
  forall i j, prefer !! i = Some true -> prefer !! j = Some true -> i = j.

Lemma single_cons b prefer : single (b :: prefer) ->
  single prefer /\ (b = true -> Forall (fun c => c = false) prefer).
Proof.
  intros Hs. split.
  - intros i j Hi Hj. by injection (Hs (S i) (S j) Hi Hj).
  - intros ->. apply Forall_lookup. intros i [|] Hi; [|done]. by pose proof (Hs 0%nat (S i) eq_refl Hi).
Qed.

(** What a single preference leaves: nothing moved, or one swap with the first
    slot. *)
Lemma prefer_loop_single prefer : forall i readers r2b, single prefer ->
  prefer_loop prefer i 0 readers r2b = (readers, r2b) \/
  exists j r, (i <= j)%nat /\ readers !! j = Some (Some r) /\ j <> 0%nat /\
    prefer_loop prefer i 0 readers r2b =
      (<[j := default None (readers !! 0%nat)]> (<[0%nat := Some r]> readers), <[j := 0%nat]> (<[0%nat := j]> r2b)).
Proof.
  induction prefer as [|b prefer IH]; intros i readers r2b Hs; [by left|].
  apply single_cons in Hs as [Hs Hb]. cbn [prefer_loop].
  destruct b; cbn [negb orb]; [specialize (Hb eq_refl)|].
  - rewrite !prefer_loop_none by done. case_bool_decide as Hr; [by left|].
    destruct (Nat.eqb_spec i 0); [by left|]. right. destruct (readers !! i) as [[r|]|] eqn:Ei; try done.
    exists i, r. split_and!; [lia|done|done|done].
  - destruct (IH (S i) readers r2b Hs) as [->|(j & r & ? & ? & ? & ->)]; [by left|].
    right. exists j, r. split_and!; [lia|done|done|done].
Qed.

Lemma swap_perm {A} (l : list A) j x y : l !! 0%nat = Some x -> l !! j = Some y -> j <> 0%nat ->
  <[j := x]> (<[0%nat := y]> l) ≡ₚ l.
Proof.
  intros Hx Hy Hj. destruct l as [|x' l], j as [|j]; try done. injection Hx as ->. simpl in Hy |- *.
  rewrite <-(take_drop_middle l j y) at 2 by done.
  rewrite insert_take_drop by (by eapply lookup_lt_Some).
  by rewrite (Permutation_middle (take j l) _ y), (Permutation_middle (take j l) _ x), Permutation_swap.
Qed.

Lemma slots_ok_single readers prefer : indexed readers -> single prefer -> slots_ok readers prefer.
Proof.
  intros Hix Hs. unfold slots_ok, slots. set (ids := seq 0 (length readers)).
  assert (length ids = length readers) as Hl by apply length_seq.
  assert (NoDup ids) as Hnd by apply NoDup_seq.
  assert (Forall (fun b => b < length readers)%nat ids) as Hsm
    by (apply Forall_forall; intros x; unfold ids; rewrite elem_of_seq; lia).
  assert (forall i a, readers !! i = Some (Some a) -> ids !! i = Some a) as Hmap.
  { intros i a Hi. pose proof (Hix i a Hi) as ->. apply lookup_seq. split; [done|by eapply lookup_lt_Some]. }
  destruct (length prefer =? length readers)%nat; [|done].
  destruct (prefer_loop_single prefer 0 readers ids Hs) as [->|(j & r & _ & Hj & Hj0 & ->)]; [done|].
  assert (0 < length readers)%nat as Hpos by (apply lookup_lt_Some in Hj; lia).
  destruct (lookup_lt_is_Some_2 readers 0 Hpos) as [r0 Hr0]. rewrite Hr0. simpl.
  pose proof (Hix j r Hj) as ->. pose proof (Hmap j j Hj) as Hij.
  assert (ids !! 0%nat = Some 0%nat) as Hi0 by (by apply lookup_seq).
  pose proof (swap_perm ids j 0%nat j Hi0 Hij Hj0) as Hp2.
  split_and!.
  - by apply swap_perm.
  - by rewrite !length_insert.
  - by rewrite Hp2.
  - by rewrite Hp2.
  - intros i a Hi. pose proof (lookup_lt_Some _ _ _ Hij).
    destruct (decide (i = j)) as [->|].
    + rewrite list_lookup_insert_eq in Hi by (rewrite length_insert; by eapply lookup_lt_Some).
      rewrite list_lookup_insert_eq by (rewrite length_insert; lia).
      injection Hi as ->. f_equal. symmetry. by apply (Hix 0%nat).
    + rewrite list_lookup_insert_ne by done. rewrite list_lookup_insert_ne in Hi by done.
      destruct (decide (i = 0%nat)) as [->|].
      * rewrite list_lookup_insert_eq in Hi by lia. rewrite list_lookup_insert_eq by lia. congruence.
      * rewrite list_lookup_insert_ne by done. rewrite list_lookup_insert_ne in Hi by done. by apply Hmap.
Qed.

(** ** The readers of a slot deliver shards *)

Lemma whole_ReadAt_fills w n off w' b : whole_ReadAt w n off = Some (w', Ok b) -> length b = n.
Proof.
  unfold whole_ReadAt. intros Hr.
  destruct (wr_buf w) as [buf|];
    [|destruct (_ <? 0); [done|]; destruct (wr_ReadFile w off _) as [buf [?|]]; [done|]];
    (destruct (Nat.ltb_spec (length buf) n); [done|]; injection Hr as _ <-; rewrite length_take; lia).
Qed.

Lemma slot_fills `{HashLib} : ReadAt_fills slot_ReadAt.
Proof.
  intros r n off r' b. destruct r as [[s|w]|]; cbn [slot_ReadAt]; [| |done].
  - destruct (bitrot_ReadAt s n off) as [s' res] eqn:E. intros [= _ ->]. exact (bitrot_fills _ _ _ _ _ E).
  - destruct (Z.ltb_spec n 0); [done|]. destruct (whole_ReadAt w (Z.to_nat n) off) as [[w' res]|] eqn:E; [|done].
    intros [= _ ->]. apply whole_ReadAt_fills in E. lia.
Qed.

(** A whole-file reader whose disk returns the verified file. *)
Definition whole_serves (s : nat) (ps : list bytes) (o : option nat) (w : wholeBitrotReader) : Prop :=
  (0 < s)%nat /\ pieces_ok s ps /\ len (concat ps) < 2 ^ 62 /\
  match o with
  | None => wr_buf w = None /\ wr_tillOffset w = len (concat ps) /\
      forall k, (k < length ps)%nat ->
        wr_ReadFile w (Z.of_nat k * Z.of_nat s) (length (concat (drop k ps))) = (concat (drop k ps), None)
  | Some k => wr_buf w = Some (concat (drop k ps))
  end.

Lemma pieces_prefix_length s ps k : pieces_ok s ps -> (k < length ps)%nat ->
  (length (concat ps) = k * s + length (concat (drop k ps)))%nat.
Proof.
  revert k. induction ps as [|p ps IH]; intros [|k] Hok Hk; simpl in *; [lia..|].
  destruct Hok as (_ & Hf & Hok). rewrite length_app, (IH k Hok) by lia.
  rewrite Hf by (intros ->; simpl in *; lia). lia.
Qed.

Lemma whole_serves_read s ps o w k p : whole_serves s ps o w -> o = None \/ o = Some k ->
  ps !! k = Some p ->
  exists w', whole_ReadAt w (length p) (Z.of_nat k * Z.of_nat s) = Some (w', Ok p) /\
    whole_serves s ps (Some (S k)) w'.
Proof.
  intros (Hs & Hok & Hlt & Ho) Hk Hp. pose proof (lookup_lt_Some _ _ _ Hp) as Hkl.
  pose proof (pieces_prefix_length s ps k Hok Hkl) as Hlen. pose proof (drop_S _ _ _ Hp) as Hd.
  unfold whole_ReadAt. destruct Hk as [-> | ->].
  - destruct Ho as (-> & -> & Hrf). unfold sub64. rewrite wrap64_id by (unfold int64_range; nia).
    replace (len (concat ps) - Z.of_nat k * Z.of_nat s) with (len (concat (drop k ps))) by lia.
    destruct (Z.ltb_spec (len (concat (drop k ps))) 0); [lia|]. rewrite Nat2Z.id, Hrf, Hd by done.
    simpl. rewrite length_app. destruct (Nat.ltb_spec (length p + length (concat (drop (S k) ps))) (length p)); [lia|].
    rewrite take_app_length, drop_app_length. eexists. split; [done|]. by split_and!.
  - rewrite Ho, Hd. simpl. rewrite length_app.
    destruct (Nat.ltb_spec (length p + length (concat (drop (S k) ps))) (length p)); [lia|].
    rewrite take_app_length, drop_app_length. eexists. split; [done|]. by split_and!.
Qed.

Definition slot_serves `{HashLib} (s : nat) (ps : list bytes) (o : option nat) (r : option bitrotReader) : Prop :=
  match r with
  | Some (StreamingReader b) => bitrot_serves s ps o b
  | Some (WholeReader w) => whole_serves s ps o w
  | None => False
  end.

Definition slot_honest `{HashLib} (s : nat) (ps : list bytes) (r : option bitrotReader) : Prop :=
  match r with
  | Some (StreamingReader b) => bitrot_honest s ps b
  | _ => False
  end.

#[export] Instance slot_shard_reader `{HashLib} : ShardReader (option bitrotReader).
Proof.
  refine {| ReadAt := slot_ReadAt; serves := slot_serves; honest := slot_honest; ReadAt_ok := slot_fills |}.
  - intros s ps o [[b|w]|] k p Hs Ho Hp; cbn [slot_serves slot_ReadAt] in *; [| |done].
    + destruct (bitrot_serves_read s ps o b k p Hs Ho Hp) as (b' & -> & Hb'). by eexists.
    + destruct (whole_serves_read s ps o w k p Hs Ho Hp) as (w' & Hr & Hw').
      destruct (Z.ltb_spec (len p) 0); [lia|]. rewrite Nat2Z.id, Hr. by eexists.
  - intros s ps [[b|w]|] k p r' c Hh Hp; cbn [slot_honest slot_ReadAt] in *; [|done..].
    destruct (bitrot_ReadAt b (len p) _) as [b' res] eqn:E. intros [= <- ->].
    by destruct (bitrot_honest_read s ps b k p b' c Hh Hp E).
Defined.

(** ** Parts on disks *)

Section Parts.
Context `{HashLib} {L : RSLibrary} (e : Erasure) (Hwf : erasure_wf e).
Context {LL : RSLaws L (dataBlocks e) (parityBlocks e)}.
Context {D : Type} `{DiskReads D} (bucket : string).

(** A file that the disk streams from any offset. *)
Definition holds_file (disk : D) (path : string) (file : bytes) : Prop :=
  forall off n, 0 <= off -> 0 < n -> off + n <= len file -> exists rest err,
    ReadFileStream disk bucket path off n = Ok (mkStream (slice_to (slice_from file off) n ++ rest) err).

(** The disk has shard [i] of a part with the bytes [dt]: in its metadata, in a
    file of checksummed blocks, or in a file that [ReadFile] verifies as a whole. *)
Definition intact_part (disk : D) (meta : FileInfo) (path : string) (number : Z) (dt : bytes) (i : nat) : Prop :=
  let ck := GetChecksumInfo (fi_Erasure meta) number in
  if ck_Algorithm ck =? HighwayHash256S
  then fi_Data meta = stored e dt i \/ (fi_Data meta = [] /\ holds_file disk path (stored e dt i))
  else forall off n, 0 <= off -> off + Z.of_nat n <= len (concat (shard_file e dt i)) ->
         ReadFile disk bucket path off n (ck_Algorithm ck) (ck_Hash ck)
           = (take n (slice_from (concat (shard_file e dt i)) off), None).

(** The disk has lost the shard or part of it, or returns other bytes, but none
    that pass for the shard under their checksums. *)
Definition damaged_part (disk : D) (meta : FileInfo) (path : string) (number : Z) (dt : bytes) (i : nat) : Prop :=
  ck_Algorithm (GetChecksumInfo (fi_Erasure meta) number) = HighwayHash256S /\
  exists content, detected (ss e) (shard_file e dt i) content /\
    ((fi_Data meta = content /\ content <> []) \/
     (fi_Data meta = [] /\ forall off n st, 0 <= off ->
        ReadFileStream disk bucket path off n = Ok st -> st_data st `prefix_of` slice_from content off)).

Context (dt : bytes) (dt_small : len dt < 2 ^ 50) (bs_small : blockSize e < 2 ^ 50).
Context (offset length : Z) (off_pos : 0 <= offset) (len_pos : 0 <= length)
  (in_part : offset + length <= len dt).
Local Abbreviation lim := (Z.to_nat ((offset + length) / blockSize e + 1)).

Lemma part_sizes i : (i < n e)%nat -> sizes_ok (ss e) (shard e dt lim i).
Proof.
  intros Hi. destruct (decide (dt = [])) as [Hnil|Hne]; [|by apply shard_sizes].
  destruct (geometry e Hwf) as (Hb & Hs & _). unfold shard, shard_file. rewrite Hnil, blocks_of_nil by done.
  simpl. rewrite take_nil. split_and!; [lia|done|simpl; lia].
Qed.

Lemma part_pieces i : (i < n e)%nat -> pieces_ok (ss e) (shard_file e dt i).
Proof. intros Hi. apply (shard_file_shape e Hwf i dt Hi); lia. Qed.

Lemma concat_drop s ps k : pieces_ok s ps -> (k < List.length ps)%nat ->
  drop (k * s) (concat ps) = concat (drop k ps).
Proof.
  revert k. induction ps as [|p ps IH]; intros [|k] Hok Hk; simpl in *; [lia..|done|].
  destruct Hok as (_ & Hf & Hok). rewrite <-(Hf ltac:(intros ->; simpl in *; lia)) at 1.
  rewrite <-drop_drop, drop_app_length. apply IH; [done|lia].
Qed.

Lemma new_streaming open data i : (i < n e)%nat -> exists till b,
  ShardFileOffset e offset length (len dt) = Some till /\
  newStreamingBitrotReader open data till HighwayHash256S (ShardSize e) = Some b /\
  sr_data b = data /\ sr_open b = open /\ sr_rc b = None /\ sr_algo b = HighwayHash256S /\
  sr_shardSize b = Z.of_nat (ss e) /\ sr_tillOffset b = len (bitrot_encode HighwayHash256S (shard e dt lim i)).
Proof.
  intros Hi. eexists _, _. pose proof (part_sizes i Hi) as Hsz.
  split; [apply (shard_till e Hwf i); lia|]. unfold newStreamingBitrotReader.
  change (Algorithm_New HighwayHash256S) with (Some (hash_sum HighwayHash256S)).
  cbn [mbind option_bind]. split; [reflexivity|].
  destruct (sizes_encode _ _ Hsz) as [He Hl]. pose proof Hsz as (Hs & Hok & _).
  destruct (geometry e Hwf) as (Hb & Hs' & _ & Ebs & Ess & _).
  rewrite length_encode in He. cbn [sr_data sr_open sr_rc sr_algo sr_shardSize sr_tillOffset].
  split_and!; [done..|]. rewrite Ess, pieces_ok_count, length_encode by (done || lia). unfold add64, mul64.
  rewrite (wrap64_id (_ * _)), wrap64_id by (unfold int64_range; lia). lia.
Qed.

Lemma stored_split i : stored e dt i = bitrot_encode HighwayHash256S (shard e dt lim i) ++
  bitrot_encode HighwayHash256S (drop lim (shard_file e dt i)).
Proof. unfold stored, shard. by rewrite <-encode_app, take_drop. Qed.

Lemma intact_streams disk meta path i b : (i < n e)%nat ->
  fi_Data meta = stored e dt i \/ (fi_Data meta = [] /\ holds_file disk path (stored e dt i)) ->
  sr_data b = fi_Data meta -> sr_open b = ReadFileStream disk bucket path -> sr_rc b = None ->
  sr_algo b = HighwayHash256S -> sr_shardSize b = Z.of_nat (ss e) ->
  sr_tillOffset b = len (bitrot_encode HighwayHash256S (shard e dt lim i)) ->
  bitrot_serves (ss e) (shard e dt lim i) None b.
Proof.
  intros Hi Hsrc Hd Ho Hrc Ha Hs Ht. split; [by apply part_sizes|]. unfold reader_fresh.
  split_and!; [done..|]. rewrite Hd, Ho, (stored_split i) in *.
  destruct (decide (shard e dt lim i = [])) as [Hnil|Hne].
  - right. rewrite Hnil in *. split; [|simpl; lia].
    destruct Hsrc as [->|[-> _]]; [|done].
    assert (0 <= (offset + length) / blockSize e) by (apply Z.div_pos; [lia|destruct Hwf as (?&?&?&?); lia]).
    unfold shard in Hnil. replace lim with (S (lim - 1)) in * by lia. by destruct (shard_file e dt i).
  - destruct Hsrc as [->|[-> Hf]]; [left; split; [done|by eexists]|right]. split; [done|].
    intros off m Hoff Hend Hm. destruct (Hf off m) as (rest & err & ->);
      [done|done|rewrite length_app; lia|]. exists rest, err. do 4 f_equal.
    unfold slice_to, slice_from. rewrite drop_app_le by lia. rewrite take_app_le by (rewrite length_drop; lia).
    apply take_ge. rewrite length_drop. lia.
Qed.

Lemma intact_whole disk meta path number i :
  (i < n e)%nat -> ck_Algorithm (GetChecksumInfo (fi_Erasure meta) number) <> HighwayHash256S ->
  intact_part disk meta path number dt i ->
  let ck := GetChecksumInfo (fi_Erasure meta) number in
  whole_serves (ss e) (shard e dt lim i) None
    (mkWhole (fun off m => ReadFile disk bucket path off m (ck_Algorithm ck) (ck_Hash ck))
       (len (concat (shard e dt lim i))) None).
Proof.
  intros Hi Ha Hint ck. unfold intact_part in Hint. fold ck in Hint, Ha.
  rewrite (proj2 (Z.eqb_neq _ _) Ha) in Hint. pose proof (part_sizes i Hi) as Hsz.
  destruct (sizes_encode _ _ Hsz) as [_ Hl]. pose proof Hsz as (Hs & Hok & _).
  pose proof (length_concat_pieces _ _ Hok). split_and!; [done|done|lia|done|done|].
  cbn [wr_ReadFile]. intros k Hk. pose proof (part_pieces i Hi) as Hokf.
  assert (k < List.length (shard_file e dt i))%nat as Hkf by (unfold shard in Hk; rewrite length_take in Hk; lia).
  pose proof (pieces_prefix_length _ _ k Hokf Hkf) as Hlen.
  assert (concat (drop k (shard_file e dt i)) =
    concat (drop k (shard e dt lim i)) ++ concat (drop (lim - k) (drop k (shard_file e dt i)))) as Hsp.
  { rewrite <-concat_app. f_equal. unfold shard. rewrite skipn_firstn_comm. symmetry. apply take_drop. }
  rewrite Hint.
  - f_equal. unfold slice_from. rewrite <-Nat2Z.inj_mul, Nat2Z.id, (concat_drop _ _ _ Hokf Hkf), Hsp.
    apply take_app_length.
  - lia.
  - rewrite Hlen, Hsp, length_app. lia.
Qed.

(** Whatever the range, a reader on an intact part serves its shard. *)
Lemma intact_opens disk meta path number i : (i < n e)%nat -> intact_part disk meta path number dt i ->
  let ck := GetChecksumInfo (fi_Erasure meta) number in
  exists till r, ShardFileOffset e offset length (len dt) = Some till /\
    newBitrotReader disk (fi_Data meta) bucket path till (ck_Algorithm ck) (ck_Hash ck) (ShardSize e) = Some r /\
    slot_serves (ss e) (shard e dt lim i) None (Some r).
Proof.
  intros Hi Hint ck. unfold newBitrotReader. destruct (Z.eqb_spec (ck_Algorithm ck) HighwayHash256S) as [Ea|Ea].
  - rewrite Ea. destruct (new_streaming (ReadFileStream disk bucket path) (fi_Data meta) i Hi)
      as (till & b & Ht & Hb & ? & ? & ? & ? & ? & ?).
    exists till, (StreamingReader b). split_and!; [done|by rewrite Hb|]. cbn [slot_serves].
    unfold intact_part in Hint. fold ck in Hint. rewrite Ea, Z.eqb_refl in Hint. by eapply intact_streams.
  - eexists _, _. split_and!; [apply (shard_till e Hwf i); lia|reflexivity|]. by apply intact_whole.
Qed.

(** A reader on a damaged part delivers nothing but its shard. *)
Lemma damaged_opens disk meta path number i : (i < n e)%nat -> damaged_part disk meta path number dt i ->
  let ck := GetChecksumInfo (fi_Erasure meta) number in
  exists till r, ShardFileOffset e offset length (len dt) = Some till /\
    newBitrotReader disk (fi_Data meta) bucket path till (ck_Algorithm ck) (ck_Hash ck) (ShardSize e) = Some r /\
    slot_honest (ss e) (shard e dt lim i) (Some r).
Proof.
  intros Hi (Ea & content & Hdet & Hsrc) ck. unfold newBitrotReader. fold ck in Ea. rewrite Ea, Z.eqb_refl.
  destruct (new_streaming (ReadFileStream disk bucket path) (fi_Data meta) i Hi)
    as (till & b & Ht & Hb & Hd & Ho & Hrc & Ha & Hs & _).
  exists till, (StreamingReader b). split_and!; [done|by rewrite Hb|]. cbn [slot_honest].
  split_and!; [by apply part_sizes|done|done|]. exists content. split.
  - intros k p sum buf rest Hp. apply (Hdet k p sum buf rest). unfold shard in Hp. by apply lookup_take_Some in Hp as [? _].
  - left. split; [done|]. unfold reads_content. by rewrite Hd, Ho.
Qed.
End Parts.

(** ** One part *)

Section PartReaders.
Context `{HashLib} {D : Type} `{DiskReads D} (bucket path : string) (e : Erasure) (number till : Z).

(** The reader and the preference of a slot. *)
Definition slot_of (disk : option D) (meta : FileInfo) : option bitrotReader * bool :=
  match disk with
  | Some disk =>
      let ck := GetChecksumInfo (fi_Erasure meta) number in
      if FileInfo_IsValid meta
      then (newBitrotReader disk (fi_Data meta) bucket path till (ck_Algorithm ck) (ck_Hash ck) (ShardSize e),
            bool_decide (Hostname disk = ""))
      else (None, false)
  | None => (None, false)
  end.

Definition opens (disk : D) (meta : FileInfo) : Prop :=
  let ck := GetChecksumInfo (fi_Erasure meta) number in
  is_Some (newBitrotReader disk (fi_Data meta) bucket path till (ck_Algorithm ck) (ck_Hash ck) (ShardSize e)).

Lemma part_readers_spec disks : forall metas, length metas = length disks ->
  (forall i disk meta, disks !! i = Some (Some disk) -> metas !! i = Some meta ->
     FileInfo_IsValid meta = true -> opens disk meta) ->
  part_readers bucket path e number till disks metas = Some (zip_with slot_of disks metas).
Proof.
  induction disks as [|disk disks IH]; intros [|meta metas] Hl Hop; try done.
  cbn [part_readers head tail zip_with]. rewrite (IH metas); [|by injection Hl|].
  2:{ intros i d m Hd Hm. by apply (Hop (S i)). }
  destruct disk as [disk|]; cbn [mbind option_bind slot_of]; [|done].
  destruct (FileInfo_IsValid meta) eqn:Ev; [|done]. cbn [negb].
  destruct (Hop 0%nat disk meta eq_refl eq_refl Ev) as [r ->]. done.
Qed.

Lemma slot_ids_lookup slots i : slot_ids slots !! i =
  match slots !! i with Some (Some _) => Some (Some i) | Some None => Some None | None => None end.
Proof. unfold slot_ids. rewrite list_lookup_imap. by destruct (slots !! i) as [[r|]|]. Qed.

Lemma slot_ids_indexed slots : indexed (slot_ids slots).
Proof. intros i a. rewrite slot_ids_lookup. destruct (slots !! i) as [[r|]|]; naive_solver. Qed.

Lemma slots_single disks metas :
  (forall i j di dj, disks !! i = Some (Some di) -> disks !! j = Some (Some dj) ->
     Hostname di = "" -> Hostname dj = "" -> i = j) ->
  single ((zip_with slot_of disks metas).*2).
Proof.
  intros Hone i j Hi Hj. rewrite !list_lookup_fmap, !lookup_zip_with in Hi, Hj.
  assert (forall k, snd <$> (x ← disks !! k; y ← metas !! k; Some (slot_of x y)) = Some true ->
    exists d, disks !! k = Some (Some d) /\ Hostname d = "") as Hk.
  { intros k. destruct (disks !! k) as [[d|]|], (metas !! k) as [m|]; cbn; try done.
    destruct (FileInfo_IsValid m); cbn; [|done]. intros [= ?%bool_decide_eq_true]. by exists d. }
  destruct (Hk i Hi) as (di & ? & ?), (Hk j Hj) as (dj & ? & ?). by eapply Hone.
Qed.
End PartReaders.

Section GetFacts.
Context `{HashLib} {L : RSLibrary} (e : Erasure) (Hwf : erasure_wf e).
Context {LL : RSLaws L (dataBlocks e) (parityBlocks e)}.
Context {D : Type} `{DiskReads D} (bucket object : string) (fi : FileInfo).
Context (metas : list FileInfo) (disks0 : list (option D)) (datas : list bytes) (gs : list nat).

Definition part_path (part : ObjectPartInfo) : string :=
  pathJoin [object; fi_DataDir fi; part_name (pt_Number part)].

(** The parts hold the bytes [datas]. *)
Definition parts_hold : Prop := Forall2 (fun part dt => pt_Size part = len dt) (fi_Parts fi) datas.

(** [P] holds of every part on disk [i]. *)
Definition on_parts (P : ObjectPartInfo -> bytes -> Prop) : Prop :=
  forall j part dt, fi_Parts fi !! j = Some part -> datas !! j = Some dt -> P part dt.

(** The disks an object can be read from: the disks [gs] hold every part, at
    least as many as there are data blocks; the parts of every other disk with
    valid metadata are intact or detectably damaged; at most one disk is local. *)
Definition set_holds : Prop :=
  length disks0 = n e /\ length metas = n e /\ NoDup gs /\ (d e <= length gs)%nat /\
  (forall g, g ∈ gs -> exists disk meta, disks0 !! g = Some (Some disk) /\ metas !! g = Some meta /\
     FileInfo_IsValid meta = true /\
     on_parts (fun part dt => intact_part e bucket disk meta (part_path part) (pt_Number part) dt g)) /\
  (forall i disk meta, disks0 !! i = Some (Some disk) -> metas !! i = Some meta ->
     FileInfo_IsValid meta = true ->
     on_parts (fun part dt => intact_part e bucket disk meta (part_path part) (pt_Number part) dt i \/
                              damaged_part e bucket disk meta (part_path part) (pt_Number part) dt i)) /\
  (forall i j di dj, disks0 !! i = Some (Some di) -> disks0 !! j = Some (Some dj) ->
     Hostname di = "" -> Hostname dj = "" -> i = j).

Context (Hset : set_holds) (Hparts : parts_hold).
Context (small : len (concat datas) < 2 ^ 50) (bs_small : blockSize e < 2 ^ 50).

(** The disks that are left during the read. *)
Definition disks_left (disks : list (option D)) : Prop :=
  length disks = n e /\ (forall i x, disks !! i = Some (Some x) -> disks0 !! i = Some (Some x)) /\
  forall g, g ∈ gs -> disks !! g = disks0 !! g.

Lemma part_small j dt : datas !! j = Some dt -> len dt < 2 ^ 50.
Proof.
  intros Hj. assert (length dt <= length (concat datas))%nat; [|lia].
  rewrite <-(take_drop_middle datas j dt) at 1 by done.
  rewrite concat_app, length_app, concat_cons, length_app. lia.
Qed.

Lemma part_opens disks j part dt off lg till i disk meta : disks_left disks ->
  fi_Parts fi !! j = Some part -> datas !! j = Some dt ->
  0 <= off -> 0 <= lg -> off + lg <= len dt ->
  ShardFileOffset e off lg (len dt) = Some till ->
  disks !! i = Some (Some disk) -> metas !! i = Some meta -> FileInfo_IsValid meta = true ->
  let lim := Z.to_nat ((off + lg) / blockSize e + 1) in
  exists r, (slot_of bucket (part_path part) e (pt_Number part) till (Some disk) meta).1 = Some r /\
    (slot_serves (ss e) (shard e dt lim i) None (Some r) \/
     slot_honest (ss e) (shard e dt lim i) (Some r)) /\
    (i ∈ gs -> slot_serves (ss e) (shard e dt lim i) None (Some r)).
Proof.
  intros (Hl & Hin & _) Hp Hd Ho Hlen Hr Ht Hi Hm Hv lim. pose proof (part_small j dt Hd).
  destruct Hset as (_ & _ & _ & _ & Hgs & Hall & _). cbn [slot_of]. rewrite Hv. cbn [fst].
  assert (i < n e)%nat as Hi' by (rewrite <-Hl; by eapply lookup_lt_Some).
  destruct (decide (i ∈ gs)) as [Hg|Hg].
  - destruct (Hgs i Hg) as (disk' & meta' & Hd' & Hm' & _ & Hint). rewrite (Hin i disk Hi) in Hd'.
    rewrite Hm in Hm'. injection Hd' as <-. injection Hm' as <-.
    destruct (intact_opens e Hwf bucket dt ltac:(lia) bs_small off lg Ho Hlen ltac:(lia) disk meta
      (part_path part) (pt_Number part) i Hi' (Hint j part dt Hp Hd)) as (till' & r & Ht' & Hr' & Hs).
    rewrite Ht in Ht'. injection Ht' as <-. exists r. by split_and!; [|left|].
  - destruct (Hall i disk meta (Hin i disk Hi) Hm Hv j part dt Hp Hd) as [Hint|Hdam].
    + destruct (intact_opens e Hwf bucket dt ltac:(lia) bs_small off lg Ho Hlen ltac:(lia) disk meta
        (part_path part) (pt_Number part) i Hi' Hint) as (till' & r & Ht' & Hr' & Hs).
      rewrite Ht in Ht'. injection Ht' as <-. exists r. by split_and!; [|left|].
    + destruct (damaged_opens e Hwf bucket dt ltac:(lia) bs_small off lg Ho Hlen ltac:(lia) disk meta
        (part_path part) (pt_Number part) i Hi' Hdam) as (till' & r & Ht' & Hr' & Hs).
      rewrite Ht in Ht'. injection Ht' as <-. exists r. by split_and!; [|right|].
Qed.

(** A range of a part is read from the disks that are left, and the disks that
    hold the object stay. *)
Lemma part_decoded disks j part dt off lg sched out : disks_left disks ->
  fi_Parts fi !! j = Some part -> datas !! j = Some dt ->
  0 <= off -> 0 <= lg -> off + lg <= len dt ->
  exists till slots res, ShardFileOffset e off lg (pt_Size part) = Some till /\
    part_readers bucket (part_path part) e (pt_Number part) till disks metas = Some slots /\
    Decode slot_ReadAt Buffer e sched out (slot_ids (slots.*1)) (slots.*1) off lg (pt_Size part) (slots.*2)
      = Some res /\
    dr_writer Buffer res = out ++ range dt off (off + lg) /\ dr_written Buffer res = lg /\
    (dr_err Buffer res = None \/ reportable (dr_err Buffer res) = true) /\
    disks_left (zip_with (fun (r : option nat) d => match r with None => None | Some _ => d end)
                  (dr_readers Buffer res) disks).
Proof.
  intros Hleft Hp Hd Ho Hl Hr. pose proof (part_small j dt Hd) as Hsm. pose proof Hleft as (Hld & Hin & Hg).
  pose proof Hset as (Hl0 & Hlm & Hnd & Hen & Hgs & _ & Hone).
  assert (pt_Size part = len dt) as -> by (eapply (Forall2_lookup_lr _ _ _ _ _ _ Hparts); done).
  destruct (geometry e Hwf) as (_ & _ & Hdn & _). 
  assert (exists till, ShardFileOffset e off lg (len dt) = Some till) as [till Ht]
    by (eexists; apply (shard_till e Hwf 0); lia).
  set (lim := Z.to_nat ((off + lg) / blockSize e + 1)).
  set (slots := zip_with (slot_of bucket (part_path part) e (pt_Number part) till) disks metas).
  assert (length slots = n e) as Hls by (unfold slots; rewrite length_zip_with; lia).
  pose proof (part_opens disks j part dt off lg till) as Hopen.
  assert (drives_ok e dt lim (slot_ids (slots.*1)) (slots.*1) gs) as Hdr.
  { split_and!; [unfold slot_ids; by rewrite length_imap, length_fmap|apply slot_ids_indexed| |done|done|].
    - intros i a Hi. pose proof (slot_ids_indexed _ _ _ Hi) as ->. rewrite slot_ids_lookup in Hi.
      destruct (slots.*1 !! i) as [[r|]|] eqn:Er; try done. exists (Some r). split; [done|].
      unfold slots in Er. rewrite list_lookup_fmap, lookup_zip_with in Er.
      destruct (disks !! i) as [[disk|]|] eqn:Edi, (metas !! i) as [meta|] eqn:Em; try done.
      cbn in Er. destruct (FileInfo_IsValid meta) eqn:Ev; [|done].
      destruct (Hopen i disk meta) as (r' & Hr' & Hsh & _); try done.
      cbn [slot_of] in Hr'. rewrite Ev in Hr'. cbn in Er, Hr'. rewrite Hr' in Er. by injection Er as <-.
    - intros g Hgg. destruct (Hgs g Hgg) as (disk & meta & Hd0 & Hm & Hv & _). rewrite <-(Hg g Hgg) in Hd0.
      destruct (Hopen g disk meta) as (r' & Hr' & _ & Hsv); try done.
      assert (slots.*1 !! g = Some (Some r')) as Es
        by (unfold slots; rewrite list_lookup_fmap, lookup_zip_with, Hd0, Hm; cbn [mbind option_bind fmap option_fmap option_map]; by rewrite Hr').
      split; [by rewrite slot_ids_lookup, Es|]. exists (Some r'). split; [done|]. by apply Hsv. }
  destruct (Decode_spec e Hwf dt ltac:(lia) ltac:(lia) lim (slot_ids (slots.*1)) (slots.*1) gs off lg (slots.*2)
    sched out Hdr) as (res & HD & Hw & Hn & He & Hlr & Hkeep); [|done|done|done| |].
  { apply slots_ok_single; [apply slot_ids_indexed|]. apply slots_single.
    intros i k di dk Hi Hk. apply Hone; by apply Hin. }
  { assert (0 <= (off + lg) / blockSize e) by (apply Z.div_pos; [lia|destruct Hwf as (?&?&?&?); lia]). lia. }
  exists till, slots, res. split_and!; try done.
  - apply part_readers_spec; [lia|]. intros i disk meta Hi Hm Hv.
    destruct (Hopen i disk meta) as (r & Hr' & _); try done. cbn [slot_of] in Hr'. rewrite Hv in Hr'. by eexists.
  - split_and!; [rewrite length_zip_with; lia| |].
    { intros i x. rewrite lookup_zip_with.
      destruct (dr_readers Buffer res !! i) as [[?|]|], (disks !! i) as [?|] eqn:Ei; cbn; try done.
      intros [= ->]. by apply Hin. }
    intros g Hgg. rewrite lookup_zip_with, (Hkeep g Hgg), (Hg g Hgg). cbn. by destruct (disks0 !! g).
Qed.

(** ** All parts *)

Definition before (j : nat) : Z := len (concat (take j datas)).

Lemma before_S j dt : datas !! j = Some dt -> before (S j) = before j + len dt.
Proof.
  intros Hj. unfold before. rewrite (take_S_r _ _ _ Hj), concat_app, length_app.
  cbn [concat]. rewrite app_nil_r. lia.
Qed.

Lemma range_part j dt o m : datas !! j = Some dt -> 0 <= o -> 0 <= m -> o + m <= len dt ->
  range dt o (o + m) = range (concat datas) (before j + o) (before j + o + m).
Proof.
  intros Hj Ho Hm Hr. unfold range, before.
  assert (concat datas = concat (take j datas) ++ dt ++ concat (drop (S j) datas)) as ->
    by (rewrite <-concat_cons, <-concat_app, take_drop_middle; done).
  replace (Z.to_nat (len (concat (take j datas)) + o)) with (length (concat (take j datas)) + Z.to_nat o)%nat by lia.
  rewrite <-drop_drop, drop_app_length, drop_app_le, take_app_le by (rewrite ?length_drop; lia).
  f_equal. lia.
Qed.

Lemma after_decode_ok healing err lg once heals : err = None \/ reportable err = true ->
  exists once' heals', after_decode healing err lg lg once heals = (None, once', heals').
Proof.
  intros Herr. unfold after_decode. destruct err as [err|]; [|by eexists _, _].
  destruct Herr as [?|Herr]; [done|]. rewrite Z.eqb_refl. cbn [negb].
  unfold reportable in Herr. unfold heal_scan.
  destruct (errors_Is (Some err) (Some errFileNotFound)); [by eexists _, _|].
  destruct (errors_Is (Some err) (Some errFileCorrupt)); [by eexists _, _|done].
Qed.

Context (healing : bool) (sched : Z -> Z -> list nat) (off lg : Z) (last : nat).
Context (off_pos : 0 <= off) (lg_pos : 0 <= lg) (in_object : off + lg <= len (concat datas)).
Context (last_in : (last < length datas)%nat) (last_end : off + lg <= before (S last)).

(** What is read before part [j]. *)
Definition reading (j : nat) (s : get_state (D := D) Buffer) : Prop :=
  disks_left (gs_disks Buffer s) /\ 0 <= gs_total Buffer s <= lg /\
  (gs_total Buffer s = lg \/
   (off + gs_total Buffer s = before j + gs_partOffset Buffer s /\ 0 <= gs_partOffset Buffer s /\
    forall dt, datas !! j = Some dt -> gs_partOffset Buffer s <= len dt)).

Lemma get_parts_spec k : forall j s, (j + k = S last)%nat -> reading j s ->
  exists s', get_parts Buffer bucket object fi healing sched e metas lg k j s = Some (s', None) /\
    gs_writer Buffer s' = gs_writer Buffer s ++ range (concat datas) (off + gs_total Buffer s) (off + lg).
Proof.
  induction k as [|k IH]; intros j s Hj (Hleft & Ht & Hpos); cbn [get_parts].
  { exists s. split; [done|]. assert (gs_total Buffer s = lg) as ->; [|by rewrite range_empty, app_nil_r].
    destruct Hpos as [?|(Hp & Ho & _)]; [done|]. replace j with (S last) in Hp by lia. lia. }
  destruct (Z.eqb_spec lg (gs_total Buffer s)) as [E|E].
  { exists s. split; [done|]. by rewrite <-E, range_empty, app_nil_r. }
  destruct Hpos as [?|(Hp & Ho & Hfit)]; [lia|].
  destruct (lookup_lt_is_Some_2 datas j ltac:(lia)) as [dt Hd]. specialize (Hfit dt Hd).
  destruct (lookup_lt_is_Some_2 (fi_Parts fi) j) as [part Hpart].
  { pose proof (Forall2_length _ _ _ Hparts). lia. }
  assert (pt_Size part = len dt) as Hsz by (eapply (Forall2_lookup_lr _ _ _ _ _ _ Hparts); done).
  pose proof (part_small j dt Hd). rewrite Hpart. cbn [mbind option_bind]. unfold sub64, add64.
  rewrite !wrap64_id by (unfold int64_range; lia).
  set (pl := if _ <? _ then _ else _).
  assert (0 <= pl /\ gs_partOffset Buffer s + pl <= len dt /\ pl <= lg - gs_total Buffer s /\
    (pl = lg - gs_total Buffer s \/ gs_partOffset Buffer s + pl = len dt)) as (Hpl & Hpl1 & Hpl2 & Hpl3).
  { unfold pl. destruct (Z.ltb_spec (lg - gs_total Buffer s) (pt_Size part - gs_partOffset Buffer s)); lia. }
  clearbody pl.
  destruct (part_decoded (gs_disks Buffer s) j part dt (gs_partOffset Buffer s) pl (sched (Z.of_nat j))
    (gs_writer Buffer s) Hleft Hpart Hd Ho Hpl Hpl1)
    as (till & slots & res & -> & Hslots & Hdec & Hw & Hn & Herr & Hleft'). cbn [mbind option_bind].
  unfold part_path in Hslots. rewrite Hslots. cbn [mbind option_bind]. rewrite Hdec. cbn [mbind option_bind].
  rewrite Hn. destruct (after_decode_ok healing (dr_err Buffer res) pl (gs_once Buffer s) (gs_heals Buffer s) Herr)
    as (once' & heals' & ->).
  rewrite (wrap64_id (gs_total Buffer s + pl)) by (unfold int64_range; lia).
  edestruct IH as (s' & -> & Hw'); [|split_and!|]; cbn [gs_disks gs_total gs_partOffset gs_writer]; [lia|exact Hleft'|lia|lia| |].
  { destruct Hpl3 as [->|Hend]; [left; lia|right].
    rewrite (before_S j dt Hd). split_and!; [lia|lia|intros; lia]. }
  exists s'. split; [done|]. rewrite Hw'. cbn [gs_writer gs_total].
  rewrite Hw, <-app_assoc. f_equal.
  rewrite (range_part j dt) by done. rewrite <-Hp.
  replace (off + (gs_total Buffer s + pl)) with (off + gs_total Buffer s + pl) by lia. apply range_app; done || lia.
Qed.
End GetFacts.

(** ** The parts of a range *)

Lemma sum_sizes parts datas j : Forall2 (fun part (dt : bytes) => pt_Size part = len dt) parts datas ->
  Zsum (pt_Size <$> take j parts) = len (concat (take j datas)).
Proof.
  intros Hp. revert j. induction Hp as [|part dt parts dts Hsz _ IH]; intros [|j]; [done..|].
  cbn [take concat]. csimpl. rewrite length_app, Hsz, IH. lia.
Qed.

Section Offsets.
Context (fi : FileInfo) (datas : list bytes) (Hparts : parts_hold fi datas).
Context (small : len (concat datas) < 2 ^ 50).
Local Abbreviation before := (before datas).

Lemma sum_before j : Zsum (pt_Size <$> take j (fi_Parts fi)) = before j.
Proof. by apply sum_sizes. Qed.

Lemma before_all : before (length datas) = len (concat datas).
Proof. unfold ObjectRead.before. by rewrite take_ge by lia. Qed.

Lemma before_mono i j : (i <= j)%nat -> before i <= before j.
Proof.
  intros Hij. unfold ObjectRead.before. replace j with (i + (j - i))%nat by lia.
  rewrite <-take_take_drop, concat_app, length_app. lia.
Qed.

Lemma sizes_pos : Forall (fun p => 0 <= pt_Size p) (fi_Parts fi).
Proof.
  apply Forall_lookup. intros i p Hp. destruct (Forall2_lookup_l _ _ _ _ _ Hparts Hp) as (dt & _ & ->). lia.
Qed.

(** The part an offset inside the object falls into. *)
Lemma part_of_offset o : 0 < o < len (concat datas) ->
  exists j m dt, ObjectToPartOffset fi o = Ok (Z.of_nat j, m) /\ datas !! j = Some dt /\
    0 <= m < len dt /\ before j + m = o.
Proof.
  intros Ho. unfold ObjectToPartOffset. destruct (Z.eqb_spec o 0); [lia|].
  pose proof (part_offset_loop_spec (fi_Parts fi) 0 o sizes_pos ltac:(lia)) as Hs.
  destruct (part_offset_loop (fi_Parts fi) 0 o) as [[j m]|e].
  - destruct Hs as (part & Hj & Hp & Hm & Hsum). rewrite Z.sub_0_r in *.
    destruct (Forall2_lookup_l _ _ _ _ _ Hparts Hp) as (dt & Hd & Hsz).
    exists (Z.to_nat j), m, dt. rewrite Z2Nat.id, <-sum_before by done. split_and!; done || lia.
  - destruct Hs as [_ Hle]. rewrite <-(take_ge (fi_Parts fi) (length datas)), sum_before, before_all in Hle;
      [lia|]. by rewrite (Forall2_length _ _ _ Hparts).
Qed.

Lemma offset_past_end o : 0 < o < 2 ^ 63 -> len (concat datas) <= o ->
  exists err, ObjectToPartOffset fi o = Err err.
Proof.
  intros Ho Hend. unfold ObjectToPartOffset. destruct (Z.eqb_spec o 0); [lia|].
  pose proof (part_offset_loop_spec (fi_Parts fi) 0 o sizes_pos ltac:(lia)) as Hs.
  destruct (part_offset_loop (fi_Parts fi) 0 o) as [[j m]|e]; [|by eexists].
  destruct Hs as (part & Hj & Hp & Hm & Hsum). rewrite Z.sub_0_r, sum_before in *.
  destruct (Forall2_lookup_l _ _ _ _ _ Hparts Hp) as (dt & Hd & Hsz). rewrite Hsz in Hm.
  pose proof (before_S datas _ _ Hd). pose proof (before_mono (S (Z.to_nat j)) (length datas)) as Hmono.
  rewrite before_all in Hmono. apply lookup_lt_Some in Hd. lia.
Qed.

(** The first part, the offset in it, and the last part of a range. *)
Lemma range_parts o lg : Forall (fun dt => dt <> []) datas -> 0 <= o -> 0 < lg -> o + lg <= len (concat datas) ->
  exists j m last x, ObjectToPartOffset fi o = Ok (Z.of_nat j, m) /\
    ObjectToPartOffset fi (o + (lg - 1)) = Ok (Z.of_nat last, x) /\
    (j <= last < length datas)%nat /\ before j + m = o /\ 0 <= m /\
    (forall dt, datas !! j = Some dt -> m <= len dt) /\ o + lg <= before (S last).
Proof.
  intros Hne Ho Hlg Hin.
  assert (forall i dt, datas !! i = Some dt -> 0 < len dt) as Hpos.
  { intros i dt Hi. pose proof (Forall_lookup_1 _ _ _ _ Hne Hi). destruct dt; [done|simpl; lia]. }
  assert (forall q, 0 <= q < len (concat datas) -> exists j m dt, ObjectToPartOffset fi q = Ok (Z.of_nat j, m) /\
    datas !! j = Some dt /\ 0 <= m < len dt /\ before j + m = q) as Hpart.
  { intros q Hq. destruct (decide (q = 0)) as [->|]; [|apply part_of_offset; lia].
    destruct datas as [|dt dts]; [simpl in Hq; lia|]. exists 0%nat, 0, dt.
    pose proof (Hpos 0%nat dt eq_refl). split_and!; done || lia. }
  destruct (Hpart o ltac:(lia)) as (j & m & dt & -> & Hj & Hm & Hjm).
  destruct (Hpart (o + (lg - 1)) ltac:(lia)) as (last & x & dt' & -> & Hl & Hx & Hlx).
  exists j, m, last, x. pose proof (before_S datas _ _ Hl). split_and!; try done; try lia.
  - destruct (decide (j <= last)%nat) as [|Hgt]; [done|]. pose proof (before_mono (S last) j ltac:(lia)). lia.
  - by eapply lookup_lt_Some.
  - intros dt0 Hd0. rewrite Hj in Hd0. injection Hd0 as <-. lia.
Qed.
End Offsets.

(** ** The object *)

Lemma get_parts_empty `{HashLib} {L : RSLibrary} {D} `{DiskReads D} (W : Writer) bucket object fi healing sched e metas k j
    (s : get_state (D := D) W) : gs_total W s = 0 ->
  get_parts W bucket object fi healing sched e metas 0 k j s = Some (s, None).
Proof. intros Ht. destruct k; [done|]. cbn [get_parts]. by rewrite Ht. Qed.

Lemma object_range `{HashLib} {L : RSLibrary} e {LL : RSLaws L (dataBlocks e) (parityBlocks e)}
    {D} `{DiskReads D} bucket object fi healing sched metaArr onlineDisks metas disks datas gs off lg out :
  NewErasure (ei_DataBlocks (fi_Erasure fi)) (ei_ParityBlocks (fi_Erasure fi)) (ei_BlockSize (fi_Erasure fi)) = Ok e ->
  erasure_wf e -> blockSize e < 2 ^ 50 ->
  shuffleDisksAndPartsMetadataByIndex onlineDisks metaArr fi = Some (disks, metas) ->
  set_holds e bucket object fi metas disks datas gs -> parts_hold fi datas ->
  fi_Size fi = len (concat datas) -> len (concat datas) < 2 ^ 50 ->
  Forall (fun dt => dt <> []) datas \/ concat datas = [] ->
  0 <= off < 2 ^ 62 -> -1 <= lg < 2 ^ 62 ->
  let size := fi_Size fi in
  let lg' := if lg <? 0 then size - off else lg in
  let get := getObjectWithFileInfo Buffer bucket object fi healing sched off lg out metaArr onlineDisks in
  (off + lg' <= size -> off = 0 \/ off < size ->
     exists heals, get = Some (out ++ range (concat datas) off (off + lg'), heals, None)) /\
  (size < off + lg' \/ (0 < off /\ size <= off) -> get = Some (out, [], Some (InvalidRangeErr off lg' size))).
Proof.
  intros Hnew Hwf Hbs Hsh Hset Hparts Hsize Hsm Hne Ho Hlg size lg' get. unfold get, getObjectWithFileInfo.
  rewrite Hsh. cbn [mbind option_bind]. fold size. unfold sub64, add64.
  assert ((if lg <? 0 then wrap64 (size - off) else lg) = lg') as ->
    by (unfold lg'; destruct (lg <? 0); [rewrite wrap64_id by (unfold int64_range; lia)|]; done).
  assert (0 <= size < 2 ^ 50) as Hs by lia.
  assert (lg' < 2 ^ 62 /\ - 2 ^ 62 <= lg') as Hlg' by (unfold lg'; destruct (Z.ltb_spec lg 0); lia).
  rewrite (wrap64_id (off + lg')) by (unfold int64_range; lia). split.
  - intros Hin Hoff. assert (0 <= lg') by (unfold lg' in *; destruct (Z.ltb_spec lg 0); lia).
    destruct (Z.ltb_spec size off); [lia|]. destruct (Z.ltb_spec size (off + lg')); [lia|]. cbn [orb].
    rewrite Hnew. destruct (Z.ltb_spec 0 lg') as [Hpos|Hz].
    + rewrite (wrap64_id (lg' - 1)), wrap64_id by (unfold int64_range; lia).
      destruct Hne as [Hne|Hnil]; [|rewrite Hnil in Hsize; simpl in Hsize; lia].
      destruct (range_parts fi datas Hparts Hsm off lg') as (j & m & last & x & -> & -> & Hjl & Hbm & Hm & Hfit & Hend);
        [done|lia|lia|lia|].
      destruct (get_parts_spec e Hwf bucket object fi metas disks datas gs Hset Hparts Hsm Hbs healing sched
        off lg' last ltac:(lia) ltac:(lia) ltac:(lia) ltac:(lia) Hend
        (Z.to_nat (Z.of_nat last - Z.of_nat j + 1)) j (mkGet Buffer disks out 0 m false []))
        as (s & Hget & Hw); [lia| |].
      * unfold reading. cbn [gs_disks gs_total gs_partOffset]. rewrite Z.add_0_r.
        split_and!; [|lia|lia|right; by split_and!]. destruct Hset as (Hl & _). by split_and!.
      * rewrite Nat2Z.id, Hget. cbn [mbind option_bind]. rewrite Hw. cbn [gs_writer gs_total].
        rewrite Z.add_0_r. by eexists.
    + assert (lg' = 0) as Hz0 by lia. rewrite Hz0.
      assert (exists p m, ObjectToPartOffset fi off = Ok (p, m)) as (p & m & ->).
      { destruct (decide (off = 0)) as [->|]; [by eexists _, _|].
        destruct (part_of_offset fi datas Hparts Hsm off ltac:(lia)) as (? & ? & ? & -> & _). by eexists _, _. }
      rewrite get_parts_empty by done. cbn [mbind option_bind gs_writer gs_heals].
      eexists. by rewrite Z.add_0_r, range_empty, app_nil_r.
  - intros Hout. destruct (Z.ltb_spec size off); [done|]. destruct (Z.ltb_spec size (off + lg')); [done|].
    cbn [orb]. destruct (offset_past_end fi datas Hparts off ltac:(lia) ltac:(lia)) as [err ->]. done.
Qed.

(** C3: a read delivers the range.  When [dataBlocks] disks of the set hold all
    parts of an object, the others may be offline, lack metadata, or have damage
    the checksums detect, and at most one disk is local,
    [getObjectWithFileInfo] appends exactly the bytes of the range to the writer
    and returns no error, whatever the schedules of the readers, across all the
    parts; a negative length reads to the end.  A range that does not lie in the
    object is refused with [InvalidRange] and nothing is written. *)
Theorem getObject_range `{HashLib} {L : RSLibrary} e {LL : RSLaws L (dataBlocks e) (parityBlocks e)}
    {D} `{DiskReads D} bucket object fi healing sched metaArr onlineDisks metas disks datas gs off lg out :
  NewErasure (ei_DataBlocks (fi_Erasure fi)) (ei_ParityBlocks (fi_Erasure fi)) (ei_BlockSize (fi_Erasure fi)) = Ok e ->
  erasure_wf e -> blockSize e < 2 ^ 50 ->
  shuffleDisksAndPartsMetadataByIndex onlineDisks metaArr fi = Some (disks, metas) ->
  set_holds e bucket object fi metas disks datas gs -> parts_hold fi datas ->
  fi_Size fi = len (concat datas) -> len (concat datas) < 2 ^ 50 ->
  Forall (fun dt => dt <> []) datas \/ concat datas = [] ->
  0 <= off < 2 ^ 62 -> -1 <= lg < 2 ^ 62 ->
  let size := fi_Size fi in
  let lg' := if lg <? 0 then size - off else lg in
  let get := getObjectWithFileInfo Buffer bucket object fi healing sched off lg out metaArr onlineDisks in
  (off + lg' <= size -> off = 0 \/ off < size ->
     exists heals, get = Some (out ++ range (concat datas) off (off + lg'), heals, None)) /\
  (size < off + lg' \/ (0 < off /\ size <= off) -> get = Some (out, [], Some (InvalidRangeErr off lg' size))).
Proof. apply object_range. Qed.

(** ** Witness: an object of two parts, one of three disks offline *)

#[local] Existing Instance toy_hash.

(** A disk as its files. *)
#[local] Instance files_disk : DiskReads (string -> bytes) := {|
  Hostname _ := "node";
  ReadFileStream d _ path off n := Ok (mkStream (slice_to (slice_from (d path) off) n) EOF);
  ReadFile _ _ _ _ _ _ _ := ([], Some errFileNotFound)
|}.

Definition sample_parts_data : list bytes := [[Byte.x41; Byte.x42; Byte.x43]; [Byte.x44]].
Definition sample_fi (index : Z) : FileInfo :=
  mkFileInfo "b" "o" "" true false "" "" "" "" false "dir" false 7 4 0 0 ∅
    [mkPart "" 1 3 3 0 []; mkPart "" 2 1 1 0 []]
    (mkErasureInfo "rs" 2 1 2 index [1; 2; 3] [mkChecksum 1 HighwayHash256S []; mkChecksum 2 HighwayHash256S []])
    false zero_ReplicationState [] 1 0 false 0 0.
Definition sample_disk (i : nat) (path : string) : bytes :=
  if bool_decide (path = "o/dir/part.1") then stored sample_e [Byte.x41; Byte.x42; Byte.x43] i
  else if bool_decide (path = "o/dir/part.2") then stored sample_e [Byte.x44] i else [].

Lemma sample_intact i : on_parts (sample_fi 1) sample_parts_data (fun part dt =>
  intact_part sample_e "b" (sample_disk i) (sample_fi (Z.of_nat i + 1)) (part_path "o" (sample_fi 1) part) (pt_Number part) dt i).
Proof.
  intros [|[|j]] part dt Hp Hd; [..|done]; injection Hp as <-; injection Hd as <-;
    right; (split; [reflexivity|]); intros off n _ _ _; exists [], EOF; rewrite app_nil_r; reflexivity.
Qed.

Lemma getObject_range_witness :
  exists heals, getObjectWithFileInfo Buffer "b" "o" (sample_fi 1) false (fun _ _ => []) 1 3 []
    [sample_fi 1; zero_FileInfo; sample_fi 3] [Some (sample_disk 0); None; Some (sample_disk 2)]
    = Some ([Byte.x42; Byte.x43; Byte.x44], heals, None).
Proof.
  destruct (getObject_range sample_e "b" "o" (sample_fi 1) false (fun _ _ => [])
    [sample_fi 1; zero_FileInfo; sample_fi 3] [Some (sample_disk 0); None; Some (sample_disk 2)]
    [sample_fi 1; zero_FileInfo; sample_fi 3] [Some (sample_disk 0); None; Some (sample_disk 2)]
    sample_parts_data [0; 2]%nat 1 3 []) as [Hget _].
  - reflexivity.
  - apply sample_wf.
  - reflexivity.
  - reflexivity.
  - split_and!; [reflexivity|reflexivity| |vm_compute; lia| | |].
    + apply NoDup_cons. split; [|apply NoDup_singleton]. by rewrite list_elem_of_singleton.
    + intros g. rewrite elem_of_cons, list_elem_of_singleton. intros [->| ->];
        eexists _, _; (split_and!; [reflexivity|reflexivity|reflexivity|]).
      * apply (sample_intact 0).
      * apply (sample_intact 2).
    + intros [|[|[|i]]] disk meta Hi Hm _; try done; injection Hi as <-; injection Hm as <-;
        intros j part dt Hp Hd; left.
      * by apply (sample_intact 0 j).
      * by apply (sample_intact 2 j).
    + intros i j di dj _ _ Hh. done.
  - repeat constructor.
  - reflexivity.
  - reflexivity.
  - left. repeat constructor; done.
  - split; [lia|reflexivity].
  - split; [lia|reflexivity].
  - apply Hget; [vm_compute; discriminate|right; reflexivity].
Defined.
