(* ===== verification/XLStorage.v ===== *)
(** * An object on a drive ([cmd/xl-storage.go])

    The operations of [xlStorage] that change or read the directory of one object:
    [RenameData], which moves a finished upload into place, [WriteMetadata],
    [UpdateMetadata], [DeleteVersion], [deleteVersions] and [ReadVersion].

    The state is the object's directory (the metadata file, the data directories,
    and for objects of the first format the JSON file and the parts beside it) and
    the upload's directory under the temporary bucket.  Directories that are empty
    are not represented, and what is moved to the trash is gone.

    The operating system is the record [OS]: it decides which call fails and with
    which error, how much of a file that could not be written is left, and in which
    order a directory is listed; the name of a call is its place in the code.
    Names of volumes and paths that are not valid or too long are failures of the
    calls [CheckVolumes] and [CheckPaths]; a cancelled request or a missing volume
    is a failure of the read.  An operation is a
    computation in the monad [fsM]: it passes the state on, may return an error
    early and may panic, and it records every state the drive goes through, so that
    a crash between two calls can be reasoned about.  The error numbers are those
    of Linux. *)

From S2P Require Import Prelude FileInfo Quorum Restore Inline XLMeta XLRead XLFormat Distribution ObjectRead.

(** ** Errors of the operating system *)

Definition ENOENT : error := ErrNew "no such file or directory".
Definition EACCES : error := ErrNew "permission denied".
Definition EPERM : error := ErrNew "operation not permitted".
Definition ENOTDIR : error := ErrNew "not a directory".
Definition EISDIR : error := ErrNew "is a directory".
Definition EMFILE : error := ErrNew "too many open files".
Definition ENFILE : error := ErrNew "too many open files in system".
Definition EIO : error := ErrNew "input/output error".
Definition EINVAL : error := ErrNew "invalid argument".
Definition ENOSPC : error := ErrNew "no space left on device".
Definition EEXIST : error := ErrNew "file exists".
Definition ENOTEMPTY : error := ErrNew "directory not empty".
Definition EXDEV : error := ErrNew "invalid cross-device link".

Definition osIsNotExist (e : error) : bool := error_Is e ENOENT.
Definition osIsPermission (e : error) : bool := error_Is e EACCES || error_Is e EPERM.
Definition osIsExist (e : error) : bool := error_Is e EEXIST || error_Is e ENOTEMPTY.
Definition isSysErrNotDir (e : error) : bool := error_Is e ENOTDIR.
Definition isSysErrIsDir (e : error) : bool := error_Is e EISDIR.
Definition isSysErrTooManyFiles (e : error) : bool := error_Is e ENFILE || error_Is e EMFILE.
Definition isSysErrIO (e : error) : bool := error_Is e EIO.
Definition isSysErrInvalidArg (e : error) : bool := error_Is e EINVAL.
Definition isSysErrNoSpace (e : error) : bool := error_Is e ENOSPC.
Definition isSysErrCrossDevice (e : error) : bool := error_Is e EXDEV.

Definition errCrossDeviceLink : error :=
  StorageErr "Rename across devices not allowed, please fix your backend configuration".

(** [cmd/storage-errors.go] *)
Definition osErrToFileErr (e : error) : error :=
  if osIsNotExist e then errFileNotFound
  else if osIsPermission e then errFileAccessDenied
  else if isSysErrNotDir e || isSysErrIsDir e then errFileNotFound
  else if isSysErrTooManyFiles e then errTooManyOpenFiles
  else if isSysErrIO e then errFaultyDisk
  else if isSysErrInvalidArg e then errFileNotFound
  else if isSysErrNoSpace e then errDiskFull
  else e.

(** ** State *)

Abbreviation files := (gmap string bytes).

(** The directory of an object: [xl.meta], the other files (the JSON file and the
    parts of the first format) and the directories. *)
Record objdir := mkDir {
  od_meta : option bytes;
  od_parts : files;
  od_dirs : gmap string files
}.

Definition empty_dir : objdir := mkDir None ∅ ∅.

Definition xlStorageFormatFile : string := "xl.meta".
Definition xlStorageFormatFileV1 : string := "xl.json".
Definition legacyDataDir : string := "legacy".

#[global] Instance objdir_eq_dec : EqDecision objdir.
Proof. solve_decision. Defined.

Record drive := mkDrive { dr_obj : objdir; dr_tmp : objdir }.

Definition with_meta (d : objdir) (m : option bytes) : objdir := mkDir m (od_parts d) (od_dirs d).
Definition with_dirs (d : objdir) (ds : gmap string files) : objdir := mkDir (od_meta d) (od_parts d) ds.
Definition on_obj (f : objdir -> objdir) (d : drive) : drive := mkDrive (f (dr_obj d)) (dr_tmp d).
Definition on_tmp (f : objdir -> objdir) (d : drive) : drive := mkDrive (dr_obj d) (f (dr_tmp d)).

(** The calls that can fail. *)
Inductive fs_op :=
| CheckVolumes | CheckPaths | AccessSrc | AccessDst | ReadMeta | RenameJSON | ReadRenamed | ReadJSON | ReadPart | StatPart
| ListOne | ListAll | MkdirLegacy | MoveLegacy (entry : string)
| WriteTmpMeta | TrashDst | TrashLegacy | MoveData | Commit | TrashOld | WriteMeta | TrashMeta
| RemoveLegacy | RemoveData | RemoveMeta | RemoveObject.

Record OS := mkOS {
  os_fault : fs_op -> option error;
  os_left : fs_op -> option nat;
  os_listing : objdir -> list string;
  os_formatLegacy : bool;
  os_mtime : time
}.

(** ** The monad *)

Definition fsM (A : Type) : Type := drive -> option (list drive * drive * result A).

Definition ret {A} (a : A) : fsM A := fun d => Some ([], d, Ok a).
Definition fail {A} (e : error) : fsM A := fun d => Some ([], d, Err e).
Definition panic {A} : fsM A := fun _ => None.
Definition bind {A B} (c : fsM A) (k : A -> fsM B) : fsM B := fun d =>
  match c d with
  | None => None
  | Some (t, d, Err e) => Some (t, d, Err e)
  | Some (t, d, Ok a) =>
      match k a d with None => None | Some (t', d, r) => Some (t ++ t', d, r) end
  end.
(** The outcome of a computation as a value. *)
Definition attempt {A} (c : fsM A) : fsM (result A) := fun d =>
  match c d with None => None | Some (t, d, r) => Some (t, d, Ok r) end.
Definition get : fsM drive := fun d => Some ([], d, Ok d).
Definition step (f : drive -> drive) : fsM unit := fun d => Some ([f d], f d, Ok tt).
Definition lift {A} (o : option A) : fsM A := match o with Some a => ret a | None => panic end.
Definition of_result {A} (r : result A) : fsM A := match r with Ok a => ret a | Err e => fail e end.

Declare Scope fs_scope.
Delimit Scope fs_scope with fs.
Notation "'let!' x ':=' c 'in' k" := (bind c (fun x => k)) (at level 10, x pattern, k at level 200) : fs_scope.
Notation "'run!' c 'in' k" := (bind c (fun _ => k)) (at level 10, k at level 200) : fs_scope.
Open Scope fs_scope.

Section Calls.
Context (os : OS).

(** A call that changes the drive unless it fails. *)
Definition perform (op : fs_op) (f : drive -> drive) : fsM unit :=
  match os_fault os op with Some e => fail e | None => step f end.
Definition check (op : fs_op) : fsM unit := match os_fault os op with Some e => fail e | None => ret tt end.
(** A call whose error is not looked at. *)
Definition ignore (op : fs_op) (f : drive -> drive) : fsM unit := let! _ := attempt (perform op f) in ret tt.

(** [WriteAll]: the file is truncated and then written; a write that fails leaves
    a prefix, unless it was the opening that failed. *)
Definition WriteAll (op : fs_op) (set : bytes -> drive -> drive) (b : bytes) : fsM unit :=
  match os_fault os op with
  | Some e => match os_left os op with
              | None => fail e
              | Some n => run! step (set (take n b)) in fail e
              end
  | None => fun d => Some ((fun n => set (take n b) d) <$> seq 0 (S (length b)), set b d, Ok tt)
  end.

Definition set_obj_meta (b : bytes) : drive -> drive := on_obj (fun d => with_meta d (Some b)).
Definition set_tmp_meta (b : bytes) : drive -> drive := on_tmp (fun d => with_meta d (Some b)).

(** [moveToTrash] and the recursive [deleteFile] of a directory of the object; the
    path of the empty name is the object's directory. *)
Definition trash_dir (name : string) : drive -> drive :=
  on_obj (fun d => if bool_decide (name = "") then empty_dir else with_dirs d (delete name (od_dirs d))).
(** The [deleteFile] that is not recursive only removes an empty directory. *)
Definition remove_dir (name : string) : drive -> drive :=
  on_obj (fun d => match od_dirs d !! name with
                   | Some fs => if bool_decide (fs = ∅) then with_dirs d (delete name (od_dirs d)) else d
                   | None => d
                   end).
Definition remove_meta : drive -> drive := on_obj (fun d => with_meta d None).

(** [ReadAll] of the metadata file; a file or directory that is missing is
    [errFileNotFound]. *)
Definition ReadAll_meta : fsM bytes :=
  run! check ReadMeta in
  let! d := get in
  match od_meta (dr_obj d) with Some b => ret b | None => fail errFileNotFound end.
Definition ReadAll_json : fsM bytes :=
  run! check ReadJSON in
  let! d := get in
  match od_parts (dr_obj d) !! xlStorageFormatFileV1 with Some b => ret b | None => fail errFileNotFound end.

(** [renameAll] of the data directory and of the metadata file of the upload. *)
Definition rename_error (e : error) : error :=
  if isSysErrNotDir e && negb (osIsNotExist e) then errFileAccessDenied
  else if isSysErrCrossDevice e then ErrWrap 0 "rename" errCrossDeviceLink
  else if osIsNotExist e then errFileNotFound
  else if osIsExist e then errIsNotRegular
  else e.

Definition renameAll_data (name : string) : fsM unit :=
  match os_fault os MoveData with
  | Some e => fail (rename_error e)
  | None =>
      let! d := get in
      match od_dirs (dr_tmp d) !! name with
      | None => fail errFileNotFound
      | Some fs =>
          if bool_decide (is_Some (od_dirs (dr_obj d) !! name) /\ od_dirs (dr_obj d) !! name <> Some ∅) then fail errIsNotRegular
          else step (fun d => mkDrive (with_dirs (dr_obj d) (<[name := fs]> (od_dirs (dr_obj d))))
                                (with_dirs (dr_tmp d) (delete name (od_dirs (dr_tmp d)))))
      end
  end.

Definition renameAll_meta : fsM unit :=
  match os_fault os Commit with
  | Some e => fail (rename_error e)
  | None =>
      let! d := get in
      match od_meta (dr_tmp d) with
      | None => fail errFileNotFound
      | Some b => step (fun d => mkDrive (with_meta (dr_obj d) (Some b)) (with_meta (dr_tmp d) None))
      end
  end.
End Calls.

(** ** RenameData *)

Definition uitstorMetaBucket : string := ".uitstor.sys".
Definition uitstorMetaTmpBucket : string := uitstorMetaBucket +:+ "/tmp".
Definition uitstorMetaMultipartBucket : string := uitstorMetaBucket +:+ "/multipart".
Definition uitstorMetaTmpDeletedBucket : string := uitstorMetaTmpBucket +:+ "/.trash".

Definition skipAccessChecks (volume : string) : bool :=
  bool_decide (volume ∈ [uitstorMetaTmpBucket; uitstorMetaBucket; uitstorMetaMultipartBucket; uitstorMetaTmpDeletedBucket]).

Fixpoint ends_with_slash (s : string) : bool :=
  match s with "" => false | "/" => true | String _ s => ends_with_slash s end.
(** An entry of the directory that is neither the metadata file nor a directory. *)
Definition is_part_entry (entry : string) : bool :=
  negb (bool_decide (entry = xlStorageFormatFile) || ends_with_slash entry).

Section Storage.
Context `{XLLib} {M : Msgp} {MN : MsgpNum} `{OldFormats} `{HttpTime} `{SliceSort} `{MapOrder} (now : time) (os : OS).

(** [cmd/erasure-metadata.go] *)
Definition IsRestoreObjReq (fi : FileInfo) : bool :=
  match fi_Metadata fi !! AmzRestore with
  | Some restoreHdr => match parseRestoreObjStatus restoreHdr with Ok r => negb (rt_ongoing r) | Err _ => false end
  | None => false
  end.

Definition volume_access (op : fs_op) (volume : string) : fsM unit :=
  if skipAccessChecks volume then ret tt
  else match os_fault os op with
       | None => ret tt
       | Some e => fail (if osIsNotExist e then errVolumeNotFound else if isSysErrIO e then errFaultyDisk else e)
       end.

Definition renameLegacyMetadata : fsM unit :=
  if negb (os_formatLegacy os) then fail errFileNotFound
  else match os_fault os RenameJSON with
       | Some e => fail (if isSysErrNotDir e then errFileNotFound
                         else if isSysErrCrossDevice e then ErrWrap 0 "rename" errCrossDeviceLink
                         else if osIsNotExist e then errFileNotFound
                         else if osIsExist e then errIsNotRegular else e)
       | None =>
           let! d := get in
           match od_parts (dr_obj d) !! xlStorageFormatFileV1 with
           | None => fail errFileNotFound
           | Some b => step (on_obj (fun o => mkDir (Some b) (delete xlStorageFormatFileV1 (od_parts o)) (od_dirs o)))
           end
       end.

(** The metadata file at the destination, empty when there is none. *)
Definition read_dst : fsM bytes :=
  let missing :=
    let! r := attempt renameLegacyMetadata in
    match r with
    | Err e => if bool_decide (e = errFileNotFound) then ret [] else fail e
    | Ok _ =>
        match os_fault os ReadRenamed with
        | Some e => if osIsNotExist e then ret [] else fail (osErrToFileErr e)
        | None => let! d := get in ret (default [] (od_meta (dr_obj d)))
        end
    end in
  match os_fault os ReadMeta with
  | Some e => if isSysErrNotDir e then fail errFileAccessDenied
              else if negb (osIsNotExist e) then fail (osErrToFileErr e) else missing
  | None => let! d := get in
            match od_meta (dr_obj d) with Some b => ret b | None => missing end
  end.

Definition zero_journal : xlMetaV2 := mkXL [] [] 0.

Definition in_legacy_dir (m : xlMetaV1Object) : xlMetaV1Object :=
  mkV1 (v1_Version m) (v1_Format m) (v1_Size m) (v1_ModTime m) (v1_Name m) (v1_Dir m) (v1_Mode m) (v1_Erasure m)
    (v1_Release m) (v1_Meta m) (v1_Parts m) (v1_VersionID m) legacyDataDir.

(** The journal at the destination, and whether the object has the first format. *)
Definition load_dst (dstBuf : bytes) : fsM (xlMetaV2 * bool) :=
  if (0 <? length dstBuf)%nat then
    if isXL2V1Format dstBuf then
      let! r := lift (Load now dstBuf) in
      ret (match r with Ok x => x | Err _ => zero_journal end, false)
    else match json_Unmarshal dstBuf with
         | Err _ => ret (zero_journal, false)
         | Ok m =>
             let! (x, _) := lift (AddLegacy now zero_journal (in_legacy_dir m)) in ret (x, true)
         end
  else if os_formatLegacy os then
    let! d := get in
    match os_fault os ListOne with
    | Some e => if bool_decide (e = errFileNotFound) then ret (zero_journal, false) else fail (osErrToFileErr e)
    | None => ret (zero_journal, existsb (fun entry => is_part_entry entry && String.prefix "part." entry)
                                   (take 1 (os_listing os (dr_obj d))))
    end
  else ret (zero_journal, false).

(** The clean-up the code calls un-rolling: the directory with the parts moved so
    far goes to the trash. *)
Definition unroll (legacyPreserved : bool) : fsM unit :=
  if legacyPreserved then ignore os RemoveLegacy (trash_dir legacyDataDir) else ret tt.

Definition move_part (entry : string) (d : objdir) : objdir :=
  match od_parts d !! entry with
  | None => d
  | Some b => mkDir (od_meta d) (delete entry (od_parts d))
                (<[legacyDataDir := <[entry := b]> (default ∅ (od_dirs d !! legacyDataDir))]> (od_dirs d))
  end.

Fixpoint move_parts (entries : list string) : fsM unit :=
  match entries with
  | [] => ret tt
  | entry :: entries =>
      if negb (is_part_entry entry) then move_parts entries
      else match os_fault os (MoveLegacy entry) with
           | Some e => run! unroll true in fail (osErrToFileErr e)
           | None => run! step (on_obj (move_part entry)) in move_parts entries
           end
  end.

Definition preserve_legacy : fsM unit :=
  match os_fault os ListAll with
  | Some e => fail (osErrToFileErr e)
  | None =>
      let! d := get in
      let entries := os_listing os (dr_obj d) in
      match os_fault os MkdirLegacy with
      | Some e => run! unroll true in fail (osErrToFileErr e)
      | None =>
          run! step (on_obj (fun o => with_dirs o (<[legacyDataDir := default ∅ (od_dirs o !! legacyDataDir)]> (od_dirs o)))) in
          move_parts entries
      end
  end.

(** The null version that is replaced: the journal without its inline data, with a
    free version for its tiered content, and the data directory to purge. *)
Definition replace_null (x : xlMetaV2) (fi : FileInfo) (dataDir : option string) (volume path : string)
    : option (xlMetaV2 * option string) :=
  if negb (bool_decide (fi_VersionID fi = "")) then Some (x, None)
  else
    r ← xl_ToFileInfo x volume path nullVersionID;
    '(x, old) ← match r with
                | Ok ofi =>
                    if negb (fi_Deleted ofi) && (SharedDataDirCountStr x nullVersionID (fi_DataDir ofi) =? 0)%nat then
                      '(data, _) ← remove (xl_data x) [nullVersionID; fi_DataDir ofi];
                      Some (mkXL (xl_versions x) data (xl_metaV x),
                            if bool_decide (dataDir = Some (fi_DataDir ofi)) then None else Some (fi_DataDir ofi))
                    else Some (x, None)
                | Err _ => Some (x, None)
                end;
    if IsRestoreObjReq fi then Some (x, old)
    else '(x, _) ← AddFreeVersion now x fi; Some (x, old).

(** The new journal is written beside the upload's data, the data is moved into
    place, the journal follows, and then the replaced data goes. *)
Definition commit_upload (fi : FileInfo) (legacyPreserved : bool) (name : string) (old : option string) (buf : bytes) : fsM unit :=
  let healing := fi_XLV1 fi && negb (bool_decide (fi_DataDir fi = legacyDataDir)) in
  let! r := attempt (WriteAll os WriteTmpMeta set_tmp_meta buf) in
  match r with
  | Err e => run! unroll legacyPreserved in fail (osErrToFileErr e)
  | Ok _ =>
      let! r := attempt (if (length (fi_Data fi) =? 0)%nat && (0 <? fi_Size fi) then
                           run! ignore os TrashDst (trash_dir name) in
                           run! (if healing then ignore os TrashLegacy (trash_dir legacyDataDir) else ret tt) in
                           renameAll_data os name
                         else ret tt) in
      match r with
      | Err e =>
          run! unroll legacyPreserved in
          run! ignore os RemoveData (remove_dir name) in fail (osErrToFileErr e)
      | Ok _ =>
          let! r := attempt (renameAll_meta os) in
          match r with
          | Err e =>
              run! unroll legacyPreserved in
              run! ignore os RemoveMeta remove_meta in fail (osErrToFileErr e)
          | Ok _ => match old with Some o => ignore os TrashOld (trash_dir o) | None => ret tt end
          end
      end
  end.

(** Without a data directory the journal is written in place. *)
Definition commit_direct (legacyPreserved : bool) (buf : bytes) : fsM unit :=
  let! r := attempt (WriteAll os WriteMeta set_obj_meta buf) in
  match r with
  | Err e => run! unroll legacyPreserved in run! ignore os RemoveMeta remove_meta in fail e
  | Ok _ => ret tt
  end.

Definition RenameData (srcVolume : string) (fi : FileInfo) (dstVolume dstPath : string) : fsM unit :=
  run! check os CheckVolumes in
  run! volume_access AccessSrc srcVolume in
  run! volume_access AccessDst dstVolume in
  run! check os CheckPaths in
  let dataDir := if negb (IsRemote now fi) && negb (bool_decide (fi_DataDir fi = "")) then Some (fi_DataDir fi) else None in
  let! dstBuf := read_dst in
  let! (x, legacyPreserved) := load_dst dstBuf in
  run! (if legacyPreserved then preserve_legacy else ret tt) in
  let! (x, old) := lift (replace_null x fi dataDir dstVolume dstPath) in
  let! (x, err) := lift (AddVersion now x fi) in
  match err with
  | Some e => run! unroll legacyPreserved in fail e
  | None =>
      match AppendTo [] x with
      | Err _ => run! unroll legacyPreserved in fail errFileCorrupt
      | Ok buf => match dataDir with
                  | Some name => commit_upload fi legacyPreserved name old buf
                  | None => commit_direct legacyPreserved buf
                  end
      end
  end.

(** ** Metadata *)

Definition write_journal (x : xlMetaV2) : fsM unit :=
  let! buf := of_result (AppendTo [] x) in WriteAll os WriteMeta set_obj_meta buf.

(** The version added to a journal and the file rewritten. *)
Definition add_and_write (x : xlMetaV2) (fi : FileInfo) : fsM unit :=
  let! (x, err) := lift (AddVersion now x fi) in
  match err with Some e => fail e | None => write_journal x end.

Definition WriteMetadata (fi : FileInfo) : fsM unit :=
  if fi_Fresh fi then add_and_write zero_journal fi
  else
    let! r := attempt (ReadAll_meta os) in
    let! buf := match r with
                | Ok b => ret b
                | Err e => if bool_decide (e = errFileNotFound) then ret [] else fail e
                end in
    if negb (isXL2V1Format buf) then add_and_write zero_journal fi
    else let! r := lift (Load now buf) in
         add_and_write (match r with Ok x => x | Err _ => zero_journal end) fi.

Definition UpdateMetadata (fi : FileInfo) : fsM unit :=
  if bool_decide (fi_Metadata fi = ∅) then fail errInvalidArgument
  else
    let! r := attempt (ReadAll_meta os) in
    match r with
    | Err e => fail (if bool_decide (e = errFileNotFound) && negb (bool_decide (fi_VersionID fi = "")) then errFileVersionNotFound else e)
    | Ok buf =>
        if negb (isXL2V1Format buf) then fail errFileVersionNotFound
        else
          let! r := lift (Load now buf) in
          let! x := of_result r in
          let! (x, err) := lift (UpdateObjectVersion now x fi) in
          match err with Some e => fail e | None => write_journal x end
    end.

(** ** Deleting *)

(** What [deleteFile] returns for an error. *)
Definition deleteFile_error (isObjectDir : bool) (e : error) : result unit :=
  if error_Is e ENOTEMPTY then (if isObjectDir then Err errFileNotFound else Ok tt)
  else if osIsNotExist e then Ok tt
  else if error_Is e errFileNotFound then Ok tt
  else if osIsPermission e then Err errFileAccessDenied
  else if isSysErrIO e then Err errFaultyDisk
  else Err e.

(** [deleteFile] of the object's directory, with everything in it. *)
Definition delete_object_dir : fsM unit :=
  match os_fault os RemoveObject with
  | Some e => of_result (deleteFile_error false e)
  | None => step (trash_dir "")
  end.

Definition errVolumeAccessDenied : error := StorageErr "volume access denied".

(** [Delete] of a prefix: a directory that is not empty is not an object. *)
Definition Delete_prefix : fsM unit :=
  run! check os CheckVolumes in
  run! match os_fault os AccessDst with
       | None => ret tt
       | Some e => fail (if osIsNotExist e then errVolumeNotFound else if osIsPermission e then errVolumeAccessDenied
                         else if isSysErrIO e then errFaultyDisk else e)
       end in
  run! check os CheckPaths in
  match os_fault os RemoveObject with
  | Some e => of_result (deleteFile_error true e)
  | None => let! d := get in
            if bool_decide (dr_obj d = empty_dir) then ret tt else of_result (deleteFile_error true ENOTEMPTY)
  end.

(** The data directory of a deleted version goes to the trash; one that is not
    there is no error. *)
Definition purge_data (dataDir : string) : fsM unit :=
  run! check os CheckPaths in
  match os_fault os TrashOld with
  | Some e => let e := rename_error e in if bool_decide (e = errFileNotFound) then ret tt else fail e
  | None => let! d := get in
            if bool_decide (od_dirs (dr_obj d) !! dataDir = None) then ret tt else step (trash_dir dataDir)
  end.

(** The inline data of a deleted version is removed under both keys. *)
Definition drop_inline (x : xlMetaV2) (fi : FileInfo) (dataDir : string) : option xlMetaV2 :=
  let versionID := if bool_decide (fi_VersionID fi = "") then nullVersionID else fi_VersionID fi in
  '(data, _) ← remove (xl_data x) [versionID; dataDir];
  Some (mkXL (xl_versions x) data (xl_metaV x)).

(** The metadata file goes to the trash, by a plain rename. *)
Definition trash_meta : fsM unit :=
  match os_fault os TrashMeta with
  | Some e => fail e
  | None => let! d := get in
            match od_meta (dr_obj d) with None => fail ENOENT | Some _ => step remove_meta end
  end.

(** The journal that is left: rewritten, or with its last version gone, trashed. *)
Definition write_or_trash (x : xlMetaV2) : fsM unit :=
  if negb (length (xl_versions x) =? 0)%nat then write_journal x
  else run! check os CheckPaths in trash_meta.

Definition delete_from (fi : FileInfo) (buf : bytes) : fsM unit :=
  if (length buf =? 0)%nat then fail (if bool_decide (fi_VersionID fi = "") then errFileNotFound else errFileVersionNotFound)
  else run! check os CheckVolumes in
  if negb (isXL2V1Format buf) then delete_object_dir
  else
    let! r := lift (Load now buf) in
    let! x := of_result r in
    let! (x, (dataDir, err)) := lift (DeleteVersion now x fi) in
    match err with
    | Some e => fail e
    | None =>
        let! x := (if bool_decide (dataDir = "") then ret x
                   else let! x := lift (drop_inline x fi dataDir) in run! purge_data dataDir in ret x) in
        write_or_trash x
    end.

Definition DeleteVersion_disk (path : string) (fi : FileInfo) (forceDelMarker : bool) : fsM unit :=
  if ends_with_slash path then Delete_prefix
  else
    let! r := attempt (ReadAll_meta os) in
    match r with
    | Ok buf => delete_from fi buf
    | Err e =>
        if negb (bool_decide (e = errFileNotFound)) then fail e
        else if fi_Deleted fi && forceDelMarker then WriteMetadata fi
        else let! r := attempt (ReadAll_json os) in
             match r with
             | Err e => fail (if bool_decide (e = errFileNotFound) && negb (bool_decide (fi_VersionID fi = ""))
                              then errFileVersionNotFound else e)
             | Ok buf => delete_from fi buf
             end
    end.

(** The loop of [deleteVersions]: a version that is not there is passed over,
    unless a delete marker was to be written. *)
Fixpoint delete_each (x : xlMetaV2) (fis : list FileInfo) : fsM xlMetaV2 :=
  match fis with
  | [] => ret x
  | fi :: fis =>
      let! (x, (dataDir, err)) := lift (DeleteVersion now x fi) in
      match err with
      | Some e =>
          if negb (fi_Deleted fi) && (bool_decide (e = errFileNotFound) || bool_decide (e = errFileVersionNotFound))
          then delete_each x fis else fail e
      | None =>
          if bool_decide (dataDir = "") then delete_each x fis
          else let! x := lift (drop_inline x fi dataDir) in
               run! purge_data dataDir in delete_each x fis
      end
  end.

Definition deleteVersions (fis : list FileInfo) : fsM unit :=
  let! r := attempt (ReadAll_meta os) in
  let! buf := match r with
              | Ok b => ret b
              | Err e => if negb (bool_decide (e = errFileNotFound)) then fail e else ReadAll_json os
              end in
  if (length buf =? 0)%nat then fail errFileNotFound
  else run! check os CheckVolumes in
  if negb (isXL2V1Format buf) then delete_object_dir
  else
    let! r := lift (Load now buf) in
    let! x := of_result r in
    let! x := delete_each x fis in
    if negb (length (xl_versions x) =? 0)%nat then write_journal x else trash_meta.

(** ** Reading *)

(** [cmd/storage-datatypes.go] *)
Definition FileInfo_InlineData (fi : FileInfo) : bool := bool_decide (is_Some (fi_Metadata fi !! inlineDataKey)).
Definition SetInlineData (fi : FileInfo) : FileInfo := fi_with_Metadata fi (<[inlineDataKey := "true"]> (fi_Metadata fi)).

Definition fi_with_DiskMTime (f : FileInfo) (t : time) : FileInfo :=
  match f with
  | mkFileInfo v n vid il d ts ton tr tv er dd x1 mt sz md wv meta ps ei mk rs da nv sm fr ix _ =>
    mkFileInfo v n vid il d ts ton tr tv er dd x1 mt sz md wv meta ps ei mk rs da nv sm fr ix t
  end.

Definition smallFileThreshold : Z := 128 * 2 ^ 10.

(** The file without its inline data unless it is asked for. *)
Definition read_meta (readData : bool) : fsM bytes :=
  if readData then ReadAll_meta os
  else match os_fault os ReadMeta with
       | Some e => fail (osErrToFileErr e)
       | None =>
           let! d := get in
           match od_meta (dr_obj d) with
           | None => fail errFileNotFound
           | Some b => match readXLMetaNoData (mkStream b EOF) (len b) with
                       | Ok b => ret b
                       | Err e => fail (osErrToFileErr (ErrWrap 0 "path" e))
                       end
           end
       end.

Definition readRaw (readData : bool) : fsM bytes :=
  let! r := attempt (read_meta readData) in
  let! buf := match r with
              | Ok b => ret b
              | Err e => if bool_decide (e = errFileNotFound) then ReadAll_json os else fail e
              end in
  if (length buf =? 0)%nat then fail errFileNotFound else ret buf.

(** A part of the object's data directory. *)
Definition read_part (op : fs_op) (dataDir : string) (number : Z) : fsM bytes :=
  run! check os op in
  let! d := get in
  match od_dirs (dr_obj d) !! dataDir with
  | None => fail errFileNotFound
  | Some fs => match fs !! part_name number with Some b => ret b | None => fail errFileNotFound end
  end.

Definition ReadVersion (volume path versionID : string) (readData : bool) : fsM FileInfo :=
  run! check os CheckVolumes in
  run! check os CheckPaths in
  let! r := attempt (readRaw readData) in
  match r with
  | Err e => fail (if bool_decide (e = errFileNotFound) && negb (bool_decide (versionID = "")) then errFileVersionNotFound else e)
  | Ok buf =>
      let! r := lift (getFileInfo now buf volume path versionID readData) in
      let! fi := of_result r in
      let fi := fi_with_DiskMTime fi (os_mtime os) in
      if negb readData then ret fi
      else
        let small fi :=
          match fi_Parts fi with
          | [p] => if bool_decide (fi_TransitionStatus fi = "") && negb (bool_decide (fi_DataDir fi = "")) && (fi_Size fi <=? smallFileThreshold)
                   then let! data := read_part ReadPart (fi_DataDir fi) (pt_Number p) in ret (fi_with_Data fi data)
                   else ret fi
          | _ => ret fi
          end in
        if (0 <? length (fi_Data fi))%nat || (fi_Size fi =? 0) then
          if FileInfo_InlineData fi then ret fi
          else if (fi_Size fi =? 0) || negb (negb (bool_decide (fi_VersionID fi = "")) && negb (bool_decide (fi_VersionID fi = nullVersionID)))
          then ret (SetInlineData fi)
          else
            let! p := lift (head (fi_Parts fi)) in
            let! r := attempt (read_part StatPart (fi_DataDir fi) (pt_Number p)) in
            match r with
            | Err _ => ret (SetInlineData fi)
            | Ok _ => small (fi_with_Data fi [])
            end
        else small fi
  end.
End Storage.

(** ** Reasoning about the drive

    [wp c d I Q]: a run of [c] from [d] that does not panic only goes through
    states in [I] and ends as [Q] says. *)

Definition wp {A} (c : fsM A) (d : drive) (I : drive -> Prop) (Q : drive -> result A -> Prop) : Prop :=
  match c d with None => True | Some (t, d', r) => Forall I t /\ Q d' r end.

Section WP.
Context (I : drive -> Prop).

Lemma wp_ret {A} (a : A) d Q : Q d (Ok a) -> wp (ret a) d I Q.
Proof. by split. Qed.
Lemma wp_fail {A} e d (Q : drive -> result A -> Prop) : Q d (Err e) -> wp (fail e) d I Q.
Proof. by split. Qed.
Lemma wp_get d Q : Q d (Ok d) -> wp get d I Q.
Proof. by split. Qed.
Lemma wp_step f d Q : I (f d) -> Q (f d) (Ok tt) -> wp (step f) d I Q.
Proof. intros Hi Hq. split; [by repeat constructor|done]. Qed.
Lemma wp_bind {A B} (c : fsM A) (k : A -> fsM B) d Q :
  wp c d I (fun d' r => match r with Err e => Q d' (Err e) | Ok a => wp (k a) d' I Q end) -> wp (bind c k) d I Q.
Proof.
  unfold wp, bind. destruct (c d) as [[[t d'] [a|e]]|]; [|done..]. intros [Ht Hk].
  destruct (k a d') as [[[t' d''] r]|]; [|done]. destruct Hk as [Ht' Hq]. split; [by apply Forall_app|done].
Qed.
Lemma wp_attempt {A} (c : fsM A) d Q : wp c d I (fun d' r => Q d' (Ok r)) -> wp (attempt c) d I Q.
Proof. unfold wp, attempt. by destruct (c d) as [[[t d'] r]|]. Qed.
Lemma wp_lift {A} (o : option A) d Q : (forall a, o = Some a -> Q d (Ok a)) -> wp (lift o) d I Q.
Proof. intros Hq. destruct o as [a|]; [|done]. by apply wp_ret, Hq. Qed.
Lemma wp_mono {A} (c : fsM A) d (Q Q' : drive -> result A -> Prop) :
  wp c d I Q -> (forall d' r, Q d' r -> Q' d' r) -> wp c d I Q'.
Proof. unfold wp. destruct (c d) as [[[t d'] r]|]; [|done]. intros [Ht Hq] HQ. split; [done|by apply HQ]. Qed.
Lemma wp_check os op d Q : (os_fault os op = None -> Q d (Ok tt)) -> (forall e, os_fault os op = Some e -> Q d (Err e)) ->
  wp (check os op) d I Q.
Proof. intros H1 H2. unfold check. destruct (os_fault os op) as [e|]; [by apply wp_fail, H2|by apply wp_ret, H1]. Qed.
Lemma wp_ignore os op f d Q : (os_fault os op = None -> I (f d) /\ Q (f d) (Ok tt)) ->
  (os_fault os op <> None -> Q d (Ok tt)) -> wp (ignore os op f) d I Q.
Proof.
  intros H1 H2. unfold ignore, perform. apply wp_bind, wp_attempt. destruct (os_fault os op) as [e|].
  - apply wp_fail, wp_ret, H2. done.
  - destruct (H1 eq_refl) as [Hi Hq]. by apply wp_step; [|apply wp_ret].
Qed.
(** A file is written: every prefix may be seen, and a failure may leave one. *)
Lemma wp_WriteAll os op set b d Q : (forall n, I (set (take n b) d)) ->
  (os_fault os op = None -> Q (set b d) (Ok tt)) ->
  (forall e d', os_fault os op = Some e -> d' = d \/ (exists n, d' = set (take n b) d) -> Q d' (Err e)) ->
  wp (WriteAll os op set b) d I Q.
Proof.
  intros Hi H1 H2. unfold WriteAll. destruct (os_fault os op) as [e|] eqn:E.
  - destruct (os_left os op) as [n|]; [|by apply wp_fail, H2; [|left]].
    apply wp_bind, wp_step; [apply Hi|]. apply wp_fail, H2; [done|]. right. by exists n.
  - split; [|by apply H1]. rewrite Forall_fmap, Forall_forall. intros n _. apply Hi.
Qed.
End WP.

(** What [wp] says of a run. *)
Lemma wp_run {A} (c : fsM A) d I Q t d' r : wp c d I Q -> c d = Some (t, d', r) -> Forall I t /\ Q d' r.
Proof. unfold wp. intros Hw Hc. by rewrite Hc in Hw. Qed.

Create HintDb fs.
#[export] Hint Resolve wp_ret wp_fail wp_get wp_step : fs.

(** ** A finished upload is moved into place *)

Section Commit.
Context (os : OS) (d0 : drive) (fi : FileInfo) (name : string) (old : option string) (buf : bytes).

(** The data of the request is a directory of the upload, not inline. *)
Definition moves : bool := (length (fi_Data fi) =? 0)%nat && (0 <? fi_Size fi).

(** Nothing has changed yet but the new version's directory. *)
Definition before_commit (s : drive) : Prop :=
  od_meta (dr_obj s) = od_meta (dr_obj d0) /\ od_parts (dr_obj s) = od_parts (dr_obj d0) /\
  forall n, n <> name -> od_dirs (dr_obj s) !! n = od_dirs (dr_obj d0) !! n.

(** The new journal is in place, with the new version's data; only the directory
    of the version it replaces may be gone. *)
Definition after_commit (s : drive) : Prop :=
  od_meta (dr_obj s) = Some buf /\
  (forall n, n <> name -> old <> Some n -> od_dirs (dr_obj s) !! n = od_dirs (dr_obj d0) !! n) /\
  (moves = true -> od_dirs (dr_obj s) !! name = od_dirs (dr_tmp d0) !! name).

Definition in_place (s : drive) : Prop := before_commit s \/ after_commit s.

Lemma before_same s : dr_obj s = dr_obj d0 -> before_commit s.
Proof. intros Hs. unfold before_commit. by rewrite Hs. Qed.

(** Changes of the new version's directory alone. *)
Lemma before_dirs s ds tmp : before_commit s -> (forall n, n <> name -> ds !! n = od_dirs (dr_obj s) !! n) ->
  before_commit (mkDrive (with_dirs (dr_obj s) ds) tmp).
Proof. intros (B1 & B2 & B3) Hds. split_and!; [done..|]. intros n Hn. cbn. rewrite Hds by done. by apply B3. Qed.

Lemma before_trash s : name <> "" -> before_commit s -> before_commit (trash_dir name s).
Proof.
  intros Hn Hb. unfold trash_dir, on_obj. rewrite bool_decide_eq_false_2 by done. apply before_dirs; [done|].
  intros n Hne. by rewrite lookup_delete_ne.
Qed.

Lemma before_remove s : before_commit s -> before_commit (remove_dir name s).
Proof.
  intros Hb. unfold remove_dir, on_obj. destruct (od_dirs (dr_obj s) !! name); [|by destruct s].
  case_bool_decide; [|by destruct s]. apply before_dirs; [done|]. intros n Hne. by rewrite lookup_delete_ne.
Qed.

(** Before the new journal moves, only the new version's directory changes, and
    afterwards it is that of the upload. *)
Definition moved (s : drive) (r : result unit) : Prop :=
  before_commit s /\ od_meta (dr_tmp s) = Some buf /\
  (r = Ok tt -> moves = true -> od_dirs (dr_obj s) !! name = od_dirs (dr_tmp d0) !! name).

Lemma rename_data_wp s : before_commit s -> od_dirs (dr_tmp s) = od_dirs (dr_tmp d0) -> od_meta (dr_tmp s) = Some buf ->
  wp (renameAll_data os name) s in_place moved.
Proof.
  intros Hb Ht Hm. unfold renameAll_data. destruct (os_fault os MoveData); [by apply wp_fail|].
  apply wp_bind, wp_get. destruct (od_dirs (dr_tmp s) !! name) as [fs|] eqn:Ef; [|by apply wp_fail].
  case_bool_decide; [by apply wp_fail|].
  match goal with |- wp (step ?f) _ _ _ => assert (before_commit (f s)) as Hf end.
  { apply before_dirs; [done|]. intros n Hn. by rewrite lookup_insert_ne. }
  apply wp_step; [by left|]. split; [done|]. split; [done|]. intros _ _. cbn [dr_obj with_dirs od_dirs].
  by rewrite lookup_insert_eq, <-Ht, Ef.
Qed.

Lemma move_upload_wp d : name <> "" -> before_commit d -> od_dirs (dr_tmp d) = od_dirs (dr_tmp d0) -> od_meta (dr_tmp d) = Some buf ->
  wp (if moves then run! ignore os TrashDst (trash_dir name) in run! ret tt in renameAll_data os name else ret tt) d in_place moved.
Proof.
  intros Hn Hb Ht Hm. unfold moved. destruct moves eqn:Emv; [|apply wp_ret; by split].
  assert (forall s, before_commit s -> od_dirs (dr_tmp s) = od_dirs (dr_tmp d0) -> od_meta (dr_tmp s) = Some buf ->
    wp (run! ret tt in renameAll_data os name) s in_place moved) as Hgo.
  { intros s Hs1 Hs2 Hs3. by apply wp_bind, wp_ret, rename_data_wp. }
  unfold moved in Hgo. rewrite Emv in Hgo. apply wp_bind, wp_ignore; [|by intros _; apply Hgo].
  intros _. pose proof (before_trash d Hn Hb). split; [by left|by apply Hgo].
Qed.

(** The journal moves, and the replaced directory goes. *)
Lemma commit_meta_wp s : os_fault os Commit = None -> old <> Some "" -> old <> Some name -> moved s (Ok tt) ->
  wp (run! renameAll_meta os in match old with Some o => ignore os TrashOld (trash_dir o) | None => ret tt end) s in_place
    (fun s r => r = Ok tt /\ after_commit s).
Proof.
  intros Hc Ho1 Ho2 (Hb & Hm & Hdata). unfold renameAll_meta. rewrite Hc. apply wp_bind, wp_bind, wp_get. rewrite Hm.
  set (s1 := mkDrive (with_meta (dr_obj s) (Some buf)) (with_meta (dr_tmp s) None)).
  assert (after_commit s1) as Ha.
  { split; [done|]. split; [intros n Hn _; apply Hb, Hn|]. intros Hmv. by apply Hdata. }
  apply wp_step; [by right|]. fold s1. destruct old as [o|] eqn:Eo; [|by apply wp_ret].
  apply wp_ignore; [intros _|done]. unfold trash_dir, on_obj. rewrite bool_decide_eq_false_2 by congruence.
  enough (after_commit (mkDrive (with_dirs (dr_obj s1) (delete o (od_dirs (dr_obj s1)))) (dr_tmp s1))) by (split; [by right|done]).
  destruct Ha as (A1 & A2 & A3). rewrite Eo in A2. split; [done|]. rewrite Eo. cbn [dr_obj with_dirs od_dirs]. split.
  - intros n Hn1 Hn2. rewrite lookup_delete_ne by congruence. by apply A2.
  - intros Hmv. rewrite lookup_delete_ne by congruence. by apply A3.
Qed.

Lemma commit_upload_wp d : os_fault os Commit = None -> old <> Some "" -> old <> Some name -> fi_XLV1 fi = false -> name <> "" ->
  dr_obj d = dr_obj d0 -> od_dirs (dr_tmp d) = od_dirs (dr_tmp d0) ->
  wp (commit_upload os fi false name old buf) d in_place
    (fun s r => match r with Ok _ => after_commit s | Err _ => before_commit s end).
Proof.
  intros Hc Hold Hne Hx Hnm Hobj Htmp. unfold commit_upload. rewrite Hx. cbn [andb].
  apply wp_bind, wp_attempt, wp_WriteAll.
  { intros n. left. by apply before_same. }
  2:{ intros e d' _ [->|[n ->]]; apply wp_bind, wp_ret, wp_fail; by apply before_same. }
  intros _. apply wp_bind, wp_attempt. eapply wp_mono; [apply move_upload_wp; [done|by apply before_same|done|done]|].
  cbn beta. intros s [[]|e] Hs.
  - pose proof (commit_meta_wp s Hc Hold Hne Hs) as Hw. unfold bind, attempt, wp in Hw |- *.
    destruct (renameAll_meta os s) as [[[t s1] [[]|e]]|]; [|by destruct Hw as [_ [? _]]|done]. cbn [app] in *.
    destruct ((match old with Some o => ignore os TrashOld (trash_dir o) | None => ret tt end) s1) as [[[t2 s2] r]|]; [|done].
    destruct Hw as [Hw1 [-> Hw2]]. split; done.
  - destruct Hs as [Hs _]. apply wp_bind, wp_ret, wp_bind, wp_ignore; [intros _|by intros _; apply wp_fail].
    pose proof (before_remove s Hs). split; [by left|by apply wp_fail].
Qed.
End Commit.

Section Renaming.
Context {L : XLLib} {LL : XLLaws L} {M : Msgp} {ML : MsgpLaws M} {MN : MsgpNum} {MNL : MsgpNumLaws M MN}
  `{OldFormats} `{HttpTime} `{SliceSort} `{MapOrder} (now : time) (os : OS).

(** The journal an object's directory holds. *)
Definition stored (o : objdir) (y : xlMetaV2) : Prop :=
  match od_meta o with
  | None => y = zero_journal
  | Some b => isXL2V1Format b = true /\ Load now b = Some (Ok y)
  end.

(** The null version of the journal has no content in a remote tier. *)
Definition null_not_tiered (x : xlMetaV2) : Prop :=
  forall ver o, version_at x 0 = Ok ver -> ve_ObjectV2 ver = Some o -> ob_MetaSys o !! TransitionStatusKey = None.

Lemma AddFreeVersion_none x fi : journal_ok x -> null_not_tiered x -> fi_VersionID fi = "" -> forall data,
  AddFreeVersion now (mkXL (xl_versions x) data (xl_metaV x)) fi = Some (mkXL (xl_versions x) data (xl_metaV x), None).
Proof.
  intros Hok Hnt Hid data. unfold AddFreeVersion. rewrite Hid. change (parse_version "") with (@Ok N 0%N). cbn [xl_versions].
  pose proof (find_object_spec 0 (xl_versions x)) as Hf. destruct (find_object 0 (xl_versions x)) as [i|]; [|done].
  destruct Hf as (v & Hi & Hv & Hty). assert (v ∈ xl_versions x) as Hin by (by eapply list_elem_of_lookup_2).
  destruct (entry_version x v Hok Hin) as (ver & t & Hat & Hu & Hh & _). unfold getIdx. cbn [xl_versions xl_metaV]. rewrite Hi, Hu.
  destruct (header_object _ _ _ Hh Hty) as (o & Ho & _). rewrite Ho. cbn [mbind option_bind]. rewrite Hv in Hat.
  unfold InitFreeVersion. by rewrite (Hnt ver o Hat Ho).
Qed.

(** The version that is replaced: the journal keeps its versions, and the
    directory to purge is used by no other version. *)
Lemma replace_null_spec x fi dataDir volume path x1 old : journal_ok x -> null_not_tiered x ->
  replace_null now x fi dataDir volume path = Some (x1, old) ->
  xl_versions x1 = xl_versions x /\ xl_metaV x1 = xl_metaV x /\
  forall o, old = Some o -> fi_VersionID fi = "" /\ dataDir <> Some o /\
    (exists ofi, xl_ToFileInfo x volume path nullVersionID = Some (Ok ofi) /\ o = fi_DataDir ofi) /\
    (find (xl_data x) (uuid_String 0) = None ->
     forall v D, v ∈ xl_versions x -> version_id v <> 0%N -> uses_dir D v -> uuid_String D <> o).
Proof.
  intros Hok Hnt. unfold replace_null. case_bool_decide as Hid; cbn [negb]; [|by intros [= <- <-]].
  destruct (xl_ToFileInfo x volume path nullVersionID) as [r|] eqn:Er; [|done]. cbn [mbind option_bind].
  match goal with |- mbind _ ?e = _ -> _ => destruct e as [[x2 old2]|] eqn:E2; [|done] end. cbn [mbind option_bind].
  assert (x2 = mkXL (xl_versions x) (xl_data x2) (xl_metaV x) /\ forall o, old2 = Some o -> dataDir <> Some o /\
    (exists ofi, r = Ok ofi /\ o = fi_DataDir ofi) /\ SharedDataDirCountStr x nullVersionID o = 0%nat) as [Hx2 Ho2].
  { destruct r as [ofi|e]; [|injection E2 as <- <-; by destruct x]. destruct (_ && _) eqn:Ec; [|injection E2 as <- <-; by destruct x].
    destruct (remove _ _) as [[data ?]|]; [|done]. cbn in E2. injection E2 as <- <-. split; [done|]. intros o.
    case_bool_decide as Hd; [done|]. intros [= <-]. apply andb_true_iff in Ec as [_ Ec%Nat.eqb_eq]. split; [done|]. split; [by exists ofi|done]. }
  assert ((if IsRestoreObjReq fi then Some (x2, old2) else '(x3, _) ← AddFreeVersion now x2 fi; Some (x3, old2)) = Some (x2, old2)) as ->.
  { destruct (IsRestoreObjReq fi); [done|]. rewrite Hx2, (AddFreeVersion_none x fi Hok Hnt Hid). done. }
  intros [= <- <-]. rewrite Hx2. split_and!; [done..|]. intros o Ho. destruct (Ho2 o Ho) as (Hd & (ofi & -> & Hofi) & Hs).
  split_and!; [done|done|by exists ofi|]. intros Hinl v D Hv Hne Hu HD. revert Hs. unfold SharedDataDirCountStr.
  change (parse_version nullVersionID) with (@Ok N 0%N). rewrite <-HD, Parse_String. intros Hs.
  exact (SharedDataDirCount_zero x 0 D Hinl Hs v Hv Hne Hu).
Qed.

(** The request moves a directory of the upload to a directory that no version of
    the journal uses. *)
Record fresh_upload (x : xlMetaV2) (fi : FileInfo) (volume path : string) : Prop := {
  fu_local : IsRemote now fi = false;
  fu_dir : fi_DataDir fi <> "";
  fu_current : fi_XLV1 fi = false;
  fu_unused : forall v D, v ∈ xl_versions x -> uses_dir D v -> uuid_String D <> fi_DataDir fi;
  fu_tier : null_not_tiered x;
  fu_inline : find (xl_data x) (uuid_String 0) = None;
  fu_named : forall ofi, xl_ToFileInfo x volume path nullVersionID = Some (Ok ofi) -> fi_DataDir ofi <> ""
}.

(** The journal the request makes of [x]. *)
Definition next_journal (x : xlMetaV2) (fi : FileInfo) (volume path : string) (old : option string) (x' : xlMetaV2) (buf : bytes) : Prop :=
  exists x1, replace_null now x fi (Some (fi_DataDir fi)) volume path = Some (x1, old) /\
    AddVersion now x1 fi = Some (x', None) /\ AppendTo [] x' = Ok buf.

(** A file that is there is not reported missing. *)
Definition reads_honestly : Prop := forall e, os_fault os ReadMeta = Some e -> osIsNotExist e = false.

Lemma read_dst_stored d x I (Q : drive -> result (xlMetaV2 * bool) -> Prop) : os_formatLegacy os = false -> reads_honestly ->
  stored (dr_obj d) x -> Q d (Ok (x, false)) -> (forall e, Q d (Err e)) ->
  wp (let! dstBuf := read_dst os in load_dst now os dstBuf) d I Q.
Proof.
  intros Hf Hh Hs Hok Herr. unfold read_dst, renameLegacyMetadata. rewrite Hf. cbn [negb]. apply wp_bind. unfold stored in Hs.
  destruct (os_fault os ReadMeta) as [e|] eqn:Erm.
  - rewrite (Hh e Erm). cbn [negb]. destruct (isSysErrNotDir e); apply wp_fail, Herr.
  - apply wp_bind, wp_get. destruct (od_meta (dr_obj d)) as [b|].
    + apply wp_ret. destruct Hs as [Hx Hl]. unfold load_dst. rewrite Hx, Hl.
      assert ((0 <? length b)%nat = true) as -> by (destruct b; [done|reflexivity]). apply wp_bind, wp_ret, wp_ret, Hok.
    + subst x. apply wp_bind, wp_attempt, wp_fail. rewrite bool_decide_eq_true_2 by done. apply wp_ret.
      unfold load_dst. cbn [length Nat.ltb Nat.leb]. rewrite Hf. by apply wp_ret.
Qed.

(** Guards that leave the drive as it is. *)
Lemma wp_volume_access op volume d I (Q : drive -> result unit -> Prop) : Q d (Ok tt) -> (forall e, Q d (Err e)) ->
  wp (volume_access os op volume) d I Q.
Proof.
  intros Hq He. unfold volume_access. destruct (skipAccessChecks volume); [by apply wp_ret|].
  destruct (os_fault os op); [by apply wp_fail|by apply wp_ret].
Qed.

Lemma bind_assoc {A B C} (c : fsM A) (k : A -> fsM B) (h : B -> fsM C) d :
  bind (bind c k) h d = bind c (fun a => bind (k a) h) d.
Proof.
  unfold bind. destruct (c d) as [[[t d1] [a|e]]|]; [|done..]. destruct (k a d1) as [[[t2 d2] [b|e]]|]; [|done..].
  destruct (h b d2) as [[[t3 d3] r]|]; [|done]. by rewrite app_assoc.
Qed.

(** Every state of the drive while an upload is moved into place. *)
Lemma RenameData_wp x fi srcVolume volume path d : os_formatLegacy os = false -> reads_honestly -> os_fault os Commit = None ->
  stored (dr_obj d) x -> journal_ok x -> fresh_upload x fi volume path ->
  let before := before_commit d (fi_DataDir fi) in
  let after s := exists old x' buf, next_journal x fi volume path old x' buf /\ after_commit d fi (fi_DataDir fi) old buf s in
  wp (RenameData now os srcVolume fi volume path) d (fun s => before s \/ after s)
    (fun s r => match r with Ok _ => after s | Err _ => before s end).
Proof.
  intros Hf Hh Hc Hs Hok Hfu before after.
  assert (before d) as Hd by (by apply before_same). unfold RenameData.
  apply wp_bind, wp_check; [intros _|by intros]. apply wp_bind, wp_volume_access; [|by intros].
  apply wp_bind, wp_volume_access; [|by intros]. apply wp_bind, wp_check; [intros _|by intros].
  rewrite (fu_local _ _ _ _ Hfu), bool_decide_eq_false_2 by apply (fu_dir _ _ _ _ Hfu). cbn [negb andb].
  eassert (wp (bind (let! dstBuf := read_dst os in load_dst now os dstBuf) _) d (fun s => before s \/ after s) _) as Hw.
  2:{ unfold wp in Hw. rewrite bind_assoc in Hw. exact Hw. }
  apply wp_bind. apply (read_dst_stored d x); [done..| |by intros]. apply wp_bind, wp_ret, wp_bind, wp_lift. intros [x1 old] Hr.
  destruct (replace_null_spec x fi _ volume path x1 old Hok (fu_tier _ _ _ _ Hfu) Hr) as (Hvs & Hm & Ho).
  apply wp_bind, wp_lift. intros [x' [e|]] Ha; [apply wp_bind, wp_ret, wp_fail; done|].
  destruct (AppendTo [] x') as [buf|] eqn:Eb; [|apply wp_bind, wp_ret, wp_fail; done].
  assert (next_journal x fi volume path old x' buf) as Hnext by (by exists x1).
  assert (old <> Some "" /\ old <> Some (fi_DataDir fi)) as [Ho1 Ho2].
  { destruct old as [o|]; [|done]. destruct (Ho o eq_refl) as (_ & Hne & (ofi & Hofi & ->) & _).
    split; [|congruence]. intros [= He]. by apply (fu_named _ _ _ _ Hfu) in Hofi. }
  pose proof (commit_upload_wp os d fi (fi_DataDir fi) old buf d Hc Ho1 Ho2 (fu_current _ _ _ _ Hfu) (fu_dir _ _ _ _ Hfu) eq_refl eq_refl) as Hw.
  unfold wp in Hw |- *. destruct (commit_upload _ _ _ _ _ _ d) as [[[t s] r]|]; [|done]. destruct Hw as [Ht Hr'].
  split.
  - eapply Forall_impl; [exact Ht|]. intros s' [?|?]; [by left|right]. by exists old, x', buf.
  - destruct r; [|done]. by exists old, x', buf.
Qed.

(** When the guards pass and the journal is read, the outcome is that of the
    commit. *)
Lemma RenameData_reaches x fi srcVolume volume path old x' buf d :
  os_fault os CheckVolumes = None -> os_fault os AccessSrc = None -> os_fault os AccessDst = None ->
  os_fault os CheckPaths = None -> os_fault os ReadMeta = None -> os_formatLegacy os = false ->
  stored (dr_obj d) x -> fresh_upload x fi volume path -> next_journal x fi volume path old x' buf ->
  RenameData now os srcVolume fi volume path d = commit_upload os fi false (fi_DataDir fi) old buf d.
Proof.
  intros W1 W2 W3 W4 W5 Hf Hs Hfu (x1 & Hr & Ha & Hbuf).
  unfold RenameData, check, volume_access, read_dst. rewrite W1, W2, W3, W4, W5.
  rewrite (fu_local _ _ _ _ Hfu), bool_decide_eq_false_2 by apply (fu_dir _ _ _ _ Hfu). cbn [negb andb].
  assert (forall v, (if skipAccessChecks v then ret tt else ret tt) = ret tt) as Hskip by (intros v; by destruct (skipAccessChecks v)).
  rewrite !Hskip. unfold stored in Hs. unfold renameLegacyMetadata. rewrite Hf. cbn [negb].
  do 4 (unfold bind at 1; cbn [ret]).
  assert (forall missing, missing d = Some ([], d, Ok []) -> exists b,
    (let! d1 := get in match od_meta (dr_obj d1) with Some b => ret b | None => missing end) d = Some ([], d, Ok b) /\
    load_dst now os b d = Some ([], d, Ok (x, false))) as Hread.
  { intros missing Hm. unfold bind at 1. cbn [get]. destruct (od_meta (dr_obj d)) as [b|].
    - exists b. split; [done|]. destruct Hs as [Hxl Hload]. unfold load_dst. rewrite Hxl, Hload.
      assert ((0 <? length b)%nat = true) as -> by (destruct b; [done|reflexivity]). done.
    - exists []. split; [by rewrite Hm|]. unfold load_dst. cbn [length Nat.ltb Nat.leb]. rewrite Hf. by subst x. }
  match goal with |- context [match od_meta _ with Some _ => _ | None => ?m end] => destruct (Hread m) as (b0 & Hrd & Hld); [done|] end.
  unfold bind at 1. rewrite Hrd. unfold bind at 1. rewrite Hld. unfold bind at 1. cbn [ret]. unfold bind at 1. rewrite Hr. cbn [lift ret].
  unfold bind at 1. rewrite Ha. cbn [lift ret]. rewrite Hbuf. by destruct (commit_upload _ _ _ _ _ _ d) as [[[t d'] r]|].
Qed.

(** The same journal under another inline data and the current metadata version. *)
Lemma journal_current x data : journal_ok x ->
  journal_ok (mkXL (xl_versions x) data 1) /\ forall id, version_at (mkXL (xl_versions x) data 1) id = version_at x id.
Proof.
  intros [Hs Hn He Hm]. assert (forall b, unmarshalV 1 b = unmarshalV (xl_metaV x) b) as Hu.
  { intros b. unfold unmarshalV. by destruct Hm as [->| ->]. }
  split.
  - split; [done|done| |by right]. eapply Forall_impl; [exact He|]. cbn [xl_metaV]. intros v (Ht & ver & t & Hv & Hh).
    split; [done|]. exists ver, t. by rewrite Hu.
  - intros id. rewrite !version_at_pick. cbn [xl_versions xl_metaV]. destruct (pick (xl_versions x) id); [|done]. by rewrite Hu.
Qed.

Lemma journal_same x x1 : xl_versions x1 = xl_versions x -> xl_metaV x1 = xl_metaV x -> journal_ok x ->
  journal_ok x1 /\ forall id, version_at x1 id = version_at x id.
Proof.
  intros Hv Hm [? ? ? ?]. split; [split; rewrite ?Hv, ?Hm; done|]. intros id. by rewrite !version_at_pick, Hv, Hm.
Qed.

(** The drive holds the journal as it was, and every data directory it uses. *)
Definition holds_old (x : xlMetaV2) (d s : drive) : Prop :=
  stored (dr_obj s) x /\
  forall v D, v ∈ xl_versions x -> uses_dir D v -> od_dirs (dr_obj s) !! uuid_String D = od_dirs (dr_obj d) !! uuid_String D.

(** The drive holds a journal with the new version, its data, and every other
    version with its data. *)
Definition holds_new (x : xlMetaV2) (fi : FileInfo) (uv dd : N) (d s : drive) : Prop :=
  exists y, stored (dr_obj s) y /\ journal_ok y /\ version_at y uv = Ok (new_entry fi uv dd) /\
    (forall id, id <> uv -> version_at y id = version_at x id) /\
    (forall v D, v ∈ xl_versions y -> version_id v <> uv -> uses_dir D v ->
       od_dirs (dr_obj s) !! uuid_String D = od_dirs (dr_obj d) !! uuid_String D) /\
    (moves fi = true -> od_dirs (dr_obj s) !! fi_DataDir fi = od_dirs (dr_tmp d) !! fi_DataDir fi).

(** A request whose entry is valid, can be encoded, and fits into the file. *)
Record writable (x : xlMetaV2) (fi : FileInfo) (uv dd : N) : Prop := {
  wr_id : parse_version (fi_VersionID fi) = Ok uv;
  wr_dir : uuid_Parse (fi_DataDir fi) = Ok dd;
  wr_valid : Version_Valid (new_entry fi uv dd) = true;
  wr_encoded : exists b, MarshalMsg (new_entry fi uv dd) = Ok b;
  wr_fits : forall x1 x', xl_versions x1 = xl_versions x -> AddVersion now x1 fi = Some (x', None) -> xl_fits (xl_versions x')
}.

Lemma AppendTo_stored x buf : AppendTo [] x = Ok buf -> xl_fits (xl_versions x) ->
  isXL2V1Format buf = true /\ Load now buf = Some (Ok (mkXL (xl_versions x) (xl_data x) 1)).
Proof.
  intros (Hd & ->)%AppendTo_file Hf. cbn [app]. split; [|by apply Load_file]. unfold isXL2V1Format. by rewrite checkXL2V1_file.
Qed.

(** The journal a request makes, as it is stored. *)
Lemma next_journal_spec x fi uv dd volume path old x' buf : journal_ok x -> fresh_upload x fi volume path -> writable x fi uv dd ->
  next_journal x fi volume path old x' buf ->
  let y := mkXL (xl_versions x') (xl_data x') 1 in
  isXL2V1Format buf = true /\ Load now buf = Some (Ok y) /\ journal_ok y /\ version_at y uv = Ok (new_entry fi uv dd) /\
  (forall id, id <> uv -> version_at y id = version_at x id) /\
  (forall v, v ∈ xl_versions y -> version_id v <> uv -> v ∈ xl_versions x) /\
  (forall v D, v ∈ xl_versions x -> version_id v <> uv -> uses_dir D v -> uuid_String D <> fi_DataDir fi /\ old <> Some (uuid_String D)).
Proof.
  intros Hok Hfu [Hid Hdd Hv [b Hb] Hfits] (x1 & Hr & Ha & Hbuf) y.
  destruct (replace_null_spec x fi _ volume path x1 old Hok (fu_tier _ _ _ _ Hfu) Hr) as (Hvs & Hm & Ho).
  destruct (journal_same x x1 Hvs Hm Hok) as [Hok1 Hat1].
  destruct (AddVersion_spec now x1 fi uv dd b Hok1 Hid) as (x2 & Ha2 & Hok2 & Hnew & Hother); [|done|done|].
  { by rewrite bool_decide_eq_false_2 by apply (fu_dir _ _ _ _ Hfu). }
  rewrite Ha in Ha2. injection Ha2 as <-. destruct (journal_current x' (xl_data x') Hok2) as [Hoky Haty].
  destruct (AddVersion_entries now x1 fi uv x' None Hid Ha eq_refl) as (Hent & _ & _). rewrite Hvs in Hent.
  destruct (AppendTo_stored x' buf Hbuf (Hfits x1 x' Hvs Ha)) as [Hxl Hload].
  split_and!; [done..| | | |].
  - by rewrite Haty.
  - intros id Hne. by rewrite Haty, Hother, Hat1.
  - exact Hent.
  - intros v D Hv' Hne Hu. split; [by apply (fu_unused _ _ _ _ Hfu v)|]. intros Hold.
    destruct (Ho _ Hold) as (Hnull & _ & _ & Hfree). rewrite Hnull in Hid. injection Hid as <-.
    by apply (Hfree (fu_inline _ _ _ _ Hfu) v D).
Qed.

Lemma before_holds_old x fi volume path d s : fresh_upload x fi volume path -> stored (dr_obj d) x ->
  before_commit d (fi_DataDir fi) s -> holds_old x d s.
Proof.
  intros Hfu Hs (B1 & _ & B3). split; [unfold stored in *; by rewrite B1|]. intros v D Hv Hu. apply B3.
  by apply (fu_unused _ _ _ _ Hfu v).
Qed.

Lemma after_holds_new x fi uv dd volume path old x' buf d s : journal_ok x -> fresh_upload x fi volume path -> writable x fi uv dd ->
  next_journal x fi volume path old x' buf -> after_commit d fi (fi_DataDir fi) old buf s -> holds_new x fi uv dd d s.
Proof.
  intros Hok Hfu Hw Hn (A1 & A2 & A3).
  destruct (next_journal_spec x fi uv dd volume path old x' buf Hok Hfu Hw Hn) as (Hxl & Hload & Hoky & Hnew & Hother & Hent & Hdirs).
  exists (mkXL (xl_versions x') (xl_data x') 1). split_and!; [unfold stored; by rewrite A1|done..| |done].
  intros v D Hv Hne Hu. destruct (Hdirs v D (Hent v Hv Hne) Hne Hu). by apply A2.
Qed.
End Renaming.

(** *** Without failures *)

Section Success.
Context {L : XLLib} {LL : XLLaws L} {M : Msgp} {ML : MsgpLaws M} {MN : MsgpNum} {MNL : MsgpNumLaws M MN}
  `{OldFormats} `{HttpTime} `{SliceSort} `{MapOrder} (now : time) (os : OS).
Hypothesis works : forall op, os_fault os op = None.

Lemma commit_upload_runs fi name old buf d : name <> "" -> (moves fi = true -> od_dirs (dr_tmp d) !! name <> None) -> fi_XLV1 fi = false ->
  exists t d', commit_upload os fi false name old buf d = Some (t, d', Ok tt).
Proof.
  intros Hn Hdir Hx. unfold commit_upload, moves in *. rewrite Hx. cbn [andb].
  unfold WriteAll, ignore, perform, renameAll_data, renameAll_meta. rewrite !works.
  destruct ((length (fi_Data fi) =? 0)%nat && (0 <? fi_Size fi)).
  - specialize (Hdir eq_refl). destruct (od_dirs (dr_tmp d) !! name) as [fs|] eqn:Ef; [|done].
    unfold bind at 1, attempt at 1. unfold bind at 1, attempt at 1. unfold bind, attempt, step, get, ret, trash_dir, on_obj, set_tmp_meta, on_tmp.
    cbn [dr_obj dr_tmp with_meta od_dirs od_meta]. rewrite (bool_decide_eq_false_2 (name = "")) by done. rewrite Ef.
    rewrite bool_decide_eq_false_2.
    2:{ cbn [with_dirs od_dirs]. rewrite lookup_delete_eq. intros [[] _]; done. }
    cbn [with_dirs od_meta with_meta]. destruct old as [o|]; by eexists _, _.
  - unfold bind, attempt, step, get, ret, set_tmp_meta, on_tmp. cbn [dr_tmp with_meta od_meta].
    destruct old as [o|]; by eexists _, _.
Qed.

Lemma replace_null_runs x fi volume path l : journal_ok x -> fresh_upload now x fi volume path -> xl_data x = encode l ->
  well_keyed l -> len l + 1 < 2 ^ 32 -> xl_ToFileInfo x volume path nullVersionID <> None ->
  exists x1 old l1, replace_null now x fi (Some (fi_DataDir fi)) volume path = Some (x1, old) /\
    xl_data x1 = encode l1 /\ well_keyed l1 /\ len l1 + 1 < 2 ^ 32.
Proof.
  intros Hok Hfu Hdata Hl Hlen Hnull. unfold replace_null. case_bool_decide as Hid; cbn [negb]; [|by exists x, None, l].
  destruct (xl_ToFileInfo x volume path nullVersionID) as [r|]; [|done]. cbn [mbind option_bind].
  assert (forall data (old : option string), (if IsRestoreObjReq fi then Some (mkXL (xl_versions x) data (xl_metaV x), old)
    else '(y, _) ← AddFreeVersion now (mkXL (xl_versions x) data (xl_metaV x)) fi; Some (y, old)) = Some (mkXL (xl_versions x) data (xl_metaV x), old)) as Hfree.
  { intros data old. destruct (IsRestoreObjReq fi); [done|]. by rewrite (AddFreeVersion_none now x fi Hok (fu_tier _ _ _ _ _ Hfu) Hid). }
  assert (x = mkXL (xl_versions x) (xl_data x) (xl_metaV x)) as Hx by (by destruct x).
  destruct r as [ofi|e]; [destruct (_ && _)|]; cbn [mbind option_bind].
  2,3: rewrite Hx; cbn [xl_versions xl_metaV]; rewrite Hfree; by eexists _, _, l.
  rewrite Hdata, remove_encode by apply Hl. cbn [mbind option_bind]. rewrite Hfree. eexists _, _, (entries_remove l _).
  split_and!; [done|done|by apply well_keyed_remove|]. pose proof (List.filter_length_le (fun e : string * bytes => negb (bool_decide (e.1 ∈ [nullVersionID; fi_DataDir ofi]))) l).
  unfold entries_remove. lia.
Qed.

(** The journal exists: nothing in the request or the journal makes the code fail
    or panic, and the inline data of the request is found. *)
Lemma next_journal_exists x fi uv dd volume path l : journal_ok x -> fresh_upload now x fi volume path -> writable now x fi uv dd ->
  xl_data x = encode l -> well_keyed l -> len l + 1 < 2 ^ 32 -> key_fits (fi_VersionID fi) -> bytes_fit (fi_Data fi) ->
  xl_ToFileInfo x volume path nullVersionID <> None -> fi_Deleted fi = false ->
  exists old x' buf l', next_journal now x fi volume path old x' buf /\ xl_data x' = encode l' /\ well_keyed l' /\
    (fi_Data fi <> [] -> entries_find l' (asked_as (fi_VersionID fi)) = Some (fi_Data fi)).
Proof.
  intros Hok Hfu Hw Hdata Hl Hlen Hkey Hbytes Hnull Hdel.
  destruct (replace_null_runs x fi volume path l Hok Hfu Hdata Hl Hlen Hnull) as (x1 & old & l1 & Hr & Hd1 & Hl1 & Hlen1).
  destruct (replace_null_spec now x fi _ volume path x1 old Hok (fu_tier _ _ _ _ _ Hfu) Hr) as (Hvs & Hm & _).
  destruct (journal_same x x1 Hvs Hm Hok) as [Hok1 _]. destruct Hw as [Hid Hdd Hv [b Hb] Hfits].
  destruct (AddVersion_spec now x1 fi uv dd b Hok1 Hid) as (x' & Ha & _); [by rewrite bool_decide_eq_false_2 by apply (fu_dir _ _ _ _ _ Hfu)|done..|].
  destruct (AddVersion_entries now x1 fi uv x' None Hid Ha eq_refl) as (_ & _ & Hd').
  assert (exists l', xl_data x' = encode l' /\ well_keyed l' /\ (fi_Data fi <> [] -> entries_find l' (asked_as (fi_VersionID fi)) = Some (fi_Data fi)))
    as (l' & Hx' & Hl' & Hfind).
  { rewrite Hdel, Hd1 in Hd'. cbn [negb andb] in Hd'. fold (asked_as (fi_VersionID fi)) in Hd'.
    assert (key_fits (asked_as (fi_VersionID fi)) /\ asked_as (fi_VersionID fi) <> "") as [Hk Hkn] by (unfold asked_as; by case_bool_decide).
    destruct ((0 <? length (fi_Data fi))%nat || (fi_Size fi =? 0)) eqn:Ec.
    - rewrite replace_encode in Hd' by (try done; apply Hl1). injection Hd' as <-. eexists. split; [done|].
      split; [by apply well_keyed_replace|]. intros _. apply entries_find_replace.
    - injection Hd' as Hd'. exists l1. split; [done|]. split; [done|]. intros Hne. apply orb_false_iff in Ec as [Ec _].
      apply Nat.ltb_ge in Ec. by destruct (fi_Data fi); [|cbn in Ec; lia]. }
  assert (AppendTo [] x' = Ok (file_head (xl_versions x') ++ xl_data x')) as Hbuf.
  { unfold AppendTo, file_head. rewrite Hx', validate_encode by apply Hl'. f_equal. rewrite <-!app_assoc. cbn [app]. by rewrite <-!app_assoc. }
  exists old, x', (file_head (xl_versions x') ++ xl_data x'), l'. split_and!; [|done..]. by exists x1.
Qed.

(** Reading a drive that holds the file of a journal. *)
Lemma readRaw_file d vs data readData : od_meta (dr_obj d) = Some (file_head vs ++ data) -> xl_fits vs ->
  readRaw os readData d = Some ([], d, Ok (file_head vs ++ if readData then data else [])).
Proof.
  intros Hm Hf. unfold readRaw, read_meta, ReadAll_meta, check. rewrite !works.
  assert ((length (file_head vs ++ if readData then data else []) =? 0)%nat = false) as Hlen.
  { apply Nat.eqb_neq. rewrite length_app, file_head_length. lia. }
  destruct readData.
  - unfold bind, attempt, ret, get. rewrite Hm, Hlen. done.
  - unfold bind, attempt, ret, get. rewrite Hm, readXLMetaNoData_file by done. cbn iota in Hlen. rewrite app_nil_r in Hlen. rewrite Hlen. cbn. by rewrite app_nil_r.
Qed.

Lemma ReadVersion_file d vs data volume path versionID f : od_meta (dr_obj d) = Some (file_head vs ++ data) -> xl_fits vs ->
  validate data = None -> (forall data', xl_ToFileInfo (mkXL vs data' 1) volume path versionID = Some (Ok f)) ->
  ReadVersion now os volume path versionID false d = Some ([], d, Ok (fi_with_DiskMTime f (os_mtime os))) /\
  forall g, g = fi_with_DiskMTime (fi_with_Data f (inline_of data f)) (os_mtime os) ->
    fi_Data g <> [] -> FileInfo_InlineData g = true -> ReadVersion now os volume path versionID true d = Some ([], d, Ok g).
Proof.
  intros Hm Hf Hd Hx. unfold ReadVersion, check. rewrite !works. split.
  - unfold bind at 1. cbn [ret]. unfold bind at 1. cbn [ret]. unfold bind at 1, attempt. rewrite (readRaw_file d vs data false Hm Hf).
    cbn iota. unfold bind at 1. rewrite (getFileInfo_file now vs [] _ _ _ false Hf) by done. rewrite Hx. cbn [lift]. done.
  - intros g Hg Hne Hin. unfold bind at 1. cbn [ret]. unfold bind at 1. cbn [ret]. unfold bind at 1, attempt. rewrite (readRaw_file d vs data true Hm Hf).
    cbn iota. unfold bind at 1. rewrite (getFileInfo_file now vs data _ _ _ true Hf) by done. rewrite Hx. cbn [lift ret].
    unfold bind at 1. cbn [of_result ret]. rewrite <-Hg. cbn [negb].
    assert ((0 <? length (fi_Data g))%nat = true) as -> by (destruct (fi_Data g); [done|reflexivity]). cbn [orb]. rewrite Hin. done.
Qed.

Lemma RenameData_runs x fi uv dd srcVolume volume path l d : os_formatLegacy os = false -> stored now (dr_obj d) x ->
  journal_ok x -> fresh_upload now x fi volume path -> writable now x fi uv dd ->
  xl_data x = encode l -> well_keyed l -> len l + 1 < 2 ^ 32 -> key_fits (fi_VersionID fi) -> bytes_fit (fi_Data fi) ->
  xl_ToFileInfo x volume path nullVersionID <> None -> fi_Deleted fi = false ->
  (moves fi = true -> od_dirs (dr_tmp d) !! fi_DataDir fi <> None) ->
  exists t d' old x' l', RenameData now os srcVolume fi volume path d = Some (t, d', Ok tt) /\
    next_journal now x fi volume path old x' (file_head (xl_versions x') ++ encode l') /\ well_keyed l' /\
    (fi_Data fi <> [] -> entries_find l' (asked_as (fi_VersionID fi)) = Some (fi_Data fi)) /\
    after_commit d fi (fi_DataDir fi) old (file_head (xl_versions x') ++ encode l') d'.
Proof.
  intros Hf Hs Hok Hfu Hw Hdata Hl Hlen Hkey Hbytes Hnull Hdel Hdir.
  destruct (next_journal_exists x fi uv dd volume path l Hok Hfu Hw Hdata Hl Hlen Hkey Hbytes Hnull Hdel)
    as (old & x' & buf & l' & Hn & Hx' & Hl' & Hfind).
  pose proof Hn as (x1 & Hr & Ha & Hbuf). destruct (AppendTo_file _ _ _ Hbuf) as [_ Hb]. rewrite Hx' in Hb. cbn [app] in Hb. subst buf.
  destruct (commit_upload_runs fi (fi_DataDir fi) old (file_head (xl_versions x') ++ encode l') d) as (t & d' & Hrun);
    [apply (fu_dir _ _ _ _ _ Hfu)|done|apply (fu_current _ _ _ _ _ Hfu)|].
  pose proof (RenameData_reaches now os x fi srcVolume volume path old x' _ d (works _) (works _) (works _) (works _) (works _) Hf Hs Hfu Hn) as Hrun'.
  rewrite Hrun in Hrun'.
  exists t, d', old, x', l'. split_and!; [done|done|done|done|].
  destruct (wp_run _ _ _ _ _ _ _ (RenameData_wp now os x fi srcVolume volume path d Hf ltac:(intros e He; by rewrite works in He) (works Commit) Hs Hok Hfu) Hrun')
    as [_ (old2 & x2 & buf2 & (x12 & Hr2 & Ha2 & Hb2) & Hafter)].
  rewrite Hr in Hr2. injection Hr2 as <- <-. rewrite Ha in Ha2. injection Ha2 as <-. rewrite Hbuf in Hb2. injection Hb2 as <-. done.
Qed.
End Success.

Lemma describes_mtime `{XLLib} volume path fi uv dd f t : describes volume path fi uv dd f -> describes volume path fi uv dd (fi_with_DiskMTime f t).
Proof. by destruct f. Qed.
Lemma describes_data `{XLLib} volume path fi uv dd f b : describes volume path fi uv dd f -> describes volume path fi uv dd (fi_with_Data f b).
Proof. by destruct f. Qed.
#[export] Hint Resolve describes_mtime describes_data : fs.

(** The result of [ToFileInfo] does not depend on the inline data. *)
Lemma ToFileInfo_data `{XLLib} `{HttpTime} `{MapOrder} vs data data' mv volume path id :
  xl_ToFileInfo (mkXL vs data mv) volume path id = xl_ToFileInfo (mkXL vs data' mv) volume path id.
Proof. done. Qed.

(** C8: an upload that was moved into place is read.  On a drive whose calls
    succeed, [RenameData] of a valid request returns no error, the uploaded data
    directory is the object's, and [ReadVersion] of the version then returns the
    object of the request: its size, time, parts, erasure parameters, data
    directory and metadata.  When the request carries its data inline and says so,
    reading with data returns the same bytes. *)
Theorem RenameData_ReadVersion {L : XLLib} {LL : XLLaws L} {M : Msgp} {ML : MsgpLaws M} {MN : MsgpNum} {MNL : MsgpNumLaws M MN}
    `{OldFormats} `{HttpTime} `{SliceSort} `{MapOrder} now os x fi uv dd srcVolume volume path l d :
  (forall op, os_fault os op = None) -> os_formatLegacy os = false -> stored now (dr_obj d) x ->
  journal_ok x -> fresh_upload now x fi volume path -> writable now x fi uv dd ->
  xl_data x = encode l -> well_keyed l -> len l + 1 < 2 ^ 32 -> key_fits (fi_VersionID fi) -> bytes_fit (fi_Data fi) ->
  xl_ToFileInfo x volume path nullVersionID <> None -> fi_Deleted fi = false ->
  (moves fi = true -> od_dirs (dr_tmp d) !! fi_DataDir fi <> None) ->
  fi_VersionID fi = version_string uv -> int64_range (fi_ModTime fi - unix_epoch) ->
  Forall (fun n => 0 <= n < 256) (ei_Distribution (fi_Erasure fi)) ->
  exists t d' f, RenameData now os srcVolume fi volume path d = Some (t, d', Ok tt) /\
    ReadVersion now os volume path (asked_as (fi_VersionID fi)) false d' = Some ([], d', Ok f) /\
    describes volume path fi uv dd f /\
    (moves fi = true -> od_dirs (dr_obj d') !! fi_DataDir fi = od_dirs (dr_tmp d) !! fi_DataDir fi) /\
    (fi_Data fi <> [] -> fi_Metadata fi !! inlineDataKey <> None -> exists g,
       ReadVersion now os volume path (asked_as (fi_VersionID fi)) true d' = Some ([], d', Ok g) /\
       describes volume path fi uv dd g /\ fi_Data g = fi_Data fi).
Proof.
  intros Hworks Hf Hs Hok Hfu Hw Hdata Hl Hlen Hkey Hbytes Hnull Hdel Hdir Hcan Hmt Hdist.
  destruct (RenameData_runs now os Hworks x fi uv dd srcVolume volume path l d Hf Hs Hok Hfu Hw Hdata Hl Hlen Hkey Hbytes Hnull Hdel Hdir)
    as (t & d' & old & x' & l' & Hrun & Hn & Hl' & Hfind & (A1 & _ & A3)).
  pose proof (next_journal_spec now x fi uv dd volume path old x' _ Hok Hfu Hw Hn) as (_ & _ & Hoky & Hnew & _).
  assert (xl_fits (xl_versions x')) as Hfits.
  { destruct Hn as (x1 & Hr & Ha & _). destruct (replace_null_spec now x fi _ volume path x1 old Hok (fu_tier _ _ _ _ _ Hfu) Hr) as (Hvs & _).
    by apply (wr_fits _ _ _ _ _ Hw x1). }
  destruct (entry_read_back _ fi uv dd volume path Hoky (wr_id _ _ _ _ _ Hw) Hnew Hdel Hmt Hdist) as (f & Hx & Hdesc).
  assert (forall data, xl_ToFileInfo (mkXL (xl_versions x') data 1) volume path (asked_as (fi_VersionID fi)) = Some (Ok f)) as Hx'.
  { intros data. by rewrite (ToFileInfo_data _ data (xl_data x')). }
  destruct (ReadVersion_file now os Hworks d' (xl_versions x') (encode l') volume path (asked_as (fi_VersionID fi)) f A1 Hfits) as [Hread Hinline];
    [by apply validate_encode; apply Hl'|done|].
  eexists t, d', _. split; [exact Hrun|]. split; [exact Hread|]. split; [auto with fs|]. split; [exact A3|].
  intros Hne Hmd. specialize (Hfind Hne).
  assert (fi_VersionID f = fi_VersionID fi) as Hid by (destruct Hdesc as ([= _ _ ->] & _); done).
  assert (inline_of (encode l') f = fi_Data fi) as Hin.
  { unfold inline_of. rewrite Hid. change (if bool_decide (fi_VersionID fi = "") then nullVersionID else fi_VersionID fi) with (asked_as (fi_VersionID fi)).
    rewrite find_encode by apply Hl'. rewrite Hfind. cbn [default from_option]. by destruct (fi_Data fi). }
  rewrite Hin in Hinline. eexists. split; [apply (Hinline _ eq_refl)|split; [auto with fs|by destruct f]].
  - by destruct f.
  - assert (describes volume path fi uv dd (fi_with_DiskMTime (fi_with_Data f (fi_Data fi)) (os_mtime os))) as (_ & _ & _ & _ & _ & _ & Hres) by auto with fs.
    unfold FileInfo_InlineData, inlineDataKey. rewrite Hres by (try done; apply (bool_decide_unpack _); vm_compute; exact I).
    apply bool_decide_eq_true_2. unfold inlineDataKey in Hmd. by apply not_eq_None_Some.
Qed.

(** C7: an upload moves into place without losing a version.  The drive holds a
    journal, the request brings a data directory that no version uses, and its
    entry is valid.  Whichever calls fail, the final rename apart, and wherever the
    process stops: in every state [RenameData] takes the drive through, either the
    old journal is there with the data of all its versions, or a new one that has
    the request's version with the uploaded data, and every other version with its
    data.  It is the new one when the call succeeds and the old one when it returns
    an error. *)
Theorem RenameData_crash_safe {L : XLLib} {LL : XLLaws L} {M : Msgp} {ML : MsgpLaws M} {MN : MsgpNum} {MNL : MsgpNumLaws M MN}
    `{OldFormats} `{HttpTime} `{SliceSort} `{MapOrder} now os x fi uv dd srcVolume volume path d t d' r :
  os_formatLegacy os = false -> reads_honestly os -> os_fault os Commit = None ->
  stored now (dr_obj d) x -> journal_ok x -> fresh_upload now x fi volume path -> writable now x fi uv dd ->
  RenameData now os srcVolume fi volume path d = Some (t, d', r) ->
  Forall (fun s => holds_old now x d s \/ holds_new now x fi uv dd d s) t /\
  match r with Ok _ => holds_new now x fi uv dd d d' | Err _ => holds_old now x d d' end.
Proof.
  intros Hf Hh Hc Hs Hok Hfu Hw Hrun.
  destruct (wp_run _ _ _ _ _ _ _ (RenameData_wp now os x fi srcVolume volume path d Hf Hh Hc Hs Hok Hfu) Hrun) as [Ht Hr].
  split.
  - eapply Forall_impl; [exact Ht|]. intros s [Hb|(old & x' & buf & Hn & Ha)].
    + left. by eapply before_holds_old.
    + right. by eapply after_holds_new.
  - destruct r as [?|e]; [destruct Hr as (old & x' & buf & Hn & Ha); by eapply after_holds_new|by eapply before_holds_old].
Qed.

(** *** Failures that lose versions *)

Section Losses.
Context {L : XLLib} {LL : XLLaws L} {M : Msgp} {ML : MsgpLaws M} {MN : MsgpNum} {MNL : MsgpNumLaws M MN}
  `{OldFormats} `{HttpTime} `{SliceSort} `{MapOrder} (now : time) (os : OS).

Lemma commit_upload_fails fi name old buf d e : (forall op, op <> Commit -> os_fault os op = None) -> os_fault os Commit = Some e ->
  name <> "" -> (moves fi = true -> od_dirs (dr_tmp d) !! name <> None) -> fi_XLV1 fi = false ->
  exists t d', commit_upload os fi false name old buf d = Some (t, d', Err (osErrToFileErr (rename_error e))) /\ od_meta (dr_obj d') = None.
Proof.
  intros Hw Hc Hn Hdir Hx. unfold commit_upload, moves in *. rewrite Hx. cbn [andb].
  unfold WriteAll, ignore, perform, renameAll_data, renameAll_meta. rewrite Hc, !(Hw _) by done.
  destruct ((length (fi_Data fi) =? 0)%nat && (0 <? fi_Size fi)).
  - specialize (Hdir eq_refl). destruct (od_dirs (dr_tmp d) !! name) as [fs|] eqn:Ef; [|done].
    unfold bind, attempt, step, get, ret, fail, trash_dir, on_obj, set_tmp_meta, on_tmp, remove_meta, unroll.
    cbn [dr_obj dr_tmp with_meta od_dirs od_meta]. rewrite (bool_decide_eq_false_2 (name = "")) by done. rewrite Ef.
    rewrite bool_decide_eq_false_2.
    2:{ cbn [with_dirs od_dirs]. rewrite lookup_delete_eq. intros [[] _]; done. }
    by eexists _, _.
  - unfold bind, attempt, step, get, ret, fail, set_tmp_meta, on_tmp, on_obj, remove_meta, unroll. cbn [dr_tmp with_meta od_meta]. by eexists _, _.
Qed.

(** The parts of an object of the first format, once moved. *)
Lemma move_parts_runs entries d : (forall entry, os_fault os (MoveLegacy entry) = None) ->
  exists t d', move_parts os entries d = Some (t, d', Ok tt) /\ od_meta (dr_obj d') = od_meta (dr_obj d) /\
    (forall entry, od_parts (dr_obj d') !! entry <> None -> od_parts (dr_obj d) !! entry <> None) /\
    (forall entry, entry ∈ entries -> is_part_entry entry = true -> od_parts (dr_obj d') !! entry = None).
Proof.
  intros Hw. revert d. induction entries as [|e es IH]; intros d.
  { exists [], d. split_and!; [done..|]. by intros entry ?%elem_of_nil. }
  cbn [move_parts]. destruct (is_part_entry e) eqn:Ee; cbn [negb].
  - rewrite Hw. destruct (IH (on_obj (move_part e) d)) as (t & d' & Hr & Hm & Hsub & Hall).
    exists ([on_obj (move_part e) d] ++ t), d'. unfold bind, step. rewrite Hr.
    assert (od_parts (move_part e (dr_obj d)) = delete e (od_parts (dr_obj d)) /\ od_meta (move_part e (dr_obj d)) = od_meta (dr_obj d)) as [Hd Hmt].
    { unfold move_part. destruct (od_parts (dr_obj d) !! e) eqn:El; [done|]. split; [|done]. symmetry. by apply delete_id. }
    cbn [on_obj dr_obj] in *. rewrite Hd in Hsub. split_and!; [done|congruence| |].
    + intros entry Hne. apply Hsub in Hne. rewrite lookup_delete in Hne. by case_decide.
    + intros entry [->|Hin]%elem_of_cons Hp; [|by apply Hall]. destruct (od_parts (dr_obj d') !! e) eqn:El; [|done].
      exfalso. apply (Hsub e); [congruence|]. apply lookup_delete_eq.
  - destruct (IH d) as (t & d' & Hr & Hm & Hsub & Hall). exists t, d'. split_and!; [done..|].
    intros entry [->|Hin]%elem_of_cons Hp; [congruence|by apply Hall].
Qed.

Lemma legacy_moved d : (forall op, op <> WriteTmpMeta -> os_fault os op = None) ->
  (forall entry, od_parts (dr_obj d) !! entry <> None -> entry ∈ os_listing os (dr_obj d) /\ is_part_entry entry = true) ->
  exists t d', preserve_legacy os d = Some (t, d', Ok tt) /\ od_meta (dr_obj d') = od_meta (dr_obj d) /\ od_parts (dr_obj d') = ∅.
Proof.
  intros Hw Hlist. unfold preserve_legacy. rewrite !(Hw _) by done. unfold bind at 1. cbn [get]. unfold bind at 1. cbn [step].
  match goal with |- context [move_parts os _ ?d1] =>
    destruct (move_parts_runs (os_listing os (dr_obj d)) d1 (fun entry => Hw (MoveLegacy entry) ltac:(done))) as (t & d' & -> & Hm & Hsub & Hall) end.
  eexists _, _. split; [done|]. split; [done|]. apply map_empty. intros entry. destruct (od_parts (dr_obj d') !! entry) eqn:El; [|done].
  exfalso. assert (od_parts (dr_obj d') !! entry <> None) as Hne by congruence. destruct (Hlist entry (Hsub entry Hne)) as [Hin Hp].
  rewrite (Hall entry Hin Hp) in El. done.
Qed.
End Losses.

(** C39: two failures that lose data they were to protect.  When the rename that
    commits the new journal fails, the clean-up removes the metadata file that is
    there, which is still the old journal: the drive returns an error and has lost
    every version of the object.  When the object has the first format, its parts
    are first moved to the directory [legacy]; if the new journal then cannot be
    written, what the code calls un-rolling sends that directory to the trash, and
    the parts of the old object are gone while its metadata is still there. *)
Theorem RenameData_faults {L : XLLib} {LL : XLLaws L} {M : Msgp} {ML : MsgpLaws M} {MN : MsgpNum} {MNL : MsgpNumLaws M MN}
    `{OldFormats} `{HttpTime} `{SliceSort} `{MapOrder} now os fi srcVolume volume path d e :
  fi_XLV1 fi = false ->
  (forall x old x' buf, (forall op, op <> Commit -> os_fault os op = None) -> os_fault os Commit = Some e -> os_formatLegacy os = false ->
     stored now (dr_obj d) x -> fresh_upload now x fi volume path -> next_journal now x fi volume path old x' buf ->
     (moves fi = true -> od_dirs (dr_tmp d) !! fi_DataDir fi <> None) ->
     exists t d', RenameData now os srcVolume fi volume path d = Some (t, d', Err (osErrToFileErr (rename_error e))) /\
       stored now (dr_obj d') zero_journal) /\
  (forall b m x err x' x1 old buf, (forall op, op <> WriteTmpMeta -> os_fault os op = None) -> os_fault os WriteTmpMeta = Some e -> os_left os WriteTmpMeta = None ->
     od_meta (dr_obj d) = Some b -> b <> [] -> isXL2V1Format b = false -> json_Unmarshal b = Ok m ->
     (forall entry, od_parts (dr_obj d) !! entry <> None -> entry ∈ os_listing os (dr_obj d) /\ is_part_entry entry = true) ->
     IsRemote now fi = false -> fi_DataDir fi <> "" ->
     AddLegacy now zero_journal (in_legacy_dir m) = Some (x, err) ->
     replace_null now x fi (Some (fi_DataDir fi)) volume path = Some (x1, old) -> AddVersion now x1 fi = Some (x', None) -> AppendTo [] x' = Ok buf ->
     exists t d', RenameData now os srcVolume fi volume path d = Some (t, d', Err (osErrToFileErr e)) /\
       od_meta (dr_obj d') = Some b /\ od_parts (dr_obj d') = ∅ /\ od_dirs (dr_obj d') !! legacyDataDir = None).
Proof.
  intros Hx. split.
  - intros x old x' buf Hw Hc Hf Hs Hfu Hn Hdir.
    destruct (commit_upload_fails os fi (fi_DataDir fi) old buf d e Hw Hc (fu_dir _ _ _ _ _ Hfu) Hdir Hx) as (t & d' & Hrun & Hm).
    exists t, d'. rewrite (RenameData_reaches now os x fi srcVolume volume path old x' buf d) by (try done; by apply Hw). split; [done|].
    unfold stored. by rewrite Hm.
  - intros b m x err x' x1 old buf Hw Hc Hleft Hm Hb Hxl Hjson Hlist Hrem Hdd Hleg Hr Ha Hbuf.
    destruct (legacy_moved os d Hw) as (t & d' & Hpres & Hmeta & Hparts); [done|].
    unfold RenameData, check, volume_access, read_dst. rewrite !(Hw _) by done. rewrite Hrem, bool_decide_eq_false_2 by done. cbn [negb andb].
    assert (forall v, (if skipAccessChecks v then ret tt else ret tt) = ret tt) as Hskip by (intros v; by destruct (skipAccessChecks v)).
    rewrite !Hskip. do 4 (unfold bind at 1; cbn [ret]). unfold bind at 1. unfold bind at 1. cbn [get]. rewrite Hm. cbn [ret].
    unfold bind at 1, load_dst. assert ((0 <? length b)%nat = true) as -> by (destruct b; [done|reflexivity]).
    rewrite Hxl, Hjson. unfold bind at 1. rewrite Hleg. cbn [lift ret]. unfold bind at 1. rewrite Hpres. unfold bind at 1. rewrite Hr. cbn [lift ret].
    unfold bind at 1. rewrite Ha. cbn [lift ret]. rewrite Hbuf. unfold commit_upload, WriteAll. rewrite Hc, Hleft.
    unfold unroll, ignore, perform. rewrite (Hw RemoveLegacy) by done. unfold bind, attempt, fail, step, ret. eexists _, _. split; [done|].
    unfold trash_dir, on_obj. rewrite bool_decide_eq_false_2 by done. cbn [dr_obj with_dirs od_meta od_parts od_dirs].
    split_and!; [congruence|done|apply lookup_delete_eq].
Qed.

(** ** A version is deleted *)

Lemma setIdx_data `{XLLib} `{HttpTime} `{SliceSort} `{MapOrder} now x i ver x' r : setIdx now x i ver = Some (x', r) -> xl_data x' = xl_data x.
Proof.
  unfold setIdx. destruct (xl_versions x !! i); [|by intros [= <- _]]. destruct (MarshalMsg ver); [|by intros [= <- _]].
  destruct (header now ver); [|done]. cbn. by intros [= <- _].
Qed.

Lemma addVersion_data `{XLLib} `{HttpTime} `{MapOrder} now x ver x' r : addVersion now x ver = Some (x', r) -> xl_data x' = xl_data x.
Proof.
  unfold addVersion. destruct (getModTime ver); [|done]. cbn [mbind option_bind]. destruct (Version_Valid ver); [|by intros [= <- _]]. cbn [negb].
  destruct (MarshalMsg ver); [|by intros [= <- _]]. destruct (header now ver); [|done]. cbn [mbind option_bind].
  destruct (insert_version _ _ _); by intros [= <- _].
Qed.

Section Deleting.
Context {L : XLLib} {LL : XLLaws L} {M : Msgp} {ML : MsgpLaws M} {MN : MsgpNum} {MNL : MsgpNumLaws M MN}
  `{OldFormats} `{HttpTime} `{SliceSort} `{MapOrder} (now : time) (os : OS).

(** A plain delete does not touch the inline data. *)
Lemma delete_keeps_data x fi x' r : plain_delete fi -> fi_Deleted fi = false -> DeleteVersion now x fi = Some (x', r) -> xl_data x' = xl_data x.
Proof.
  intros (_ & _ & Hmk & Hex & Hts) Hnd. unfold DeleteVersion. destruct (parse_version _) as [uv|]; [|by intros [= <- _]].
  rewrite Hnd. cbn [andb]. destruct (find_delete _ _ _) as [i|].
  - destruct (xl_versions x !! i) as [v|]; [|done]. cbn [mbind option_bind]. unfold delete_found. rewrite Hnd, Hmk. cbn [andb].
    destruct (_ =? LegacyType).
    { destruct (getIdx x i) as [ver|]; [|by intros [= <- _]]. cbn [mbind option_bind]. destruct (ve_ObjectV1 ver); [|done]. cbn. by intros [= <- _]. }
    destruct (_ =? DeleteType).
    { destruct (update_version fi); [|cbn; by intros [= <- _]]. destruct (getIdx x i) as [ver|]; [|by intros [= <- _]].
      destruct (ve_DeleteMarker ver); [|done]. cbn [mbind option_bind]. destruct (setIdx now x i _) as [[y e]|] eqn:E; [|done].
      cbn. intros [= <- _]. exact (setIdx_data _ _ _ _ _ _ E). }
    destruct (getIdx x i) as [ver|]; [|by intros [= <- _]]. destruct (ve_ObjectV2 ver); [|done]. cbn [mbind option_bind].
    destruct (setIdx now x i _) as [[y e]|] eqn:E; [|done]. cbn. intros [= <- _]. exact (setIdx_data _ _ _ _ _ _ E).
  - destruct (find_object uv _) as [i|]; [|by intros [= <- _]]. unfold delete_object. destruct (getIdx x i) as [ver|]; [|by intros [= <- _]].
    destruct (ve_ObjectV2 ver) as [o|]; [|done]. cbn [mbind option_bind]. rewrite Hex, bool_decide_eq_false_2, Hnd by done.
    destruct (InitFreeVersion o fi) as [[fv|]|]; [| |done]; cbn [mbind option_bind].
    + destruct (addVersion now (remove_at x i) fv) as [[y e]|] eqn:E; [|done]. cbn [mbind option_bind].
      apply addVersion_data in E. destruct (_ <? _)%nat; intros [= <- _]; exact E.
    + destruct (_ <? _)%nat; intros [= <- _]; reflexivity.
Qed.

(** A version that is not in the journal is not found. *)
Lemma ToFileInfo_absent y volume path id uv : id <> "" -> parse_version id = Ok uv -> version_at y uv = Err errFileVersionNotFound ->
  journal_ok y -> xl_ToFileInfo y volume path id = Some (Err errFileVersionNotFound).
Proof.
  intros Hne Hp Hat Hok. rewrite version_at_pick in Hat. destruct (pick (xl_versions y) uv) as [v|] eqn:Ep.
  { apply pick_Some in Ep as [Hin <-]; [|apply (jo_nodup _ Hok)]. destruct (entry_version y v Hok Hin) as (ver & t & _ & Hu & _). congruence. }
  apply pick_None in Ep. unfold xl_ToFileInfo. rewrite Hp, <-(app_nil_r (xl_versions y)), lookup_skip; [|done|].
  - cbn [lookup_loop mbind option_bind]. by rewrite bool_decide_eq_false_2.
  - rewrite Forall_forall. intros w Hw He. apply Ep. rewrite <-He. by apply list_elem_of_fmap_2.
Qed.

Hypothesis works : forall op, os_fault os op = None.

Lemma purge_runs dataDir d : dataDir <> "" -> exists t d', purge_data os dataDir d = Some (t, d', Ok tt) /\
  od_meta (dr_obj d') = od_meta (dr_obj d) /\ od_parts (dr_obj d') = od_parts (dr_obj d) /\
  forall n, n <> dataDir -> od_dirs (dr_obj d') !! n = od_dirs (dr_obj d) !! n.
Proof.
  intros Hne. unfold purge_data, check. rewrite !works. unfold bind, get, ret. cbn [app]. case_bool_decide.
  - exists [], d. by split_and!.
  - unfold step, trash_dir, on_obj. rewrite bool_decide_eq_false_2 by done. eexists _, _. split; [done|]. cbn [dr_obj with_dirs od_meta od_parts od_dirs].
    split_and!; [done..|]. intros n Hn. by rewrite lookup_delete_ne.
Qed.

Lemma write_or_trash_runs x d : od_meta (dr_obj d) <> None -> (xl_versions x <> [] -> validate (xl_data x) = None) -> exists t d', write_or_trash os x d = Some (t, d', Ok tt) /\
  od_meta (dr_obj d') = (match xl_versions x with [] => None | _ => Some (file_head (xl_versions x) ++ xl_data x) end) /\
  od_parts (dr_obj d') = od_parts (dr_obj d) /\ od_dirs (dr_obj d') = od_dirs (dr_obj d).
Proof.
  intros Hm Hv. unfold write_or_trash, write_journal, trash_meta, check, WriteAll. rewrite !works. destruct (xl_versions x) as [|v vs] eqn:E.
  - destruct (od_meta (dr_obj d)) eqn:Em; [|done]. unfold bind, ret, get, step, remove_meta, on_obj. cbn. rewrite Em. by eexists _, _.
  - cbn [length Nat.eqb negb]. unfold AppendTo. rewrite Hv by done. rewrite E. unfold bind. cbn [of_result ret]. eexists _, _. split; [done|].
    unfold set_obj_meta, on_obj. cbn [dr_obj with_meta od_meta od_parts od_dirs]. split_and!; [|done..]. f_equal. unfold file_head.
    rewrite <-!app_assoc. cbn [app]. by rewrite <-!app_assoc.
Qed.

(** The run of a delete whose journal operation succeeds. *)
Lemma DeleteVersion_runs x fi x' dir path l d : stored now (dr_obj d) x -> od_meta (dr_obj d) <> None -> ends_with_slash path = false ->
  DeleteVersion now x fi = Some (x', (dir, None)) -> xl_data x' = encode l -> well_keyed l ->
  exists t d' l', DeleteVersion_disk now os path fi false d = Some (t, d', Ok tt) /\ well_keyed l' /\
    od_meta (dr_obj d') = (match xl_versions x' with [] => None | _ => Some (file_head (xl_versions x') ++ encode l') end) /\
    od_parts (dr_obj d') = od_parts (dr_obj d) /\
    forall n, (dir <> "" -> n <> dir) -> od_dirs (dr_obj d') !! n = od_dirs (dr_obj d) !! n.
Proof.
  intros Hs Hm Hp Hd Hx' Hl. unfold DeleteVersion_disk. rewrite Hp. unfold stored in Hs. destruct (od_meta (dr_obj d)) as [b|] eqn:Em; [|done].
  destruct Hs as [Hxl Hload]. unfold ReadAll_meta, check. rewrite works.
  unfold bind at 1, attempt. unfold bind at 1. cbn [ret]. unfold bind at 1. cbn [get]. rewrite Em. cbn [ret app].
  unfold delete_from, check. rewrite works, Hxl. assert ((length b =? 0)%nat = false) as -> by (destruct b; [done|reflexivity]).
  unfold bind at 1. cbn [ret]. cbn [negb]. unfold bind at 1. rewrite Hload. cbn [lift ret]. unfold bind at 1. cbn [of_result ret].
  unfold bind at 1. rewrite Hd. cbn [lift ret]. case_bool_decide as Hdir.
  - destruct (write_or_trash_runs x' d) as (t & d' & Hrun & H1' & H2' & H3'); [congruence|rewrite Hx'; intros _; by apply validate_encode; apply Hl|].
    unfold bind at 1. cbn [ret]. rewrite Hrun. eexists _, d', l. split; [done|]. rewrite <-Hx'. split_and!; [done|done|done|]. intros n _. by rewrite H3'.
  - set (key := if bool_decide (fi_VersionID fi = "") then nullVersionID else fi_VersionID fi).
    set (x2 := mkXL (xl_versions x') (encode (entries_remove l [key; dir])) (xl_metaV x')).
    assert (drop_inline x' fi dir = Some x2) as Hdrop. { unfold drop_inline. fold key. rewrite Hx', remove_encode by apply Hl. done. }
    destruct (purge_runs dir d Hdir) as (t1 & d1 & Hrun1 & Hm1 & Hp1 & Hd1).
    pose proof (well_keyed_remove l [key; dir] Hl) as Hl2.
    destruct (write_or_trash_runs x2 d1) as (t & d' & Hrun & H1' & H2' & H3'); [congruence|intros _; by apply validate_encode; apply Hl2|].
    unfold bind at 1. unfold bind at 1. rewrite Hdrop. cbn [lift ret]. unfold bind at 1. rewrite Hrun1. cbn [ret]. rewrite Hrun.
    eexists _, d', _. split; [done|]. split; [exact Hl2|]. split_and!; [done|congruence|]. intros n Hn. rewrite H3'. apply Hd1. by apply Hn.
Qed.

Lemma ReadVersion_absent volume path id uv d vs data : id <> "" -> parse_version id = Ok uv ->
  od_parts (dr_obj d) !! xlStorageFormatFileV1 = None ->
  (match vs with
   | [] => od_meta (dr_obj d) = None
   | _ => od_meta (dr_obj d) = Some (file_head vs ++ data) /\ xl_fits vs /\ validate data = None /\
          journal_ok (mkXL vs data 1) /\ version_at (mkXL vs data 1) uv = Err errFileVersionNotFound
   end) -> ReadVersion now os volume path id false d = Some ([], d, Err errFileVersionNotFound).
Proof.
  intros Hne Hp Hj Hvs. unfold ReadVersion, check. rewrite !works. unfold bind at 1. cbn [ret]. unfold bind at 1. cbn [ret].
  unfold bind at 1, attempt. destruct vs as [|v vs].
  - unfold readRaw, read_meta, ReadAll_json, check. rewrite !works. unfold bind, attempt, get, ret, fail. rewrite Hvs.
    rewrite (bool_decide_eq_true_2 (errFileNotFound = errFileNotFound)) by done. rewrite Hj.
    rewrite ?(bool_decide_eq_true_2 (errFileNotFound = errFileNotFound)) by done. rewrite (bool_decide_eq_false_2 (id = "")) by done. done.
  - destruct Hvs as (Hm & Hf & Hd & Hok & Hat). rewrite (readRaw_file os works d (v :: vs) data false Hm Hf). cbn iota.
    unfold bind at 1. rewrite (getFileInfo_file now (v :: vs) [] _ _ _ false Hf) by done.
    rewrite (ToFileInfo_data _ [] data), (ToFileInfo_absent _ volume path id uv Hne Hp Hat Hok). done.
Qed.
End Deleting.


(** ** Instances

    A drive with one version, a request for a second one in its own directory, and
    drives that work or fail at one call. *)

#[local] Existing Instance version_eq_dec.
#[local] Existing Instance sample_http.
#[local] Existing Instance no_old_formats.

Definition disk_ver : xlMetaV2Version := sample_version (sample_object 2 11 200).

#[local] Instance disk_lib : XLLib := {|
  uuid_Parse := @uuid_Parse sample_lib;
  uuid_String := @uuid_String sample_lib;
  MarshalMsg v := if decide (v = sample_ver1) then Ok [Byte.x01]
                  else if decide (v = disk_ver) then Ok [Byte.x02] else Err (ErrNew "marshal");
  UnmarshalMsg b := match b with
                    | [Byte.x01] => Ok sample_ver1 | [Byte.x02] => Ok disk_ver | _ => Err (ErrNew "unmarshal")
                    end;
  object_MarshalMsg o := Ok [];
  marker_MarshalMsg d := Ok [];
  legacy_MarshalMsg m := Ok [];
  xxhash_Sum64 b := Z.of_nat (length b);
  xxh3_HashString s := Z.of_nat (String.length s);
  globalVersionUnix := 7
|}.

#[local] Instance disk_laws : XLLaws disk_lib.
Proof.
  split.
  - intros v b. cbn. destruct (decide (v = sample_ver1)) as [->|]; [by intros [= <-]|].
    destruct (decide (v = disk_ver)) as [->|]; [by intros [= <-]|done].
  - intros [|p]; [done|]. cbn. rewrite bits_Parse_String. by destruct p.
  - intros b v o Hu Ho. cbn in Hu. destruct b as [|[] [|]]; try done; injection Hu as <-; injection Ho as <-; done.
Qed.

Definition disk_v1 : xlMetaV2ShallowVersion := mkShallow (default (mkHeader 0 0 0 0 0) (header 0 sample_ver1)) [Byte.x01].
Definition disk_v2 : xlMetaV2ShallowVersion := mkShallow (default (mkHeader 0 0 0 0 0) (header 0 disk_ver)) [Byte.x02].
Definition disk_journal : xlMetaV2 := mkXL [disk_v1] [] 1.
Definition disk_journal2 : xlMetaV2 := mkXL [disk_v2; disk_v1] [] 1.

Definition disk_request : FileInfo :=
  mkFileInfo "" "" "uo1" false false "" "" "" "" false (uuid_String 11) false (time_Unix_nano 200) 5 0 0 ∅
    [mkPart "" 1 5 5 0 []] (mkErasureInfo "" 2 2 100 1 [1; 2; 3; 4] []) false zero_ReplicationState [] 0 0 false 0 0.

Definition disk_part : files := {["part.1" := [Byte.x41]]}.
Definition disk_file (x : xlMetaV2) : bytes := match AppendTo [] x with Ok b => b | Err _ => [] end.
Definition disk_state : drive :=
  mkDrive (mkDir (Some (disk_file disk_journal)) ∅ {[uuid_String 10 := disk_part]}) (mkDir None ∅ {[uuid_String 11 := disk_part]}).
Definition disk_state2 : drive :=
  mkDrive (mkDir (Some (disk_file disk_journal2)) ∅ {[uuid_String 10 := disk_part; uuid_String 11 := disk_part]}) empty_dir.

Definition os_names (d : objdir) : list string := (map_to_list (od_parts d)).*1.
Definition os_works : OS := mkOS (fun _ => None) (fun _ => None) os_names false 0.
Definition os_no_commit : OS := mkOS (fun op => match op with Commit => Some EIO | _ => None end) (fun _ => None) os_names false 0.
(** The data directory cannot be moved and the clean-up fails as well. *)
Definition os_no_data : OS :=
  mkOS (fun op => match op with MoveData | RemoveData => Some EIO | _ => None end) (fun _ => None) os_names false 0.

Lemma disk_header_fits : header_fits (sv_header disk_v1) /\ header_fits (sv_header disk_v2).
Proof. split; unfold header_fits, int64_range; vm_compute; repeat split; discriminate. Qed.

Lemma disk_fits : xl_fits [disk_v1] /\ xl_fits [disk_v2; disk_v1].
Proof.
  destruct disk_header_fits as [H1 H2]. split; (split; [rewrite ?Forall_cons, Forall_nil; tauto|]); unfold bytes_fit; vm_compute; reflexivity.
Qed.

Lemma disk_entry_ok v ver : unmarshalV 1 (sv_meta v) = Ok ver -> header 0 ver = Some (sv_header v) ->
  VersionType_valid (vh_Type (sv_header v)) = true -> entry_ok 1 v.
Proof. intros Hu Hh Ht. split; [done|]. by exists ver, 0. Qed.

Lemma disk_journal_ok : journal_ok disk_journal /\ journal_ok disk_journal2.
Proof.
  assert (entry_ok 1 disk_v1) as H1 by (apply (disk_entry_ok disk_v1 sample_ver1); vm_compute; reflexivity).
  assert (entry_ok 1 disk_v2) as H2 by (apply (disk_entry_ok disk_v2 disk_ver); vm_compute; reflexivity).
  split; (split; [| | |by right]).
  - repeat constructor.
  - apply NoDup_singleton.
  - apply Forall_cons. split; [exact H1|constructor].
  - repeat constructor. unfold by_modtime. vm_compute. discriminate.
  - apply (bool_decide_unpack _). vm_compute. exact I.
  - apply Forall_cons. split; [exact H2|]. apply Forall_cons. split; [exact H1|constructor].
Qed.

Lemma disk_stored : stored 0 (dr_obj disk_state) disk_journal /\ stored 0 (dr_obj disk_state2) disk_journal2.
Proof. split; split; vm_compute; reflexivity. Qed.

Lemma disk_v1_dir D : uses_dir D disk_v1 -> D = 10%N.
Proof. intros (_ & _ & d & o & Hd & Ho & <-). injection Hd as <-. by injection Ho as <-. Qed.

Lemma disk_fresh : fresh_upload 0 disk_journal disk_request "bucket" "object".
Proof.
  split.
  - vm_compute. reflexivity.
  - vm_compute. discriminate.
  - reflexivity.
  - intros v D ->%list_elem_of_singleton ->%disk_v1_dir. vm_compute. discriminate.
  - intros ver o Hv. vm_compute in Hv. discriminate Hv.
  - vm_compute. reflexivity.
  - intros ofi Hf. vm_compute in Hf. discriminate Hf.
Qed.

Lemma disk_add data mv : AddVersion 0 (mkXL [disk_v1] data mv) disk_request = Some (mkXL [disk_v2; disk_v1] data mv, None).
Proof. vm_compute. reflexivity. Qed.

Lemma disk_writable : writable 0 disk_journal disk_request 2 11.
Proof.
  split.
  - vm_compute. reflexivity.
  - vm_compute. reflexivity.
  - vm_compute. reflexivity.
  - exists [Byte.x02]. vm_compute. reflexivity.
  - intros [vs data mv] x' Hvs Ha. cbn [xl_versions disk_journal] in Hvs. subst vs. rewrite disk_add in Ha. injection Ha as <-. apply disk_fits.
Qed.

Lemma RenameData_crash_safe_witness : exists t d' e,
  RenameData 0 os_no_data uitstorMetaTmpBucket disk_request "bucket" "object" disk_state = Some (t, d', Err e) /\ holds_old 0 disk_journal disk_state d'.
Proof.
  assert (match RenameData 0 os_no_data uitstorMetaTmpBucket disk_request "bucket" "object" disk_state with
          | Some (_, _, Err _) => true | _ => false end = true) as Hfails by (vm_compute; reflexivity).
  destruct (RenameData 0 os_no_data uitstorMetaTmpBucket disk_request "bucket" "object" disk_state) as [[[t d'] [u|e]]|] eqn:E;
    try discriminate Hfails.
  destruct (RenameData_crash_safe 0 os_no_data disk_journal disk_request 2 11 uitstorMetaTmpBucket "bucket" "object" disk_state t d' (Err e)) as [_ Hr].
  - reflexivity.
  - intros e'. vm_compute. discriminate.
  - reflexivity.
  - exact (proj1 disk_stored).
  - exact (proj1 disk_journal_ok).
  - exact disk_fresh.
  - exact disk_writable.
  - exact E.
  - exists t, d', e. split; [reflexivity|exact Hr].
Defined.

Lemma RenameData_ReadVersion_witness : exists t d' f,
  RenameData 0 os_works uitstorMetaTmpBucket disk_request "bucket" "object" disk_state = Some (t, d', Ok tt) /\
  ReadVersion 0 os_works "bucket" "object" "uo1" false d' = Some ([], d', Ok f) /\ describes "bucket" "object" disk_request 2 11 f /\
  od_dirs (dr_obj d') !! uuid_String 11 = Some disk_part.
Proof.
  destruct (RenameData_ReadVersion 0 os_works disk_journal disk_request 2 11 uitstorMetaTmpBucket "bucket" "object" [] disk_state)
    as (t & d' & f & H1 & H2 & H3 & H4 & _).
  - reflexivity.
  - reflexivity.
  - exact (proj1 disk_stored).
  - exact (proj1 disk_journal_ok).
  - exact disk_fresh.
  - exact disk_writable.
  - reflexivity.
  - split; [split; [reflexivity|constructor]|constructor].
  - reflexivity.
  - reflexivity.
  - reflexivity.
  - vm_compute. discriminate.
  - reflexivity.
  - intros _. vm_compute. discriminate.
  - reflexivity.
  - split; [discriminate|reflexivity].
  - repeat constructor; discriminate.
  - exists t, d', f. split; [exact H1|]. split; [exact H2|]. split; [exact H3|].
    etransitivity; [apply H4; reflexivity|reflexivity].
Defined.

Lemma RenameData_faults_witness : exists t d' e,
  RenameData 0 os_no_commit uitstorMetaTmpBucket disk_request "bucket" "object" disk_state = Some (t, d', Err e) /\
  stored 0 (dr_obj d') zero_journal.
Proof.
  destruct (RenameData_faults 0 os_no_commit disk_request uitstorMetaTmpBucket "bucket" "object" disk_state EIO) as [HA _]; [reflexivity|].
  destruct (HA disk_journal None disk_journal2 (disk_file disk_journal2)) as (t & d' & H1 & H2).
  - intros [] Hop; try reflexivity. by destruct Hop.
  - reflexivity.
  - reflexivity.
  - exact (proj1 disk_stored).
  - exact disk_fresh.
  - exists disk_journal. split; [vm_compute; reflexivity|]. split; vm_compute; reflexivity.
  - intros _. vm_compute. discriminate.
  - eexists t, d', _. split; [exact H1|exact H2].
Defined.

