(* ===== verification/ObjectInfo.v ===== *)
(** * Which version of an object a request sees ([cmd/erasure-object.go])

    [getObjectFileInfo] reads the metadata of an object from all disks, reduces it
    to the version a quorum agrees on, keeps the disks that have that version, asks
    for a heal of the others, and deletes an object that too few disks hold to ever
    be read.  Without a version ID the latest version is found by merging the
    journals ([readAllXL]), otherwise every disk looks its version up. *)

From S2P Require Import Prelude Erasure FileInfo Quorum Distribution Restore Inline XLMeta XLMerge XLRead.
From S2P Require Import Bitrot Healing ParallelRead ErasureIO ObjectStream HTTPRange ObjectRead.

Definition fi_with_Data (f : FileInfo) (data : bytes) : FileInfo :=
  match f with
  | mkFileInfo v n vid il d ts ton tr tv er dd x1 mt sz md w meta ps ei mk rs _ nv sm fr ix dm =>
    mkFileInfo v n vid il d ts ton tr tv er dd x1 mt sz md w meta ps ei mk rs data nv sm fr ix dm
  end.
Definition fi_with_DiskMTime (f : FileInfo) (t : time) : FileInfo :=
  match f with
  | mkFileInfo v n vid il d ts ton tr tv er dd x1 mt sz md w meta ps ei mk rs da nv sm fr ix _ =>
    mkFileInfo v n vid il d ts ton tr tv er dd x1 mt sz md w meta ps ei mk rs da nv sm fr ix t
  end.

(** What the metadata path uses of [StorageAPI].  [ReadXL] includes
    [LoadOrConvert] of the buffer it reads: the journal and the disk's time. *)
Class DiskMeta (D : Type) := {
  ReadXL : D -> string -> string -> bool -> result (xlMetaV2 * time);
  ReadVersion : D -> string -> string -> string -> bool -> FileInfo * option error;
  DeleteVersion : D -> string -> string -> FileInfo -> bool -> D * option error
}.

Definition uitstorMetaBucket : string := ".uitstor.sys".

Section Info.
Context `{XLLib} `{Msgp} `{HttpTime} `{MapOrder} {D : Type} `{DiskMeta D}.
Context (bucket object : string).

(** ** The latest version of the journals *)

Definition read_journal (readData : bool) (disk : option D) : result (xlMetaV2 * time) :=
  match disk with
  | None => Err errDiskNotFound
  | Some disk => ReadXL disk bucket object readData
  end.

Definition outcome_err {A} (r : result A) : option error := match r with Ok _ => None | Err e => Some e end.

(** The errors when no version could be read: those of the disks, and [err]. *)
Definition fill_errs (err : error) (errs : list (option error)) : list (option error) :=
  (fun e => match e with None => Some err | Some _ => e end) <$> errs.

(** The entry of a disk, against the latest version [lfi]. *)
Definition disk_entry (readData : bool) (lfi : FileInfo) (r : result (xlMetaV2 * time))
  : option (FileInfo * option error) :=
  match r with
  | Err e => Some (zero_FileInfo, Some e)
  | Ok (xl, diskMTime) =>
      f ← xl_ToFileInfo xl bucket object "";
      Some match f with
           | Err e => (zero_FileInfo, Some e)
           | Ok f =>
               if FileInfo_IsValid f && bool_decide (fi_ModTime f = fi_ModTime lfi) then
                 let versionID := if bool_decide (fi_VersionID f = "") then nullVersionID else fi_VersionID f in
                 let f := if readData then fi_with_Data f (default [] (find (xl_data xl) versionID)) else f in
                 (fi_with_DiskMTime f diskMTime, None)
               else (f, None)
           end
  end.

(** [None] is a panic of a conversion or of the merge. *)
Definition readAllXL (disks : list (option D)) (readData : bool) : option (list FileInfo * list (option error)) :=
  let outcomes := read_journal readData <$> disks in
  let errs := outcome_err <$> outcomes in
  let metas := (fun r : result (xlMetaV2 * time) =>
                  match r with
                  | Ok (_, diskMTime) => fi_with_DiskMTime zero_FileInfo diskMTime
                  | Err _ => zero_FileInfo
                  end) <$> outcomes in
  let versions := (fun r : result (xlMetaV2 * time) =>
                     match r with Ok (xl, _) => xl_versions xl | Err _ => [] end) <$> outcomes in
  let readQuorum := (len disks + 1) / 2 in
  match mergeXLV2Versions readQuorum false 1 versions with
  | Merged versions =>
      lfi ← xl_ToFileInfo (mkXL versions [] 0) bucket object "";
      match lfi with
      | Err e => Some (metas, fill_errs e errs)
      | Ok lfi =>
          if negb (FileInfo_IsValid lfi) then Some (metas, fill_errs errCorruptedFormat errs)
          else
            entries ← mapM (disk_entry readData lfi) outcomes;
            Some (entries.*1, entries.*2)
      end
  | MergePanic | MergeNoFuel => None
  end.

(** ** Deleting a version on all disks *)

Definition deleteObjectVersion (canceled : bool) (disks : list (option D)) (writeQuorum : Z) (fi : FileInfo)
    (forceDelMarker : bool) : list (option D) * option error :=
  let results := (fun disk : option D =>
                    match disk with
                    | None => (None, Some errDiskNotFound)
                    | Some disk => let '(disk, err) := DeleteVersion disk bucket object fi forceDelMarker in
                                   (Some disk, err)
                    end) <$> disks in
  (results.*1, reduceWriteQuorumErrs canceled (results.*2) objectOpIgnoredErrs writeQuorum).

(** [FileInfo{VersionID: id}]. *)
Definition fi_of_version (id : string) : FileInfo :=
  mkFileInfo "" "" id false false "" "" "" "" false "" false 0 0 0 0 ∅ [] zero_ErasureInfo false
    zero_ReplicationState [] 0 0 false 0 0.

Definition deleteIfDangling (now : time) (canceled : bool) (disks : list (option D)) (metaArr : list FileInfo)
    (errs dataErrs : list (option error)) (versionID : string)
  : option (list (option D) * FileInfo * option error) :=
  '(m, dangling) ← isObjectDangling now metaArr errs dataErrs;
  Some (if dangling : bool then
          let id := if bool_decide (versionID = "") then fi_VersionID m else versionID in
          ((deleteObjectVersion canceled disks 1 (fi_of_version id) false).1, m,
           Some (if bool_decide (versionID = "") then errFileNotFound else errFileVersionNotFound))
        else (disks, m, None)).

(** ** The version a request sees *)

Context (sha256_hex : string -> string) (formatHTTP : time -> string) (scParity : string -> Z).
Context (now : time) (canceled healing : bool) (defaultParityCount : Z).

(** The disks afterwards, whether a heal was asked for, and what is returned. *)
Record info_result := mkInfo {
  ir_disks : list (option D);
  ir_heal : bool;
  ir_res : FileInfo * list FileInfo * list (option D) + ObjectErr
}.

(** The error path, with the deletion of a dangling object: [err] is what is
    returned unless [derr_wins] and the object was dangling. *)
Definition info_error (disks : list (option D)) (metaArr : list FileInfo) (errs : list (option error))
    (versionID : string) (err : error) (derr_wins : bool) : option info_result :=
  '(disks, err) ←
    (if errors_Is (Some err) (Some errErasureReadQuorum) && negb (String.prefix uitstorMetaBucket bucket) then
       '(disks, _, derr) ← deleteIfDangling now canceled disks metaArr errs [] versionID;
       Some (disks, match derr with Some derr => if derr_wins then derr else err | None => err end)
     else Some (disks, err));
  Some (mkInfo disks false (inr (default (PlainErr err) (toObjectErr (Some err) [bucket; object])))).

(** The entries that do not have the version: their metadata and disk are
    dropped, and they count as missing. *)
Fixpoint drop_missing (fi : FileInfo) (errs : list (option error)) (metaArr : list FileInfo)
    (onlineDisks : list (option D)) : option (list FileInfo * list (option D) * Z) :=
  match errs with
  | [] => Some (metaArr, onlineDisks, 0)
  | err :: errs =>
      match metaArr, onlineDisks with
      | meta :: metaArr, disk :: onlineDisks =>
          '(metas, disks, missing) ← drop_missing fi errs metaArr onlineDisks;
          Some (if errors_Is err (Some errFileNotFound) then (meta :: metas, disk :: disks, missing + 1)
                else if FileInfo_IsValid meta && bool_decide (fi_ModTime meta = fi_ModTime fi)
                then (meta :: metas, disk :: disks, missing)
                else (zero_FileInfo :: metas, None :: disks, missing + 1))
      | _, _ => None
      end
  end.

(** The metadata and the errors of the disks. *)
Definition read_metas (disks : list (option D)) (versionID : string) (readData : bool)
  : option (list FileInfo * list (option error)) :=
  if bool_decide (versionID = "") then readAllXL disks readData
  else Some (readAllFileInfo (fun d => ReadVersion d bucket object versionID readData) disks).

Definition getObjectFileInfo (disks : list (option D)) (versionID : string) (readData : bool)
  : option info_result :=
  '(metaArr, errs) ← read_metas disks versionID readData;
  quorum ← objectQuorumFromMeta scParity canceled metaArr errs defaultParityCount;
  match quorum with
  | Err err => info_error disks metaArr errs versionID err true
  | Ok (readQuorum, _) =>
      match reduceReadQuorumErrs canceled errs objectOpIgnoredErrs readQuorum with
      | Some reducedErr => info_error disks metaArr errs versionID reducedErr false
      | None =>
          '(onlineDisks, modTime) ← listOnlineDisks disks metaArr errs;
          match pickValidFileInfo sha256_hex formatHTTP metaArr modTime readQuorum with
          | Err err => Some (mkInfo disks false (inr (PlainErr err)))
          | Ok fi =>
              onlineDisks ← filterOnlineDisksInplace fi metaArr onlineDisks;
              if 0 <? countErrs errs (Some errDiskNotFound)
              then Some (mkInfo disks false (inl (fi, metaArr, onlineDisks)))
              else
                '(metaArr, onlineDisks, missingBlocks) ← drop_missing fi errs metaArr onlineDisks;
                let heal := negb (fi_Deleted fi) && (0 <? missingBlocks) && (missingBlocks <? readQuorum)
                            && negb healing in
                Some (mkInfo disks heal (inl (fi, metaArr, onlineDisks)))
          end
      end
  end.
End Info.

(** ** Disks with an outdated shard ([GetObjectNInfo]) *)

Definition drop_outdated `{HttpTime} `{MapOrder} {D} (shardDiskTimeDelta : Z) (fi : FileInfo)
    (metaArr : list FileInfo) (onlineDisks : list (option D)) : list (option D) :=
  if DataShardFixed fi then onlineDisks
  else
    let diskMTime := pickValidDiskTimeWithQuorum shardDiskTimeDelta metaArr (ei_DataBlocks (fi_Erasure fi)) in
    if bool_decide (diskMTime = timeSentinel) || time_IsZero diskMTime then onlineDisks
    else zip_with (fun (disk : option D) meta =>
           if FileInfo_IsValid meta && negb (AcceptableDelta meta diskMTime shardDiskTimeDelta)
           then None else disk) onlineDisks metaArr.

(** ** A version that a quorum of disks has *)

(** Nil errors that are at least half of all win the reduction. *)
Lemma reduce_majority `{MapOrder} errs ignored quorum qerr :
  len errs <= 2 * Z.of_nat (mult ignored errs None) -> quorum <= Z.of_nat (mult ignored errs None) ->
  reduceQuorumErrs false errs ignored quorum qerr = None.
Proof.
  intros Hn Hq. unfold reduceQuorumErrs. pose proof (reduceErrs_spec errs ignored) as Hspec.
  destruct (reduceErrs errs ignored) as [max e]. destruct Hspec as (Hall & Hin & Hnil).
  destruct (Z.leb_spec quorum (Z.of_nat max)); [|specialize (Hall None); lia].
  destruct Hin as [[_ ->]|[Hpos He]]; [done|]. destruct e as [e|]; [|done]. apply Hnil.
  pose proof (multiplicity_pair (err_key ignored) errs None (Some e) ltac:(done)).
  specialize (Hall None). unfold mult in *. lia.
Qed.

(** The entries of the disks for a version: a disk has it, with the same
    modification time and the same content as the others, or reports an error and
    no usable metadata. *)
Section Entries.
Context `{MapOrder} (sha256_hex : string -> string) (formatHTTP : time -> string).
Context (sha256_nonempty : forall s, sha256_hex s <> "").
Context (mt : time) (h : string) (k : Z) (v1 : bool).

Definition has_version (m : FileInfo) : Prop :=
  FileInfo_IsValid m = true /\ fi_Deleted m = false /\ fi_ModTime m = mt /\
  sha256_hex (meta_text formatHTTP m) = h /\ ei_DataBlocks (fi_Erasure m) = k /\ fi_XLV1 m = v1.

Definition entry (x : FileInfo * option error) : Prop :=
  match x.2 with None => has_version x.1 | Some _ => FileInfo_IsValid x.1 = false end.

Definition hit (x : FileInfo * option error) : bool := bool_decide (x.2 = None).

Context (mt_sentinel : mt <> timeSentinel) (mt_zero : mt <> 0) (mt_range : int64_range (mt - unix_epoch)).
Context (l : list (FileInfo * option error)) (Hl : Forall entry l).
Local Abbreviation hits := (count hit l).

Lemma entry_hit x : x ∈ l -> FileInfo_IsValid x.1 = true -> x.2 = None /\ has_version x.1.
Proof.
  intros Hx Hv. pose proof (proj1 (Forall_forall _ _) Hl x Hx) as He. unfold entry in He.
  destruct x.2; [congruence|done].
Qed.

Lemma entry_modtime x : x ∈ l -> modtime_of x = if hit x then mt else timeSentinel.
Proof.
  intros Hx. pose proof (proj1 (Forall_forall _ _) Hl x Hx) as He. unfold entry, modtime_of, hit in *.
  destruct x as [m [e|]]; simpl in *; [done|]. by destruct He as (_ & _ & -> & _).
Qed.

(** A count over the list agrees with the hits when the predicate does. *)
Lemma count_hits {B} (f : FileInfo * option error -> B) (P : B -> bool) :
  (forall x, x ∈ l -> P (f x) = hit x) -> count P (f <$> l) = hits.
Proof.
  clear Hl. induction l as [|x l' IH]; intros HP; [done|]. csimpl. rewrite !count_cons.
  rewrite HP by left. f_equal. apply IH. intros y Hy. apply HP. by right.
Qed.

Lemma nil_errs ignored : mult ignored (l.*2) None = hits.
Proof.
  unfold mult, multiplicity. apply count_hits. intros [m [e|]] _; simpl; unfold err_key, hit; simpl.
  - destruct (IsErrIgnored _ _); [done|]. by destruct (error_Is e Canceled).
  - assert (IsErrIgnored None ignored = false) as ->; [|done]. by induction ignored.
Qed.

Lemma entry_times : modtime_of <$> l = (fun x => if hit x then mt else timeSentinel) <$> l.
Proof. apply list_fmap_ext. intros i x Hi. apply entry_modtime. by eapply list_elem_of_lookup_2. Qed.

Lemma common_mt : (0 < hits)%nat -> commonTime (modtime_of <$> l) = mt.
Proof.
  intros Hpos. unfold commonTime. pose proof (commonTime_spec (modtime_of <$> l)) as Hspec.
  destruct (commonTimeAndOccurence (modtime_of <$> l) 0) as [t maxima]. simpl.
  destruct Hspec as (nano & -> & Hcase).
  assert (occurrences (modtime_of <$> l) (time_UnixNano mt) = hits) as Hocc.
  { unfold occurrences, multiplicity. apply count_hits. intros x Hx. rewrite entry_modtime by done.
    unfold time_key. destruct (hit x).
    - rewrite (bool_decide_eq_false_2 (mt = timeSentinel)) by done. unfold time_IsZero.
      rewrite (bool_decide_eq_false_2 (mt = 0)) by done. by apply bool_decide_eq_true.
    - by rewrite (bool_decide_eq_true_2 (timeSentinel = timeSentinel)). }
  destruct Hcase as [(_ & _ & Hz)|(Hmax & Hn & _)]; [rewrite Hz in Hocc; lia|].
  assert (nano = time_UnixNano mt) as ->.
  { unfold occurrences, multiplicity in Hn. rewrite <-Hn in Hmax. apply count_pos in Hmax as (t & Ht & Hk).
    apply list_elem_of_fmap in Ht as (x & -> & Hx). rewrite entry_modtime in Hk by done.
    apply bool_decide_eq_true in Hk. unfold time_key in Hk.
    destruct (hit x); [|by rewrite (bool_decide_eq_true_2 (timeSentinel = timeSentinel)) in Hk].
    destruct (_ || _); [done|]. by injection Hk. }
  unfold time_Unix_nano, time_UnixNano. rewrite wrap64_id by done. lia.
Qed.

Lemma agreeing_hits : agreeing sha256_hex formatHTTP (l.*1) mt h = hits.
Proof.
  unfold agreeing. apply count_hits. intros x Hx.
  destruct (FileInfo_IsValid x.1) eqn:Ev; cbn [andb].
  - destruct (entry_hit x Hx Ev) as [He (_ & _ & Hmt & Hh & _)]. unfold hit. rewrite He, Hmt, Hh.
    by rewrite !bool_decide_eq_true_2.
  - unfold hit. rewrite bool_decide_eq_false_2; [done|]. intros He.
    pose proof (proj1 (Forall_forall _ _) Hl x Hx) as Hx'. unfold entry in Hx'. rewrite He in Hx'.
    destruct Hx' as (? & _). congruence.
Qed.

Lemma entry_modtimes : listObjectModtimes (l.*1) (l.*2) = Some (modtime_of <$> l).
Proof.
  destruct (listObjectModtimes (l.*1) (l.*2)) as [ts|] eqn:E.
  - apply listObjectModtimes_spec in E as [_ ->]. by rewrite zip_fst_snd.
  - unfold listObjectModtimes in E. rewrite !length_fmap, Nat.ltb_irrefl in E. done.
Qed.

Lemma entry_zip : zip (l.*1) (modtime_of <$> l) = (fun x => (x.1, modtime_of x)) <$> l.
Proof. clear Hl. induction l as [|x l' IH]; [done|]. csimpl. by rewrite IH. Qed.

(** Valid metadata with the common time is a hit. *)
Lemma timed_hit x : x ∈ l -> FileInfo_IsValid x.1 && bool_decide (modtime_of x = mt) = hit x.
Proof.
  intros Hx. pose proof (proj1 (Forall_forall _ _) Hl x Hx) as He. rewrite entry_modtime by done.
  unfold entry, hit in *. destruct x as [m [e|]]; simpl in *.
  - by rewrite He.
  - destruct He as (-> & _). by apply bool_decide_eq_true.
Qed.

Lemma latest_found : 1 <= k <= Z.of_nat hits -> len l <= 2 * Z.of_nat hits ->
  exists f, getLatestFileInfo false (l.*1) (l.*2) = Some (Ok f) /\ has_version f.
Proof.
  intros Hk Hn. unfold getLatestFileInfo, reduceReadQuorumErrs.
  rewrite reduce_majority; rewrite ?nil_errs, ?length_fmap; [|lia|apply Z.div_le_upper_bound; lia].
  rewrite entry_modtimes. cbn [mbind option_bind]. rewrite common_mt by lia. unfold time_IsZero.
  rewrite (bool_decide_eq_false_2 (mt = 0)), (bool_decide_eq_false_2 (mt = timeSentinel)) by done. cbn [orb].
  pose proof (latest_fold mt (zip (l.*1) (modtime_of <$> l))) as Hf.
  destruct (fold_left _ _ _) as [f c]. destruct Hf as [Hc Hf]. rewrite entry_zip in Hc, Hf.
  rewrite (count_hits (fun x => (x.1, modtime_of x))) in Hc by (intros x Hx; by apply timed_hit).
  destruct Hf as [[? _]|(t & Ht & Hp)]; [lia|]. apply list_elem_of_fmap in Ht as (x & [= -> ->] & Hx).
  cbn [fst snd] in Hp. pose proof (timed_hit x Hx) as Hh. rewrite Hp in Hh. apply andb_true_iff in Hp as [Hv _].
  rewrite Hv. cbn [negb]. destruct (entry_hit x Hx Hv) as [_ Hver].
  pose proof Hver as (_ & _ & _ & _ & Hd & _). rewrite Hd.
  destruct (Z.ltb_spec c k); [lia|]. by exists x.1.
Qed.

Lemma picked : 1 <= k <= Z.of_nat hits ->
  exists fi, pickValidFileInfo sha256_hex formatHTTP (l.*1) mt k = Ok fi /\ fi ∈ l.*1 /\ has_version fi.
Proof.
  intros Hk. destruct (findFileInfoInQuorum_complete sha256_hex formatHTTP sha256_nonempty (l.*1) mt k h)
    as [fi Hfi]; [lia|rewrite agreeing_hits; lia|]. exists fi. split; [done|].
  apply findFileInfoInQuorum_sound in Hfi as (_ & Hin & Hv & _); [|done]. split; [done|].
  apply list_elem_of_fmap in Hin as (x & -> & Hx). by destruct (entry_hit x Hx Hv).
Qed.
End Entries.

(** ** The disks that are kept *)

Section Kept.
Context {D : Type}.

(** The disks of the hits. *)
Definition hit_disks (disks : list (option D)) (l : list (FileInfo * option error)) : list (option D) :=
  zip_with (fun d x => if hit x then d else None) disks l.

Lemma drop_missing_spec fi (errs : list (option error)) : forall metas disks,
  length metas = length errs -> length disks = length errs ->
  exists metas' disks' missing, drop_missing (D := D) fi errs metas disks = Some (metas', disks', missing) /\
    length metas' = length errs /\ length disks' = length errs /\
    forall i m d e, metas !! i = Some m -> disks !! i = Some d -> errs !! i = Some e ->
      let keep := errors_Is e (Some errFileNotFound) ||
                  (FileInfo_IsValid m && bool_decide (fi_ModTime m = fi_ModTime fi)) in
      metas' !! i = Some (if keep then m else zero_FileInfo) /\ disks' !! i = Some (if keep then d else None).
Proof.
  induction errs as [|e errs IH]; intros [|m metas] [|d disks] Hlm Hld; try done.
  { eexists _, _, _. split_and!; [done..|]. intros i m d e Hm. by rewrite lookup_nil in Hm. }
  destruct (IH metas disks) as (metas' & disks' & missing & Hd & Hl1 & Hl2 & Hspec);
    [by injection Hlm|by injection Hld|]. cbn [drop_missing]. rewrite Hd. cbn [mbind option_bind].
  destruct (errors_Is e (Some errFileNotFound)) eqn:Enf;
    [|destruct (FileInfo_IsValid m && bool_decide (fi_ModTime m = fi_ModTime fi)) eqn:Ev];
    (eexists _, _, _; split_and!; [reflexivity|simpl; lia|simpl; lia|]);
    (intros [|i] m' d' e' Hm Hd' He; simpl in Hm, Hd', He;
      [injection Hm as <-; injection Hd' as <-; injection He as <-; simpl; by rewrite Enf, ?Ev
      |exact (Hspec i m' d' e' Hm Hd' He)]).
Qed.

(** With entries of one version, every disk that is not a hit is missing. *)
Lemma drop_missing_entries sha fmt mt h k v1 fi (l : list (FileInfo * option error)) :
  Forall (entry sha fmt mt h k v1) l -> fi_ModTime fi = mt -> forall disks : list (option D),
  length disks = length l -> exists metas',
  drop_missing fi (l.*2) (l.*1) (hit_disks disks l)
    = Some (metas', hit_disks disks l, len l - Z.of_nat (count hit l)) /\ length metas' = length l /\
  (forall i x, l !! i = Some x -> hit x = true -> metas' !! i = Some x.1).
Proof.
  intros Hl Hmt. induction Hl as [|[m e] l He Hl IH]; intros [|d disks] Hlen; try done.
  { eexists. split; [done|]. split; [done|]. intros i x Hi. by rewrite lookup_nil in Hi. }
  destruct (IH disks) as (metas' & Hd & Hlen' & Hmetas); [by injection Hlen|].
  unfold hit_disks in *. csimpl. cbn [drop_missing zip_with]. rewrite Hd. cbn [mbind option_bind].
  rewrite count_cons. unfold entry, hit in *. simpl in He |- *.
  destruct e as [e|]; cbn [errors_Is]; [rewrite He; simpl; destruct (error_Is e errFileNotFound)
    |destruct He as (-> & _ & -> & _); rewrite Hmt, bool_decide_eq_true_2 by done; simpl].
  all: eexists; (split; [f_equal; f_equal; simpl; lia|]); (split; [cbn; by f_equal|]); intros [|i] x Hi Hx; simpl in *;
    [by injection Hi as <-|by apply Hmetas].
Qed.
End Kept.

Section InfoFacts.
Context `{XLLib} `{Msgp} `{HttpTime} `{MapOrder} {D : Type} `{DiskMeta D} (bucket object : string).

Lemma read_metas_length (disks : list (option D)) versionID readData metas errs :
  read_metas bucket object disks versionID readData = Some (metas, errs) ->
  length metas = length disks /\ length errs = length disks.
Proof.
  unfold read_metas. case_bool_decide.
  - unfold readAllXL. destruct (mergeXLV2Versions _ _ _ _) as [vs| |]; [|done..].
    destruct (xl_ToFileInfo _ _ _ _) as [[lfi|e]|]; cbn [mbind option_bind]; [|intros [= <- <-]|done].
    + destruct (FileInfo_IsValid lfi); cbn [negb];
        [|intros [= <- <-]; unfold fill_errs; by rewrite !length_fmap].
      destruct (mapM _ _) as [es|] eqn:Em; cbn [mbind option_bind]; [|done]. intros [= <- <-].
      apply length_mapM in Em. by rewrite !length_fmap in *.
    + unfold fill_errs. by rewrite !length_fmap.
  - intros [= <- <-]. by rewrite !length_fmap.
Qed.

Lemma listOnlineDisks_hits sha fmt mt h k v1 (disks : list (option D)) l :
  Forall (entry sha fmt mt h k v1) l -> mt <> timeSentinel -> mt <> 0 -> int64_range (mt - unix_epoch) ->
  (0 < count hit l)%nat -> length disks = length l ->
  listOnlineDisks disks (l.*1) (l.*2) = Some (hit_disks disks l, mt).
Proof.
  intros Hl Hs Hz Hr Hpos Hlen. unfold listOnlineDisks. rewrite (entry_modtimes l). cbn [mbind option_bind].
  rewrite (common_mt sha fmt mt h k v1 Hs Hz Hr l Hl Hpos), !length_fmap, Hlen, Nat.ltb_irrefl, Nat.sub_diag.
  rewrite app_nil_r, (entry_zip l). do 2 f_equal. unfold hit_disks.
  clear Hpos. revert disks Hlen. induction Hl as [|x l Hx Hl IH]; intros [|d disks] Hlen; try done.
  csimpl. f_equal; [|apply IH; by injection Hlen].
  rewrite (timed_hit sha fmt mt h k v1 (x :: l)) by (by constructor || left). done.
Qed.

Lemma filterOnline_hits sha fmt mt h k fi (disks : list (option D)) l :
  Forall (entry sha fmt mt h k (fi_XLV1 fi)) l -> length disks = length l ->
  filterOnlineDisksInplace fi (l.*1) (hit_disks disks l) = Some (hit_disks disks l).
Proof.
  intros Hl Hlen. unfold filterOnlineDisksInplace, hit_disks.
  rewrite length_zip_with, length_fmap, Hlen, Nat.min_id, Nat.ltb_irrefl. f_equal.
  rewrite drop_ge, app_nil_r by (rewrite length_zip_with; lia).
  revert disks Hlen. induction Hl as [|x l Hx Hl IH]; intros [|d disks] Hlen; try done.
  csimpl. f_equal; [|apply IH; by injection Hlen]. unfold entry, hit in *.
  destruct x as [m [e|]]; simpl in *; [by destruct (Bool.eqb _ _)|].
  destruct Hx as (_ & _ & _ & _ & _ & ->). by rewrite Bool.eqb_reflx.
Qed.
End InfoFacts.

Lemma info_sees `{XLLib} `{Msgp} `{HttpTime} `{MapOrder} {D} `{DiskMeta D} bucket object
    sha fmt scParity now healing dp (disks : list (option D)) versionID readData metas errs mt h k v1 :
  (forall s, sha s <> "") -> dp <> 0 -> mt <> timeSentinel -> mt <> 0 -> int64_range (mt - unix_epoch) ->
  read_metas bucket object disks versionID readData = Some (metas, errs) ->
  Forall (entry sha fmt mt h k v1) (zip metas errs) ->
  let holders := Z.of_nat (count (fun e => bool_decide (e = None)) errs) in
  1 <= k <= holders -> len disks <= 2 * holders ->
  exists fi metas' heal,
    getObjectFileInfo bucket object sha fmt scParity now false healing dp disks versionID readData
      = Some (mkInfo disks heal (inl (fi, metas',
          zip_with (fun d (e : option error) => match e with None => d | Some _ => None end) disks errs))) /\
    fi ∈ metas /\ has_version sha fmt mt h k v1 fi /\
    length metas' = length disks /\
    (forall i m, metas !! i = Some m -> errs !! i = Some None -> metas' !! i = Some m) /\
    (heal = true <-> healing = false /\ countErrs errs (Some errDiskNotFound) <= 0 /\
                     holders < len disks /\ len disks - holders < k).
Proof.
  intros Hsha Hdp Hs Hz Hr Hread Hl holders Hk Hn.
  destruct (read_metas_length _ _ _ _ _ _ _ Hread) as [Hlm Hle].
  unfold getObjectFileInfo. rewrite Hread. cbn [mbind option_bind].
  assert (metas = (zip metas errs).*1 /\ errs = (zip metas errs).*2) as [Em Ee]
    by (rewrite fst_zip, snd_zip by lia; done).
  generalize dependent (zip metas errs). intros l Hl Em Ee. subst metas errs.
  rewrite length_fmap in Hlm. assert (holders = Z.of_nat (count hit l)) as Hh.
  { unfold holders. f_equal. by apply (count_hits l snd). }
  assert (zip_with (fun d (e : option error) => match e with None => d | Some _ => None end) disks (l.*2)
    = hit_disks disks l) as ->.
  { unfold hit_disks. rewrite zip_with_fmap_r. apply zip_with_ext; [|done..]. intros d [m [e|]]; done. }
  destruct (latest_found sha fmt mt h k v1 Hs Hz Hr l Hl ltac:(lia) ltac:(lia)) as (f & Hf & Hver).
  rewrite (objectQuorumFromMeta_eq _ _ _ _ _ f Hdp Hf). cbn [mbind option_bind].
  destruct Hver as (_ & -> & _ & _ & -> & _). cbv zeta. destruct (Z.eqb_spec k 0); [lia|].
  unfold reduceReadQuorumErrs. rewrite reduce_majority; rewrite ?nil_errs, ?length_fmap; [|lia|lia].
  rewrite (listOnlineDisks_hits sha fmt mt h k v1 disks l) by (done || lia). cbn [mbind option_bind].
  destruct (picked sha fmt Hsha mt h k v1 l Hl ltac:(lia)) as (fi & -> & Hin & Hfi).
  pose proof Hfi as (_ & Hdel & Hmt & _ & _ & Hv1). rewrite <-Hv1 in Hl.
  rewrite (filterOnline_hits sha fmt mt h k fi disks l Hl) by done. cbn [mbind option_bind].
  destruct (Z.ltb_spec 0 (countErrs (l.*2) (Some errDiskNotFound))).
  - eexists fi, _, _. split_and!; [reflexivity|done|done|by rewrite length_fmap|by intros i m Hm|]. split; [done|lia].
  - destruct (drop_missing_entries sha fmt mt h k (fi_XLV1 fi) fi l Hl Hmt disks) as (metas' & -> & Hlen' & Hkeep); [done|].
    cbn [mbind option_bind]. eexists fi, metas', _. split_and!; [reflexivity|done|done|congruence| |].
    + intros i m Hm He. rewrite list_lookup_fmap in Hm. rewrite list_lookup_fmap in He. destruct (l !! i) as [x|] eqn:Ex; [|done].
      injection Hm as <-. injection He as He. apply (Hkeep i x Ex). unfold hit. by rewrite He.
    + rewrite Hdel. cbn [negb andb]. rewrite !andb_true_iff, !Z.ltb_lt, negb_true_iff. split; intros; destruct_and?; split_and!; done || lia.
Qed.


(** ** Every answer *)

(** The quorum of an object is computed from a common time. *)
Lemma latest_common `{MapOrder} canceled parts errs f :
  getLatestFileInfo canceled parts errs = Some (Ok f) ->
  exists ts, listObjectModtimes parts errs = Some ts /\ commonTime ts <> timeSentinel.
Proof.
  unfold getLatestFileInfo. destruct (reduceReadQuorumErrs _ _ _ _); [done|].
  destruct (listObjectModtimes parts errs) as [ts|]; [|done]. cbn [mbind option_bind]. intros Hf. exists ts.
  split; [done|]. intros E. by rewrite E, orb_true_r in Hf.
Qed.

Lemma quorum_common `{MapOrder} scParity canceled parts errs dp q w : dp <> 0 ->
  objectQuorumFromMeta scParity canceled parts errs dp = Some (Ok (q, w)) ->
  exists ts, listObjectModtimes parts errs = Some ts /\ commonTime ts <> timeSentinel.
Proof.
  intros Hdp. unfold objectQuorumFromMeta. destruct (Z.eqb_spec dp 0); [done|].
  destruct (getLatestFileInfo canceled parts errs) as [[f|e]|] eqn:E; [|done..]. intros _. by eapply latest_common.
Qed.

(** A disk that [listOnlineDisks] and the filter keep has the version. *)
Lemma online_kept `{MapOrder} {D} (disks online online' : list (option D)) metas errs ts fi mt :
  length metas = length disks -> length errs = length disks ->
  listObjectModtimes metas errs = Some ts -> commonTime ts <> timeSentinel ->
  listOnlineDisks disks metas errs = Some (online, mt) ->
  filterOnlineDisksInplace fi metas online = Some online' ->
  mt = commonTime ts /\ length online' = length disks /\ forall i d, online' !! i = Some (Some d) ->
    disks !! i = Some (Some d) /\ exists m, metas !! i = Some m /\ errs !! i = Some None /\
      FileInfo_IsValid m = true /\ fi_ModTime m = mt /\ fi_XLV1 m = fi_XLV1 fi.
Proof.
  intros Hlm Hle Hts Hns. unfold listOnlineDisks, filterOnlineDisksInplace. rewrite Hts. cbn [mbind option_bind].
  apply listObjectModtimes_spec in Hts as [_ Hts].
  assert (length ts = length disks) as Hlt by (rewrite Hts, length_fmap, length_zip_with; lia).
  rewrite Hlt, Nat.ltb_irrefl, Nat.sub_diag, app_nil_r. intros [= <- <-]. split; [done|].
  revert H0. rewrite !length_zip_with. destruct (Nat.ltb_spec ((length metas `min` length ts) `min` length disks) (length metas)); [lia|].
  rewrite drop_ge, app_nil_r by (rewrite !length_zip_with; lia). intros [= <-].
  split; [rewrite !length_zip_with; lia|]. intros i d. rewrite !lookup_zip_with.
  destruct (metas !! i) as [m|] eqn:Em; [|done]. cbn [mbind option_bind].
  destruct (ts !! i) as [t|] eqn:Et; [|done]. cbn [mbind option_bind].
  destruct (disks !! i) as [disk|] eqn:Ed; [|done]. cbn [mbind option_bind].
  destruct (Bool.eqb (fi_XLV1 fi) (fi_XLV1 m)) eqn:Ex; [|done].
  destruct (FileInfo_IsValid m && bool_decide (t = commonTime ts)) eqn:Ek; [|done]. intros [= ->].
  apply andb_true_iff in Ek as [Hv Ht%bool_decide_eq_true]. split; [done|]. exists m.
  rewrite Hts, list_lookup_fmap, lookup_zip_with, Em in Et. cbn [mbind option_bind] in Et.
  destruct (errs !! i) as [e|] eqn:Ee; [|done]. cbn in Et. injection Et as Et. unfold modtime_of in Et. cbn in Et.
  destruct e as [e|]; [congruence|]. apply Bool.eqb_prop in Ex. split_and!; congruence.
Qed.

(** The error path never answers with a version, and changes the disks only by
    deleting a dangling version. *)
Lemma info_error_spec `{XLLib} `{Msgp} `{HttpTime} `{MapOrder} {D} `{DiskMeta D} bucket object now canceled
    (disks : list (option D)) metas errs versionID err w r :
  info_error bucket object now canceled disks metas errs versionID err w = Some r ->
  (exists oe, ir_res r = inr oe) /\
  (ir_disks r <> disks -> String.prefix uitstorMetaBucket bucket = false /\
     exists m, isObjectDangling now metas errs [] = Some (m, true) /\
       ir_disks r = (deleteObjectVersion bucket object canceled disks 1
         (fi_of_version (if bool_decide (versionID = "") then fi_VersionID m else versionID)) false).1).
Proof.
  unfold info_error, deleteIfDangling.
  destruct (errors_Is _ _ && negb (String.prefix uitstorMetaBucket bucket)) eqn:Ec; cbn [mbind option_bind];
    [|intros [= <-]; split; [by eexists|done]].
  destruct (isObjectDangling now metas errs []) as [[m b]|]; cbn [mbind option_bind]; [|done].
  apply andb_true_iff in Ec as [_ Hp%negb_true_iff].
  destruct b; cbn [mbind option_bind]; intros [= <-]; (split; [by eexists|]); [|done].
  intros _. split; [done|]. by exists m.
Qed.

(** C33: every answer has a quorum behind it.  Whatever the disks answer, when
    [getObjectFileInfo] returns a version, at least the read quorum of disks agree
    on its content and modification time, no disk was changed, and every disk it
    returns as online is one of the set whose metadata is valid, has the
    modification time of that version and is returned beside it. *)
Theorem getObjectFileInfo_sound `{XLLib} `{Msgp} `{HttpTime} `{MapOrder} {D} `{DiskMeta D} bucket object
    sha fmt scParity now canceled healing dp (disks disks' online : list (option D)) versionID readData metas errs
    heal fi metas' :
  (forall s, sha s <> "") -> dp <> 0 ->
  read_metas bucket object disks versionID readData = Some (metas, errs) ->
  getObjectFileInfo bucket object sha fmt scParity now canceled healing dp disks versionID readData
    = Some (mkInfo disks' heal (inl (fi, metas', online))) ->
  disks' = disks /\ fi ∈ metas /\ FileInfo_IsValid fi = true /\
  (exists q w, objectQuorumFromMeta scParity canceled metas errs dp = Some (Ok (q, w)) /\
     q <= Z.of_nat (agreeing sha fmt metas (fi_ModTime fi) (sha (meta_text fmt fi)))) /\
  length online = length disks /\
  forall i d, online !! i = Some (Some d) -> disks !! i = Some (Some d) /\ errs !! i = Some None /\
    exists m, metas !! i = Some m /\ metas' !! i = Some m /\ FileInfo_IsValid m = true /\
      fi_ModTime m = fi_ModTime fi /\ fi_XLV1 m = fi_XLV1 fi.
Proof.
  intros Hsha Hdp Hread. destruct (read_metas_length _ _ _ _ _ _ _ Hread) as [Hlm Hle].
  unfold getObjectFileInfo. rewrite Hread. cbn [mbind option_bind].
  destruct (objectQuorumFromMeta scParity canceled metas errs dp) as [[[q w]|err]|] eqn:Eq; cbn [mbind option_bind]; [| |done].
  2:{ intros [[oe Hoe] _]%info_error_spec. done. }
  destruct (reduceReadQuorumErrs _ _ _ _).
  { intros [[oe Hoe] _]%info_error_spec. done. }
  destruct (quorum_common _ _ _ _ _ _ _ Hdp Eq) as (ts & Hts & Hns).
  destruct (listOnlineDisks disks metas errs) as [[on mt]|] eqn:Eon; cbn [mbind option_bind]; [|done].
  destruct (pickValidFileInfo sha fmt metas mt q) as [f|err] eqn:Ep; [|done].
  destruct (filterOnlineDisksInplace f metas on) as [on'|] eqn:Ef; cbn [mbind option_bind]; [|done].
  destruct (online_kept disks on on' metas errs ts f mt Hlm Hle Hts Hns Eon Ef) as (_ & Hlon & Hkept).
  apply findFileInfoInQuorum_sound in Ep as (_ & Hin & Hv & Hmt & Hag); [|done].
  destruct (0 <? countErrs errs (Some errDiskNotFound)).
  - intros [= <- _ <- <- <-]. rewrite Hmt. split_and!; [done..|by exists q, w|done|].
    intros i d Hi. destruct (Hkept i d Hi) as (? & m & ? & ? & ? & ? & ?). split_and!; [done..|by exists m].
  - destruct (drop_missing_spec f errs metas on') as (ms & ds & missing & -> & _ & Hld & Hspec); [lia|lia|].
    cbn [mbind option_bind]. intros [= <- _ <- <- <-]. rewrite Hmt. split_and!; [done..|by exists q, w|lia|].
    intros i d Hi. destruct (lookup_lt_is_Some_2 on' i) as [x Hx]; [apply lookup_lt_Some in Hi; lia|].
    destruct (lookup_lt_is_Some_2 metas i) as [m Hm]; [apply lookup_lt_Some in Hi; lia|].
    destruct (lookup_lt_is_Some_2 errs i) as [e He]; [apply lookup_lt_Some in Hi; lia|].
    destruct (Hspec i m x e Hm Hx He) as [Hms Hds]. rewrite Hi in Hds.
    destruct (_ || _) in Hms, Hds; [|done]. injection Hds as <-.
    destruct (Hkept i d Hx) as (? & m' & Hm' & ? & ? & ? & ?). rewrite Hm in Hm'. injection Hm' as <-.
    split_and!; [done..|by exists m].
Qed.


(** ** Witnesses: four disks that look up one version *)

#[local] Existing Instance sample_lib.
#[local] Existing Instance XLMeta.sample_http.

(** A disk as its answer; a deleted version is not found any more. *)
#[local] Instance answer_disk : DiskMeta (FileInfo * option error) := {|
  ReadXL _ _ _ _ := Err errFileNotFound;
  ReadVersion d _ _ _ _ := d;
  DeleteVersion _ _ _ _ _ := ((zero_FileInfo, Some errFileNotFound), None)
|}.

Definition sample_version (index : Z) : FileInfo :=
  mkFileInfo "b" "o" "v" true false "" "" "" "" false "dir" false t7 10 0 0 ∅ []
    (mkErasureInfo "rs" 2 2 16 index [1; 2; 3; 4] []) false zero_ReplicationState [] 1 0 false 0 0.
Definition absent : FileInfo * option error := (zero_FileInfo, Some errFileNotFound).
Definition sample_set : list (option (FileInfo * option error)) :=
  [Some (sample_version 1, None); Some absent; Some (sample_version 3, None); Some (sample_version 4, None)].
Definition sample_sha (s : string) : string := "h" +:+ s.
Definition sample_fmt (_ : time) : string := "".
Definition sample_get := getObjectFileInfo "b" "o" sample_sha sample_fmt (fun _ => 2) 0 false false 2 sample_set "v" true.

Definition sample_metas : list FileInfo := [sample_version 1; zero_FileInfo; sample_version 3; sample_version 4].
Definition sample_errs : list (option error) := [None; Some errFileNotFound; None; None].


Lemma getObjectFileInfo_sound_witness : exists fi metas' online,
  sample_get = Some (mkInfo sample_set true (inl (fi, metas', online))) /\
  2 <= Z.of_nat (agreeing sample_sha sample_fmt sample_metas (fi_ModTime fi) (sample_sha (meta_text sample_fmt fi))).
Proof.
  destruct sample_get as [[ds hl [[[fi metas'] online]|oe]]|] eqn:E; [|by vm_compute in E..].
  destruct (getObjectFileInfo_sound "b" "o" sample_sha sample_fmt (fun _ => 2) 0 false false 2 sample_set ds online "v" true
    sample_metas sample_errs hl fi metas') as (Hd & _ & _ & (q & w & Hq & Hag) & _); [done|done|reflexivity|exact E|].
  exists fi, metas', online. subst ds. split; [|by vm_compute in Hq; injection Hq as <- <-].
  f_equal. f_equal. vm_compute in E. by injection E.
Defined.

(** Three of four disks have lost the version: the read removes the last copy. *)
Definition lost_set : list (option (FileInfo * option error)) :=
  [Some absent; Some (sample_version 2, None); Some (zero_FileInfo, Some errFileVersionNotFound);
   Some (zero_FileInfo, Some errFileCorrupt)].


(** Journals of which one misses the latest version, and an offline disk: only the
    entries of the latest version carry the time of their disk. *)
#[local] Instance journal_disk : DiskMeta xlMetaV2 := {|
  ReadXL d _ _ _ := Ok (d, t7);
  ReadVersion _ _ _ _ _ := (zero_FileInfo, Some errFileNotFound);
  DeleteVersion d _ _ _ _ := (d, None)
|}.

Example readAllXL_latest :
  let j1 := sample_journal [sample_shallow sample_ver1 Byte.x01] in
  let j2 := sample_journal [sample_shallow sample_ver2 Byte.x02; sample_shallow sample_ver1 Byte.x01] in
  match readAllXL "b" "o" [Some j2; Some j1; None; Some j2] true with
  | Some (metas, errs) => (fi_VersionID <$> metas, fi_ModTime <$> metas, fi_DiskMTime <$> metas, errs)
  | None => ([], [], [], [])
  end = (["uo1"; "u1"; ""; "uo1"], [time_Unix_nano 200; time_Unix_nano 100; 0; time_Unix_nano 200],
         [t7; 0; 0; t7], [None; None; Some errDiskNotFound; None]).
Proof. vm_compute. reflexivity. Qed.
