(* ===== verification/ObjectMeta.v ===== *)
(** * What a request sees of a version ([cmd/object-api-datatypes.go])

    [ObjectInfo] is the description of a version that the handlers, the scanner
    and the bucket features work with; [FileInfo.ToObjectInfo]
    ([cmd/erasure-metadata.go]) makes it from the metadata of an erasure set, with
    the helpers of [cmd/object-api-utils.go].  The fields for readers, writers and
    the disk cache are left out: nothing here sets them. *)

From S2P Require Import Prelude Erasure FileInfo Quorum Restore XLMeta ObjectRead.

(** ** Data *)

Record TransitionedObject := mkTransitioned {
  tr_Name : string;
  tr_VersionID : string;
  tr_Tier : string;
  tr_FreeVersion : bool;
  tr_Status : string
}.

Record ObjectInfo := mkObjectInfo {
  oi_Bucket : string;
  oi_Name : string;
  oi_ModTime : time;
  oi_Size : Z;
  oi_IsDir : bool;
  oi_ETag : string;
  oi_VersionID : string;
  oi_IsLatest : bool;
  oi_DeleteMarker : bool;
  oi_TransitionedObject : TransitionedObject;
  oi_RestoreExpires : time;
  oi_RestoreOngoing : bool;
  oi_ContentType : string;
  oi_ContentEncoding : string;
  oi_Expires : time;
  oi_StorageClass : string;
  oi_ReplicationStatusInternal : string;
  oi_ReplicationStatus : string;
  oi_UserDefined : gmap string string;
  oi_UserTags : string;
  oi_Parts : list ObjectPartInfo;
  oi_Legacy : bool;
  oi_VersionPurgeStatusInternal : string;
  oi_VersionPurgeStatus : string;
  oi_NumVersions : Z;
  oi_SuccessorModTime : time
}.

Definition zero_TransitionedObject : TransitionedObject := mkTransitioned "" "" "" false "".
Definition zero_ObjectInfo : ObjectInfo :=
  mkObjectInfo "" "" 0 0 false "" "" false false zero_TransitionedObject 0 false "" "" 0 "" "" "" ∅ ""
    [] false "" "" 0 0.

(** ** Metadata *)

Definition AmzObjectTagging : string := "X-Amz-Tagging".
Definition STANDARD : string := "STANDARD".
Definition globalMinioDefaultStorageClass : string := "STANDARD".

(** [m[k]]: the empty string when the key is missing. *)
Definition meta_get (m : gmap string string) (k : string) : string := default "" (m !! k).

(** Deletes from the map it is given, which the caller keeps using. *)
Definition removeStandardStorageClass (metadata : gmap string string) : gmap string string :=
  if bool_decide (meta_get metadata AmzStorageClass = STANDARD) then delete AmzStorageClass metadata
  else metadata.

Definition contains (slice : list string) (elem : string) : bool :=
  existsb (fun s => bool_decide (s = elem)) slice.

Definition cleanMetadataKeys `{MapOrder} (metadata : gmap string string) (keyNames : list string) : gmap string string :=
  fold_left (fun newMeta kv => if contains keyNames kv.1 then newMeta else <[kv.1 := kv.2]> newMeta)
    (range_map metadata) ∅.

Definition clean_keys : list string :=
  ["md5Sum"; "etag"; "expires"; AmzObjectTagging; "last-modified"; VersionPurgeStatusKey].

(** The cleaned copy, and the map it was made from, which has changed too. *)
Definition cleanMetadata `{MapOrder} (metadata : gmap string string) : gmap string string * gmap string string :=
  let metadata := removeStandardStorageClass metadata in
  (cleanMetadataKeys metadata clean_keys, metadata).

Definition extractETag (metadata : gmap string string) : string :=
  match metadata !! "etag" with
  | Some etag => etag
  | None => meta_get metadata "md5Sum"
  end.

Section ToObjectInfo.
Context `{MapOrder} `{HttpTime}.

Definition ToObjectInfo (fi : FileInfo) (bucket object : string) (versioned : bool) : ObjectInfo :=
  let object := decodeDirObject object in
  let versionID := if versioned && bool_decide (fi_VersionID fi = "") then nullVersionID else fi_VersionID fi in
  let meta := fi_Metadata fi in
  let expires := match meta !! "expires" with
                 | Some exp => match http_Parse exp with Ok t => t | Err _ => 0 end
                 | None => 0
                 end in
  let '(userDefined, meta') := cleanMetadata meta in
  let storageClass := match meta' !! AmzStorageClass with
                      | Some sc => sc
                      | None => globalMinioDefaultStorageClass
                      end in
  let '(ongoing, restoreExpires) :=
    match meta' !! AmzRestore with
    | Some restoreHdr => match parseRestoreObjStatus restoreHdr with
                         | Ok r => (rt_ongoing r, default 0 (restore_Expiry r))
                         | Err _ => (false, 0)
                         end
    | None => (false, 0)
    end in
  {| oi_Bucket := bucket;
     oi_Name := object;
     oi_ModTime := fi_ModTime fi;
     oi_Size := fi_Size fi;
     oi_IsDir := HasSuffix object SlashSeparator;
     oi_ETag := extractETag meta;
     oi_VersionID := versionID;
     oi_IsLatest := fi_IsLatest fi;
     oi_DeleteMarker := fi_Deleted fi;
     oi_TransitionedObject := mkTransitioned (fi_TransitionedObjName fi) (fi_TransitionVersionID fi)
       (fi_TransitionTier fi) (TierFreeVersion fi) (fi_TransitionStatus fi);
     oi_RestoreExpires := restoreExpires;
     oi_RestoreOngoing := ongoing;
     oi_ContentType := meta_get meta "content-type";
     oi_ContentEncoding := meta_get meta "content-encoding";
     oi_Expires := expires;
     oi_StorageClass := storageClass;
     oi_ReplicationStatusInternal := rs_ReplicationStatusInternal (fi_ReplicationState fi);
     oi_ReplicationStatus := CompositeReplicationStatus (fi_ReplicationState fi);
     oi_UserDefined := userDefined;
     oi_UserTags := meta_get meta AmzObjectTagging;
     oi_Parts := fi_Parts fi;
     oi_Legacy := fi_XLV1 fi;
     oi_VersionPurgeStatusInternal := rs_VersionPurgeStatusInternal (fi_ReplicationState fi);
     oi_VersionPurgeStatus := VersionPurgeStatus fi;
     oi_NumVersions := fi_NumVersions fi;
     oi_SuccessorModTime := fi_SuccessorModTime fi |}.
End ToObjectInfo.

(** ** Facts *)

Lemma contains_elem slice s : contains slice s = bool_decide (s ∈ slice).
Proof.
  apply eq_true_iff_eq. unfold contains. rewrite existsb_exists, bool_decide_eq_true. setoid_rewrite <-list_elem_of_In.
  split; [intros (x & ? & Hx); apply bool_decide_eq_true in Hx; congruence|].
  intros ?. exists s. by rewrite bool_decide_eq_true_2.
Qed.

Lemma fold_insert_unless (p : string -> bool) (l : list (string * string)) (m : gmap string string) k :
  NoDup l.*1 ->
  fold_left (fun m kv => if p kv.1 then m else <[kv.1 := kv.2]> m) l m !! k =
  if p k then m !! k else match (list_to_map l : gmap string string) !! k with Some v => Some v | None => m !! k end.
Proof.
  revert m. induction l as [|[k' v] l IH]; intros m Hnd; cbn in *; [by destruct (p k)|].
  inversion Hnd as [|? ? Hk' Hnd']; subst. rewrite IH by done.
  assert ((list_to_map l : gmap string string) !! k' = None) as Hn by by apply not_elem_of_list_to_map_1.
  destruct (decide (k' = k)) as [->|Hne].
  - rewrite lookup_insert_eq, Hn. destruct (p k); [done|by rewrite lookup_insert_eq].
  - rewrite (lookup_insert_ne _ _ _ _ Hne). by destruct (p k'); rewrite ?(lookup_insert_ne _ _ _ _ Hne).
Qed.

(** A key that is not cleaned away keeps its value, for every order of the map. *)
Lemma cleanMetadataKeys_lookup `{MapOrder} m keys k :
  cleanMetadataKeys m keys !! k = if bool_decide (k ∈ keys) then None else m !! k.
Proof.
  unfold cleanMetadataKeys. rewrite fold_insert_unless, contains_elem, lookup_empty.
  - destruct (bool_decide (k ∈ keys)); [done|].
    assert ((list_to_map (range_map m) : gmap string string) = m) as ->; [|by destruct (m !! k)].
    rewrite <-(list_to_map_to_list m) at 2. apply list_to_map_proper; [|apply range_order_perm].
    unfold range_map. rewrite range_order_perm. apply NoDup_fst_map_to_list.
  - unfold range_map. rewrite range_order_perm. apply NoDup_fst_map_to_list.
Qed.
