(* ===== verification/ObjectWrite.v ===== *)
(** * Writing an object to an erasure set ([cmd/erasure-object.go])

    [putObject] picks the parity, encodes the stream into one shard writer per
    disk, in buffers for small objects and in temporary files otherwise, completes
    the metadata, and lets every disk that took its shards move the upload into
    place ([renameData]).  The disks are pointers into a store of disks behind the
    interface [DiskWrites]. *)

From S2P Require Import Prelude Erasure FileInfo Quorum Distribution Restore Inline XLMeta XLMerge XLRead.
From S2P Require Import Bitrot Healing ParallelRead ErasureIO ObjectStream HTTPRange ObjectRead ObjectInfo ObjectMeta.
From Stdlib Require Import Ascii.

(** ** The disks *)

(** What writing uses of [StorageAPI].  [CreateFile] reads a stream to its end;
    [CreateFile_refuses] is the error with which it stops reading before the next
    bytes of the stream, given those it has taken. *)
Class DiskWrites (D : Type) := {
  IsOnline : D -> bool;
  DiskInfo_ID : D -> result string;
  CreateFile_refuses : D -> string -> string -> Z -> bytes -> bytes -> option error;
  CreateFile : D -> string -> string -> Z -> stream -> D * option error;
  RenameData : D -> string -> string -> FileInfo -> string -> string -> option (D * option error);
  RenameFile : D -> string -> string -> string -> string -> D * option error
}.

(** ** Requests *)

(** The options of a write ([ObjectOptions]). *)
Record PutOptions := mkPutOptions {
  po_VersionSuspended : bool;
  po_Versioned : bool;
  po_VersionID : string;
  po_MTime : time;
  po_UserDefined : gmap string string;
  po_PreserveETag : string;
  po_NoLock : bool;
  po_Speedtest : bool;
  po_MaxParity : bool;
  po_IndexCB : option bytes
}.

(** [PutObjReader]: the size of the request, [-1] when it is not known, the size
    before compression, the stream, and the MD5 of what was read. *)
Record PutObjReader := mkReader {
  pr_Size : Z;
  pr_ActualSize : Z;
  pr_stream : stream;
  pr_MD5 : string
}.

Definition uitstorMetaTmpBucket : string := uitstorMetaBucket +:+ "/tmp".
Definition uitstorMetaTmpDeletedBucket : string := uitstorMetaTmpBucket +:+ "/.trash".
Definition minIOErasureUpgraded : string := "x-uitstor-internal-erasure-upgraded".
Definition erasureAlgorithm : string := "rs-vandermonde".
Definition blockSizeV2 : Z := 2 ^ 20.
Definition smallFileThreshold : Z := 128 * 2 ^ 10.
Definition DefaultBitrotAlgorithm : Z := HighwayHash256S.

Definition PutReplicationState (o : PutOptions) : ReplicationState :=
  match po_UserDefined o !! (ReservedMetadataPrefixLower +:+ "replication-status") with
  | None => zero_ReplicationState
  | Some rstatus => mkReplicationState 0 "" false 0 rstatus "" "" (replicationStatusesMap rstatus) ∅ ∅
  end.

(** ** Fields of [FileInfo] *)

Definition fi_with_Size (f : FileInfo) (sz : Z) : FileInfo :=
  match f with
  | mkFileInfo v n vid il d ts ton tr tv er dd x1 mt _ md wv meta ps ei mk rs da nv sm fr ix dm =>
    mkFileInfo v n vid il d ts ton tr tv er dd x1 mt sz md wv meta ps ei mk rs da nv sm fr ix dm
  end.
Definition fi_with_ModTime (f : FileInfo) (mt : time) : FileInfo :=
  match f with
  | mkFileInfo v n vid il d ts ton tr tv er dd x1 _ sz md wv meta ps ei mk rs da nv sm fr ix dm =>
    mkFileInfo v n vid il d ts ton tr tv er dd x1 mt sz md wv meta ps ei mk rs da nv sm fr ix dm
  end.
Definition fi_with_ids (f : FileInfo) (vid dd : string) : FileInfo :=
  match f with
  | mkFileInfo v n _ il d ts ton tr tv er _ x1 mt sz md wv meta ps ei mk rs da nv sm fr ix dm =>
    mkFileInfo v n vid il d ts ton tr tv er dd x1 mt sz md wv meta ps ei mk rs da nv sm fr ix dm
  end.
Definition fi_with_Replication (f : FileInfo) (rs : ReplicationState) : FileInfo :=
  match f with
  | mkFileInfo v n vid il d ts ton tr tv er dd x1 mt sz md wv meta ps ei mk _ da nv sm fr ix dm =>
    mkFileInfo v n vid il d ts ton tr tv er dd x1 mt sz md wv meta ps ei mk rs da nv sm fr ix dm
  end.
Definition fi_with_IsLatest (f : FileInfo) (il : bool) : FileInfo :=
  match f with
  | mkFileInfo v n vid _ d ts ton tr tv er dd x1 mt sz md wv meta ps ei mk rs da nv sm fr ix dm =>
    mkFileInfo v n vid il d ts ton tr tv er dd x1 mt sz md wv meta ps ei mk rs da nv sm fr ix dm
  end.
(** [cmd/storage-datatypes.go]; [None] is the panic of [hashOrder]. *)
Definition newFileInfo (object : string) (dataBlocks parityBlocks : Z) : option FileInfo :=
  dist ← hashOrder object (add64 dataBlocks parityBlocks);
  Some (fi_with_Erasure zero_FileInfo
          (mkErasureInfo erasureAlgorithm dataBlocks parityBlocks blockSizeV2 0 dist [])).

Definition FileInfo_SetInlineData (fi : FileInfo) : FileInfo :=
  fi_with_Metadata fi (<[ReservedMetadataPrefixLower +:+ "inline-data" := "true"]> (fi_Metadata fi)).

(** [path.Ext]: the suffix from the last dot of the last element. *)
Fixpoint ext_loop (rev suffix : list Ascii.ascii) : list Ascii.ascii :=
  match rev with
  | [] => []
  | c :: rev => if bool_decide (c = "/"%char) then [] else if bool_decide (c = "."%char) then c :: suffix
                else ext_loop rev (c :: suffix)
  end.
Definition path_Ext (path : string) : string :=
  String.string_of_list_ascii (ext_loop (reverse (String.list_ascii_of_string path)) []).

Section Put.
Context `{HashLib} {L : RSLibrary} `{MapOrder} `{HttpTime} {D : Type} `{DiskWrites D}.
Context (scParity : string -> Z) (TypeByExtension : string -> string) (defaultParityCount : Z).
Context (bucket object : string) (canceled : bool).

(** *** The parity *)

(** A disk that is there, online and has an identity. *)
Definition disk_ready (store : list D) (disk : option nat) : bool :=
  match (i ← disk; store !! i) with
  | None => false
  | Some d => IsOnline d && match DiskInfo_ID d with Ok id => negb (bool_decide (id = "")) | Err _ => false end
  end.

(** The parity of the object and its metadata: one more for every disk that is
    not ready, up to half of the disks. *)
Definition choose_parity (opts : PutOptions) (disks : list (option nat)) (store : list D) : Z * gmap string string :=
  let userDefined := po_UserDefined opts in
  let half := Z.quot (len disks) 2 in
  if po_MaxParity opts then (half, userDefined)
  else
    let parityDrives := scParity (default "" (userDefined !! AmzStorageClass)) in
    let parityOrig := if parityDrives <? 0 then defaultParityCount else parityDrives in
    let parityDrives := add64 parityOrig (Z.of_nat (count (fun d => negb (disk_ready store d)) disks)) in
    let parityDrives := if half <=? parityDrives then half else parityDrives in
    (parityDrives, if negb (parityOrig =? parityDrives)
                   then <[minIOErasureUpgraded := Itoa parityOrig +:+ "->" +:+ Itoa parityDrives]> userDefined
                   else userDefined).

(** *** The shard writers *)

(** The destination of a streaming writer: a buffer, or the write end of the pipe
    that [CreateFile] of a disk reads from. *)
Record pipe := mkPipe {
  pp_disk : option D;
  pp_data : bytes;
  pp_closed : option error
}.

Definition PipeCloser (path : string) (size : Z) : WriteCloser :=
  {| wc_state := pipe;
     wc_Write w p :=
       match (d ← pp_disk w; CreateFile_refuses d uitstorMetaTmpBucket path size (pp_data w) p) with
       | Some err => (w, (0, Some err))
       | None => (mkPipe (pp_disk w) (pp_data w ++ p) (pp_closed w), (len p, None))
       end;
     wc_CloseWithError w err := mkPipe (pp_disk w) (pp_data w) (Some err) |}.

(** The size of a streaming bitrot file. *)
Definition streamFileSize (length shardSize : Z) : Z :=
  if length =? -1 then -1
  else (ceilFrac length shardSize * Z.of_nat (hash_size HighwayHash256S) + length)%int64.

(** Whether the shards are kept in the metadata. *)
Definition inlines (opts : PutOptions) (shardFileSize actualShardSize : Z) : bool :=
  let small sz := (negb (po_Versioned opts) && (sz <? smallFileThreshold)) || (sz <? Z.quot smallFileThreshold 8) in
  if 0 <=? shardFileSize then small shardFileSize
  else (0 <? actualShardSize) && small actualShardSize.

Definition new_pipe (inline : bool) (store : list D) (disk : option nat) : pipe :=
  mkPipe (if inline then None else i ← disk; store !! i) [] None.

Definition writer_of (store : list D) (position : nat) (disk : option nat) : option nat :=
  match (i ← disk; store !! i) with
  | Some d => if IsOnline d then Some position else None
  | None => None
  end.

(** The ends of the pipes: what every [CreateFile] has done to its disk.  Its error
    is the one of the pipe's read end, which nobody looks at after the close. *)
Fixpoint create_files (path : string) (size : Z) (disks : list (option nat)) (writers : list (option nat))
    (pipes : list pipe) (store : list D) : list D :=
  match disks, writers, pipes with
  | disk :: disks, writer :: writers, p :: pipes =>
      let store := match (i ← disk; _ ← writer; _ ← pp_disk p; d ← store !! i; Some (i, d)) with
                   | Some (i, d) => <[i := (CreateFile d uitstorMetaTmpBucket path size
                                              (mkStream (pp_data p) (default EOF (pp_closed p)))).1]> store
                   | None => store
                   end in
      create_files path size disks writers pipes store
  | _, _, _ => store
  end.

(** *** Moving the upload into place *)

(** [renameData]: every disk with its own metadata; [None] is a panic. *)
Fixpoint rename_each (index : Z) (disks : list (option nat)) (metadata : list FileInfo)
    (srcEntry : string) (store : list D) : option (list D * list (option error)) :=
  match disks with
  | [] => Some (store, [])
  | disk :: disks =>
      fi ← head metadata;
      '(store, err) ←
        match (i ← disk; d ← store !! i; Some (i, d)) with
        | None => Some (store, Some errDiskNotFound)
        | Some (i, d) =>
            let fi := if ei_Index (fi_Erasure fi) =? 0
                      then fi_with_Erasure fi (ei_with_Index (fi_Erasure fi) (index + 1)) else fi in
            if FileInfo_IsValid fi then
              '(d, err) ← RenameData d uitstorMetaTmpBucket srcEntry fi bucket object;
              Some (<[i := d]> store, err)
            else Some (store, Some errFileCorrupt)
        end;
      '(store, errs) ← rename_each (index + 1) disks (tail metadata) srcEntry store;
      Some (store, err :: errs)
  end.

Definition renameData (fvID : string) (disks : list (option nat)) (srcEntry : string) (metadata : list FileInfo)
    (writeQuorum : Z) (store : list D) : option (list D * list FileInfo * (list (option nat) * option error)) :=
  let metadata : list FileInfo := (fun fi => SetTierFreeVersionID fi fvID) <$> metadata in
  '(store, errs) ← rename_each 0 disks metadata srcEntry store;
  Some (store, metadata, (evalDisks disks errs, reduceWriteQuorumErrs canceled errs objectOpIgnoredErrs writeQuorum)).

(** *** The object *)

(** The metadata of position [i] after the encoding: a disk whose writer failed
    is dropped. *)
Definition complete_meta (inline : bool) (n actualSize : Z) (modTime : time) (compIndex : bytes)
    (writer : option nat) (p : pipe) (fi : FileInfo) : FileInfo :=
  match writer with
  | None => fi
  | Some _ =>
      let fi := fi_with_Data fi (if inline then pp_data p else []) in
      let fi := AddObjectPart fi 1 "" n actualSize modTime compIndex in
      fi_with_Erasure fi (AddChecksumInfo (fi_Erasure fi) (mkChecksum 1 DefaultBitrotAlgorithm []))
  end.

(** The temporary files of an upload that did not reach all disks go to the
    trash. *)
Definition trash_tmp (disks : list (option nat)) (tempObj trashID : string) (store : list D) : list D :=
  fold_left (fun store disk =>
    match (i ← disk; d ← store !! i; Some (i, d)) with
    | None => store
    | Some (i, d) => <[i := (RenameFile d uitstorMetaTmpBucket tempObj uitstorMetaTmpDeletedBucket trashID).1]> store
    end) disks store.

Definition online_at (store : list D) (disk : option nat) : bool :=
  match (i ← disk; store !! i) with Some d => IsOnline d | None => false end.

Definition countOnlineDisks (disks : list (option nat)) (store : list D) : Z :=
  Z.of_nat (count (online_at store) disks).

(** The disks afterwards, whether the upload was queued for healing, and the
    answer. *)
Record put_result := mkPut {
  pu_store : list D;
  pu_partial : bool;
  pu_res : ObjectInfo + ObjectErr
}.

(** The identifiers [mustGetUUID] returns. *)
Record put_ids := mkIds { id_version : string; id_dir : string; id_temp : string; id_free : string; id_trash : string }.

(** What is set after the encoding: the [etag] and the content type. *)
Definition complete_userDefined (opts : PutOptions) (md5 : string) (m : gmap string string) : gmap string string :=
  let m := if bool_decide (default "" (m !! "etag") = "")
           then <["etag" := if bool_decide (po_PreserveETag opts = "") then md5 else po_PreserveETag opts]> m else m in
  if bool_decide (default "" (m !! "content-type") = "") then <["content-type" := TypeByExtension (path_Ext object)]> m else m.

Definition put_buffer (size : Z) : nat :=
  Z.to_nat (if size =? 0 then 1 else if (blockSizeV2 <=? size) || (size =? -1) then blockSizeV2 else size).

(** The metadata of every position, and the disks that are left. *)
Definition put_metadata (opts : PutOptions) (r : PutObjReader) (inline : bool) (n : Z) (modTime : time)
    (userDefined : gmap string string) (pw : parallelWriter (WS := pipe)) (partsMetadata : list FileInfo) : list FileInfo :=
  let partsMetadata := zip_with (fun wp fi => complete_meta inline n (pr_ActualSize r) modTime (default [] (po_IndexCB opts)) wp.1 wp.2 fi)
                         (zip (pw_writers pw) (pw_store pw)) partsMetadata in
  let userDefined := complete_userDefined opts (pr_MD5 r) userDefined in
  let partsMetadata : list FileInfo :=
    (fun fi => fi_with_ModTime (fi_with_Size (fi_with_Metadata fi userDefined) n) modTime) <$> partsMetadata in
  if inline then FileInfo_SetInlineData <$> partsMetadata else partsMetadata.

Definition put_disks (pw : parallelWriter (WS := pipe)) (onlineDisks : list (option nat)) : list (option nat) :=
  zip_with (fun (w : option nat) d => match w with None => None | Some _ => d end) (pw_writers pw) onlineDisks.

(** The end of [putObject]: the upload is moved into place, and the temporary
    files are trashed unless every disk took it. *)
Definition put_commit (opts : PutOptions) (ids : put_ids) (fi : FileInfo) (writeQuorum : Z)
    (storageDisks onlineDisks : list (option nat)) (partsMetadata : list FileInfo) (store : list D) : option put_result :=
  '(store, partsMetadata, (onlineDisks, err)) ← renameData (id_free ids) onlineDisks (id_temp ids) partsMetadata writeQuorum store;
  match err with
  | Some err =>
      let err := if errors_Is (Some err) (Some errFileNotFound) then errErasureWriteQuorum else err in
      Some (mkPut (trash_tmp storageDisks (id_temp ids) (id_trash ids) store) false
              (inr (default (PlainErr err) (toObjectErr (Some err) [bucket; object]))))
  | None =>
      let fi := match List.find (fun x => online_at store x.1) (zip onlineDisks partsMetadata) with
                | Some x => x.2
                | None => fi
                end in
      let partial := negb (po_Speedtest opts) && existsb (fun d => negb (online_at store d)) onlineDisks in
      let fi := fi_with_IsLatest (fi_with_Replication fi (PutReplicationState opts)) true in
      let store := if negb (countOnlineDisks onlineDisks store =? len onlineDisks)
                   then trash_tmp storageDisks (id_temp ids) (id_trash ids) store else store in
      Some (mkPut store partial (inl (ToObjectInfo fi bucket object (po_Versioned opts || po_VersionSuspended opts))))
  end.

(** [lockErr] is the error of [GetLock], [now] the time of [UTCNow]. *)
Definition putObject (opts : PutOptions) (r : PutObjReader) (ids : put_ids) (lockErr : option error) (now : time)
    (storageDisks : list (option nat)) (store : list D) : option put_result :=
  let '(parityDrives, userDefined) := choose_parity opts storageDisks store in
  let dataDrives := sub64 (len storageDisks) parityDrives in
  let writeQuorum := if dataDrives =? parityDrives then add64 dataDrives 1 else dataDrives in
  let early err params := Some (mkPut store false (inr (default (PlainErr err) (toObjectErr (Some err) params)))) in
  if pr_Size r <? -1 then early errInvalidArgument []
  else
    fi ← newFileInfo (pathJoin [bucket; object]) dataDrives parityDrives;
    let versionID := if po_Versioned opts && bool_decide (po_VersionID opts = "") then id_version ids else po_VersionID opts in
    let fi := fi_with_ids fi versionID (id_dir ids) in
    '(onlineDisks, partsMetadata) ← shuffleDisksAndPartsMetadata storageDisks (replicate (length storageDisks) fi) fi;
    match NewErasure (ei_DataBlocks (fi_Erasure fi)) (ei_ParityBlocks (fi_Erasure fi)) (ei_BlockSize (fi_Erasure fi)) with
    | Err err => early err [bucket; object]
    | Ok e =>
        let tempErasureObj := pathJoin [id_temp ids; fi_DataDir fi; "part.1"] in
        shardFileSize ← ShardFileSize e (pr_Size r);
        actualShardSize ← (if 0 <=? shardFileSize then Some 0 else ShardFileSize e (pr_ActualSize r));
        let inline := inlines opts shardFileSize actualShardSize in
        let size := streamFileSize shardFileSize (ShardSize e) in
        let writers := imap (writer_of store) onlineDisks in
        let pipes : list pipe := new_pipe inline store <$> onlineDisks in
        '(pw, _, encoded) ← Encode (streaming_Write (PipeCloser tempErasureObj size) HighwayHash256S) e canceled
                              (pr_stream r) writers pipes (put_buffer (pr_Size r)) writeQuorum;
        let store := create_files tempErasureObj size onlineDisks writers (pw_store pw) store in
        let failed oe := Some (mkPut (trash_tmp storageDisks (id_temp ids) (id_trash ids) store) false (inr oe)) in
        match encoded with
        | Err err => failed (default (PlainErr err) (toObjectErr (Some err) [uitstorMetaTmpBucket; tempErasureObj]))
        | Ok n =>
            if n <? pr_Size r then failed (ApiErr IncompleteBody (mkGeneric bucket object ""))
            else match (if po_NoLock opts then None else lockErr) with
            | Some err => failed (PlainErr err)
            | None =>
                let modTime := if time_IsZero (po_MTime opts) then now else po_MTime opts in
                put_commit opts ids fi writeQuorum storageDisks (put_disks pw onlineDisks)
                  (put_metadata opts r inline n modTime userDefined pw partsMetadata) store
            end
        end
    end.
End Put.

(** ** Pointers to disks *)

(** No two positions point to the same disk. *)
Definition distinct (disks : list (option nat)) : Prop :=
  forall j k i, disks !! j = Some (Some i) -> disks !! k = Some (Some i) -> j = k.

Lemma distinct_cons disk disks : distinct (disk :: disks) ->
  distinct disks /\ forall i k, disk = Some i -> disks !! k <> Some (Some i).
Proof.
  intros Hd. split; [intros j k i Hj Hk; by injection (Hd (S j) (S k) i Hj Hk)|].
  intros i k -> Hk. by pose proof (Hd 0%nat (S k) i eq_refl Hk).
Qed.

Section Facts.
Context `{HashLib} {L : RSLibrary} `{MapOrder} `{HttpTime} {D : Type} `{DiskWrites D}.
Context (scParity : string -> Z) (TypeByExtension : string -> string) (defaultParityCount : Z).
Context (bucket object : string).

(** A write that succeeds appends the checksum and the shard. *)
Lemma pipe_Write path size (w : pipe (D := D)) p : p <> [] ->
  (streaming_Write (PipeCloser path size) HighwayHash256S w p).2.2 = None ->
  streaming_Write (PipeCloser path size) HighwayHash256S w p =
    (mkPipe (pp_disk w) (pp_data w ++ hash_sum HighwayHash256S p ++ p) (pp_closed w), (len p, None)).
Proof.
  intros Hp. destruct w as [d data closed]. unfold streaming_Write. rewrite (bool_decide_eq_false_2 (p = [])) by done.
  cbn [wc_Write PipeCloser pp_disk pp_data pp_closed].
  destruct (d ← d; CreateFile_refuses _ _ _ _ data _); [done|]. cbn [pp_disk pp_data pp_closed].
  destruct (d ← d; CreateFile_refuses _ _ _ _ (data ++ _) p); [done|].
  rewrite Z.eqb_refl. cbn [negb]. by rewrite <-app_assoc.
Qed.

(** A pipe that took every write holds the shards with their checksums. *)
Lemma feed_pipe path size (ps : list bytes) : Forall (fun p => p <> []) ps -> forall w : pipe (D := D),
  takes_all (streaming_Write (PipeCloser path size) HighwayHash256S) w ps ->
  feed (streaming_Write (PipeCloser path size) HighwayHash256S) w ps =
    mkPipe (pp_disk w) (pp_data w ++ bitrot_encode HighwayHash256S ps) (pp_closed w).
Proof.
  induction 1 as [|p ps Hp Hps IH]; intros w; cbn [takes_all].
  { intros _. destruct w. by rewrite app_nil_r. }
  intros [Hw Ht]. pose proof (pipe_Write path size w p Hp Hw) as E. unfold feed. cbn [fold_left].
  rewrite E in Ht |- *. cbn [fst] in *. specialize (IH _ Ht). unfold feed in IH. rewrite IH. cbn [pp_disk pp_data pp_closed].
  by rewrite encode_cons, <-!app_assoc.
Qed.

Lemma create_files_spec path size disks : forall (writers : list (option nat)) (pipes : list (pipe (D := D))) store,
  distinct disks ->
  let store' := create_files path size disks writers pipes store in
  length store' = length store /\
  (forall i, (forall j, disks !! j <> Some (Some i)) -> store' !! i = store !! i) /\
  forall j i d, disks !! j = Some (Some i) -> store !! i = Some d ->
    store' !! i = match (w ← writers !! j; _ ← w; p ← pipes !! j; _ ← pp_disk p; Some p) with
                  | Some p => Some (CreateFile d uitstorMetaTmpBucket path size
                                      (mkStream (pp_data p) (default EOF (pp_closed p)))).1
                  | None => Some d
                  end.
Proof.
  induction disks as [|disk disks IH]; intros writers pipes store Hdist.
  { cbn. split_and!; [done|done|]. intros j i d Hj. by rewrite lookup_nil in Hj. }
  destruct writers as [|writer writers], pipes as [|p pipes]; cbn [create_files].
  1-3: split_and!; [done|done|]; intros j i d _ Hd; rewrite ?lookup_nil, Hd;
    repeat match goal with |- context [(?w :: ?ws) !! j] => destruct ((w :: ws) !! j) as [[?|]|] end; done.
  apply distinct_cons in Hdist as [Hdist Hfresh].
  set (store1 := match (i ← disk; _ ← writer; _ ← pp_disk p; d ← store !! i; Some (i, d)) with Some _ => _ | None => store end).
  assert (length store1 = length store /\ (forall i, disk <> Some i -> store1 !! i = store !! i) /\
    forall i d, disk = Some i -> store !! i = Some d -> store1 !! i =
      match (_ ← writer; pp_disk p) with
      | Some _ => Some (CreateFile d uitstorMetaTmpBucket path size (mkStream (pp_data p) (default EOF (pp_closed p)))).1
      | None => Some d
      end) as (Hl1 & Ho1 & Hi1).
  { unfold store1. destruct disk as [k|]; [|done]. destruct writer; [|by split_and!; [..|intros ? ? [= ->]]].
    cbn [mbind option_bind]. destruct (pp_disk p) as [dp|]; [|by split_and!; [..|intros ? ? [= ->]]]. cbn [mbind option_bind].
    destruct (store !! k) as [dk|] eqn:Ek; cbn [mbind option_bind]; [|split_and!; [done|done|intros i d [= ->]; congruence]].
    split_and!; [by rewrite length_insert|intros i Hi; apply list_lookup_insert_ne; congruence|].
    intros i d [= ->] Hd. assert (d = dk) as -> by congruence. apply list_lookup_insert_eq. by eapply lookup_lt_Some. }
  destruct (IH writers pipes store1 Hdist) as (Hl & Hout & Hin). cbn zeta in *. split_and!; [congruence| |].
  - intros i Hi. rewrite Hout by (intros j; apply (Hi (S j))). apply Ho1. intros ->. by apply (Hi 0%nat).
  - intros [|j] i d Hj Hd; cbn [lookup list_lookup] in Hj |- *.
    + injection Hj as ->. rewrite Hout by (intros j; by apply Hfresh). rewrite (Hi1 i d eq_refl Hd).
      cbn [mbind option_bind]. destruct writer; [|done]. cbn [mbind option_bind]. by destruct (pp_disk p).
    + apply Hin; [done|]. rewrite Ho1; [done|]. intros ->. by apply (Hfresh i j).
Qed.

(** The metadata a disk is given: with its index, unless it has one. *)
Definition stamped (index : Z) (fi : FileInfo) : FileInfo :=
  if ei_Index (fi_Erasure fi) =? 0 then fi_with_Erasure fi (ei_with_Index (fi_Erasure fi) (index + 1)) else fi.

Lemma rename_each_spec src disks : forall index metadata store store' errs,
  distinct disks -> rename_each bucket object index disks metadata src store = Some (store', errs) ->
  length errs = length disks /\ length store' = length store /\
  (forall i, (forall j, disks !! j <> Some (Some i)) -> store' !! i = store !! i) /\
  (forall j, disks !! j = Some None -> errs !! j = Some (Some errDiskNotFound)) /\
  forall j i d, disks !! j = Some (Some i) -> store !! i = Some d -> exists fi d' err,
    metadata !! j = Some fi /\ store' !! i = Some d' /\ errs !! j = Some err /\
    if FileInfo_IsValid (stamped (index + Z.of_nat j) fi)
    then RenameData d uitstorMetaTmpBucket src (stamped (index + Z.of_nat j) fi) bucket object = Some (d', err)
    else d' = d /\ err = Some errFileCorrupt.
Proof.
  induction disks as [|disk disks IH]; intros index metadata store store' errs Hdist; cbn [rename_each].
  { intros [= <- <-]. split_and!; [done..|intros j Hj; by rewrite lookup_nil in Hj|intros j i d Hj; by rewrite lookup_nil in Hj]. }
  apply distinct_cons in Hdist as [Hdist Hfresh]. destruct metadata as [|fi metadata]; [done|]. cbn [head mbind option_bind].
  set (one := match (i ← disk; d ← store !! i; Some (i, d)) with None => _ | Some _ => _ end).
  destruct one as [[store1 err]|] eqn:Eone; [|done]. cbn [mbind option_bind]. subst one. cbn [tail].
  destruct (rename_each bucket object (index + 1) disks metadata src store1) as [[store2 errs2]|] eqn:Er; [|done].
  cbn [mbind option_bind]. intros [= <- <-]. destruct (IH (index + 1) metadata store1 store2 errs2 Hdist Er) as (Hl & Hls & Hout & Hnone & Hin).
  assert (length store1 = length store /\ (forall i, disk <> Some i -> store1 !! i = store !! i) /\
    (disk = None -> err = Some errDiskNotFound) /\
    forall i d, disk = Some i -> store !! i = Some d -> exists d', store1 !! i = Some d' /\
      if FileInfo_IsValid (stamped index fi)
      then RenameData d uitstorMetaTmpBucket src (stamped index fi) bucket object = Some (d', err)
      else d' = d /\ err = Some errFileCorrupt) as (Hl1 & Ho1 & Hn1 & Hi1).
  { destruct disk as [k|]; cbn [mbind option_bind] in Eone; [|injection Eone as <- <-; by split_and!].
    destruct (store !! k) as [d|] eqn:Ek; cbn [mbind option_bind] in Eone.
    2:{ injection Eone as <- <-. split_and!; [done..|]. intros i d [= ->]. congruence. }
    fold (stamped index fi) in Eone. assert (k < length store)%nat as Hk by (by eapply lookup_lt_Some).
    destruct (FileInfo_IsValid (stamped index fi)) eqn:Ev.
    - destruct (RenameData d _ _ _ _ _) as [[d' err']|] eqn:Erd; [|done]. cbn in Eone. injection Eone as <- <-.
      split_and!; [by rewrite length_insert|intros i Hi; rewrite list_lookup_insert_ne; [done|congruence]|done|].
      intros i d0 [= <-] Hd0. assert (d0 = d) as -> by congruence. exists d'. by rewrite list_lookup_insert_eq.
    - injection Eone as <- <-. split_and!; [done..|]. intros i d0 [= <-] Hd0. assert (d0 = d) as -> by congruence. by exists d. }
  split_and!; [by cbn; f_equal|congruence| | |].
  - intros i Hi. rewrite Hout by (intros j; apply (Hi (S j))). apply Ho1. intros ->. by apply (Hi 0%nat).
  - intros [|j] Hj; cbn in Hj |- *; [injection Hj as ->; by rewrite Hn1|by apply Hnone].
  - intros [|j] i d Hj Hd; cbn [lookup list_lookup] in Hj |- *.
    + injection Hj as ->. destruct (Hi1 i d eq_refl Hd) as (d' & Hd' & Hcase). exists fi, d', err.
      rewrite Hout by (intros j; by apply Hfresh). rewrite Z.add_0_r. done.
    + rewrite <-Ho1 in Hd by (intros ->; by apply (Hfresh i j)). destruct (Hin j i d Hj Hd) as (fi' & d' & err' & Hm & Hs & He & Hcase).
      exists fi', d', err'. replace (index + Z.of_nat (S j)) with (index + 1 + Z.of_nat j) by lia. done.
Qed.

(** Clearing the temporary files only touches them. *)
Lemma trash_tmp_spec disks temp trash : forall store : list D, distinct disks ->
  length (trash_tmp disks temp trash store) = length store /\
  forall i d, store !! i = Some d ->
    trash_tmp disks temp trash store !! i = Some d \/
    trash_tmp disks temp trash store !! i = Some (RenameFile d uitstorMetaTmpBucket temp uitstorMetaTmpDeletedBucket trash).1.
Proof.
  unfold trash_tmp. induction disks as [|disk disks IH]; intros store Hdist; cbn [fold_left]; [by auto|].
  apply distinct_cons in Hdist as [Hdist Hfresh].
  set (store1 := match (i ← disk; d ← store !! i; Some (i, d)) with None => _ | Some _ => _ end).
  destruct (IH store1 Hdist) as [Hl Hin]. assert (length store1 = length store) as Hl1.
  { unfold store1. destruct disk as [k|]; [|done]. cbn. destruct (store !! k); [|done]. cbn. by rewrite length_insert. }
  split; [congruence|]. intros i d Hd. destruct disk as [k|]; [|by apply Hin]. unfold store1 in *. cbn [mbind option_bind] in *.
  destruct (store !! k) as [dk|] eqn:Ek; [|by apply Hin]. cbn [mbind option_bind] in *.
  destruct (decide (k = i)) as [->|Hne].
  - right. assert (dk = d) as -> by congruence.
    set (st := <[i := _]> store). assert (st !! i = Some (RenameFile d uitstorMetaTmpBucket temp uitstorMetaTmpDeletedBucket trash).1) as Hst.
    { apply list_lookup_insert_eq. by eapply lookup_lt_Some. }
    clear Hin IH Hl Hl1. clearbody st. revert st Hst. induction disks as [|disk disks IH2]; intros st Hst; [done|]. cbn [fold_left].
    apply IH2; [by apply distinct_cons in Hdist as [? _]|intros j k0 Hj; exact (Hfresh j (S k0) Hj)|].
    destruct disk as [k|]; [|done]. cbn. destruct (st !! k) eqn:E2; [|done]. cbn.
    rewrite list_lookup_insert_ne; [done|]. intros ->. by apply (Hfresh i 0%nat eq_refl).
  - apply Hin. by rewrite list_lookup_insert_ne.
Qed.

(** The encoding with the buffer of the request: one block when it is short. *)
Lemma put_encode e {LL : RSLaws L (dataBlocks e) (parityBlocks e)} {WS} (Write : WS -> bytes -> WS * (Z * option error))
    canceled data size writers store quorum :
  erasure_wf e -> blockSize e = blockSizeV2 -> len data < 2 ^ 61 -> data <> [] -> size = -1 \/ size = len data -> 1 <= quorum ->
  length writers = n e -> indexed writers -> length store = n e ->
  exists p' src' res, Encode Write e canceled (mkStream data EOF) writers store (put_buffer size) quorum = Some (p', src', res) /\
    forall t, res = Ok t -> t = len data /\ quorum <= healthy p' /\
      fed Write (shard_file e data) (fresh_writers writers quorum store) p'.
Proof.
  intros Hwf Hbs Hd Hne Hsz Hq Hl Hix Hs. destruct (geometry e Hwf) as (Hb & _).
  assert (0 < len data) by (destruct data; [done|cbn; lia]).
  assert (put_buffer size = bs e \/ (put_buffer size = length data /\ length data < bs e)%nat) as Hbuf.
  { unfold put_buffer, bs. rewrite Hbs. destruct Hsz as [->|Hsz]; [by left|]. destruct (Z.eqb_spec size 0); [lia|].
    destruct (Z.leb_spec blockSizeV2 size), (Z.eqb_spec size (-1)); cbn [orb]; lia. }
  assert (0 < put_buffer size)%nat as Hpos by lia.
  destruct (encode_loop_spec e Hwf Write canceled (put_buffer size) Hpos data (S (S (length data)))
    (fresh_writers writers quorum store) 0) as (p' & src' & res & Hloop & Hres);
    [lia|lia|lia|by apply fresh_writers_ok|done|by left|].
  exists p', src', res. split; [exact Hloop|]. intros t Ht. destruct (Hres t Ht) as (-> & ? & Hfed).
  split_and!; [lia|done|].
  assert (blocks_of (put_buffer size) data = blocks_of (bs e) data) as Heq.
  { destruct Hbuf as [->|[Hb1 Hb2]]; [done|]. rewrite (blocks_of_cons (put_buffer size)), (blocks_of_cons (bs e)) by (done || lia).
    rewrite !take_ge, !drop_ge by lia. by rewrite !blocks_of_nil by lia. }
  unfold shard_file. rewrite <-Heq. done.
Qed.

Lemma new_fi_kept fi (d : option nat) m b : fi_ModTime fi = 0 ->
  kept (target_distribution fi) d m b = bool_decide (is_Some d).
Proof.
  intros Hmt. unfold kept, target_distribution, time_IsZero. rewrite Hmt, (bool_decide_eq_true_2 (0 = 0)) by done. cbn [negb andb].
  destruct d; [by rewrite !bool_decide_eq_true_2|]. rewrite !bool_decide_eq_false_2; [done|by intros []|done].
Qed.

(** The order of the disks of an upload: storage disk [i] is at the position the
    distribution says. *)
Lemma shuffled_put disks fi dist : let nd := length disks in
  is_distribution nd dist -> Z.of_nat nd < 2 ^ 63 -> ei_Distribution (fi_Erasure fi) = dist -> fi_ModTime fi = 0 -> indexed disks ->
  exists online metas, shuffleDisksAndPartsMetadata disks (replicate nd fi) fi = Some (online, metas) /\
    length online = nd /\ length metas = nd /\ distinct online /\
    (forall i b d, dist !! i = Some b -> disks !! i = Some d -> online !! Z.to_nat (b - 1) = Some d) /\
    (forall j i, online !! j = Some (Some i) -> disks !! i = Some (Some i) /\ dist !! i = Some (Z.of_nat j + 1) /\ metas !! j = Some fi).
Proof.
  intros nd Hd Hlt Hdist Hmt Hix. unfold shuffleDisksAndPartsMetadata. rewrite Hdist, length_replicate. fold nd.
  destruct (place_placed (target_distribution fi) disks (replicate nd fi) dist nd) as (oD & oM & -> & HlD & HlM & Hlook);
    [intros d m b; apply target_distribution_ok|done|by rewrite length_replicate|done|done|].
  destruct (is_distribution_spec _ _ Hd) as (Hlen & Hnd & Hin).
  assert (forall i b d, dist !! i = Some b -> disks !! i = Some d ->
    oD !! Z.to_nat (b - 1) = Some d /\ oM !! Z.to_nat (b - 1) = Some (if bool_decide (is_Some d) then fi else zero_FileInfo)) as Hat.
  { intros i b d Hb Hdi. destruct (Hlook i b d fi Hb Hdi) as [-> ->].
    { apply lookup_replicate_2. apply lookup_lt_Some in Hdi. done. }
    rewrite new_fi_kept by done. destruct d; [by rewrite bool_decide_eq_true_2|by case_bool_decide]. }
  assert (forall j i, oD !! j = Some (Some i) -> disks !! i = Some (Some i) /\ dist !! i = Some (Z.of_nat j + 1) /\ oM !! j = Some fi) as Hback.
  { intros j i Hj. assert (j < nd)%nat by (unfold nd; rewrite <-HlD; by eapply lookup_lt_Some).
    assert (Z.of_nat j + 1 ∈ dist) as Hmem by (apply Hin; lia). apply list_elem_of_lookup_1 in Hmem as [i' Hi'].
    destruct (lookup_lt_is_Some_2 disks i') as [d Hdi']; [apply lookup_lt_Some in Hi'; rewrite Hlen in Hi'; exact Hi'|].
    destruct (Hat i' _ d Hi' Hdi') as [Ho Hm]. replace (Z.to_nat (Z.of_nat j + 1 - 1)) with j in Ho, Hm by lia.
    rewrite Hj in Ho. injection Ho as <-. pose proof (Hix i' i Hdi') as ->. by rewrite bool_decide_eq_true_2 in Hm. }
  exists oD, oM. split_and!; [done|done|done| | |done].
  - intros j k i Hj Hk. apply Hback in Hj as (_ & Hj & _), Hk as (_ & Hk & _). rewrite Hj in Hk. injection Hk. lia.
  - intros i b d Hb Hdi. by apply (Hat i b d).
Qed.

(** ** What a successful write has done *)

(** The metadata a disk is given: the same for all, but the index and the inline
    shards. *)
Definition put_file (vid dir : string) (modTime : time) (n actual : Z) (idx : bytes) (meta : gmap string string)
    (k m : Z) (dist : list Z) (index : Z) (content : bytes) : FileInfo :=
  mkFileInfo "" "" vid false false "" "" "" "" false dir false modTime n 0 0 meta [mkPart "" 1 n actual modTime idx]
    (mkErasureInfo erasureAlgorithm k m blockSizeV2 index dist [mkChecksum 1 DefaultBitrotAlgorithm []])
    false zero_ReplicationState content 0 0 false 0 0.

(** The metadata entries of the request, completed. *)
Definition put_meta (opts : PutOptions) (r : PutObjReader) (ids : put_ids) (inline : bool) (ud : gmap string string) : gmap string string :=
  let ud := complete_userDefined TypeByExtension object opts (pr_MD5 r) ud in
  <[tierFVIDKey := id_free ids]> (if inline then <[ReservedMetadataPrefixLower +:+ "inline-data" := "true"]> ud else ud).

Definition new_file (vid dir : string) (k m : Z) (dist : list Z) : FileInfo :=
  fi_with_ids (fi_with_Erasure zero_FileInfo (mkErasureInfo erasureAlgorithm k m blockSizeV2 0 dist [])) vid dir.

Lemma put_metadata_at opts r ids inline n modTime ud (pw : parallelWriter (WS := pipe (D := D))) metas j w p vid dir k m dist :
  pw_writers pw !! j = Some (Some w) -> pw_store pw !! j = Some p -> metas !! j = Some (new_file vid dir k m dist) ->
  exists fi, put_metadata TypeByExtension object opts r inline n modTime ud pw metas !! j = Some fi /\
    stamped (Z.of_nat j) (SetTierFreeVersionID fi (id_free ids)) =
      put_file vid dir modTime n (pr_ActualSize r) (default [] (po_IndexCB opts)) (put_meta opts r ids inline ud) k m dist
        (Z.of_nat j + 1) (if inline then pp_data p else []).
Proof.
  intros Hw Hp Hm. unfold put_metadata, put_meta.
  assert (zip_with (fun wp fi => complete_meta inline n (pr_ActualSize r) modTime (default [] (po_IndexCB opts)) wp.1 wp.2 fi)
    (zip (pw_writers pw) (pw_store pw)) metas !! j =
    Some (complete_meta inline n (pr_ActualSize r) modTime (default [] (po_IndexCB opts)) (Some w) p (new_file vid dir k m dist))) as Hz.
  { rewrite !lookup_zip_with, Hw, Hp. cbn [mbind option_bind]. by rewrite Hm. }
  destruct inline; rewrite !list_lookup_fmap, Hz; eexists; (split; [reflexivity|]); reflexivity.
Qed.

(** What happened to the disk at position [pos] of an upload: a temporary file,
    perhaps; the move into place, which it took or not; the clean-up, perhaps. *)
Definition put_moved (e : Erasure) {LL : RSLaws L (dataBlocks e) (parityBlocks e)} (data : bytes) (file : Z -> bytes -> FileInfo) (inline : bool)
    (ids : put_ids) (size : Z) (pos : nat) (took : bool) (d d2 : D) : Prop :=
  let path := pathJoin [id_temp ids; id_dir ids; "part.1"] in
  let fi := file (Z.of_nat pos + 1) (if inline then ObjectStream.stored e data pos else []) in
  exists d1, (d1 = d \/ exists st, d1 = (CreateFile d uitstorMetaTmpBucket path size st).1) /\
    if took then RenameData d1 uitstorMetaTmpBucket (id_temp ids) fi bucket object = Some (d2, None) /\ FileInfo_IsValid fi = true /\
                 (inline = false -> d1 = (CreateFile d uitstorMetaTmpBucket path size (mkStream (ObjectStream.stored e data pos) EOF)).1)
    else d2 = d1 \/ FileInfo_IsValid fi = true /\
           exists err, RenameData d1 uitstorMetaTmpBucket (id_temp ids) fi bucket object = Some (d2, Some err).
Definition put_outcome (e : Erasure) {LL : RSLaws L (dataBlocks e) (parityBlocks e)} (data : bytes) (file : Z -> bytes -> FileInfo) (inline : bool)
    (ids : put_ids) (size : Z) (pos : nat) (took : bool) (d d' : D) : Prop :=
  exists d2, put_moved e data file inline ids size pos took d d2 /\
    (d' = d2 \/ d' = (RenameFile d2 uitstorMetaTmpBucket (id_temp ids) uitstorMetaTmpDeletedBucket (id_trash ids)).1).

(** The end of the write: the moves, a quorum of which succeeded, and perhaps the
    clean-up. *)
Lemma put_commit_ok canceled opts ids fi wq disks online metas store res oi :
  put_commit bucket object canceled opts ids fi wq disks online metas store = Some res -> pu_res res = inl oi ->
  exists store' errs, rename_each bucket object 0 online ((fun fi => SetTierFreeVersionID fi (id_free ids)) <$> metas) (id_temp ids) store = Some (store', errs) /\
    reduceWriteQuorumErrs canceled errs objectOpIgnoredErrs wq = None /\
    (pu_store res = store' \/ pu_store res = trash_tmp disks (id_temp ids) (id_trash ids) store').
Proof.
  unfold put_commit, renameData.
  destruct (rename_each _ _ _ _ _ _ _) as [[store' errs]|]; cbn [mbind option_bind]; [|done].
  destruct (reduceWriteQuorumErrs _ _ _ _) eqn:Eq; intros [= <-]; [done|]. intros _. exists store', errs.
  split_and!; [done|done|]. cbn [pu_store]. destruct (negb _); auto.
Qed.

Lemma stored_nonempty e {LL : RSLaws L (dataBlocks e) (parityBlocks e)} data i : erasure_wf e -> len data < 2 ^ 62 -> blockSize e < 2 ^ 62 ->
  (i < n e)%nat -> Forall (fun p => p <> []) (shard_file e data i).
Proof.
  intros Hwf Hd Hb Hi. destruct (shard_file_shape e Hwf i data Hi) as [Hok _]; [done|done|].
  apply Forall_lookup. intros k p Hp. destruct (pieces_bounds _ _ _ _ Hok Hp) as [? _]. intros ->. cbn in *. lia.
Qed.

Lemma choose_parity_le opts disks (store : list D) parity ud :
  choose_parity scParity defaultParityCount opts disks store = (parity, ud) -> parity <= Z.quot (len disks) 2.
Proof.
  unfold choose_parity. destruct (po_MaxParity opts); [intros [= <- _]; lia|]. intros [= <- _].
  match goal with |- (if ?a <=? ?b then _ else _) <= _ => destruct (Z.leb_spec a b); lia end.
Qed.

(** The parts of a successful write. *)
Lemma putObject_stages canceled opts r ids lockErr now disks (store : list D) res oi parity ud :
  indexed disks -> len disks < 2 ^ 31 -> choose_parity scParity defaultParityCount opts disks store = (parity, ud) -> 0 <= parity ->
  putObject scParity TypeByExtension defaultParityCount bucket object canceled opts r ids lockErr now disks store = Some res ->
  pu_res res = inl oi ->
  let k := len disks - parity in
  let e := mkErasure k parity blockSizeV2 in
  let vid := if po_Versioned opts && bool_decide (po_VersionID opts = "") then id_version ids else po_VersionID opts in
  let modTime := if time_IsZero (po_MTime opts) then now else po_MTime opts in
  let wq := if k =? parity then k + 1 else k in
  let path := pathJoin [id_temp ids; id_dir ids; "part.1"] in
  erasure_wf e /\ n e = length disks /\
  exists dist online metas inline size pw src' t,
    hashOrder (pathJoin [bucket; object]) (len disks) = Some dist /\ is_distribution (length disks) dist /\
    length online = length disks /\ distinct online /\
    (forall i b d, dist !! i = Some b -> disks !! i = Some d -> online !! Z.to_nat (b - 1) = Some d) /\
    (forall j i, online !! j = Some (Some i) -> disks !! i = Some (Some i) /\ dist !! i = Some (Z.of_nat j + 1) /\
       metas !! j = Some (new_file vid (id_dir ids) k parity dist)) /\
    let writers := imap (writer_of store) online in
    let pipes := new_pipe inline store <$> online in
    Encode (streaming_Write (PipeCloser path size) HighwayHash256S) e canceled (pr_stream r) writers pipes (put_buffer (pr_Size r)) wq
      = Some (pw, src', Ok t) /\
    put_commit bucket object canceled opts ids (new_file vid (id_dir ids) k parity dist) wq disks (put_disks pw online)
      (put_metadata TypeByExtension object opts r inline t modTime ud pw metas)
      (create_files path size online writers (pw_store pw) store) = Some res.
Proof.
  intros Hix Hn Hpar Hp0 Hput Hres. pose proof (choose_parity_le _ _ _ _ _ Hpar) as Hhalf.
  assert (parity <= len disks) as Hple by (pose proof (Z.quot_le_upper_bound (len disks) 2 (len disks)); lia).
  intros k e vid modTime wq path. unfold putObject in Hput. rewrite Hpar in Hput.
  assert (sub64 (len disks) parity = k) as Ek by (unfold sub64; rewrite wrap64_id; [done|unfold int64_range; lia]). rewrite Ek in Hput.
  assert (add64 k parity = len disks) as Ekp by (unfold add64, k; rewrite wrap64_id; [lia|unfold int64_range; lia]).
  assert (add64 k 1 = k + 1) as Ek1 by (unfold add64; rewrite wrap64_id; [done|unfold k, int64_range; lia]). rewrite Ek1 in Hput. fold wq in Hput.
  destruct (pr_Size r <? -1); [injection Hput as <-; done|]. unfold newFileInfo in Hput. rewrite Ekp in Hput.
  destruct (hashOrder _ _) as [dist|] eqn:Eh; [|done]. cbn [mbind option_bind] in Hput.
  change (fi_with_ids _ _ (id_dir ids)) with (new_file vid (id_dir ids) k parity dist) in Hput.
  destruct (decide (length disks = 0%nat)) as [Hz|Hz].
  { destruct disks; [|done]. cbn in Hhalf. assert (parity = 0) as -> by lia. cbn in Hput. injection Hput as <-. done. }
  destruct (hashOrder_distribution (pathJoin [bucket; object]) (length disks)) as (dist' & Eh' & Hdist); [lia|lia|].
  rewrite Eh in Eh'. injection Eh' as <-.
  destruct (shuffled_put disks (new_file vid (id_dir ids) k parity dist) dist) as (online & metas & Hsh & Hlo & Hlm & Hdo & Hon & Hback);
    [done|lia|done|done|done|]. rewrite Hsh in Hput. cbn [mbind option_bind] in Hput.
  change (NewErasure (ei_DataBlocks _) _ _) with (NewErasure k parity blockSizeV2) in Hput.
  destruct (NewErasure k parity blockSizeV2) as [e0|err] eqn:Ee; [|injection Hput as <-; done].
  destruct (NewErasure_wf k parity blockSizeV2 e0) as [Hwf ->]; [done|unfold k; lia|done|]. fold e in Hput, Hwf.
  destruct (ShardFileSize e (pr_Size r)) as [sfs|]; [|done]. cbn [mbind option_bind] in Hput.
  match type of Hput with mbind _ ?x = _ => destruct x as [asz|]; [|done] end. cbn [mbind option_bind] in Hput.
  set (inline := inlines opts sfs asz) in *. set (size := streamFileSize sfs (ShardSize e)) in *.
  change (pathJoin [id_temp ids; fi_DataDir (new_file vid (id_dir ids) k parity dist); "part.1"]) with path in Hput.
  destruct (Encode _ _ _ _ _ _ _ _) as [[[pw src'] enc]|] eqn:Eenc; [|done]. cbn [mbind option_bind] in Hput.
  destruct enc as [t|err]; [|injection Hput as <-; done].
  destruct (t <? pr_Size r); [injection Hput as <-; done|].
  destruct (if po_NoLock opts then None else lockErr); [injection Hput as <-; done|].
  split; [done|]. split; [unfold n, e, k; cbn; lia|].
  exists dist, online, metas, inline, size, pw, src', t. by split_and!.
Qed.

(** The positions that took the upload. *)
Definition tooks (errs : list (option error)) (dist : list Z) : list bool :=
  (fun b => bool_decide (errs !! Z.to_nat (b - 1) = Some None)) <$> dist.

Lemma tooks_count errs dist nd : is_distribution nd dist -> (length errs <= nd)%nat ->
  (count (fun e => bool_decide (e = None)) errs <= count id (tooks errs dist))%nat.
Proof.
  intros Hd Hl. unfold tooks. rewrite (count_Permutation id _ ((fun b => bool_decide (errs !! Z.to_nat (b - 1) = Some None)) <$> seqZ 1 (Z.of_nat nd)))
    by (by rewrite Hd).
  assert (forall s : Z, 1 <= s -> forall errs' n, errs' = drop (Z.to_nat (s - 1)) errs -> (length errs' <= n)%nat ->
    (count (fun e => bool_decide (e = None)) errs' <=
     count id ((fun b => bool_decide (errs !! Z.to_nat (b - 1) = Some None)) <$> seqZ s (Z.of_nat n)))%nat) as Hgen.
  { intros s Hs errs'. revert s Hs. induction errs' as [|x errs' IH]; intros s Hs n Hdrop Hn; [rewrite count_nil; lia|].
    destruct n as [|n]; [cbn in Hn; lia|]. rewrite seqZ_cons, fmap_cons, !count_cons by lia.
    assert (errs !! Z.to_nat (s - 1) = Some x) as Hx.
    { pose proof (f_equal (lookup 0%nat) Hdrop) as Hx. rewrite lookup_drop, Nat.add_0_r in Hx. by symmetry. }
    rewrite Hx. unfold id at 1. rewrite (bool_decide_ext (Some x = Some None) (x = None)) by (split; congruence).
    apply Nat.add_le_mono_l. replace (Z.pred (Z.of_nat (S n))) with (Z.of_nat n) by lia.
    apply (IH (Z.succ s)); [lia| |cbn in Hn; lia]. replace (Z.to_nat (Z.succ s - 1)) with (S (Z.to_nat (s - 1))) by lia.
    rewrite (drop_S _ _ _ Hx) in Hdrop. by injection Hdrop. }
  apply (Hgen 1); [lia|done|done].
Qed.

Lemma put_disks_at (pw : parallelWriter (WS := pipe (D := D))) online j i : put_disks pw online !! j = Some (Some i) <->
  (exists w, pw_writers pw !! j = Some (Some w)) /\ online !! j = Some (Some i).
Proof.
  unfold put_disks. rewrite lookup_zip_with. split.
  - destruct (pw_writers pw !! j) as [w|]; [|done]. cbn. destruct (online !! j) as [o|]; [|done]. cbn.
    destruct w as [w|]; [|done]. intros [= ->]. split; [by eexists|done].
  - intros [[w ->] ->]. done.
Qed.

(** Position [pos], of storage disk [i], from the encoding to the clean-up. *)
Lemma put_position e {LL : RSLaws L (dataBlocks e) (parityBlocks e)} data opts r ids inline size vid dir k m dist ud t modTime
    online metas store store2 errs (pw : parallelWriter (WS := pipe (D := D))) pos i d quorum :
  let path := pathJoin [id_temp ids; id_dir ids; "part.1"] in
  let writers := imap (writer_of store) online in
  let pipes := new_pipe inline store <$> online in
  let file := put_file vid dir modTime t (pr_ActualSize r) (default [] (po_IndexCB opts)) (put_meta opts r ids inline ud) k m dist in
  erasure_wf e -> len data < 2 ^ 61 -> blockSize e < 2 ^ 62 -> (pos < n e)%nat -> distinct online ->
  fed (streaming_Write (PipeCloser path size) HighwayHash256S) (shard_file e data) (fresh_writers writers quorum pipes) pw ->
  rename_each bucket object 0 (put_disks pw online)
    ((fun fi => SetTierFreeVersionID fi (id_free ids)) <$> put_metadata TypeByExtension object opts r inline t modTime ud pw metas)
    (id_temp ids) (create_files path size online writers (pw_store pw) store) = Some (store2, errs) ->
  store !! i = Some d -> online !! pos = Some (Some i) -> metas !! pos = Some (new_file vid dir k m dist) ->
  exists d2, store2 !! i = Some d2 /\ put_moved e data file inline ids size pos (bool_decide (errs !! pos = Some None)) d d2.
Proof.
  intros path writers pipes file Hwf Hd Hb Hpos Hdist Hfed Hren Hi Hon Hm.
  destruct (create_files_spec path size online writers (pw_store pw) store Hdist) as (_ & _ & Hcreate).
  specialize (Hcreate pos i d Hon Hi). cbn zeta in Hcreate. set (store1 := create_files _ _ _ _ _ _) in *.
  assert (exists d1, store1 !! i = Some d1 /\ (d1 = d \/ exists st, d1 = (CreateFile d uitstorMetaTmpBucket path size st).1)) as (d1 & Hd1 & Hcase).
  { destruct (writers !! pos ≫= _) as [q|]; eexists; (split; [exact Hcreate|]); [right; by eexists|by left]. }
  assert (distinct (put_disks pw online)) as Hdist2.
  { intros a b c Ha Hb'. apply put_disks_at in Ha as [_ Ha], Hb' as [_ Hb']. by apply (Hdist a b c). }
  destruct (rename_each_spec _ _ _ _ _ _ _ Hdist2 Hren) as (Hle & _ & Hout & Hnone & Hin).
  assert ((exists w, pw_writers pw !! pos = Some (Some w)) \/ ~ exists w, pw_writers pw !! pos = Some (Some w)) as [[w Ew]|Hgone].
  { destruct (pw_writers pw !! pos) as [[w|]|]; [left; by exists w|right; by intros [? ?]..]. }
  - assert (put_disks pw online !! pos = Some (Some i)) as Hpd by (apply put_disks_at; split; [by eexists|done]).
    destruct (Hfed pos w Ew) as ([Hw0 _] & q & Hq & Hst & Ht). unfold fresh_writers in Hw0, Hq. cbn [pw_writers pw_store] in Hw0, Hq.
    unfold pipes in Hq. rewrite list_lookup_fmap, Hon in Hq. cbn in Hq. injection Hq as <-.
    rewrite feed_pipe in Hst; [|by apply stored_nonempty; [|lia|..]|done]. unfold new_pipe in Hst. cbn [pp_disk pp_data pp_closed mbind option_bind] in Hst.
    rewrite Hi in Hst. cbn [app] in Hst. fold (ObjectStream.stored e data pos) in Hst.
    assert (pw_store (WS := pipe) pw !! pos = Some (mkPipe (if inline then None else Some d) (ObjectStream.stored e data pos) None)) as Hst' by exact Hst.
    destruct (put_metadata_at opts r ids inline t modTime ud pw metas pos w _ vid dir k m dist Ew Hst' Hm) as (fi & Hfi & Hstamp).
    destruct (Hin pos i d1 Hpd Hd1) as (fi' & d2 & err & Hfi' & Hd2 & Herr & Hren').
    rewrite list_lookup_fmap, Hfi in Hfi'. cbn in Hfi'. injection Hfi' as <-. rewrite Z.add_0_l in Hren'. rewrite Hstamp in Hren'.
    exists d2. split; [done|]. exists d1. split; [done|]. cbn zeta. cbn [pp_data] in Hren'. fold file in Hren'. rewrite Herr.
    destruct (FileInfo_IsValid _) eqn:Ev in Hren'.
    + rewrite (bool_decide_ext (Some err = Some None) (err = None)) by (split; congruence).
      case_bool_decide as He; [subst err|right; split; [done|]; destruct err as [err|]; [by exists err|done]].
      split_and!; [done|done|]. intros ->. fold writers in Hcreate. rewrite Hw0 in Hcreate. cbn [mbind option_bind] in Hcreate. rewrite Hst' in Hcreate. cbn in Hcreate.
      rewrite Hd1 in Hcreate. by injection Hcreate.
    + destruct Hren' as [-> ->]. rewrite bool_decide_eq_false_2 by done. by left.
  - exists d1. unfold put_moved. rewrite Hout by (intros j Hj; apply put_disks_at in Hj as [Hw Hj]; pose proof (Hdist j pos i Hj Hon) as ->; done).
    split; [done|]. exists d1. split; [done|]. cbn zeta. rewrite bool_decide_eq_false_2; [by left|]. intros He.
    destruct (pw_writers pw !! pos) as [w|] eqn:Ew.
    + rewrite (Hnone pos) in He; [discriminate|]. unfold put_disks. rewrite lookup_zip_with, Ew, Hon. cbn.
      destruct w as [w|]; [|done]. destruct Hgone. by exists w.
    + apply lookup_lt_Some in He. rewrite Hle in He. unfold put_disks in He. rewrite length_zip_with in He.
      apply lookup_ge_None in Ew. lia.
Qed.

(** What a successful write has done to every disk: a write quorum took the
    metadata with exactly their shards. *)
Lemma putObject_calls canceled opts r ids lockErr now disks (store : list D) res oi parity ud data
    {LL : RSLaws L (len disks - parity) parity} :
  indexed disks -> len disks < 2 ^ 31 -> choose_parity scParity defaultParityCount opts disks store = (parity, ud) -> 0 <= parity ->
  length store = length disks -> pr_stream r = mkStream data EOF -> data <> [] -> len data < 2 ^ 61 ->
  pr_Size r = -1 \/ pr_Size r = len data ->
  putObject scParity TypeByExtension defaultParityCount bucket object canceled opts r ids lockErr now disks store = Some res ->
  pu_res res = inl oi ->
  let k := len disks - parity in
  let e := mkErasure k parity blockSizeV2 in
  let vid := if po_Versioned opts && bool_decide (po_VersionID opts = "") then id_version ids else po_VersionID opts in
  let modTime := if time_IsZero (po_MTime opts) then now else po_MTime opts in
  erasure_wf e /\ n e = length disks /\ exists dist inline size took,
    let file := put_file vid (id_dir ids) modTime (len data) (pr_ActualSize r) (default [] (po_IndexCB opts))
                  (put_meta opts r ids inline ud) k parity dist in
    is_distribution (length disks) dist /\ length took = length disks /\ length (pu_store res) = length disks /\
    (if k =? parity then k + 1 else k) <= Z.of_nat (count id took) /\
    forall i b t d, dist !! i = Some b -> took !! i = Some t -> store !! i = Some d ->
      exists d', pu_store res !! i = Some d' /\ (t = true -> disks !! i = Some (Some i)) /\
        put_outcome e (LL := LL) data file inline ids size (Z.to_nat (b - 1)) t d d'.
Proof.
  intros Hix Hn Hpar Hp0 Hls Hsrc Hne Hlen Hsz Hput Hres k e vid modTime.
  destruct (putObject_stages canceled opts r ids lockErr now disks store res oi parity ud Hix Hn Hpar Hp0 Hput Hres)
    as (Hwf & Hne' & dist & online & metas & inline & size & pw & src' & t & Hh & Hdist & Hlo & Hdo & Hon & Hback & Henc & Hcom).
  split; [done|]. split; [done|]. exists dist, inline, size. fold k e in Hwf, Hne', Henc, Hcom. set (wq := if k =? parity then k + 1 else k) in *.
  set (path := pathJoin [id_temp ids; id_dir ids; "part.1"]) in *.
  assert (1 <= wq) as Hwq. { destruct Hwf as (Hk & _). unfold wq. cbn in Hk. destruct (k =? parity); lia. }
  destruct (put_encode e (LL := LL) (streaming_Write (PipeCloser (D := D) path size) HighwayHash256S) canceled data (pr_Size r)
    (imap (writer_of store) online) (new_pipe inline store <$> online) wq) as (p' & s' & res' & Henc' & Hfed);
    [done|done|done|done|done|done|by rewrite length_imap, Hne'| |by rewrite length_fmap, Hne'|].
  { intros i a. rewrite list_lookup_imap. destruct (online !! i) as [o|]; [|done]. cbn. unfold writer_of.
    destruct (o ≫= _); [|done]. destruct (IsOnline _); congruence. }
  rewrite Hsrc, Henc' in Henc. injection Henc as -> _ ->. destruct (Hfed t eq_refl) as (-> & _ & Hfed'). clear Hfed.
  destruct (put_commit_ok _ _ _ _ _ _ _ _ _ _ _ Hcom Hres) as (store2 & errs & Hren & Hquo & Hend).
  apply write_quorum_met in Hquo; [|done].
  assert (distinct (put_disks pw online)) as Hdist2 by (intros a b c [_ Ha]%put_disks_at [_ Hb]%put_disks_at; by apply (Hdo a b c)).
  destruct (rename_each_spec _ _ _ _ _ _ _ Hdist2 Hren) as (Hle & Hls2 & Hout & _).
  destruct (create_files_spec path size online (imap (writer_of store) online) (pw_store pw) store Hdo) as (Hls1 & Hout1 & _).
  assert (length errs <= length disks)%nat as Hle'.
  { rewrite Hle, <-Hlo. unfold put_disks. rewrite length_zip_with. lia. }
  assert (distinct disks) as Hdd by (intros a b c Ha Hb; rewrite <-(Hix a c Ha); by apply Hix).
  destruct (trash_tmp_spec disks (id_temp ids) (id_trash ids) store2 Hdd) as [Hlt Htrash].
  destruct (is_distribution_spec _ _ Hdist) as (Hld & _ & Hrange).
  exists (tooks errs dist). pose proof (tooks_count errs dist _ Hdist Hle'). cbn zeta in *.
  split_and!; [done|by unfold tooks; rewrite length_fmap|destruct Hend as [->| ->]; congruence|lia|].
  intros i b tk d Hb Htk Hd. unfold tooks in Htk. rewrite list_lookup_fmap, Hb in Htk. cbn in Htk. injection Htk as <-.
  assert (i < length disks)%nat as Hi by (rewrite <-Hls; by eapply lookup_lt_Some).
  destruct (lookup_lt_is_Some_2 disks i Hi) as [dk Hdk].
  assert (exists d2, store2 !! i = Some d2 /\ (bool_decide (errs !! Z.to_nat (b - 1) = Some None) = true -> dk = Some i) /\
    put_moved e (LL := LL) data
      (put_file vid (id_dir ids) modTime (len data) (pr_ActualSize r) (default [] (po_IndexCB opts)) (put_meta opts r ids inline ud) k parity dist)
      inline ids size (Z.to_nat (b - 1)) (bool_decide (errs !! Z.to_nat (b - 1) = Some None)) d d2) as (d2 & Hd2 & Hdk2 & Ho).
  { pose proof (Hon i b dk Hb Hdk) as Hob. destruct dk as [i'|].
    - pose proof (Hix i i' Hdk) as ->. destruct (Hback _ _ Hob) as (_ & _ & Hm).
      edestruct (put_position e (LL := LL) data opts r ids inline size vid (id_dir ids) k parity dist ud (len data) modTime online metas store store2 errs pw)
        as (d2 & Hd2 & Hmv); [done|lia|done| |done|exact Hfed'|exact Hren|exact Hd|exact Hob|exact Hm|by exists d2].
      apply lookup_lt_Some in Hob. lia.
    - assert (errs !! Z.to_nat (b - 1) <> Some None) as Hnn.
      { intros He. pose proof (lookup_lt_Some _ _ _ He) as Hlt'. rewrite Hle in Hlt'. apply lookup_lt_is_Some_2 in Hlt' as [o Ho].
        destruct o as [o|]; [apply put_disks_at in Ho as [_ Ho]; congruence|].
        destruct (rename_each_spec _ _ _ _ _ _ _ Hdist2 Hren) as (_ & _ & _ & Hnone & _). rewrite (Hnone _ Ho) in He. discriminate. }
      exists d. rewrite bool_decide_eq_false_2 by done. split_and!; [|done|exists d; split; [by left|]; cbn zeta; by left].
      rewrite Hout by (intros j [_ Hj]%put_disks_at; apply Hback in Hj as (Hj & _); congruence).
      rewrite Hout1 by (intros j Hj; apply Hback in Hj as (Hj & _); congruence). done. }
  assert (forall d', pu_store res !! i = Some d' -> d' = d2 \/ d' = (RenameFile d2 uitstorMetaTmpBucket (id_temp ids) uitstorMetaTmpDeletedBucket (id_trash ids)).1) as Hlast.
  { intros d' Hd'. destruct Hend as [Hend|Hend]; rewrite Hend in Hd'; [left; congruence|].
    destruct (Htrash i d2 Hd2) as [Ht|Ht]; [left|right]; congruence. }
  destruct (lookup_lt_is_Some_2 (pu_store res) i) as [d' Hd']; [destruct Hend as [->| ->]; lia|].
  exists d'. split_and!; [done|intros Ht; by rewrite Hdk, (Hdk2 Ht)|]. exists d2. split; [done|by apply Hlast].
Qed.
End Facts.
