(* ===== verification/PutGet.v ===== *)
(** * An object that was written is read ([cmd/erasure-object.go])

    The write path of [ObjectWrite] and the read path of [ObjectInfo] and
    [ObjectRead] together.  What a disk promises is the class [DiskStores]: an
    upload it does not take leaves it without the version, an upload it takes is
    read back with the bytes it was given.  From it follows the promise of the
    erasure set: once [putObject] has returned an object, any disks that include
    enough of those that took it return exactly its bytes. *)

From S2P Require Import Prelude Erasure FileInfo Quorum Distribution Restore Inline XLMeta XLMerge XLRead.
From S2P Require Import Bitrot Healing ParallelRead ErasureIO ObjectStream HTTPRange ObjectRead ObjectInfo ObjectMeta ObjectWrite.

(** ** What a disk promises *)

(** The part of an upload that all disks share: the metadata without the position
    of the disk and its inline shards. *)
Definition unplaced (fi : FileInfo) : FileInfo :=
  fi_with_Data (fi_with_Erasure fi (ei_with_Index (fi_Erasure fi) 0)) [].

(** An upload that [putObject] makes. *)
Definition upload (fi : FileInfo) : Prop :=
  (exists vid dir modTime n actual idx meta k m dist index content, vid <> "" /\ 0 < n < 2 ^ 50 /\
     int64_range (modTime - unix_epoch) /\ 1 <= index <= k + m /\ is_distribution (Z.to_nat (k + m)) dist /\
     (content = [] <-> meta !! (ReservedMetadataPrefixLower +:+ "inline-data") = None) /\
     fi = put_file vid dir modTime n actual idx meta k m dist index content) /\ FileInfo_IsValid fi = true.

(** The description [f] of the upload [fi] that a disk with the shards [content]
    returns. *)
Definition read_as `{DiskReads D} (quorum_text : (time -> string) -> FileInfo -> string) (d : D) (bucket object : string)
    (fi : FileInfo) (content : bytes) (f : FileInfo) : Prop :=
  FileInfo_IsValid f = true /\ fi_Deleted f = false /\ fi_XLV1 f = false /\
  fi_ModTime f = fi_ModTime fi /\ fi_Size f = fi_Size fi /\ fi_DataDir f = fi_DataDir fi /\
  (pt_Number <$> fi_Parts f) = (pt_Number <$> fi_Parts fi) /\ (pt_Size <$> fi_Parts f) = (pt_Size <$> fi_Parts fi) /\
  (ei_DataBlocks (fi_Erasure f), ei_ParityBlocks (fi_Erasure f), ei_BlockSize (fi_Erasure f)) =
    (ei_DataBlocks (fi_Erasure fi), ei_ParityBlocks (fi_Erasure fi), ei_BlockSize (fi_Erasure fi)) /\
  (ei_Index (fi_Erasure f), ei_Distribution (fi_Erasure f)) = (ei_Index (fi_Erasure fi), ei_Distribution (fi_Erasure fi)) /\
  ck_Algorithm (GetChecksumInfo (fi_Erasure f) 1) = HighwayHash256S /\
  (forall fmt, meta_text fmt f = quorum_text fmt (unplaced fi)) /\
  (fi_Data f = content \/ (fi_Data f = [] /\ holds_file bucket d (pathJoin [object; fi_DataDir fi; "part.1"]) content)).

(** [ready d b o u]: the disk does not have the version of the upload [u] and can
    take it.  [holds d b o fi c]: it took the upload [fi], with the shards [c]. *)
Class DiskStores (D : Type) `{DiskWrites D} `{DiskMeta D} `{DiskReads D} := {
  ready : D -> string -> string -> FileInfo -> Prop;
  holds : D -> string -> string -> FileInfo -> bytes -> Prop;
  quorum_text : (time -> string) -> FileInfo -> string;
  ready_create d b o u path size st : ready d b o u ->
    ready (CreateFile d uitstorMetaTmpBucket path size st).1 b o u;
  ready_cleanup d b o u temp trash : ready d b o u ->
    ready (RenameFile d uitstorMetaTmpBucket temp uitstorMetaTmpDeletedBucket trash).1 b o u;
  ready_fails d b o fi src d' err : ready d b o (unplaced fi) -> upload fi ->
    RenameData d uitstorMetaTmpBucket src fi b o = Some (d', Some err) -> ready d' b o (unplaced fi);
  takes_inline d b o fi src d' : ready d b o (unplaced fi) -> upload fi -> fi_Data fi <> [] ->
    RenameData d uitstorMetaTmpBucket src fi b o = Some (d', None) -> holds d' b o fi (fi_Data fi);
  takes_file d b o fi src size content d' : ready d b o (unplaced fi) -> upload fi -> fi_Data fi = [] -> content <> [] ->
    RenameData (CreateFile d uitstorMetaTmpBucket (pathJoin [src; fi_DataDir fi; "part.1"]) size (mkStream content EOF)).1
      uitstorMetaTmpBucket src fi b o = Some (d', None) -> holds d' b o fi content;
  holds_cleanup d b o fi c temp trash : holds d b o fi c ->
    holds (RenameFile d uitstorMetaTmpBucket temp uitstorMetaTmpDeletedBucket trash).1 b o fi c;
  ready_reads d b o u readData : ready d b o u -> fi_VersionID u <> "" ->
    exists f err, ReadVersion d b o (fi_VersionID u) readData = (f, Some err) /\ FileInfo_IsValid f = false;
  holds_reads d b o fi c : holds d b o fi c -> upload fi ->
    exists f, ReadVersion d b o (fi_VersionID fi) true = (f, None) /\ read_as quorum_text d b o fi c f
}.

(** ** The disks after a write *)

Lemma stored_some `{HashLib} {L : RSLibrary} e {LL : RSLaws L (dataBlocks e) (parityBlocks e)} (data : bytes) pos : erasure_wf e ->
  data <> [] -> len data < 2 ^ 62 -> blockSize e < 2 ^ 62 -> (pos < n e)%nat -> stored e data pos <> [].
Proof.
  intros Hwf Hne Hd Hb Hp Hnil. destruct (geometry e Hwf) as (Hbs & _).
  pose proof (stored_nonempty e data pos Hwf Hd Hb Hp) as Hps. unfold stored in Hnil.
  assert (shard_file e data pos <> []) as Hsf.
  { unfold shard_file. rewrite blocks_of_cons by done. done. }
  destruct (shard_file e data pos) as [|p ps]; [done|]. apply Forall_cons in Hps as [Hp' _].
  rewrite encode_cons in Hnil. apply app_eq_nil in Hnil as [_ Hnil]. by apply app_eq_nil in Hnil as [? _].
Qed.

Section Written.
Context `{HashLib} {L : RSLibrary} `{MapOrder} `{HttpTime} {D : Type} `{DiskStores D}.
Context (bucket object : string).

(** What happened to a disk, in the terms of the class. *)
Lemma outcome_state e {LL : RSLaws L (dataBlocks e) (parityBlocks e)} data (file : Z -> bytes -> FileInfo) (inline : bool) ids size pos (took : bool) d d' :
  let c := stored e data pos in
  let fi := file (Z.of_nat pos + 1) (if inline then c else []) in
  put_outcome bucket object e data file inline ids size pos took d d' -> c <> [] ->
  (FileInfo_IsValid fi = true -> upload fi) -> fi_DataDir fi = id_dir ids -> fi_Data fi = (if inline then c else []) ->
  ready d bucket object (unplaced fi) ->
  if took then upload fi /\ holds d' bucket object fi c else ready d' bucket object (unplaced fi).
Proof.
  intros c fi (d2 & (d1 & Hd1 & Hmv) & Hd') Hc Hup Hdir Hdata Hr. fold c fi in Hmv.
  assert (ready d1 bucket object (unplaced fi)) as Hr1 by (destruct Hd1 as [->|[st ->]]; [done|by apply ready_create]).
  destruct took.
  - destruct Hmv as (Hren & Hv & Hfile). split; [by apply Hup|].
    assert (holds d2 bucket object fi c) as Hh.
    { destruct inline.
      - rewrite <-Hdata. apply (takes_inline d1 bucket object fi (id_temp ids)); [done|by apply Hup|by rewrite Hdata|done].
      - specialize (Hfile eq_refl). rewrite Hfile in Hren. rewrite <-Hdir in Hren.
        eapply takes_file; [exact Hr|by apply Hup|exact Hdata|exact Hc|exact Hren]. }
    destruct Hd' as [->| ->]; [done|by apply holds_cleanup].
  - assert (ready d2 bucket object (unplaced fi)) as Hr2.
    { destruct Hmv as [->|[Hv [err Hren]]]; [done|]. eapply ready_fails; [exact Hr1|by apply Hup|exact Hren]. }
    destruct Hd' as [->| ->]; [done|by apply ready_cleanup].
Qed.

Context (scParity : string -> Z) (TypeByExtension : string -> string) (defaultParityCount : Z).

Definition put_vid (opts : PutOptions) (ids : put_ids) : string :=
  if po_Versioned opts && bool_decide (po_VersionID opts = "") then id_version ids else po_VersionID opts.
Definition put_time (opts : PutOptions) (now : time) : time := if time_IsZero (po_MTime opts) then now else po_MTime opts.

(** The upload of [putObject] for the disk with an index. *)
Definition put_upload (opts : PutOptions) (r : PutObjReader) (ids : put_ids) (ud : gmap string string) (now : time) (n k m : Z)
    (inline : bool) (dist : list Z) (index : Z) (content : bytes) : FileInfo :=
  put_file (put_vid opts ids) (id_dir ids) (put_time opts now) n (pr_ActualSize r) (default [] (po_IndexCB opts))
    (put_meta TypeByExtension object opts r ids inline ud) k m dist index content.

Lemma put_meta_inline opts r ids inline ud : ud !! (ReservedMetadataPrefixLower +:+ "inline-data") = None ->
  put_meta TypeByExtension object opts r ids inline ud !! (ReservedMetadataPrefixLower +:+ "inline-data") = if inline then Some "true" else None.
Proof.
  intros Hud. unfold put_meta. rewrite lookup_insert_ne by (by vm_compute).
  destruct inline; [by rewrite lookup_insert_eq|]. unfold complete_userDefined.
  repeat case_bool_decide; rewrite ?lookup_insert_ne by (by vm_compute); done.
Qed.

Lemma put_is_upload opts r ids ud now n k m inline dist index c : put_vid opts ids <> "" -> 0 < n < 2 ^ 50 ->
  int64_range (put_time opts now - unix_epoch) -> ud !! (ReservedMetadataPrefixLower +:+ "inline-data") = None ->
  1 <= index <= k + m -> is_distribution (Z.to_nat (k + m)) dist -> c <> [] ->
  let fi := put_upload opts r ids ud now n k m inline dist index (if inline then c else []) in
  FileInfo_IsValid fi = true -> upload fi.
Proof.
  intros Hvid Hn Ht Hud Hi Hd Hc fi Hv. split; [|done]. do 12 eexists. split; [exact Hvid|]. split; [exact Hn|]. split; [exact Ht|].
  split; [exact Hi|]. split; [exact Hd|]. split; [|reflexivity]. rewrite put_meta_inline by done. by destruct inline.
Qed.

(** After a successful write every disk has the upload with its shards, or is as
    ready for it as before; a write quorum has it. *)
Lemma put_state canceled opts r ids lockErr now disks (store : list D) res oi parity ud data
    {LL : RSLaws L (len disks - parity) parity} :
  let k := len disks - parity in
  let e := mkErasure k parity blockSizeV2 in
  let up := put_upload opts r ids ud now (len data) k parity in
  indexed disks -> len disks < 2 ^ 31 -> choose_parity scParity defaultParityCount opts disks store = (parity, ud) -> 0 <= parity ->
  length store = length disks -> pr_stream r = mkStream data EOF -> data <> [] -> len data < 2 ^ 50 ->
  pr_Size r = -1 \/ pr_Size r = len data ->
  put_vid opts ids <> "" -> int64_range (put_time opts now - unix_epoch) ->
  ud !! (ReservedMetadataPrefixLower +:+ "inline-data") = None ->
  (forall d inline dist, d ∈ store -> is_distribution (length disks) dist -> ready d bucket object (up inline dist 0 [])) ->
  putObject scParity TypeByExtension defaultParityCount bucket object canceled opts r ids lockErr now disks store = Some res ->
  pu_res res = inl oi ->
  erasure_wf e /\ n e = length disks /\ exists dist (inline : bool) (took : list bool),
    is_distribution (length disks) dist /\ length took = length disks /\ length (pu_store res) = length disks /\
    (if k =? parity then k + 1 else k) <= Z.of_nat (count id took) /\
    forall i b (t : bool) d', dist !! i = Some b -> took !! i = Some t -> pu_store res !! i = Some d' ->
      let c := stored e (LL := LL) data (Z.to_nat (b - 1)) in
      let fi := up inline dist b (if inline then c else []) in
      if t then upload fi /\ holds d' bucket object fi c else ready d' bucket object (unplaced fi).
Proof.
  intros k e up Hix Hn Hpar Hp0 Hls Hsrc Hne Hlen Hsz Hvid Ht Hud Hready Hput Hres.
  destruct (putObject_calls scParity TypeByExtension defaultParityCount bucket object canceled opts r ids lockErr now disks store res oi parity ud data
    Hix Hn Hpar Hp0 Hls Hsrc Hne ltac:(lia) Hsz Hput Hres) as (Hwf & Hne' & dist & inline & size & took & Hdist & Hlt & Hlp & Hq & Hout).
  split; [done|]. split; [done|]. exists dist, inline, took. split_and!; [done..|].
  intros i b t d' Hb Htk Hd'. destruct (is_distribution_spec _ _ Hdist) as (Hld & _ & Hrange).
  assert (1 <= b <= len disks) as Hbr by (apply Hrange; by eapply list_elem_of_lookup_2).
  destruct (lookup_lt_is_Some_2 store i) as [d Hd]; [apply lookup_lt_Some in Hd'; lia|].
  destruct (Hout i b t d Hb Htk Hd) as (d'' & Hd'' & _ & Ho). rewrite Hd' in Hd''. injection Hd'' as <-.
  assert (exists pos, b = Z.of_nat pos + 1) as [pos ->] by (exists (Z.to_nat (b - 1)); lia).
  replace (Z.to_nat (Z.of_nat pos + 1 - 1)) with pos in * by lia. cbn zeta.
  assert (stored e (LL := LL) data pos <> []) as Hc by (apply stored_some; [done|done|lia|done|change (n e = length disks) in Hne'; lia]).
  apply (outcome_state e (LL := LL) data (up inline dist) inline ids size pos t d d' Ho Hc); [|done|done|].
  - apply put_is_upload; try done.
    + destruct data; [done|cbn in *; lia].
    + unfold k. lia.
    + unfold k. replace (Z.to_nat _) with (length disks) by lia. done.
  - apply Hready; [by eapply list_elem_of_lookup_2|done].
Qed.
End Written.

(** ** Reading what was written *)

(** Disks that have their version at the index the distribution gives them are put
    in order, whichever of the two shuffles is used. *)
Lemma shuffle_in_order {D} (disks : list (option D)) metas fi dist nd :
  is_distribution nd dist -> Z.of_nat nd < 2 ^ 63 -> ei_Distribution (fi_Erasure fi) = dist ->
  length disks = nd -> length metas = nd ->
  (forall i b d m, dist !! i = Some b -> disks !! i = Some (Some d) -> metas !! i = Some m ->
     FileInfo_IsValid m = true /\ fi_XLV1 m = fi_XLV1 fi /\ ei_Index (fi_Erasure m) = b) ->
  exists oD oM, shuffleDisksAndPartsMetadataByIndex disks metas fi = Some (oD, oM) /\ length oD = nd /\ length oM = nd /\
    forall i b d m, dist !! i = Some b -> disks !! i = Some d -> metas !! i = Some m ->
      oD !! Z.to_nat (b - 1) = Some d /\ (is_Some d -> oM !! Z.to_nat (b - 1) = Some m).
Proof.
  intros Hd Hlt Hdist Hl Hlm Hm. unfold shuffleDisksAndPartsMetadataByIndex, shuffleDisksAndPartsMetadata. rewrite Hdist, Hl, Hlm.
  destruct (place_placed (target_by_index fi) disks metas dist nd) as (oD & oM & -> & HlD & HlM & Hlook);
    [intros d m b; apply target_by_index_ok|done..|].
  destruct (place_placed (target_distribution fi) disks metas dist nd) as (oD' & oM' & -> & HlD' & HlM' & Hlook');
    [intros d m b; apply target_distribution_ok|done..|].
  cbn [mbind option_bind]. rewrite Hl in *. case_match.
  - exists oD, oM. split_and!; [done..|]. intros i b d m Hb Hdi Hmi. destruct (Hlook i b d m Hb Hdi Hmi) as [-> ->].
    destruct d as [d|]; [|split; [by destruct (kept _ _ _ _)|by intros []]].
    destruct (Hm i b d m Hb Hdi Hmi) as (Hv & Hx & Hi). unfold kept, target_by_index. rewrite Hv, Hx, Bool.eqb_reflx.
    cbn [negb mbind option_bind]. rewrite Hi, Z.eqb_refl. cbn [negb]. by rewrite bool_decide_eq_true_2.
  - exists oD', oM'. split_and!; [done..|]. intros i b d m Hb Hdi Hmi. destruct (Hlook' i b d m Hb Hdi Hmi) as [-> ->].
    destruct d as [d|]; [|split; [by destruct (kept _ _ _ _)|by intros []]].
    destruct (Hm i b d m Hb Hdi Hmi) as (Hv & Hx & Hi). unfold kept, target_distribution. rewrite Hv, Hx, Bool.eqb_reflx.
    rewrite !andb_false_r. cbn. by rewrite bool_decide_eq_true_2.
Qed.

(** The disks a reader finds: some of the set are offline. *)
Definition online {D} (avail : list bool) (store : list D) : list (option D) :=
  zip_with (fun (a : bool) d => if a then Some d else None) avail store.

Section Reading.
Context `{HashLib} {L : RSLibrary} `{XLLib} `{Msgp} `{MapOrder} `{HttpTime} {D : Type} `{DiskStores D}.
Context (bucket object : string) (e : Erasure) {LL : RSLaws L (dataBlocks e) (parityBlocks e)} (Hwf : erasure_wf e).
Context (data : bytes) (vid dir : string) (modTime : time) (actual : Z) (idx : bytes) (meta : gmap string string) (inline : bool) (dist : list Z).
Context (bs_small : blockSize e = blockSizeV2) (small : len data < 2 ^ 50) (dist_ok : is_distribution (n e) dist).
Local Abbreviation up index c := (put_file vid dir modTime (len data) actual idx meta (dataBlocks e) (parityBlocks e) dist index c).
Local Abbreviation shards b := (stored e data (Z.to_nat (b - 1))).
Local Abbreviation fi_at b := (up b (if inline then shards b else [])).

Context (store : list D) (took avail : list bool).
Context (len_store : length store = n e) (len_took : length took = n e) (len_avail : length avail = n e).
Context (state : forall i b (t : bool) d, dist !! i = Some b -> took !! i = Some t -> store !! i = Some d ->
  if t then upload (fi_at b) /\ holds d bucket object (fi_at b) (shards b) else ready d bucket object (unplaced (fi_at b))).
Context (vid_some : vid <> "").
Local Abbreviation rd := (online avail store).
Local Abbreviation answer d := (match d with None => (zero_FileInfo, Some errDiskNotFound) | Some d => ReadVersion d bucket object vid true end).

Lemma rd_length : length rd = n e.
Proof. unfold online. rewrite length_zip_with. lia. Qed.

(** What a disk answers. *)
Lemma answer_at i d b t a : rd !! i = Some d -> dist !! i = Some b -> took !! i = Some t -> avail !! i = Some a ->
  if t && a then exists disk f, d = Some disk /\ answer d = (f, None) /\ read_as quorum_text disk bucket object (fi_at b) (shards b) f
  else exists f err, answer d = (f, Some err) /\ FileInfo_IsValid f = false.
Proof.
  intros Hd Hb Ht Ha. unfold online in Hd. rewrite lookup_zip_with, Ha in Hd. cbn in Hd.
  destruct (store !! i) as [x|] eqn:Ex; [|done]. cbn in Hd. injection Hd as <-.
  specialize (state i b t x Hb Ht Ex). destruct t, a; cbn [andb].
  - destruct state as [Hu Hh]. destruct (holds_reads x bucket object _ _ Hh Hu) as (f & Hf & Hr). exists x, f. done.
  - by exists zero_FileInfo, errDiskNotFound.
  - destruct (ready_reads x bucket object _ true state vid_some) as (f & err & Hf & Hv). exists f, err. done.
  - by exists zero_FileInfo, errDiskNotFound.
Qed.

Context (sha : string -> string) (fmt : time -> string).
Local Abbreviation hash := (sha (quorum_text fmt (up 0 []))).
Local Abbreviation entries := ((fun d => answer d) <$> rd).
(** The disks that have the version and can be read. *)
Definition holders : nat := count id (zip_with andb took avail).

(** The flags of disk [i]. *)
Lemma flags i d : rd !! i = Some d -> exists b t a, dist !! i = Some b /\ took !! i = Some t /\ avail !! i = Some a.
Proof.
  intros Hd. apply lookup_lt_Some in Hd. rewrite rd_length in Hd. destruct (is_distribution_spec _ _ dist_ok) as (Hl & _).
  destruct (lookup_lt_is_Some_2 dist i) as [b Hb]; [lia|]. destruct (lookup_lt_is_Some_2 took i) as [t Ht]; [lia|].
  destruct (lookup_lt_is_Some_2 avail i) as [a Ha]; [lia|]. by exists b, t, a.
Qed.

Lemma entries_ok : Forall (entry sha fmt modTime hash (dataBlocks e) false) entries.
Proof.
  apply Forall_lookup. intros i x Hx. rewrite list_lookup_fmap in Hx. destruct (rd !! i) as [d|] eqn:Ed; [|done]. injection Hx as <-.
  destruct (flags i d Ed) as (b & t & a & Hb & Ht & Ha). pose proof (answer_at i d b t a Ed Hb Ht Ha) as Han. unfold entry.
  destruct (t && a).
  - destruct Han as (disk & f & _ & -> & Hv & Hdel & Hx & Hmt & _ & _ & _ & _ & [= Hk _ _] & _ & _ & Htext & _).
    cbn [fst snd]. unfold has_version. split_and!; [done..|by rewrite Htext|done|done].
  - destruct Han as (f & err & -> & Hv). done.
Qed.

Lemma entries_holders : count (fun x => bool_decide (x = None)) (entries.*2) = holders.
Proof.
  unfold holders. assert ((fun x => bool_decide (x.2 = None)) <$> entries = zip_with andb took avail) as Heq.
  { apply list_eq. intros i. rewrite !list_lookup_fmap, lookup_zip_with. destruct (rd !! i) as [d|] eqn:Ed.
    - destruct (flags i d Ed) as (b & t & a & Hb & Ht & Ha). pose proof (answer_at i d b t a Ed Hb Ht Ha) as Han.
      rewrite Ht, Ha. cbn [fmap option_fmap option_map mbind option_bind]. destruct (t && a).
      + destruct Han as (? & f & _ & -> & _). done.
      + destruct Han as (f & err & -> & _). done.
    - apply lookup_ge_None in Ed. rewrite rd_length in Ed. cbn. by rewrite (lookup_ge_None_2 took) by lia. }
  rewrite <-Heq. clear. induction entries as [|x l IH]; [done|]. csimpl. rewrite !count_cons, IH. done.
Qed.

(** The positions of the holders, in the order of the distribution. *)
Definition positions : list nat :=
  (fun x : Z * bool => Z.to_nat (x.1 - 1)) <$> base.filter (fun x : Z * bool => x.2 = true) (zip dist (zip_with andb took avail)).

Lemma positions_ok : NoDup positions /\ length positions = holders /\
  forall g, g ∈ positions -> exists i, dist !! i = Some (Z.of_nat g + 1) /\ took !! i = Some true /\ avail !! i = Some true.
Proof.
  destruct (is_distribution_spec _ _ dist_ok) as (Hl & Hnd & Hrange).
  assert (length (zip_with andb took avail) = length dist) as Hlf by (rewrite length_zip_with; lia).
  split_and!.
  - apply NoDup_fmap_2_strong.
    + intros [b t] [b' t'] [Ht Hb]%list_elem_of_filter [Ht' Hb']%list_elem_of_filter Heq. cbn in *. subst.
      apply elem_of_zip_l in Hb, Hb'. apply Hrange in Hb, Hb'. f_equal. lia.
    + apply NoDup_filter. apply (NoDup_fmap_1 fst). by rewrite fst_zip by lia.
  - unfold positions, holders. rewrite length_fmap. clear -Hlf. revert Hlf. generalize (zip_with andb took avail) as l. intros l. revert dist.
    induction l as [|x l IH]; intros [|b dist'] Hlf; try done. cbn [zip zip_with]. rewrite count_cons, filter_cons.
    injection Hlf as Hlf. specialize (IH dist' Hlf). destruct x; cbn [id]; case_decide; try done; cbn [length]; rewrite <-IH; done.
  - intros g ([b t] & -> & [Ht Hin]%list_elem_of_filter)%list_elem_of_fmap. cbn in *. subst t.
    apply list_elem_of_lookup in Hin as [i Hi]. rewrite lookup_zip_with in Hi. destruct (dist !! i) as [b'|] eqn:Eb; [|done]. cbn in Hi.
    rewrite lookup_zip_with in Hi. destruct (took !! i) as [t|] eqn:Et; [|done]. cbn in Hi. destruct (avail !! i) as [a|] eqn:Ea; [|done]. cbn in Hi.
    injection Hi as <- Hta. apply andb_true_iff in Hta as [-> ->]. exists i.
    assert (1 <= b' <= Z.of_nat (n e)) by (apply Hrange; by eapply list_elem_of_lookup_2). split_and!; [|done|done]. rewrite Eb. f_equal. lia.
Qed.

Context (scParity : string -> Z) (now : time) (healing : bool) (dp : Z).
Context (sha_some : forall s, sha s <> "") (dp_some : dp <> 0).
Context (mt_sentinel : modTime <> timeSentinel) (mt_zero : modTime <> 0) (mt_range : int64_range (modTime - unix_epoch)).
Context (enough : dataBlocks e <= Z.of_nat holders) (half : Z.of_nat (n e) <= 2 * Z.of_nat holders) (data_some : data <> []).
Context (one_local : forall i j di dj, rd !! i = Some (Some di) -> rd !! j = Some (Some dj) -> Hostname di = "" -> Hostname dj = "" -> i = j).

(** The version is found, on the disks that have it. *)
Lemma set_info : exists fi metas heal,
  let on := zip_with (fun d (x : FileInfo * option error) => match x.2 with None => d | Some _ => None end) rd entries in
  getObjectFileInfo bucket object sha fmt scParity now false healing dp rd vid true = Some (mkInfo rd heal (inl (fi, metas, on))) /\
  (exists b c disk, read_as quorum_text disk bucket object (up b c) (shards b) fi) /\ length metas = n e /\
  (forall i, took !! i = Some true -> avail !! i = Some true -> exists disk, on !! i = Some (Some disk)) /\
  forall i disk, on !! i = Some (Some disk) -> exists b f, rd !! i = Some (Some disk) /\ dist !! i = Some b /\
    took !! i = Some true /\ avail !! i = Some true /\ metas !! i = Some f /\ read_as quorum_text disk bucket object (fi_at b) (shards b) f.
Proof.
  assert (read_metas bucket object rd vid true = Some (entries.*1, entries.*2)) as Hread.
  { unfold read_metas, readAllFileInfo. rewrite bool_decide_eq_false_2 by done. by rewrite <-!list_fmap_compose. }
  destruct (info_sees bucket object sha fmt scParity now healing dp rd vid true (entries.*1) (entries.*2) modTime hash (dataBlocks e) false)
    as (fi & metas & heal & Hget & Hin & Hfi & Hlen & Hmetas & _); [done..|by rewrite zip_fst_snd; apply entries_ok| | |].
  { rewrite entries_holders. destruct Hwf as (? & _). lia. }
  { rewrite entries_holders, rd_length. lia. }
  exists fi, metas, heal. rewrite zip_with_fmap_r in Hget. split; [exact Hget|]. rewrite rd_length in Hlen.
  split.
  - apply list_elem_of_fmap in Hin as (x & -> & (d & -> & Hd)%list_elem_of_fmap). apply list_elem_of_lookup in Hd as [i Hd].
    destruct (flags i d Hd) as (b & t & a & Hb & Ht & Ha). pose proof (answer_at i d b t a Hd Hb Ht Ha) as Han. destruct (t && a).
    + destruct Han as (disk & f & _ & -> & Hr). by exists b, (if inline then shards b else []), disk.
    + destruct Han as (f & err & Hans & Hv). rewrite Hans in Hfi. destruct Hfi as (Hv' & _). cbn in Hv'. congruence.
  - split; [done|]. split.
    { intros i Ht Ha. destruct (lookup_lt_is_Some_2 rd i) as [d Hd]; [rewrite rd_length; apply lookup_lt_Some in Ht; lia|].
      destruct (flags i d Hd) as (b & t & a & Hb & Ht' & Ha'). rewrite Ht in Ht'. injection Ht' as <-. rewrite Ha in Ha'. injection Ha' as <-.
      destruct (answer_at i d b true true Hd Hb Ht Ha) as (disk & f & -> & Hans & _). exists disk.
      rewrite lookup_zip_with, list_lookup_fmap, Hd. cbn [fmap option_fmap option_map mbind option_bind]. by rewrite Hans. }
    intros i disk Hi. rewrite lookup_zip_with in Hi. destruct (rd !! i) as [d|] eqn:Hd; [|done]. cbn in Hi.
    rewrite list_lookup_fmap, Hd in Hi. cbn [fmap option_fmap option_map mbind option_bind] in Hi. injection Hi as Hi.
    destruct (flags i d Hd) as (b & t & a & Hb & Ht & Ha). pose proof (answer_at i d b t a Hd Hb Ht Ha) as Han. destruct (t && a) eqn:Eta.
    + destruct Han as (disk' & f & -> & Hans & Hr). rewrite Hans in Hi. cbn in Hi. injection Hi as ->. apply andb_true_iff in Eta as [-> ->].
      exists b, f. split_and!; [done..| |done]. apply Hmetas; rewrite !list_lookup_fmap, Hd; cbn [fmap option_fmap option_map]; by rewrite Hans.
    + destruct Han as (f & err & Hans & _). by rewrite Hans in Hi.
Qed.

(** The range of the object is read, with the shards in order. *)
Lemma set_read : exists fi metas heal on,
  getObjectFileInfo bucket object sha fmt scParity now false healing dp rd vid true = Some (mkInfo rd heal (inl (fi, metas, on))) /\
  fi_Size fi = len data /\ fi_ModTime fi = modTime /\
  forall sched off lg out, 0 <= off < 2 ^ 62 -> -1 <= lg < 2 ^ 62 ->
    let lg' := if lg <? 0 then len data - off else lg in
    off + lg' <= len data -> off = 0 \/ off < len data ->
    exists heals, getObjectWithFileInfo Buffer bucket object fi healing sched off lg out metas on
      = Some (out ++ range data off (off + lg'), heals, None).
Proof.
  destruct set_info as (fi & metas & heal & Hget & (b0 & c0 & disk0 & Hfi) & Hlm & Hall & Hon). cbn zeta in Hget.
  set (on := zip_with _ rd entries) in *. exists fi, metas, heal, on. split; [exact Hget|].
  destruct Hfi as (_ & _ & Hx & Hmt & Hsize & Hdir & Hnum & Hps & [= Hk Hm Hbsz] & [= _ Hdist] & _).
  split; [exact Hsize|]. split; [exact Hmt|]. cbn [put_file fi_Parts fi_DataDir fmap list_fmap pt_Number pt_Size] in Hnum, Hps, Hdir.
  destruct (fi_Parts fi) as [|p [|? ?]] eqn:Eparts; [done| |done]. injection Hnum as Hp1. injection Hps as Hp2.
  destruct (is_distribution_spec _ _ dist_ok) as (Hld & _ & Hrange).
  assert (length on = n e) as Hlon by (unfold on; rewrite length_zip_with, length_fmap, rd_length; lia).
  destruct (shuffle_in_order on metas fi dist (n e)) as (oD & oM & Hsh & HlD & HlM & Hlook);
    [done|destruct Hwf as (? & ? & ? & _); unfold n; lia|done|done|done| |].
  { intros i b d m Hb Hd Hm'. destruct (Hon i d Hd) as (b' & f & _ & Hb' & _ & _ & Hf & (Hv & _ & Hxf & _ & _ & _ & _ & _ & _ & [= Hix _] & _)).
    rewrite Hb in Hb'. injection Hb' as <-. rewrite Hm' in Hf. injection Hf as <-. rewrite Hx. by split_and!. }
  assert (forall pos i disk, dist !! i = Some (Z.of_nat pos + 1) -> on !! i = Some (Some disk) ->
    oD !! pos = Some (Some disk) /\ exists f, oM !! pos = Some f /\ FileInfo_IsValid f = true /\
      on_parts fi [data] (fun part dt => intact_part e bucket disk f (part_path object fi part) (pt_Number part) dt pos)) as Hat.
  { intros pos i disk Hb Hd. destruct (Hon i disk Hd) as (b & f & _ & Hb' & _ & _ & Hf & Hr). rewrite Hb in Hb'. injection Hb' as <-.
    destruct (Hlook i _ _ f Hb Hd Hf) as [HD HM]. replace (Z.to_nat (Z.of_nat pos + 1 - 1)) with pos in * by lia.
    split; [done|]. exists f. destruct Hr as (Hv & _ & _ & _ & _ & _ & _ & _ & _ & _ & Hck & _ & Hdata). split_and!; [by apply HM|done|].
    intros [|j] part dt Hpart Hdt; [|by rewrite Eparts in Hpart]. rewrite Eparts in Hpart. injection Hpart as <-. injection Hdt as <-.
    unfold intact_part. rewrite Hp1. rewrite Hck, Z.eqb_refl. unfold part_path. rewrite Hp1, Hdir. exact Hdata. }
  assert (forall pos disk, oD !! pos = Some (Some disk) -> exists i, dist !! i = Some (Z.of_nat pos + 1) /\ on !! i = Some (Some disk)) as Hback.
  { intros pos disk HD. assert (Z.of_nat pos + 1 ∈ dist) as Hin by (apply Hrange; apply lookup_lt_Some in HD; lia).
    apply list_elem_of_lookup_1 in Hin as [i Hi]. exists i. split; [done|]. pose proof (lookup_lt_Some _ _ _ Hi) as Hlt.
    destruct (lookup_lt_is_Some_2 on i) as [d Hd]; [lia|]. destruct (lookup_lt_is_Some_2 metas i) as [m Hm']; [lia|].
    destruct (Hlook i _ d m Hi Hd Hm') as [HD' _]. replace (Z.to_nat (Z.of_nat pos + 1 - 1)) with pos in HD' by lia. congruence. }
  destruct positions_ok as (Hpnd & Hpl & Hpos).
  assert (set_holds e bucket object fi oM oD [data] positions) as Hset.
  { split_and!; [done|done|done| | | |].
    - rewrite Hpl. unfold d. lia.
    - intros g Hg. destruct (Hpos g Hg) as (i & Hi & Ht & Ha). destruct (Hall i Ht Ha) as [disk Hd].
      destruct (Hat g i disk Hi Hd) as (HD & f & HM & Hv & Hint). by exists disk, f.
    - intros pos disk m HD HM Hv j part dt Hpart Hdt. left. destruct (Hback pos disk HD) as (i & Hi & Hd).
      destruct (Hat pos i disk Hi Hd) as (_ & f & HM' & _ & Hint). rewrite HM in HM'. injection HM' as <-. by apply (Hint j).
    - intros p1 p2 d1 d2 H1' H2' Hh1 Hh2. destruct (Hback p1 d1 H1') as (i1 & Hi1 & Hd1), (Hback p2 d2 H2') as (i2 & Hi2 & Hd2).
      destruct (Hon i1 d1 Hd1) as (? & ? & Hr1 & _), (Hon i2 d2 Hd2) as (? & ? & Hr2 & _).
      pose proof (one_local i1 i2 d1 d2 Hr1 Hr2 Hh1 Hh2) as ->. rewrite Hi1 in Hi2. injection Hi2. lia. }
  intros sched off lg out Ho Hlg lg' Hin Hoff.
  assert (NewErasure (dataBlocks e) (parityBlocks e) (blockSize e) = Ok e) as Hnew.
  { destruct Hwf as (W1 & W2 & W3 & W4), e as [k m z]. cbn in *. unfold NewErasure, add64. rewrite wrap64_id by (unfold int64_range; lia).
    destruct (Z.leb_spec k 0); [lia|]. destruct (Z.ltb_spec m 0); [lia|]. destruct (Z.ltb_spec 256 (k + m)); [lia|]. done. }
  edestruct (object_range e bucket object fi healing sched metas on oM oD [data] positions off lg out) as [Hr _];
    [by rewrite Hk, Hm, Hbsz; cbn; rewrite <-bs_small|done|by rewrite bs_small|exact Hsh|exact Hset| | | |by left; repeat constructor|done|done|].
  { unfold parts_hold. rewrite Eparts. by repeat constructor. }
  { rewrite Hsize. cbn. by rewrite app_nil_r. }
  { cbn. by rewrite app_nil_r. }
  cbn [concat] in Hr. rewrite app_nil_r, Hsize in Hr. by apply Hr.
Qed.
End Reading.


(** ** Witness: three disks in memory *)

(** A disk that keeps one version and one temporary file. *)
Record mem_disk := mkMem { md_file : option (FileInfo * bytes); md_tmp : bytes }.

#[local] Instance mem_writes : DiskWrites mem_disk := {|
  IsOnline _ := true;
  DiskInfo_ID _ := Ok "id";
  CreateFile_refuses _ _ _ _ _ _ := None;
  CreateFile d _ _ _ st := (mkMem (md_file d) (st_data st), None);
  RenameData d _ _ fi _ _ :=
    Some match md_file d with
         | None => (mkMem (Some (fi, if bool_decide (fi_Data fi = []) then md_tmp d else fi_Data fi)) [], None)
         | Some _ => (d, Some errFileAccessDenied)
         end;
  RenameFile d _ _ _ _ := (mkMem (md_file d) [], None)
|}.
#[local] Instance mem_meta : DiskMeta mem_disk := {|
  ReadXL _ _ _ _ := Err errFileNotFound;
  ReadVersion d _ _ vid _ :=
    match md_file d with
    | Some (fi, c) => if bool_decide (vid = fi_VersionID fi) then (fi_with_Data fi c, None) else (zero_FileInfo, Some errFileVersionNotFound)
    | None => (zero_FileInfo, Some errFileVersionNotFound)
    end;
  DeleteVersion d _ _ _ _ := (d, Some errFileNotFound)
|}.
#[local] Instance mem_reads : DiskReads mem_disk := {|
  Hostname _ := "node";
  ReadFileStream _ _ _ _ _ := Err errFileNotFound;
  ReadFile _ _ _ _ _ _ _ := ([], Some errFileNotFound)
|}.

Lemma mem_read_as d b o fi c : upload fi -> read_as (fun fmt u => meta_text fmt u) d b o fi c (fi_with_Data fi c).
Proof.
  intros [(vid & dir & mt & n & ac & ix & meta & k & m & dist & index & content & _ & _ & _ & _ & _ & _ & ->) Hv].
  unfold read_as. split_and!; try done. by left.
Qed.

#[local] Instance mem_stores : DiskStores mem_disk.
Proof.
  refine {| ready d _ _ _ := md_file d = None; holds d _ _ fi c := md_file d = Some (fi, c); quorum_text fmt u := meta_text fmt u |}.
  - done.
  - done.
  - intros d b o fi src d' err Hr _. cbn. by rewrite Hr.
  - intros d b o fi src d' Hr _ Hne. cbn. rewrite Hr, bool_decide_eq_false_2 by done. by intros [= <-].
  - intros d b o fi src size content d' Hr _ Hne _. cbn. rewrite Hr, bool_decide_eq_true_2 by done. by intros [= <-].
  - done.
  - intros d b o u readData Hr _. exists zero_FileInfo, errFileVersionNotFound. cbn. by rewrite Hr.
  - intros d b o fi c Hh Hu. exists (fi_with_Data fi c). cbn. rewrite Hh, bool_decide_eq_true_2 by done. split; [done|by apply mem_read_as].
Defined.

#[local] Existing Instance length_hash.
#[local] Existing Instance sample_lib.
#[local] Existing Instance XLMeta.sample_http.

Definition mem_opts : PutOptions := mkPutOptions false true "" 0 ∅ "" false false false None.
Definition mem_reader : PutObjReader := mkReader 3 3 (mkStream sample_data EOF) "md5".
Definition mem_ids : put_ids := mkIds "v1" "dir" "temp" "free" "trash".
Definition mem_store : list mem_disk := replicate 3 (mkMem None []).
Definition mem_ext (_ : string) : string := "text/plain".
Definition mem_res : option (put_result (D := mem_disk)) :=
  putObject (fun _ => 1) mem_ext 1 "b" "o" false mem_opts mem_reader mem_ids None t7 [Some 0; Some 1; Some 2]%nat mem_store.
Definition mem_after : put_result (D := mem_disk) := default (mkPut [] false (inr SlowDown)) mem_res.
Definition mem_info : ObjectInfo := match pu_res mem_after with inl oi => oi | inr _ => ToObjectInfo zero_FileInfo "" "" false end.

