(* ===== verification/Calendar.v ===== *)
(** * Calendar dates and RFC 3339

    The part of Go's package [time] that the bucket features use: the Gregorian
    calendar in UTC, [AddDate], printing with the layouts [time.RFC3339] and
    [iso8601TimeFormat] ([cmd/api-response.go]), and [time.Parse] with
    [time.RFC3339].  Parsing accepts what the library accepts: hours of one or two
    digits, a fraction of a second after a point or a comma, and any two-digit zone
    offset. *)

From Stdlib Require Import Ascii.
From S2P Require Import Prelude.

(** ** The calendar

    Years start in March: February is the last month and a leap day the last day of
    a year.  A cycle is 400 years of 146097 days; January 1 of year 1 is day 306 of
    March-year 0. *)

Definition days_per_cycle : Z := 146097.

(** Days since January 1 of year 1. *)
Definition days_civil (y m d : Z) : Z :=
  let y := if m <=? 2 then y - 1 else y in
  let yoe := y mod 400 in
  let doy := (153 * ((m + 9) mod 12) + 2) / 5 + d - 1 in
  y / 400 * days_per_cycle + yoe * 365 + yoe / 4 - yoe / 100 + doy - 306.

(** Year of the cycle, month and day of a day of the cycle. *)
Definition civil_doe (doe : Z) : Z * Z * Z :=
  let yoe := (doe - doe / 1460 + doe / 36524 - doe / 146096) / 365 in
  let doy := doe - (365 * yoe + yoe / 4 - yoe / 100) in
  let mp := (5 * doy + 2) / 153 in
  let d := doy - (153 * mp + 2) / 5 + 1 in
  let m := if mp <? 10 then mp + 3 else mp - 9 in
  (if m <=? 2 then yoe + 1 else yoe, m, d).

(** Year, month and day of a number of days since January 1 of year 1. *)
Definition civil (days : Z) : Z * Z * Z :=
  let z := days + 306 in
  let '(y, m, d) := civil_doe (z mod days_per_cycle) in
  (y + z / days_per_cycle * 400, m, d).

Definition is_leap (y : Z) : bool := (y mod 4 =? 0) && (negb (y mod 100 =? 0) || (y mod 400 =? 0)).
Definition days_in (m y : Z) : Z :=
  if m =? 2 then (if is_leap y then 29 else 28)
  else if (m =? 4) || (m =? 6) || (m =? 9) || (m =? 11) then 30 else 31.

Definition day_ns : Z := 24 * hour.

(** [t.AddDate(years, 0, days)] in UTC: the day of the month is carried over. *)
Definition AddDate (t : time) (years days : Z) : time :=
  let '(y, m, d) := civil (t / day_ns) in
  days_civil (y + years) m (d + days) * day_ns + t mod day_ns.

(** ** Printing *)

Definition digit (n : Z) : ascii := ascii_of_nat (48 + Z.to_nat n).
Definition pad2 (n : Z) (s : string) : string := String (digit (n / 10)) (String (digit (n mod 10)) s).
Definition pad3 (n : Z) (s : string) : string := String (digit (n / 100)) (pad2 (n mod 100) s).

(** Years of more than four digits are printed in full. *)
Definition print_year (y : Z) (s : string) : string :=
  if y <? 0 then String "-" (pad2 (- y / 100) (pad2 (- y mod 100) s))
  else if y <? 10000 then pad2 (y / 100) (pad2 (y mod 100) s)
  else String (digit (y / 10000)) (pad2 (y / 100 mod 100) (pad2 (y mod 100) s)).

Definition print_seconds (t : time) (s : string) : string :=
  let '(y, m, d) := civil (t / day_ns) in
  let sod := t mod day_ns / second in
  print_year y (String "-" (pad2 m (String "-" (pad2 d (String "T"
    (pad2 (sod / 3600) (String ":" (pad2 (sod / 60 mod 60) (String ":" (pad2 (sod mod 60) s)))))))))).

(** [t.UTC().Format(time.RFC3339)] and [t.UTC().Format(iso8601TimeFormat)]. *)
Definition Format_RFC3339 (t : time) : string := print_seconds t "Z".
Definition Format_iso8601 (t : time) : string :=
  print_seconds t (String "." (pad3 (t mod second / 1000000) "Z")).

(** ** Parsing *)

Definition errParse : error := ErrNew "parsing time".

Definition is_digit (c : ascii) : bool := (48 <=? nat_of_ascii c)%nat && (nat_of_ascii c <=? 57)%nat.
Definition digit_value (c : ascii) : Z := Z.of_nat (nat_of_ascii c) - 48.

(** Two digits and what follows. *)
Definition take2 (s : string) : option (Z * string) :=
  match s with
  | String a (String b s) => if is_digit a && is_digit b then Some (10 * digit_value a + digit_value b, s) else None
  | _ => None
  end.
Definition take_char (c : ascii) (s : string) : option string :=
  match s with
  | String a s => if Ascii.eqb a c then Some s else None
  | EmptyString => None
  end.
(** One or two digits. *)
Definition take12 (s : string) : option (Z * string) :=
  match take2 s with
  | Some r => Some r
  | None => match s with
            | String a s => if is_digit a then Some (digit_value a, s) else None
            | EmptyString => None
            end
  end.

(** The digits of a fraction: nanoseconds so far and the value of the next digit;
    digits after the ninth are dropped. *)
Fixpoint fraction (acc unit : Z) (s : string) : Z * string :=
  match s with
  | String c s' => if is_digit c then fraction (acc + digit_value c * unit) (unit / 10) s' else (acc, s)
  | EmptyString => (acc, s)
  end.
Definition take_fraction (s : string) : Z * string :=
  match s with
  | String p (String c s') =>
      if (Ascii.eqb p "." || Ascii.eqb p ",") && is_digit c then fraction 0 100000000 (String c s') else (0, s)
  | _ => (0, s)
  end.

(** The offset of the zone, in seconds east of UTC. *)
Definition take_zone (s : string) : option Z :=
  match s with
  | String c s =>
      if Ascii.eqb c "Z" then match s with EmptyString => Some 0 | _ => None end
      else if Ascii.eqb c "+" || Ascii.eqb c "-" then
        '(hh, s) ← take2 s; s ← take_char ":" s; '(mm, s) ← take2 s;
        match s with
        | EmptyString => Some ((if Ascii.eqb c "-" then -1 else 1) * (hh * 3600 + mm * 60))
        | _ => None
        end
      else None
  | EmptyString => None
  end.

(** [time.Parse(time.RFC3339, s)]: the instant. *)
Definition parse_fields (s : string) : option time :=
  '(y1, s) ← take2 s; '(y2, s) ← take2 s; s ← take_char "-" s;
  '(m, s) ← take2 s; s ← take_char "-" s;
  '(d, s) ← take2 s; s ← take_char "T" s;
  '(hh, s) ← take12 s; s ← take_char ":" s;
  '(mm, s) ← take2 s; s ← take_char ":" s;
  '(ss, s) ← take2 s;
  let '(ns, s) := take_fraction s in
  zone ← take_zone s;
  let y := 100 * y1 + y2 in
  if (1 <=? m) && (m <=? 12) && (1 <=? d) && (d <=? days_in m y) &&
     (hh <? 24) && (mm <? 60) && (ss <? 60) then
    Some (days_civil y m d * day_ns + (hh * 3600 + mm * 60 + ss - zone) * second + ns)
  else None.
Definition Parse_RFC3339 (s : string) : result time :=
  match parse_fields s with Some t => Ok t | None => Err errParse end.

(** ** Facts *)

(** Division by constants turned into linear equations. *)
Ltac divs := Z.to_euclidean_division_equations; lia.

Lemma yoe_ok doe : 0 <= doe < days_per_cycle ->
  let yoe := (doe - doe / 1460 + doe / 36524 - doe / 146096) / 365 in
  let doy := doe - (365 * yoe + yoe / 4 - yoe / 100) in
  0 <= yoe <= 399 /\ 0 <= doy <= 365 /\ (doy = 365 -> is_leap (yoe + 1) = true).
Proof.
  unfold days_per_cycle. intros H. cbv zeta. split; [|split]; [divs|divs|].
  intros Hd. set (yoe := (doe - _ + _ - _) / 365) in *.
  assert ((yoe + 1) mod 4 = 0) as H4 by (unfold yoe in *; divs).
  assert ((yoe + 1) mod 100 <> 0 \/ (yoe + 1) mod 400 = 0) as H100 by (unfold yoe in *; divs).
  unfold is_leap. rewrite H4. destruct (Z.eqb_spec ((yoe + 1) mod 100) 0); [|done].
  destruct H100 as [?|H400]; [lia|by rewrite H400].
Qed.

Lemma is_leap_cycle y k : is_leap (y + k * 400) = is_leap y.
Proof.
  unfold is_leap. rewrite Z.mod_add by lia.
  replace (y + k * 400) with (y + (k * 100) * 4) at 1 by lia. rewrite Z.mod_add by lia.
  replace (y + k * 400) with (y + (k * 4) * 100) by lia. by rewrite Z.mod_add by lia.
Qed.

(** Evaluate divisions and comparisons of closed terms in the goal. *)
Ltac closed_arith :=
  repeat match goal with
  | |- context [?a / ?b] => let v := eval vm_compute in (a / b) in progress change (a / b) with v
  | |- context [?a =? ?b] => let v := eval vm_compute in (a =? b) in progress change (a =? b) with v
  | |- context [?a <? ?b] => let v := eval vm_compute in (a <? b) in progress change (a <? b) with v
  | |- context [?a <=? ?b] => let v := eval vm_compute in (a <=? b) in progress change (a <=? b) with v
  end; cbn [orb].

(** Month and day of a day of a March-year. *)
Lemma month_ok doy : 0 <= doy <= 365 ->
  let mp := (5 * doy + 2) / 153 in
  let d := doy - (153 * mp + 2) / 5 + 1 in
  let m := if mp <? 10 then mp + 3 else mp - 9 in
  1 <= m <= 12 /\ (m + 9) mod 12 = mp /\ (m <=? 2) = (10 <=? mp) /\ 1 <= d /\
  (d <= (if m =? 2 then 29 else if (m =? 4) || (m =? 6) || (m =? 9) || (m =? 11) then 30 else 31)) /\
  (m = 2 -> d = 29 -> doy = 365).
Proof.
  intros Hd. cbv zeta. set (mp := (5 * doy + 2) / 153). assert (0 <= mp <= 11) by (unfold mp; divs).
  assert (153 * mp <= 5 * doy + 2 < 153 * mp + 153) as Hmp by (unfold mp; divs). clearbody mp.
  assert (mp = 0 \/ mp = 1 \/ mp = 2 \/ mp = 3 \/ mp = 4 \/ mp = 5 \/ mp = 6 \/ mp = 7 \/ mp = 8 \/ mp = 9 \/ mp = 10 \/ mp = 11)
    as Hc by lia.
  repeat destruct Hc as [->|Hc]; subst; closed_arith; split_and!; intros; done || lia.
Qed.

Lemma days_civil_parts yoe k m d : 0 <= yoe <= 399 ->
  days_civil ((if m <=? 2 then yoe + 1 else yoe) + k * 400) m d =
  k * days_per_cycle + yoe * 365 + yoe / 4 - yoe / 100 + ((153 * ((m + 9) mod 12) + 2) / 5 + d - 1) - 306.
Proof.
  intros Hy. unfold days_civil.
  assert ((if m <=? 2 then (if m <=? 2 then yoe + 1 else yoe) + k * 400 - 1 else (if m <=? 2 then yoe + 1 else yoe) + k * 400) = yoe + k * 400)
    as -> by (destruct (m <=? 2); lia).
  rewrite Z.mod_add, Z.div_add, (Z.mod_small yoe), (Z.div_small yoe) by lia. lia.
Qed.

(** The calendar date of a day is a valid date, and is the date of that day. *)
Lemma civil_ok days :
  let '(y, m, d) := civil days in
  days_civil y m d = days /\ 1 <= m <= 12 /\ 1 <= d <= days_in m y.
Proof.
  unfold civil, civil_doe. set (z := days + 306). set (doe := z mod days_per_cycle).
  assert (0 <= doe < days_per_cycle) as Hdoe by (apply Z.mod_pos_bound; done).
  destruct (yoe_ok doe Hdoe) as (Hy & Hd & Hl). cbv zeta in Hy, Hd, Hl |- *.
  set (yoe := (doe - _ + _ - _) / 365) in *. set (doy := doe - (365 * yoe + yoe / 4 - yoe / 100)) in *.
  destruct (month_ok doy Hd) as (Hm & Hmp & _ & Hd1 & Hd2 & Hfeb). cbv zeta in Hm, Hmp, Hd1, Hd2, Hfeb.
  set (mp := (5 * doy + 2) / 153) in *. set (m := if mp <? 10 then mp + 3 else mp - 9) in *.
  set (d := doy - (153 * mp + 2) / 5 + 1) in *. rewrite days_civil_parts, Hmp by done. split; [|split; [done|split; [done|]]].
  - pose proof (Z.div_mod z days_per_cycle ltac:(done)) as Hz. fold doe in Hz. unfold d, doy. clearbody doe. lia.
  - unfold days_in. rewrite is_leap_cycle. destruct (Z.eqb_spec m 2) as [Em|]; [|done]. rewrite Em.
    change (2 <=? 2) with true. cbn [andb]. destruct (decide (d = 29)) as [E29|].
    + rewrite Hl by auto. lia.
    + destruct (is_leap _); lia.
Qed.

Lemma civil_year days : 0 <= days < 3652059 -> let '(y, _, _) := civil days in 1 <= y <= 9999.
Proof.
  intros Hd. unfold civil, civil_doe, days_per_cycle. cbv zeta. repeat case_match; simplify_eq; unfold days_per_cycle in *; divs.
Qed.

Lemma nat_of_digit k : 0 <= k < 10 -> nat_of_ascii (digit k) = (48 + Z.to_nat k)%nat.
Proof. intros Hk. apply nat_ascii_embedding. lia. Qed.

Lemma is_digit_digit k : 0 <= k < 10 -> is_digit (digit k) = true.
Proof. intros Hk. unfold is_digit. rewrite nat_of_digit by done. apply andb_true_iff. split; apply Nat.leb_le; lia. Qed.

Lemma digit_value_digit k : 0 <= k < 10 -> digit_value (digit k) = k.
Proof. intros Hk. unfold digit_value. rewrite nat_of_digit by done. lia. Qed.

Lemma take2_pad2 n s : 0 <= n < 100 -> take2 (pad2 n s) = Some (n, s).
Proof.
  intros Hn. unfold pad2, take2.
  assert (0 <= n / 10 < 10) by divs. assert (0 <= n mod 10 < 10) by divs.
  rewrite !is_digit_digit, !digit_value_digit by done. cbn [andb]. f_equal. f_equal. divs.
Qed.

Lemma take12_pad2 n s : 0 <= n < 100 -> take12 (pad2 n s) = Some (n, s).
Proof. intros Hn. unfold take12. by rewrite take2_pad2. Qed.

Lemma fraction_pad3 n : 0 <= n < 1000 -> take_fraction (String "." (pad3 n "Z")) = (n * 1000000, "Z").
Proof.
  intros Hn. unfold pad3, pad2, take_fraction.
  assert (0 <= n / 100 < 10) by divs. assert (0 <= n mod 100 / 10 < 10) by divs. assert (0 <= n mod 100 mod 10 < 10) by divs.
  rewrite is_digit_digit by done. change (Ascii.eqb "." "." || Ascii.eqb "." ",") with true. cbn [andb fraction].
  rewrite !is_digit_digit, !digit_value_digit by done. change (is_digit "Z") with false. cbn [fraction].
  change (100000000 / 10) with 10000000. change (10000000 / 10) with 1000000. cbn beta iota. f_equal. divs.
Qed.

(** The end of the times of four-digit years. *)
Definition year_10000 : time := 3652059 * day_ns.

Lemma civil_late days : 3652059 <= days < 36500 * 1000 -> let '(y, _, _) := civil days in 10000 <= y < 100000.
Proof.
  intros Hd. unfold civil, civil_doe, days_per_cycle. cbv zeta. repeat case_match; simplify_eq; unfold days_per_cycle in *; divs.
Qed.

Ltac next_field := cbn [andb mbind option_bind take_char Ascii.eqb Bool.eqb].

(** Parsing the printed seconds leaves the text after them. *)
Lemma parse_print t s : 0 <= t < year_10000 ->
  parse_fields (print_seconds t s) =
  let '(ns, s) := take_fraction s in
  zone ← take_zone s; Some (t - t mod second - zone * second + ns).
Proof.
  unfold year_10000. intros Ht. assert (day_ns = 86400000000000) as Hday by reflexivity. assert (second = 1000000000) as Hsec by reflexivity.
  unfold print_seconds. pose proof (civil_ok (t / day_ns)) as Hc. pose proof (civil_year (t / day_ns)) as Hy.
  destruct (civil (t / day_ns)) as [[y m] d]. destruct Hc as (Hdays & Hm & Hd). specialize (Hy ltac:(rewrite Hday in *; divs)).
  assert (days_in m y <= 31) as Hd31 by (unfold days_in; repeat case_match; lia).
  set (sod := t mod day_ns / second). assert (0 <= sod < 86400) as Hs by (unfold sod; rewrite Hday, Hsec; divs).
  assert (t - t mod second = days_civil y m d * day_ns + sod * second) as Ht0.
  { rewrite Hdays. unfold sod. rewrite Hday, Hsec. divs. }
  clearbody sod. unfold print_year. destruct (Z.ltb_spec y 0); [lia|]. destruct (Z.ltb_spec y 10000); [|lia].
  unfold parse_fields. do 4 (rewrite take2_pad2 by divs; next_field). rewrite take12_pad2 by divs; next_field.
  do 2 (rewrite take2_pad2 by divs; next_field).
  destruct (take_fraction s) as [ns s']. destruct (take_zone s') as [zone|]; cbn [mbind option_bind]; [|done].
  assert (100 * (y / 100) + y mod 100 = y) as -> by divs.
  assert (sod / 3600 * 3600 + sod / 60 mod 60 * 60 + sod mod 60 = sod) as -> by divs.
  destruct (_ && _) eqn:E; [f_equal; lia|]. exfalso. apply not_true_iff_false in E. apply E.
  rewrite !andb_true_iff, !Z.leb_le, !Z.ltb_lt. repeat split; try lia; divs.
Qed.

(** RFC 3339 dates survive printing and parsing.  A time before the year 10000
    printed in seconds, or in milliseconds, parses to the time cut to that unit; a
    later time prints a year of five digits, which does not parse. *)
Theorem rfc3339_roundtrip t : 0 <= t ->
  (t < year_10000 ->
   Parse_RFC3339 (Format_RFC3339 t) = Ok (t - t mod second) /\
   Parse_RFC3339 (Format_iso8601 t) = Ok (t - t mod 1000000)) /\
  (year_10000 <= t < 36500 * 1000 * day_ns -> exists e, Parse_RFC3339 (Format_RFC3339 t) = Err e).
Proof.
  intros H0. unfold Parse_RFC3339, Format_RFC3339, Format_iso8601. split.
  - intros Ht. rewrite !parse_print by lia. split.
    + change (take_fraction "Z") with (0, "Z"). change (take_zone "Z") with (Some 0). cbn. f_equal. lia.
    + assert (second = 1000000000) as Hs by reflexivity.
      rewrite fraction_pad3 by (rewrite Hs; divs). change (take_zone "Z") with (Some 0). cbn beta iota. f_equal. rewrite Hs. divs.
  - intros Ht. exists errParse. unfold print_seconds. pose proof (civil_late (t / day_ns)) as Hy.
    destruct (civil (t / day_ns)) as [[y m] d]. unfold year_10000 in Ht.
    assert (day_ns = 86400000000000) as Hday by reflexivity. specialize (Hy ltac:(rewrite Hday in *; divs)).
    unfold print_year. destruct (Z.ltb_spec y 0); [lia|]. destruct (Z.ltb_spec y 10000); [lia|].
    unfold parse_fields, pad2. cbn [take2]. rewrite !is_digit_digit by divs. next_field.
    cbn [take2]. rewrite !is_digit_digit by divs. next_field.
    unfold take_char. destruct (Ascii.eqb_spec (digit (y mod 100 mod 10)) "-") as [E|]; [|done].
    apply (f_equal is_digit) in E. by rewrite is_digit_digit in E by divs.
Qed.

Lemma rfc3339_roundtrip_witness :
  Parse_RFC3339 (Format_RFC3339 (unix_epoch + 5 * second + 3)) = Ok (unix_epoch + 5 * second) /\
  exists e, Parse_RFC3339 (Format_RFC3339 year_10000) = Err e.
Proof.
  split.
  - destruct (rfc3339_roundtrip (unix_epoch + 5 * second + 3)) as [H _]; [by vm_compute|].
    destruct H as [H _]; [by vm_compute|]. rewrite H. vm_compute. reflexivity.
  - destruct (rfc3339_roundtrip year_10000) as [_ H]; [by vm_compute|]. apply H. by vm_compute.
Defined.

(** ** Adding days and years *)

Lemma AddDate_days t days : AddDate t 0 days = t + days * day_ns.
Proof.
  unfold AddDate. pose proof (civil_ok (t / day_ns)) as Hc. destruct (civil (t / day_ns)) as [[y m] d].
  destruct Hc as [Hd _]. assert (days_civil (y + 0) m (d + days) = days_civil y m d + days) as ->.
  { rewrite Z.add_0_r. unfold days_civil. lia. }
  rewrite Hd. pose proof (Z.div_mod t day_ns ltac:(done)). lia.
Qed.

Lemma days_civil_years y m d n : 0 <= n ->
  365 * n <= days_civil (y + n) m d - days_civil y m d <= 366 * n.
Proof. intros Hn. unfold days_civil, days_per_cycle. destruct (m <=? 2); divs. Qed.

Lemma AddDate_years t years : 0 <= years ->
  t + 365 * years * day_ns <= AddDate t years 0 <= t + 366 * years * day_ns.
Proof.
  intros Hn. unfold AddDate. pose proof (civil_ok (t / day_ns)) as Hc. destruct (civil (t / day_ns)) as [[y m] d].
  destruct Hc as [Hd _]. pose proof (days_civil_years y m d years Hn) as Hy. rewrite Hd, Z.add_0_r in *.
  pose proof (Z.div_mod t day_ns ltac:(done)). assert (day_ns = 86400000000000) as Hday by reflexivity. rewrite Hday in *. lia.
Qed.
