(* ===== verification/SignV4.v ===== *)
(** * Signatures of requests ([cmd/signature-v4.go], [signature-v4-parser.go],
    [signature-v4-utils.go], [auth-handler.go])

    AWS Signature Version 4: parsing the [Authorization] header and the query of a
    presigned request, the canonical request and the string to sign, the signing
    key, and the three checks of a signature (of the header, of a presigned URL and
    of a POST policy).  HMAC-SHA256, SHA-256, the path encoding of the client
    library, [time.ParseDuration] and the validation of session tokens are
    parameters; the users are the interface [Identity].  Byte strings are strings. *)

From Stdlib Require Import Ascii.
From S2P Require Import Prelude FileInfo Quorum Restore HTTPRange ObjectRead XLRead ObjectMeta Calendar.

(** ** Strings *)

Definition is_upper (c : ascii) : bool := (65 <=? nat_of_ascii c)%nat && (nat_of_ascii c <=? 90)%nat.
Definition is_lower (c : ascii) : bool := (97 <=? nat_of_ascii c)%nat && (nat_of_ascii c <=? 122)%nat.
Definition to_upper (c : ascii) : ascii := if is_lower c then ascii_of_nat (nat_of_ascii c - 32) else c.
Definition to_lower (c : ascii) : ascii := if is_upper c then ascii_of_nat (nat_of_ascii c + 32) else c.

Fixpoint map_string (f : ascii -> ascii) (s : string) : string :=
  match s with EmptyString => "" | String c s => String (f c) (map_string f s) end.
(** [strings.ToLower] of a header name. *)
Definition lower (s : string) : string := map_string to_lower s.

Fixpoint for_all (p : ascii -> bool) (s : string) : bool :=
  match s with EmptyString => true | String c s => p c && for_all p s end.

(** [strings.Split] by a separator of one byte. *)
Fixpoint Split (sep : ascii) (s : string) : list string :=
  match s with
  | EmptyString => [""]
  | String c s =>
      if Ascii.eqb c sep then "" :: Split sep s
      else match Split sep s with x :: l => String c x :: l | [] => [String c ""] end
  end.

(** [strings.ReplaceAll] of a byte. *)
Fixpoint ReplaceAll (c : ascii) (by_ s : string) : string :=
  match s with
  | EmptyString => ""
  | String a s => if Ascii.eqb a c then by_ +:+ ReplaceAll c by_ s else String a (ReplaceAll c by_ s)
  end.

Definition drop_string (n : nat) (s : string) : string := String.substring n (String.length s - n) s.
Definition TrimPrefix (s p : string) : string := if String.prefix p s then drop_string (String.length p) s else s.

(** [strings.Fields]: the words between white space. *)
Definition flush (word : string) : list string := if bool_decide (word = "") then [] else [word].
Fixpoint fields (fuel : nat) (word s : string) : list string :=
  match fuel, s with
  | S fuel, String c rest =>
      match List.find (fun p => String.prefix p s) spaces with
      | Some p => flush word ++ fields fuel "" (drop_string (String.length p) s)
      | None => fields fuel (word +:+ String c "") rest
      end
  | _, _ => flush word
  end.
Definition Fields (s : string) : list string := fields (String.length s) "" s.

Definition signV4TrimAll (input : string) : string := String.concat " " (Fields input).

(** [sort.Strings]. *)
Definition sort_Strings (l : list string) : list string := merge_sort String.le l.

(** [hex.EncodeToString]. *)
Definition hex_digit (n : nat) : ascii := ascii_of_nat (if (n <? 10)%nat then 48 + n else 87 + n).
Fixpoint hex (s : string) : string :=
  match s with
  | EmptyString => ""
  | String c s => String (hex_digit (nat_of_ascii c / 16)) (String (hex_digit (nat_of_ascii c mod 16)) (hex s))
  end.

(** ** Headers and queries *)

(** [http.Header] and [url.Values]. *)
Abbreviation header := (gmap string (list string)).

Definition is_alnum (c : ascii) : bool := is_upper c || is_lower c || is_digit c.
(** The bytes of a header name. *)
Definition is_token (c : ascii) : bool := is_alnum c || bool_decide (c ∈ String.list_ascii_of_string "!#$%&'*+-.^_`|~").

Fixpoint canonical_key (up : bool) (s : string) : string :=
  match s with
  | EmptyString => ""
  | String c s => String (if up then to_upper c else to_lower c) (canonical_key (Ascii.eqb c "-") s)
  end.
Definition CanonicalHeaderKey (s : string) : string := if for_all is_token s then canonical_key true s else s.

Definition Values_Get (v : header) (k : string) : string := default "" (head (default [] (v !! k))).
Definition Header_Get (h : header) (k : string) : string := Values_Get h (CanonicalHeaderKey k).
Definition Header_Set (h : header) (k v : string) : header := <[CanonicalHeaderKey k := [v]]> h.

(** [url.QueryEscape]. *)
Definition hex_upper (n : nat) : ascii := ascii_of_nat (if (n <? 10)%nat then 48 + n else 55 + n).
Definition escape_char (c : ascii) : string :=
  if is_alnum c || bool_decide (c ∈ String.list_ascii_of_string "-_.~") then String c ""
  else if Ascii.eqb c " " then "+"
  else String "%" (String (hex_upper (nat_of_ascii c / 16)) (String (hex_upper (nat_of_ascii c mod 16)) "")).
Fixpoint QueryEscape (s : string) : string :=
  match s with EmptyString => "" | String c s => escape_char c +:+ QueryEscape s end.

(** [url.Values.Encode]. *)
Definition Values_Encode `{MapOrder} (v : header) : string :=
  String.concat "&" (k ← sort_Strings ((range_map v).*1);
                     x ← default [] (v !! k); [QueryEscape k +:+ "=" +:+ QueryEscape x]).

(** ** Dates *)

Definition date_of (t : time) (s : string) : string := let '(y, m, d) := civil (t / day_ns) in print_year y (pad2 m (pad2 d s)).
Definition Format_yyyymmdd (t : time) : string := date_of t "".
(** The layout [20060102T150405Z]. *)
Definition Format_iso8601Z (t : time) : string :=
  let sod := t mod day_ns / second in
  date_of t (String "T" (pad2 (sod / 3600) (pad2 (sod / 60 mod 60) (pad2 (sod mod 60) "Z")))).

Definition take_date (s : string) : option (Z * Z * Z * string) :=
  '(y1, s) ← take2 s; '(y2, s) ← take2 s; '(m, s) ← take2 s; '(d, s) ← take2 s;
  Some (100 * y1 + y2, m, d, s).
Definition date_ok (y m d : Z) : bool := (1 <=? m) && (m <=? 12) && (1 <=? d) && (d <=? days_in m y).

Definition Parse_yyyymmdd (s : string) : option time :=
  '(y, m, d, s) ← take_date s;
  if bool_decide (s = "") && date_ok y m d then Some (days_civil y m d * day_ns) else None.
Definition Parse_iso8601Z (s : string) : option time :=
  '(y, m, d, s) ← take_date s; s ← take_char "T" s;
  '(hh, s) ← take12 s; '(mm, s) ← take2 s; '(ss, s) ← take2 s;
  let '(ns, s) := take_fraction s in
  s ← take_char "Z" s;
  if bool_decide (s = "") && date_ok y m d && (hh <? 24) && (mm <? 60) && (ss <? 60)
  then Some (days_civil y m d * day_ns + (hh * 3600 + mm * 60 + ss) * second + ns) else None.

(** ** Requests and codes *)

Record Request := mkRequest {
  rq_Method : string;
  rq_Path : string;
  rq_Host : string;
  rq_Header : header;
  rq_Form : header;
  rq_TransferEncoding : list string;
  rq_ContentLength : Z
}.

(** The codes of [APIErrorCode] that the checks return. *)
Inductive APIErrorCode :=
| ErrNone | ErrMissingFields | ErrMissingCredTag | ErrCredMalformed | ErrInvalidAccessKeyID | ErrMalformedCredentialDate
| ErrAuthorizationHeaderMalformed | ErrInvalidServiceSTS | ErrInvalidServiceS3 | ErrInvalidRequestVersion
| ErrMissingSignTag | ErrMissingSignHeadersTag | ErrInvalidQueryParams | ErrInvalidQuerySignatureAlgo
| ErrMalformedPresignedDate | ErrMalformedExpires | ErrNegativeExpires | ErrMaximumExpires
| ErrAuthHeaderEmpty | ErrSignatureVersionNotSupported | ErrUnsignedHeaders | ErrSignatureDoesNotMatch
| ErrRequestNotReadyYet | ErrExpiredPresignRequest | ErrContentSHA256Mismatch | ErrInvalidToken
| ErrAccessDenied | ErrInvalidDigest | ErrMissingDateHeader | ErrMalformedDate | ErrServerNotInitialized | ErrAccessKeyDisabled | ErrNoAccessKey
| ErrOther (e : string).

#[global] Instance sign_code_eq_dec : EqDecision APIErrorCode.
Proof. solve_decision. Defined.

(** A value or a code other than [ErrNone]. *)
Abbreviation coded A := (A + APIErrorCode)%type.

Declare Scope sign_scope.
Delimit Scope sign_scope with sign.
Notation "'let!' x ':=' c 'in' k" :=
  (match c with inr e => inr e | inl x => k end) (at level 10, x pattern, k at level 200) : sign_scope.
Notation "'check!' b 'else' e 'in' k" :=
  (if b then k else inr e) (at level 10, e at level 100, k at level 200) : sign_scope.
Local Open Scope sign_scope.

Inductive serviceType := serviceS3 | serviceSTS.
Definition service_name (s : serviceType) : string := match s with serviceS3 => "s3" | serviceSTS => "sts" end.

Definition signV4Algorithm : string := "AWS4-HMAC-SHA256".
Definition streamingContentSHA256 : string := "STREAMING-AWS4-HMAC-SHA256-PAYLOAD".
Definition emptySHA256 : string := "e3b0c44298fc1c149afbf4c8996fb92427ae41e4649b934ca495991b7852b855".
Definition unsignedPayload : string := "UNSIGNED-PAYLOAD".
Definition AmzContentSha256 : string := "X-Amz-Content-Sha256".
Definition AmzDate : string := "X-Amz-Date".
Definition AmzAlgorithm : string := "X-Amz-Algorithm".
Definition AmzExpires : string := "X-Amz-Expires".
Definition AmzSignedHeaders : string := "X-Amz-SignedHeaders".
Definition AmzSignature : string := "X-Amz-Signature".
Definition AmzCredential : string := "X-Amz-Credential".
Definition AmzSecurityToken : string := "X-Amz-Security-Token".

(** ** Parsing *)

Record credentialHeader := mkCred {
  ch_accessKey : string;
  ch_date : time;
  ch_region : string;
  ch_service : string;
  ch_request : string
}.
Definition credential_getScope (c : credentialHeader) : string :=
  String.concat SlashSeparator [Format_yyyymmdd (ch_date c); ch_region c; ch_service c; ch_request c].

(** [internal/auth/credentials.go] *)
Definition IsAccessKeyValid (accessKey : string) : bool := (3 <=? String.length accessKey)%nat.

(** [globalMinioDefaultRegion] is empty. *)
Definition isValidRegion (reqRegion confRegion : string) : bool :=
  if bool_decide (confRegion = "") then true
  else bool_decide ((if bool_decide (reqRegion = "US") then "" else reqRegion) =
                    (if bool_decide (confRegion = "US") then "" else confRegion)).

Definition parseCredentialHeader (credElement region : string) (stype : serviceType) : coded credentialHeader :=
  match split2 "=" (TrimSpace credElement) with
  | (_, None) => inr ErrMissingFields
  | (tag, Some value) =>
      check! bool_decide (tag = "Credential") else ErrMissingCredTag in
      let credElements := Split "/" (TrimSpace value) in
      let n := length credElements in
      check! (5 <=? n)%nat else ErrCredMalformed in
      let accessKey := String.concat SlashSeparator (take (n - 4) credElements) in
      check! IsAccessKeyValid accessKey else ErrInvalidAccessKeyID in
      match drop (n - 4) credElements with
      | [date; sRegion; service; request] =>
          match Parse_yyyymmdd date with
          | None => inr ErrMalformedCredentialDate
          | Some date =>
              let region := if bool_decide (region = "") then sRegion else region in
              check! isValidRegion sRegion region else ErrAuthorizationHeaderMalformed in
              check! bool_decide (service = service_name stype)
                else match stype with serviceSTS => ErrInvalidServiceSTS | serviceS3 => ErrInvalidServiceS3 end in
              check! bool_decide (request = "aws4_request") else ErrInvalidRequestVersion in
              inl (mkCred accessKey date sRegion service request)
          end
      | _ => inr ErrCredMalformed
      end
  end.

(** The two fields of [tag=value]. *)
Definition tagged (tag : string) (missing : APIErrorCode) (element : string) : coded string :=
  match Split "=" (TrimSpace element) with
  | [name; value] =>
      check! bool_decide (name = tag) else missing in
      check! negb (bool_decide (value = "")) else ErrMissingFields in inl value
  | _ => inr ErrMissingFields
  end.
Definition parseSignature (signElement : string) : coded string := tagged "Signature" ErrMissingSignTag signElement.
Definition parseSignedHeader (signedHdrElement : string) : coded (list string) :=
  let! value := tagged "SignedHeaders" ErrMissingSignHeadersTag signedHdrElement in inl (Split ";" value).

Record signValues := mkSign {
  sv_Credential : credentialHeader;
  sv_SignedHeaders : list string;
  sv_Signature : string
}.

Definition parseSignV4 (v4Auth region : string) (stype : serviceType) : coded signValues :=
  let credElement := TrimPrefix (default "" (head (Split "," (TrimSpace v4Auth)))) signV4Algorithm in
  let v4Auth := ReplaceAll " " "" v4Auth in
  check! negb (bool_decide (v4Auth = "")) else ErrAuthHeaderEmpty in
  check! String.prefix signV4Algorithm v4Auth else ErrSignatureVersionNotSupported in
  match Split "," (TrimSpace (TrimPrefix v4Auth signV4Algorithm)) with
  | [_; headers; signature] =>
      let! cred := parseCredentialHeader (TrimSpace credElement) region stype in
      let! signedHeaders := parseSignedHeader headers in
      let! signature := parseSignature signature in
      inl (mkSign cred signedHeaders signature)
  | _ => inr ErrMissingFields
  end.

Record preSignValues := mkPreSign { ps_values : signValues; ps_Date : time; ps_Expires : Z }.

Definition doesV4PresignParamsExist (query : header) : APIErrorCode :=
  if forallb (fun k => bool_decide (is_Some (query !! k)))
       [AmzAlgorithm; AmzCredential; AmzSignature; AmzDate; AmzSignedHeaders; AmzExpires]
  then ErrNone else ErrInvalidQueryParams.

Definition globalMaxSkewTime : Z := 15 * minute.

(** [time.ParseDuration], in nanoseconds. *)
Class Durations := { ParseDuration : string -> option Z }.

Definition parsePreSignV4 `{Durations} (query : header) (region : string) (stype : serviceType) : coded preSignValues :=
  check! bool_decide (doesV4PresignParamsExist query = ErrNone) else ErrInvalidQueryParams in
  check! bool_decide (Values_Get query AmzAlgorithm = signV4Algorithm) else ErrInvalidQuerySignatureAlgo in
  let! cred := parseCredentialHeader ("Credential=" +:+ Values_Get query AmzCredential) region stype in
  match Parse_iso8601Z (Values_Get query AmzDate) with
  | None => inr ErrMalformedPresignedDate
  | Some date =>
      match ParseDuration (Values_Get query AmzExpires +:+ "s") with
      | None => inr ErrMalformedExpires
      | Some expires =>
          check! (0 <=? expires) else ErrNegativeExpires in
          check! (expires <=? 604800 * second) else ErrMaximumExpires in
          let! signedHeaders := parseSignedHeader ("SignedHeaders=" +:+ Values_Get query AmzSignedHeaders) in
          let! signature := parseSignature ("Signature=" +:+ Values_Get query AmzSignature) in
          inl (mkPreSign (mkSign cred signedHeaders signature) date expires)
      end
  end.

(** ** Headers that are signed *)

Definition extract_step (r : Request) (acc : coded header) (h : string) : coded header :=
  let! extracted := acc in
  match (match rq_Header r !! CanonicalHeaderKey h with Some val => Some val | None => rq_Form r !! h end) with
  | Some val => inl (<[CanonicalHeaderKey h := val]> extracted)
  | None =>
      if bool_decide (h = "expect") then inl (Header_Set extracted h "100-continue")
      else if bool_decide (h = "host") then inl (Header_Set extracted h (rq_Host r))
      else if bool_decide (h = "transfer-encoding") then inl (<[CanonicalHeaderKey h := rq_TransferEncoding r]> extracted)
      else if bool_decide (h = "content-length") then inl (Header_Set extracted h (Itoa (rq_ContentLength r)))
      else inr ErrUnsignedHeaders
  end.
Definition extractSignedHeaders (signedHeaders : list string) (r : Request) : coded header :=
  check! contains signedHeaders "host" else ErrUnsignedHeaders in
  fold_left (extract_step r) signedHeaders (inl ∅).

(** ** The string to sign *)

(** HMAC-SHA256 of a key and a message, and SHA-256, as byte strings. *)
Class Crypto := {
  hmac_sha256 : string -> string -> string;
  sha256 : string -> string;
  EncodePath : string -> string
}.
(** Hashes have 32 bytes, and an encoded path has no end of line. *)
Class CryptoLaws (C : Crypto) := {
  hmac_length : forall k m, String.length (hmac_sha256 k m) = 32%nat;
  sha256_length : forall m, String.length (sha256 m) = 32%nat;
  EncodePath_line : forall p, for_all (fun a => negb (Ascii.eqb a (ascii_of_nat 10))) (EncodePath p) = true
}.

Section Sign.
Context {C : Crypto} `{MapOrder}.

Definition getCanonicalHeaders (signedHeaders : header) : string :=
  let vals : header := fold_left (fun m kv => <[lower kv.1 := kv.2]> m) (range_map signedHeaders) ∅ in
  String.concat "" ((fun k => k +:+ ":" +:+ String.concat "," (signV4TrimAll <$> default [] (vals !! k)) +:+ chr 10)
                    <$> sort_Strings ((fun kv => lower kv.1) <$> range_map signedHeaders)).

Definition getSignedHeaders (signedHeaders : header) : string :=
  String.concat ";" (sort_Strings ((fun kv => lower kv.1) <$> range_map signedHeaders)).

Definition getCanonicalRequest (extracted : header) (payload queryStr urlPath method : string) : string :=
  String.concat (chr 10) [method; EncodePath urlPath; ReplaceAll "+" "%20" queryStr; getCanonicalHeaders extracted;
                          getSignedHeaders extracted; payload].

Definition getScope (t : time) (region : string) : string :=
  String.concat SlashSeparator [Format_yyyymmdd t; region; service_name serviceS3; "aws4_request"].

Definition getStringToSign (canonicalRequest : string) (t : time) (scope : string) : string :=
  signV4Algorithm +:+ chr 10 +:+ Format_iso8601Z t +:+ chr 10 +:+ scope +:+ chr 10 +:+ hex (sha256 canonicalRequest).

Definition getSigningKey (secretKey : string) (t : time) (region : string) (stype : serviceType) : string :=
  let date := hmac_sha256 ("AWS4" +:+ secretKey) (Format_yyyymmdd t) in
  let regionBytes := hmac_sha256 date region in
  let service := hmac_sha256 regionBytes (service_name stype) in
  hmac_sha256 service "aws4_request".

Definition getSignature (signingKey stringToSign : string) : string := hex (hmac_sha256 signingKey stringToSign).

Definition compareSignatureV4 (sig1 sig2 : string) : bool := bool_decide (sig1 = sig2).
End Sign.

(** ** Users *)

Record Credentials := mkCredentials {
  cr_AccessKey : string;
  cr_SecretKey : string;
  cr_Expiration : time;
  cr_SessionToken : string;
  cr_Status : string;
  cr_ParentUser : string
}.
Definition no_credentials : Credentials := mkCredentials "" "" 0 "" "" "".
Definition IsTemp (c : Credentials) : bool :=
  negb (bool_decide (cr_SessionToken c = "")) && negb (time_IsZero (cr_Expiration c)) && negb (bool_decide (cr_Expiration c = timeSentinel)).
Definition IsServiceAccount (c : Credentials) : bool :=
  negb (bool_decide (cr_ParentUser c = "")) && (time_IsZero (cr_Expiration c) || bool_decide (cr_Expiration c = timeSentinel)).

(** What the checks use of the identity system: whether it is ready, the root
    credentials, the users (with whether they are enabled), and the code for a
    session token under a secret. *)
Class Identity := {
  initialized : bool;
  isGateway : bool;
  activeCred : Credentials;
  GetUser : string -> Credentials * bool;
  token_claims : string -> string -> APIErrorCode
}.

Section Check.
Context {C : Crypto} `{MapOrder} {U : Identity} `{Durations}.

Definition getSessionToken (r : Request) : string :=
  let token := Header_Get (rq_Header r) AmzSecurityToken in
  if negb (bool_decide (token = "")) then token else Values_Get (rq_Form r) AmzSecurityToken.

Definition checkClaimsFromToken (r : Request) (cred : Credentials) : APIErrorCode :=
  let token := getSessionToken r in
  let some := negb (bool_decide (token = "")) in
  if some && bool_decide (cr_AccessKey cred = "") then ErrNoAccessKey
  else if negb some && IsTemp cred then ErrInvalidToken
  else if some && negb (IsTemp cred) then ErrInvalidToken
  else if IsTemp cred && negb (bool_decide (token = cr_SessionToken cred)) then ErrInvalidToken
  else
    let '(token, secret) := if IsServiceAccount cred then (cr_SessionToken cred, cr_SecretKey cred)
                            else (token, cr_SecretKey activeCred) in
    if negb (bool_decide (token = "")) then token_claims token secret else ErrNone.

(** The credentials of the access key and whether they are the root ones. *)
Definition checkKeyValid (r : Request) (accessKey : string) : coded (Credentials * bool) :=
  check! initialized || isGateway else ErrServerNotInitialized in
  let! cred := (if bool_decide (cr_AccessKey activeCred = accessKey) then inl activeCred
                else let '(u, ok) := GetUser accessKey in
                     if ok then inl u
                     else inr (if bool_decide (cr_Status u = "off") then ErrAccessKeyDisabled else ErrInvalidAccessKeyID)) in
  check! bool_decide (checkClaimsFromToken r cred = ErrNone) else checkClaimsFromToken r cred in
  inl (cred, bool_decide (cr_AccessKey cred = cr_AccessKey activeCred)).

Definition getReqAccessKeyV4 (r : Request) (region : string) (stype : serviceType) : coded (Credentials * bool) :=
  let! ch := match parseCredentialHeader ("Credential=" +:+ Values_Get (rq_Form r) AmzCredential) region stype with
             | inl ch => inl ch
             | inr _ =>
                 let v4Auth := TrimPrefix (Header_Get (rq_Header r) "Authorization") signV4Algorithm in
                 match Split "," (TrimSpace v4Auth) with
                 | [field; _; _] => parseCredentialHeader field region stype
                 | _ => inr ErrMissingFields
                 end
             end in
  checkKeyValid r (ch_accessKey ch).

(** ** The checks *)

Definition doesPolicySignatureV4Match (formValues : header) (region : string) : coded Credentials :=
  let! credHeader := parseCredentialHeader ("Credential=" +:+ Header_Get formValues AmzCredential) region serviceS3 in
  let! (cred, _) := checkKeyValid (mkRequest "" "" "" formValues ∅ [] 0) (ch_accessKey credHeader) in
  let signingKey := getSigningKey (cr_SecretKey cred) (ch_date credHeader) (ch_region credHeader) serviceS3 in
  let newSignature := getSignature signingKey (Header_Get formValues "Policy") in
  check! compareSignatureV4 newSignature (Header_Get formValues AmzSignature) else ErrSignatureDoesNotMatch in
  inl cred.

Definition request_date (r : Request) : coded time :=
  let date := Header_Get (rq_Header r) AmzDate in
  let date := if bool_decide (date = "") then Header_Get (rq_Header r) "Date" else date in
  check! negb (bool_decide (date = "")) else ErrMissingDateHeader in
  match Parse_iso8601Z date with None => inr ErrMalformedDate | Some t => inl t end.

Definition doesSignatureMatch (hashedPayload : string) (r : Request) (region : string) (stype : serviceType) : coded unit :=
  let! signV4Values := parseSignV4 (Header_Get (rq_Header r) "Authorization") region stype in
  let! extracted := extractSignedHeaders (sv_SignedHeaders signV4Values) r in
  let ch := sv_Credential signV4Values in
  let! (cred, _) := checkKeyValid r (ch_accessKey ch) in
  let! t := request_date r in
  let canonicalRequest := getCanonicalRequest extracted hashedPayload (Values_Encode (rq_Form r)) (rq_Path r) (rq_Method r) in
  let stringToSign := getStringToSign canonicalRequest t (credential_getScope ch) in
  let signingKey := getSigningKey (cr_SecretKey cred) (ch_date ch) (ch_region ch) stype in
  let newSignature := getSignature signingKey stringToSign in
  check! compareSignatureV4 newSignature (sv_Signature signV4Values) else ErrSignatureDoesNotMatch in
  inl tt.

(** The query a presigned request must have, without its signature. *)
Definition defaultSigParams : list string :=
  [AmzContentSha256; AmzSecurityToken; AmzAlgorithm; AmzDate; AmzExpires; AmzSignedHeaders; AmzCredential; AmzSignature].
Definition presign_query (hashedPayload : string) (form : header) (cred : Credentials) (extracted : header)
    (ps : preSignValues) : header :=
  let query : header := ∅ in
  let query := if bool_decide (Values_Get form AmzContentSha256 = "") then query else <[AmzContentSha256 := [hashedPayload]]> query in
  let query := if bool_decide (Values_Get form AmzSecurityToken = "") then query else <[AmzSecurityToken := [cr_SessionToken cred]]> query in
  let query := <[AmzAlgorithm := [signV4Algorithm]]> query in
  let query := <[AmzDate := [Format_iso8601Z (ps_Date ps)]]> query in
  let query := <[AmzExpires := [Itoa (Z.quot (ps_Expires ps) second)]]> query in
  let query := <[AmzSignedHeaders := [getSignedHeaders extracted]]> query in
  let query := <[AmzCredential := [cr_AccessKey cred +:+ SlashSeparator +:+ credential_getScope (sv_Credential (ps_values ps))]]> query in
  fold_left (fun q kv => if contains defaultSigParams kv.1 then q else <[kv.1 := kv.2]> q) (range_map form) query.

(** The clock is read twice. *)
Definition doesPresignedSignatureMatch (now now' : time) (hashedPayload : string) (r : Request) (region : string) (stype : serviceType) : coded unit :=
  let form := rq_Form r in
  let! ps := parsePreSignV4 form region stype in
  let ch := sv_Credential (ps_values ps) in
  let! (cred, _) := checkKeyValid r (ch_accessKey ch) in
  let! extracted := extractSignedHeaders (sv_SignedHeaders (ps_values ps)) r in
  check! negb (now + globalMaxSkewTime <? ps_Date ps) else ErrRequestNotReadyYet in
  check! negb (ps_Expires ps <? time_Sub now' (ps_Date ps)) else ErrExpiredPresignRequest in
  let query := presign_query hashedPayload form cred extracted ps in
  let same k := bool_decide (Values_Get form k = Values_Get query k) in
  let some k := negb (bool_decide (Values_Get form k = "")) in
  check! same AmzDate else ErrSignatureDoesNotMatch in
  check! same AmzExpires else ErrSignatureDoesNotMatch in
  check! same AmzSignedHeaders else ErrSignatureDoesNotMatch in
  check! same AmzCredential else ErrSignatureDoesNotMatch in
  check! negb (some AmzContentSha256) || same AmzContentSha256 else ErrContentSHA256Mismatch in
  check! negb (some AmzSecurityToken && negb (bool_decide (Values_Get form AmzSecurityToken = cr_SessionToken cred))) else ErrInvalidToken in
  let canonicalRequest := getCanonicalRequest extracted hashedPayload (Values_Encode query) (rq_Path r) (rq_Method r) in
  let stringToSign := getStringToSign canonicalRequest (ps_Date ps) (credential_getScope ch) in
  let signingKey := getSigningKey (cr_SecretKey cred) (ch_date ch) (ch_region ch) stype in
  let newSignature := getSignature signingKey stringToSign in
  check! compareSignatureV4 (Values_Get form AmzSignature) newSignature else ErrSignatureDoesNotMatch in
  inl tt.

(** ** Which check applies ([auth-handler.go]) *)

Definition isRequestJWT (r : Request) : bool := String.prefix "Bearer" (Header_Get (rq_Header r) "Authorization").
Definition isRequestSignatureV4 (r : Request) : bool := String.prefix signV4Algorithm (Header_Get (rq_Header r) "Authorization").
Definition isRequestSignatureV2 (r : Request) : bool :=
  negb (String.prefix signV4Algorithm (Header_Get (rq_Header r) "Authorization")) && String.prefix "AWS" (Header_Get (rq_Header r) "Authorization").
Definition isRequestPresignedSignatureV4 (r : Request) : bool := bool_decide (is_Some (rq_Form r !! AmzCredential)).
Definition isRequestPresignedSignatureV2 (r : Request) : bool := bool_decide (is_Some (rq_Form r !! "AWSAccessKeyId")).
Definition isRequestPostPolicySignatureV4 (r : Request) : bool :=
  bool_decide (is_Some (String.index 0 "multipart/form-data" (Header_Get (rq_Header r) "Content-Type"))) && bool_decide (rq_Method r = "POST").
Definition isRequestSignStreamingV4 (r : Request) : bool :=
  bool_decide (Header_Get (rq_Header r) AmzContentSha256 = streamingContentSHA256) && bool_decide (rq_Method r = "PUT").

Inductive authType :=
| authTypeUnknown | authTypeAnonymous | authTypePresigned | authTypePresignedV2 | authTypePostPolicy
| authTypeStreamingSigned | authTypeSigned | authTypeSignedV2 | authTypeJWT | authTypeSTS.

Definition with_form (r : Request) (form : header) : Request :=
  mkRequest (rq_Method r) (rq_Path r) (rq_Host r) (rq_Header r) form (rq_TransferEncoding r) (rq_ContentLength r).

(** [parsed] is the query, when it can be parsed; the request keeps it as its form. *)
Definition getRequestAuthType (r : Request) (parsed : option header) : Request * authType :=
  match parsed with
  | None => (r, authTypeUnknown)
  | Some form =>
      let r := with_form r form in
      (r, if isRequestSignatureV2 r then authTypeSignedV2
          else if isRequestPresignedSignatureV2 r then authTypePresignedV2
          else if isRequestSignStreamingV4 r then authTypeStreamingSigned
          else if isRequestSignatureV4 r then authTypeSigned
          else if isRequestPresignedSignatureV4 r then authTypePresigned
          else if isRequestJWT r then authTypeJWT
          else if isRequestPostPolicySignatureV4 r then authTypePostPolicy
          else if bool_decide (is_Some (rq_Form r !! "Action")) then authTypeSTS
          else if negb (bool_decide (is_Some (rq_Header r !! "Authorization"))) then authTypeAnonymous
          else authTypeUnknown)
  end.

(** The values of [X-Amz-Content-Sha256]: a presigned request may have it in its query. *)
Definition content_sha256 (r : Request) : option (list string) :=
  if isRequestPresignedSignatureV4 r
  then match rq_Form r !! AmzContentSha256 with Some v => Some v | None => rq_Header r !! AmzContentSha256 end
  else rq_Header r !! AmzContentSha256.
(** [v[0]] of values, of which there is always one. *)
Definition first (v : list string) : string := default "" (head v).

Definition skipContentSha256Cksum (strict : bool) (r : Request) : bool :=
  match content_sha256 r with
  | None => true
  | Some v =>
      if bool_decide (first v = unsignedPayload) then true
      else if bool_decide (first v = emptySHA256) then (0 <? rq_ContentLength r) && negb strict
      else false
  end.

(** [payload] is the body of an STS request. *)
Definition getContentSha256Cksum (payload : string) (r : Request) (stype : serviceType) : string :=
  match stype with
  | serviceSTS => hex (sha256 payload)
  | serviceS3 =>
      match content_sha256 r with
      | Some v => first v
      | None => if isRequestPresignedSignatureV4 r then unsignedPayload else emptySHA256
      end
  end.

Definition reqSignatureV4Verify (now now' : time) (payload : string) (r : Request) (region : string) (stype : serviceType) : coded unit :=
  let sha256sum := getContentSha256Cksum payload r stype in
  if isRequestSignatureV4 r then doesSignatureMatch sha256sum r region stype
  else if isRequestPresignedSignatureV4 r then doesPresignedSignatureMatch now now' sha256sum r region stype
  else inr ErrAccessDenied.

(** [hex.DecodeString]. *)
Definition hex_nibble (c : ascii) : option nat :=
  let n := nat_of_ascii c in
  if is_digit c then Some (n - 48)%nat
  else if (97 <=? n)%nat && (n <=? 102)%nat then Some (n - 87)%nat
  else if (65 <=? n)%nat && (n <=? 70)%nat then Some (n - 55)%nat
  else None.
Fixpoint DecodeString (s : string) : option string :=
  match s with
  | EmptyString => Some ""
  | String a (String b s) => x ← hex_nibble a; y ← hex_nibble b; t ← DecodeString s; Some (String (ascii_of_nat (16 * x + y)) t)
  | String _ EmptyString => None
  end.

(** The SHA-256 that the body is compared with while it is read, empty when it is
    not compared; [md5Err] is whether the header [Content-Md5] is malformed. *)
Definition isReqAuthenticated (now now' : time) (payload : string) (strict md5Err : bool) (r : Request) (region : string) (stype : serviceType) : coded string :=
  let! _ := reqSignatureV4Verify now now' payload r region stype in
  check! negb md5Err else ErrInvalidDigest in
  let skipSHA256 := skipContentSha256Cksum strict r in
  if negb skipSHA256 && isRequestPresignedSignatureV4 r then
    match rq_Form r !! AmzContentSha256 with
    | Some (v :: _) => match DecodeString v with Some sum => inl sum | None => inr ErrContentSHA256Mismatch end
    | _ => inl ""
    end
  else if bool_decide (is_Some (rq_Header r !! AmzContentSha256)) && negb skipSHA256 then
    match DecodeString (Header_Get (rq_Header r) AmzContentSha256) with
    | Some sum => check! negb (bool_decide (sum = "")) else ErrContentSHA256Mismatch in inl sum
    | None => inr ErrContentSHA256Mismatch
    end
  else inl "".

(** ** Streaming: the seed signature and the signatures of the chunks *)

Definition calculateSeedSignature (r : Request) (siteRegion : string) : coded (Credentials * string * string * time) :=
  let! signV4Values := parseSignV4 (Header_Get (rq_Header r) "Authorization") siteRegion serviceS3 in
  check! bool_decide (streamingContentSHA256 = Header_Get (rq_Header r) AmzContentSha256) else ErrContentSHA256Mismatch in
  let! extracted := extractSignedHeaders (sv_SignedHeaders signV4Values) r in
  let ch := sv_Credential signV4Values in
  let! (cred, _) := checkKeyValid r (ch_accessKey ch) in
  let! date := request_date r in
  let canonicalRequest := getCanonicalRequest extracted streamingContentSHA256 (Values_Encode (rq_Form r)) (rq_Path r) (rq_Method r) in
  let stringToSign := getStringToSign canonicalRequest date (credential_getScope ch) in
  let signingKey := getSigningKey (cr_SecretKey cred) (ch_date ch) (ch_region ch) serviceS3 in
  let newSignature := getSignature signingKey stringToSign in
  check! compareSignatureV4 newSignature (sv_Signature signV4Values) else ErrSignatureDoesNotMatch in
  inl (cred, newSignature, ch_region ch, date).

Definition getChunkSignature (cred : Credentials) (seedSignature region : string) (date : time) (hashedChunk : string) : string :=
  let stringToSign := "AWS4-HMAC-SHA256-PAYLOAD" +:+ chr 10 +:+ Format_iso8601Z date +:+ chr 10 +:+ getScope date region +:+ chr 10
                      +:+ seedSignature +:+ chr 10 +:+ emptySHA256 +:+ chr 10 +:+ hashedChunk in
  getSignature (getSigningKey (cr_SecretKey cred) date region serviceS3) stringToSign.
End Check.

(** ** What is signed *)

(** The signature of a request under a secret. *)
Definition request_signature {C : Crypto} `{MapOrder} (secret : string) (stype : serviceType) (r : Request) (ch : credentialHeader)
    (extracted : header) (payload query : string) (date : time) : string :=
  getSignature (getSigningKey secret (ch_date ch) (ch_region ch) stype)
    (getStringToSign (getCanonicalRequest extracted payload query (rq_Path r) (rq_Method r)) date (credential_getScope ch)).

(** ** An instance *)

Lemma length_hex s : String.length (hex s) = (2 * String.length s)%nat.
Proof. induction s as [|c s IH]; cbn [hex String.length]; lia. Qed.

(** A statement on every character is checked on each of them. *)
Ltac each_ascii c := destruct c as [[] [] [] [] [] [] [] []]; vm_compute; reflexivity.

Lemma for_all_app p s t : for_all p (s +:+ t) = for_all p s && for_all p t.
Proof. induction s as [|c s IH]; [done|]. rewrite append_cons. cbn [for_all]. by rewrite IH, andb_assoc. Qed.

(** A function of 32 bytes in the place of the hashes, one user and plain seconds. *)
Fixpoint sum_codes (s : string) (n : nat) : nat :=
  match s with EmptyString => n | String c s => sum_codes s ((7 * n + nat_of_ascii c) mod 251) end.
Definition toy_block (n : nat) : string := String (ascii_of_nat n) "0123456789abcdefghijklmnopqrstu".
Definition toy_crypto : Crypto := {|
  hmac_sha256 k m := toy_block (sum_codes m (sum_codes k 3)); sha256 m := toy_block (sum_codes m 5); EncodePath p := QueryEscape p |}.
Lemma toy_crypto_laws : CryptoLaws toy_crypto.
Proof.
  split; [reflexivity..|]. intros p. cbn [EncodePath toy_crypto]. induction p as [|c p IH]; [done|]. cbn [QueryEscape]. rewrite for_all_app, IH, andb_true_r.
  each_ascii c.
Qed.

Definition toy_user : Credentials := mkCredentials "testuser" "testsecret" 0 "" "on" "".
Definition toy_identity : Identity := {|
  initialized := true; isGateway := false; activeCred := mkCredentials "uitstoradmin" "uitstoradmin" 0 "" "on" "";
  GetUser k := if bool_decide (k = "testuser") then (toy_user, true) else (no_credentials, false); token_claims _ _ := ErrNone |}.
Fixpoint toy_seconds (n : Z) (s : string) : option Z :=
  match s with
  | EmptyString => None
  | String c s =>
      if is_digit c then toy_seconds (10 * n + (Z.of_nat (nat_of_ascii c) - 48)) s
      else if bool_decide (String c s = "s") then Some (n * second) else None
  end.
Definition toy_durations : Durations := {| ParseDuration s := toy_seconds 0 s |}.

