(* ===== verification/SignCheck.v ===== *)
(** * What an accepted signature says about a request

    Theorems on [SignV4.v]: the query and the time of a presigned request, what a
    signature binds, and the requests that are accepted. *)

From Stdlib Require Import Ascii.
From S2P Require Import Prelude FileInfo Quorum Restore HTTPRange ObjectRead XLRead ObjectMeta Calendar SignV4.

Local Open Scope sign_scope.

(** ** Strings *)

(** [s] has no character [c]. *)
Definition free (c : ascii) (s : string) : bool := for_all (fun a => negb (Ascii.eqb a c)) s.
Definition join (sep : ascii) (l : list string) : string := String.concat (String sep "") l.

Lemma join_cons sep x y l : join sep (x :: y :: l) = x +:+ String sep (join sep (y :: l)).
Proof. done. Qed.

Lemma for_all_join p sep l : p sep = true -> Forall (fun s => for_all p s = true) l -> for_all p (join sep l) = true.
Proof.
  intros Hs. induction l as [|x l IH]; [done|]. rewrite Forall_cons. intros [Hx Hl]. destruct l as [|y l]; [done|].
  rewrite join_cons, for_all_app. cbn [for_all]. by rewrite Hx, Hs, IH.
Qed.
Lemma for_all_impl (p q : ascii -> bool) s : (forall c, p c = true -> q c = true) -> for_all p s = true -> for_all q s = true.
Proof. intros Hpq. induction s as [|c s IH]; cbn [for_all]; [done|]. rewrite !andb_true_iff. naive_solver. Qed.

Lemma Split_free sep s : free sep s = true -> Split sep s = [s].
Proof.
  induction s as [|c s IH]; [done|]. unfold free. cbn [for_all Split]. rewrite andb_true_iff, negb_true_iff. intros [-> Hs]. by rewrite IH.
Qed.
Lemma Split_sep sep s t : free sep s = true -> Split sep (s +:+ String sep t) = s :: Split sep t.
Proof.
  induction s as [|c s IH].
  - intros _. change ("" +:+ String sep t) with (String sep t). cbn [Split]. by rewrite Ascii.eqb_refl.
  - unfold free. rewrite append_cons. cbn [for_all Split]. rewrite andb_true_iff, negb_true_iff. intros [-> Hs]. by rewrite IH.
Qed.
Lemma Split_join sep l : l <> [] -> Forall (fun s => free sep s = true) l -> Split sep (join sep l) = l.
Proof.
  intros Hl. induction l as [|x l IH]; [done|]. rewrite Forall_cons. intros [Hx Hf]. destruct l as [|y l]; [by apply Split_free|].
  rewrite join_cons, Split_sep by done. by rewrite IH.
Qed.
Lemma join_inj sep l1 l2 : l1 <> [] -> l2 <> [] -> Forall (fun s => free sep s = true) l1 -> Forall (fun s => free sep s = true) l2 ->
  join sep l1 = join sep l2 -> l1 = l2.
Proof. intros H1 H2 F1 F2 E. rewrite <-(Split_join sep l1), <-(Split_join sep l2) by done. by rewrite E. Qed.

Lemma Split_for_all p sep s : for_all p s = true -> Forall (fun x => for_all p x = true) (Split sep s).
Proof.
  induction s as [|c s IH]; cbn [for_all Split]; [by repeat constructor|]. rewrite andb_true_iff. intros [Hc Hs]. specialize (IH Hs).
  destruct (Ascii.eqb c sep); [by constructor|]. destruct (Split sep s) as [|x l]; [repeat constructor; cbn; by rewrite Hc|].
  apply Forall_cons in IH as [Hx Hl]. constructor; [cbn [for_all]; by rewrite Hc|done].
Qed.
Lemma Split_pieces_free sep s : Forall (fun x => free sep x = true) (Split sep s).
Proof.
  unfold free. induction s as [|c s IH]; cbn [Split]; [by repeat constructor|].
  destruct (Ascii.eqb c sep) eqn:E; [by constructor|]. destruct (Split sep s) as [|x l]; [repeat constructor; cbn; by rewrite E|].
  apply Forall_cons in IH as [Hx Hl]. constructor; [cbn [for_all]; by rewrite E|done].
Qed.
Lemma Split_not_nil sep s : Split sep s <> [].
Proof. destruct s as [|c s]; cbn [Split]; [done|]. destruct (Ascii.eqb c sep); [done|]. by destruct (Split sep s). Qed.

Lemma append_assoc (s t u : string) : (s +:+ t) +:+ u = s +:+ t +:+ u.
Proof. induction s as [|c s IH]; [done|]. rewrite !append_cons. by rewrite IH. Qed.
Lemma length_append s t : String.length (s +:+ t) = (String.length s + String.length t)%nat.
Proof. induction s as [|c s IH]; [done|]. rewrite append_cons. cbn [String.length]. by rewrite IH. Qed.

Lemma append_inj_r s1 : forall s2 t1 t2, s1 +:+ t1 = s2 +:+ t2 -> String.length t1 = String.length t2 -> s1 = s2 /\ t1 = t2.
Proof.
  induction s1 as [|c s1 IH]; intros [|d s2] t1 t2; rewrite ?append_cons; intros E Hl.
  - done.
  - exfalso. apply (f_equal String.length) in E. change ("" +:+ t1) with t1 in E. cbn [String.length] in E. rewrite length_append in E. lia.
  - exfalso. apply (f_equal String.length) in E. change ("" +:+ t2) with t2 in E. cbn [String.length] in E. rewrite length_append in E. lia.
  - injection E as -> E. by destruct (IH s2 t1 t2 E Hl) as [-> ->].
Qed.
Lemma append_inj_l s : forall t1 t2, s +:+ t1 = s +:+ t2 -> t1 = t2.
Proof. induction s as [|c s IH]; intros t1 t2; [done|]. rewrite !append_cons. intros [= E]. auto. Qed.

(** Membership of a constant in a list of constants. *)
Ltac listed := apply (bool_decide_unpack _); vm_compute; exact I.

(** ** Presigned requests *)

Section Presigned.
Context {C : Crypto} `{MapOrder}.

Lemma add_others_lookup k : forall (l : list (string * list string)) (q : header), NoDup l.*1 ->
  fold_left (fun q kv => if contains defaultSigParams kv.1 then q else <[kv.1 := kv.2]> q) l q !! k =
  if contains defaultSigParams k then q !! k else (list_to_map l : header) !! k ∪ q !! k.
Proof.
  induction l as [|[k' v'] l IH]; intros q; cbn [fold_left fst snd fmap list_fmap list_to_map foldr].
  { intros _. destruct (contains _ k); [done|]. rewrite lookup_empty. by destruct (q !! k). }
  rewrite NoDup_cons. intros [Hk' Hn]. rewrite IH by done. destruct (decide (k = k')) as [<-|Hne].
  - destruct (contains defaultSigParams k); [done|]. unfold uncurry. cbn. rewrite !lookup_insert_eq, not_elem_of_list_to_map_1 by done. by destruct (q !! k).
  - destruct (contains defaultSigParams k'); cbn; by rewrite !lookup_insert_ne by done.
Qed.

Lemma range_map_list (m : header) : (list_to_map (range_map m) : header) = m.
Proof.
  transitivity (list_to_map (map_to_list m) : header); [|apply list_to_map_to_list].
  apply list_to_map_proper; [apply NoDup_range_map|apply range_order_perm].
Qed.

(** A parameter of the signature is absent, or has one value, which is not empty. *)
Definition single_params (form : header) : Prop :=
  forall k, k ∈ defaultSigParams -> form !! k = None \/ exists v, v <> "" /\ form !! k = Some [v].

Lemma Values_Get_some (form : header) k v : form !! k = Some [v] -> Values_Get form k = v.
Proof. unfold Values_Get. by intros ->. Qed.
Lemma Values_Get_none (form : header) k : form !! k = None -> Values_Get form k = "".
Proof. unfold Values_Get. by intros ->. Qed.

Lemma Values_Get_lookup (form : header) k : form !! k = None \/ (exists v, v <> "" /\ form !! k = Some [v]) ->
  form !! k = if bool_decide (Values_Get form k = "") then None else Some [Values_Get form k].
Proof.
  intros [Hk|(v & Hv & Hk)].
  - by rewrite Values_Get_none by done.
  - rewrite (Values_Get_some form k v Hk). by rewrite bool_decide_eq_false_2.
Qed.

(** The values the query has at the parameters of the signature. *)
Definition presign_param hp form cred extracted ps (k : string) : option (list string) :=
  if bool_decide (k = AmzCredential) then Some [cr_AccessKey cred +:+ SlashSeparator +:+ credential_getScope (sv_Credential (ps_values ps))]
  else if bool_decide (k = AmzSignedHeaders) then Some [getSignedHeaders extracted]
  else if bool_decide (k = AmzExpires) then Some [Itoa (Z.quot (ps_Expires ps) second)]
  else if bool_decide (k = AmzDate) then Some [Format_iso8601Z (ps_Date ps)]
  else if bool_decide (k = AmzAlgorithm) then Some [signV4Algorithm]
  else if bool_decide (k = AmzSecurityToken) then if bool_decide (Values_Get form AmzSecurityToken = "") then None else Some [cr_SessionToken cred]
  else if bool_decide (k = AmzContentSha256) then if bool_decide (Values_Get form AmzContentSha256 = "") then None else Some [hp]
  else None.

Lemma contains_spec l k : contains l k = bool_decide (k ∈ l).
Proof.
  unfold contains. apply eq_bool_prop_intro. rewrite Is_true_true, existsb_exists. rewrite bool_decide_spec. split.
  - intros (x & Hx & E). apply bool_decide_eq_true in E as <-. by apply list_elem_of_In.
  - intros Hk. exists k. split; [by apply list_elem_of_In|]. by apply bool_decide_eq_true.
Qed.

Lemma presign_query_lookup hp form cred extracted ps k :
  presign_query hp form cred extracted ps !! k =
  if contains defaultSigParams k then presign_param hp form cred extracted ps k else form !! k.
Proof.
  unfold presign_query. rewrite add_others_lookup by apply NoDup_range_map. rewrite range_map_list, contains_spec. case_bool_decide as Hk.
  - unfold presign_param, defaultSigParams in *. rewrite !elem_of_cons, elem_of_nil in Hk.
    destruct Hk as [->|[->|[->|[->|[->|[->|[->|[->|[]]]]]]]]];
      repeat (rewrite lookup_insert_eq || rewrite lookup_insert_ne by done); cbn; repeat case_bool_decide; done.
  - assert (forall x, x ∈ defaultSigParams -> x <> k) as Hx by (by intros x Hx ->).
    unfold defaultSigParams in Hx. repeat (rewrite lookup_insert_ne by (apply Hx; set_solver)).
    repeat case_bool_decide; rewrite ?lookup_insert_ne by (apply Hx; set_solver); rewrite lookup_empty; by destruct (form !! k).
Qed.

(** The query that is signed is the one of the request without the signature. *)
Lemma presign_query_same hp form cred extracted ps :
  let query := presign_query hp form cred extracted ps in
  let same k := Values_Get form k = Values_Get query k in
  single_params form -> Values_Get form AmzAlgorithm = signV4Algorithm ->
  same AmzDate -> same AmzExpires -> same AmzSignedHeaders -> same AmzCredential ->
  (Values_Get form AmzContentSha256 <> "" -> same AmzContentSha256) ->
  (Values_Get form AmzSecurityToken <> "" -> Values_Get form AmzSecurityToken = cr_SessionToken cred) ->
  is_Some (form !! AmzDate) -> is_Some (form !! AmzExpires) -> is_Some (form !! AmzSignedHeaders) -> is_Some (form !! AmzCredential) ->
  is_Some (form !! AmzAlgorithm) ->
  query = delete AmzSignature form.
Proof.
  intros query same Hsp Ha Hd He Hs Hc Hp Ht Id Ie Is_ Ic Ia.
  assert (forall k, k ∈ defaultSigParams -> is_Some (form !! k) -> form !! k = Some [Values_Get form k]) as Hone.
  { intros k Hk [vs Hv]. destruct (Hsp k Hk) as [E|(v & _ & E)]; [congruence|]. by rewrite E, (Values_Get_some form k v E). }
  apply map_eq. intros k. unfold query. rewrite presign_query_lookup, contains_spec. case_bool_decide as Hk.
  2:{ rewrite lookup_delete_ne; [done|]. intros <-. apply Hk. listed. }
  assert (forall k, Values_Get query k = default "" (head (default [] (presign_query hp form cred extracted ps !! k)))) as Hq by done.
  unfold same in *. rewrite !Hq, !presign_query_lookup in *. pose proof (fun k Hk => Values_Get_lookup form k (Hsp k Hk)) as Hl.
  unfold defaultSigParams in Hk. rewrite !elem_of_cons, elem_of_nil in Hk.
  destruct Hk as [->|[->|[->|[->|[->|[->|[->|[->|[]]]]]]]]]; [..|by rewrite lookup_delete_eq]; rewrite lookup_delete_ne by done.
  - rewrite (Hl AmzContentSha256) by listed. 
    change (presign_param hp form cred extracted ps AmzContentSha256) with (if bool_decide (Values_Get form AmzContentSha256 = "") then None else Some [hp]) in *.
    change (contains defaultSigParams AmzContentSha256) with true in Hp. cbv iota in Hp. case_bool_decide as E; [done|]. by rewrite (Hp E).
  - rewrite (Hl AmzSecurityToken) by listed. 
    change (presign_param hp form cred extracted ps AmzSecurityToken) with (if bool_decide (Values_Get form AmzSecurityToken = "") then None else Some [cr_SessionToken cred]).
    case_bool_decide as E; [done|]. by rewrite (Ht E).
  - rewrite (Hone AmzAlgorithm) by (done || listed). by rewrite Ha.
  - rewrite (Hone AmzDate) by (done || listed). by rewrite Hd.
  - rewrite (Hone AmzExpires) by (done || listed). by rewrite He.
  - rewrite (Hone AmzSignedHeaders) by (done || listed). by rewrite Hs.
  - rewrite (Hone AmzCredential) by (done || listed). by rewrite Hc.
Qed.

Context {U : Identity} `{Durations}.

Lemma parsePreSignV4_inv query region stype ps : parsePreSignV4 query region stype = inl ps ->
  (forall k, k ∈ [AmzAlgorithm; AmzCredential; AmzSignature; AmzDate; AmzSignedHeaders; AmzExpires] -> is_Some (query !! k)) /\
  Values_Get query AmzAlgorithm = signV4Algorithm /\ 0 <= ps_Expires ps <= 604800 * second /\
  Parse_iso8601Z (Values_Get query AmzDate) = Some (ps_Date ps).
Proof.
  unfold parsePreSignV4, doesV4PresignParamsExist. case_bool_decide as Hp; [|done]. case_bool_decide as Ha; [|done].
  destruct (parseCredentialHeader _ _ _); [|done]. destruct (Parse_iso8601Z _) as [t|] eqn:Et; [|done].
  destruct (ParseDuration _) as [e|]; [|done]. destruct (Z.leb_spec 0 e); [|done]. destruct (Z.leb_spec e (604800 * second)); [|done].
  destruct (parseSignedHeader _); [|done]. destruct (parseSignature _); [|done]. intros [= <-]. cbn [ps_Expires ps_Date]. split_and!; [|done..].
  destruct (forallb _ _) eqn:E; [|done]. rewrite forallb_forall in E. intros k Hk. apply list_elem_of_In, E in Hk. by apply bool_decide_eq_true in Hk.
Qed.

End Presigned.

(** ** The canonical query *)

(** The parameters of a query, in the order in which they are encoded. *)
Definition parameters `{MapOrder} (v : header) : list (string * string) :=
  k ← sort_Strings ((range_map v).*1); x ← default [] (v !! k); [(k, x)].

Definition unreserved (c : ascii) : bool := is_alnum c || bool_decide (c ∈ String.list_ascii_of_string "-_.~").
Definition percent (c : ascii) : string :=
  if unreserved c then String c ""
  else String "%" (String (hex_upper (nat_of_ascii c / 16)) (String (hex_upper (nat_of_ascii c mod 16)) "")).
Fixpoint percents (s : string) : string := match s with EmptyString => "" | String c s => percent c +:+ percents s end.
Definition parameter (kx : string * string) : string := percents kx.1 +:+ String "=" (percents kx.2).

Definition hex_of (c : ascii) : nat := let n := nat_of_ascii c in if (n <? 58)%nat then n - 48 else n - 55.
Fixpoint unpercent (s : string) : string :=
  match s with
  | EmptyString => ""
  | String c s =>
      match s with
      | String a (String b t) => if Ascii.eqb c "%" then String (ascii_of_nat (16 * hex_of a + hex_of b)) (unpercent t) else String c (unpercent s)
      | _ => String c (unpercent s)
      end
  end.

Lemma percent_escape c : ReplaceAll "+" "%20" (escape_char c) = percent c.
Proof. each_ascii c. Qed.
Lemma percent_free c : for_all (fun a => negb (Ascii.eqb a "&") && negb (Ascii.eqb a "=") && negb (Ascii.eqb a (ascii_of_nat 10))) (percent c) = true.
Proof. each_ascii c. Qed.

Lemma ReplaceAll_app c t a b : ReplaceAll c t (a +:+ b) = ReplaceAll c t a +:+ ReplaceAll c t b.
Proof.
  induction a as [|x a IH]; [done|]. rewrite append_cons. cbn [ReplaceAll]. rewrite IH. destruct (Ascii.eqb x c); [|done].
  by rewrite append_assoc.
Qed.
Lemma hex_of_upper c : ascii_of_nat (16 * hex_of (hex_upper (nat_of_ascii c / 16)) + hex_of (hex_upper (nat_of_ascii c mod 16))) = c.
Proof. each_ascii c. Qed.
Lemma unpercent_percent c t : unpercent (percent c +:+ t) = String c (unpercent t).
Proof.
  unfold percent. destruct (unreserved c) eqn:E.
  - change (String c "" +:+ t) with (String c t). assert (Ascii.eqb c "%" = false) as Hc by (apply Ascii.eqb_neq; by intros ->).
    destruct t as [|a [|b t]]; cbn [unpercent]; by rewrite ?Hc.
  - rewrite !append_cons. change ("" +:+ t) with t. cbn [unpercent]. change (Ascii.eqb "%" "%") with true. cbv iota. by rewrite hex_of_upper.
Qed.
Lemma unpercent_percents s : unpercent (percents s) = s.
Proof. induction s as [|c s IH]; [done|]. cbn [percents]. by rewrite unpercent_percent, IH. Qed.
Lemma percents_escape s : ReplaceAll "+" "%20" (QueryEscape s) = percents s.
Proof. induction s as [|c s IH]; [done|]. cbn [QueryEscape percents]. by rewrite ReplaceAll_app, percent_escape, IH. Qed.
Lemma percents_free s : for_all (fun a => negb (Ascii.eqb a "&") && negb (Ascii.eqb a "=") && negb (Ascii.eqb a (ascii_of_nat 10))) (percents s) = true.
Proof. induction s as [|c s IH]; [done|]. cbn [percents]. by rewrite for_all_app, percent_free, IH. Qed.
Lemma percents_free_of c s : c ∈ ["&"; "="; ascii_of_nat 10]%char -> free c (percents s) = true.
Proof.
  intros Hc. eapply for_all_impl; [|apply percents_free]. cbn beta. intros a. rewrite !andb_true_iff. intros [[H1 H2] H3].
  rewrite !elem_of_cons, elem_of_nil in Hc. by destruct Hc as [->|[->|[->|[]]]].
Qed.

Lemma ReplaceAll_join c t sep l : sep <> c -> ReplaceAll c t (join sep l) = join sep (ReplaceAll c t <$> l).
Proof.
  intros Hs. induction l as [|x l IH]; [done|]. destruct l as [|y l]; [done|].
  rewrite join_cons, ReplaceAll_app. cbn [ReplaceAll fmap list_fmap] in *. rewrite (proj2 (Ascii.eqb_neq _ _) Hs), IH. done.
Qed.

Section Query.
Context `{MapOrder}.

Lemma canonical_query v : ReplaceAll "+" "%20" (Values_Encode v) = join "&" (parameter <$> parameters v).
Proof.
  unfold Values_Encode. change (String.concat "&") with (join "&"). rewrite ReplaceAll_join by done. f_equal. unfold parameters.
  induction (sort_Strings _) as [|k ks IH]; [done|]. cbn [mbind list_bind]. rewrite !fmap_app, IH. f_equal. clear IH.
  induction (default [] (v !! k)) as [|x xs IH]; [done|]. cbn [mbind list_bind app]. rewrite !fmap_cons, IH. f_equal.
  unfold parameter. rewrite !ReplaceAll_app, !percents_escape. reflexivity.
Qed.

Lemma parameter_free c kx : c ∈ ["&"; ascii_of_nat 10]%char -> free c (parameter kx) = true.
Proof.
  intros Hc. unfold parameter, free. rewrite for_all_app. cbn [for_all]. fold (free c (percents kx.1)). fold (free c (percents kx.2)).
  rewrite !percents_free_of by set_solver. rewrite !elem_of_cons, elem_of_nil in Hc. by destruct Hc as [->|[->|[]]].
Qed.

Lemma parameter_inj kx1 kx2 : parameter kx1 = parameter kx2 -> kx1 = kx2.
Proof.
  intros E. apply (f_equal (Split "=")) in E. unfold parameter in E. rewrite !Split_sep, !Split_free in E by (apply percents_free_of; set_solver).
  injection E as E1 E2. apply (f_equal unpercent) in E1, E2. rewrite !unpercent_percents in *. destruct kx1, kx2. cbn in *. congruence.
Qed.

Lemma parameter_not_empty kx : parameter kx <> "".
Proof. unfold parameter. destruct (percents kx.1); done. Qed.

Lemma parameters_join_inj l1 l2 : join "&" (parameter <$> l1) = join "&" (parameter <$> l2) -> l1 = l2.
Proof.
  assert (forall kx l, join "&" (parameter <$> (kx :: l)) <> "") as Hne.
  { intros kx [|y l]; [apply parameter_not_empty|]. rewrite !fmap_cons, join_cons. pose proof (parameter_not_empty kx). by destruct (parameter kx). }
  assert (forall l, Forall (fun s => free "&" s = true) (parameter <$> l)) as Hf.
  { intros l. apply Forall_fmap, Forall_true. intros kx. apply parameter_free. set_solver. }
  destruct l1 as [|kx1 l1], l2 as [|kx2 l2]; intros E; [done|by destruct (Hne kx2 l2)|by destruct (Hne kx1 l1)|].
  apply join_inj in E; [|done|done|apply Hf|apply Hf]. by apply (list_fmap_eq_inj parameter parameter_inj) in E.
Qed.

(** The parameters determine the values. *)
Lemma values_filter (f : string -> list string) k : forall ks, NoDup ks ->
  (filter (fun kx => kx.1 = k) (k' ← ks; x ← f k'; [(k', x)])).*2 = if decide (k ∈ ks) then f k else [].
Proof.
  assert (forall k' xs, (filter (fun kx => kx.1 = k) (x ← xs; [(k', x)] : list (string * string))).*2 = if decide (k' = k) then xs else []) as Hone.
  { intros k' xs. induction xs as [|x xs IH]; [by case_decide|]. cbn [mbind list_bind app]. rewrite filter_cons. cbn [fst]. case_decide; [|done].
    rewrite fmap_cons, IH. done. }
  induction ks as [|k' ks IH]; intros Hn; [done|]. apply NoDup_cons in Hn as [Hk' Hn]. cbn [mbind list_bind]. rewrite filter_app, fmap_app, Hone, IH by done.
  destruct (decide (k' = k)) as [->|Hne].
  - rewrite (decide_False _ _ Hk'), decide_True by (by left). by rewrite app_nil_r.
  - cbn [app]. destruct (decide (k ∈ ks)); [rewrite decide_True by (by right)|rewrite decide_False by (by intros [->|]%elem_of_cons)]; done.
Qed.

Lemma sorted_keys (v : header) : sort_Strings ((range_map v).*1) ≡ₚ (range_map v).*1.
Proof. apply merge_sort_Permutation. Qed.

Lemma parameters_values (v : header) k : (filter (fun kx => kx.1 = k) (parameters v)).*2 = default [] (v !! k).
Proof.
  unfold parameters. rewrite (values_filter (fun k => default [] (v !! k))) by (rewrite sorted_keys; apply NoDup_range_map).
  case_decide as Hk; [done|]. rewrite sorted_keys in Hk. destruct (v !! k) as [x|] eqn:E; [|done].
  destruct Hk. apply list_elem_of_fmap. exists (k, x). split; [done|]. by apply elem_of_range_map.
Qed.

(** The canonical query has the parameters of the query. *)
Lemma canonical_query_inj v1 v2 : ReplaceAll "+" "%20" (Values_Encode v1) = ReplaceAll "+" "%20" (Values_Encode v2) ->
  forall k, default [] (v1 !! k) = default [] (v2 !! k).
Proof. rewrite !canonical_query. intros E%parameters_join_inj k. by rewrite <-!parameters_values, E. Qed.

Lemma canonical_query_line v : free (ascii_of_nat 10) (ReplaceAll "+" "%20" (Values_Encode v)) = true.
Proof.
  rewrite canonical_query. apply for_all_join; [done|]. apply Forall_fmap, Forall_true. intros kx. apply parameter_free. set_solver.
Qed.
End Query.

(** ** The canonical request *)

Abbreviation newline := (ascii_of_nat 10).

Lemma fields_line fuel : forall word s, free newline word = true -> Forall (fun w => free newline w = true) (fields fuel word s).
Proof.
  assert (forall w, free newline w = true -> Forall (fun w => free newline w = true) (flush w)) as Hf.
  { intros w Hw. unfold flush. case_bool_decide; by repeat constructor. }
  induction fuel as [|fuel IH]; intros word s Hw; [by apply Hf|]. destruct s as [|c s]; [by apply Hf|]. cbn [fields].
  destruct (List.find _ _) eqn:E; [apply Forall_app; split; [by apply Hf|by apply IH]|].
  apply IH. unfold free in *. rewrite for_all_app, Hw. cbn [for_all andb]. rewrite andb_true_r, negb_true_iff. apply Ascii.eqb_neq. intros ->. by destruct s; vm_compute in E.
Qed.
Lemma trimAll_line v : free newline (signV4TrimAll v) = true.
Proof. apply (for_all_join _ " "); [done|]. by apply fields_line. Qed.

Section Canonical.
Context {C : Crypto} {CL : CryptoLaws C} `{MapOrder}.

(** The names of the signed headers and the canonical values of each. *)
Definition signed_names (extracted : header) : list string := sort_Strings ((fun kv => lower kv.1) <$> range_map extracted).
Definition canonical_value (extracted : header) (k : string) : string :=
  let vals : header := fold_left (fun m kv => <[lower kv.1 := kv.2]> m) (range_map extracted) ∅ in
  join "," (signV4TrimAll <$> default [] (vals !! k)).
Definition header_line (extracted : header) (k : string) : string := k +:+ ":" +:+ canonical_value extracted k.

Lemma lines_join (l rest : list string) : rest <> [] ->
  String.concat "" ((fun x => x +:+ chr 10) <$> l) +:+ join newline rest = join newline (l ++ rest).
Proof.
  intros Hr. induction l as [|x l IH]; [done|]. destruct (l ++ rest) as [|y l'] eqn:E; [by destruct l|].
  rewrite <-app_comm_cons, E, join_cons, <-IH. clear. destruct l as [|z l]; cbn [fmap list_fmap String.concat].
  - unfold chr. by rewrite append_assoc, append_cons.
  - change ("" +:+ ?x) with x. unfold chr. by rewrite !append_assoc, append_cons.
Qed.

Lemma canonical_lines extracted payload query path method :
  getCanonicalRequest extracted payload query path method =
  join newline ([method; EncodePath path; ReplaceAll "+" "%20" query] ++ (header_line extracted <$> signed_names extracted) ++
                [""; getSignedHeaders extracted; payload]).
Proof.
  unfold getCanonicalRequest, getCanonicalHeaders. change (String.concat (chr 10)) with (join newline).
  change ([method; EncodePath path; ReplaceAll "+" "%20" query] ++ ?l) with (method :: EncodePath path :: ReplaceAll "+" "%20" query :: l).
  assert (exists y l, (header_line extracted <$> signed_names extracted) ++ [""; getSignedHeaders extracted; payload] = y :: l) as (y & l & Hl).
  { destruct (header_line extracted <$> _) as [|y l]; [by eexists _, _|by exists y, (l ++ [""; getSignedHeaders extracted; payload])]. }
  rewrite !join_cons, Hl, !join_cons, <-Hl. do 3 (do 2 f_equal). rewrite <-lines_join by done. rewrite !join_cons. f_equal.
  unfold header_line, signed_names, canonical_value. rewrite <-list_fmap_compose. f_equal. apply list_fmap_ext. intros i x _. unfold compose.
  by rewrite !append_assoc.
Qed.
End Canonical.

(** ** The names of the signed headers *)

Lemma for_all_map p f s : (forall c, p (f c) = p c) -> for_all p (map_string f s) = for_all p s.
Proof. intros Hf. induction s as [|c s IH]; [done|]. cbn [map_string for_all]. by rewrite Hf, IH. Qed.

Lemma lower_free c s : c ∈ [";"; newline]%char -> free c (lower s) = free c s.
Proof.
  intros Hc. apply for_all_map. intros a. rewrite !elem_of_cons, elem_of_nil in Hc. destruct Hc as [->|[->|[]]]; each_ascii a.
Qed.
Lemma canonical_key_free c s : c ∈ [";"; newline]%char -> forall up, free c (canonical_key up s) = free c s.
Proof.
  intros Hc. induction s as [|a s IH]; intros up; [done|]. unfold free in *. cbn [canonical_key for_all]. rewrite IH. f_equal.
  rewrite !elem_of_cons, elem_of_nil in Hc. clear IH. destruct up; destruct Hc as [->|[->|[]]]; each_ascii a.
Qed.
Lemma CanonicalHeaderKey_free c s : c ∈ [";"; newline]%char -> free c (CanonicalHeaderKey s) = free c s.
Proof. intros Hc. unfold CanonicalHeaderKey. destruct (for_all is_token s); [by apply canonical_key_free|done]. Qed.

Lemma extract_error r hs e : fold_left (extract_step r) hs (inr e) = inr e.
Proof. by induction hs. Qed.

(** Exactly the headers that are named are extracted. *)
Lemma extract_keys r hs : forall m ex, fold_left (extract_step r) hs (inl m) = inl ex ->
  forall k, is_Some (ex !! k) <-> is_Some (m !! k) \/ exists h, h ∈ hs /\ k = CanonicalHeaderKey h.
Proof.
  assert (forall m h v ex k, is_Some ((<[CanonicalHeaderKey h := v]> m : header) !! k) \/ (exists h', h' ∈ ex /\ k = CanonicalHeaderKey h') <->
    is_Some (m !! k) \/ exists h', h' ∈ h :: ex /\ k = CanonicalHeaderKey h') as Hins.
  { intros m h v ex k. destruct (decide (k = CanonicalHeaderKey h)) as [->|Hne].
    - rewrite lookup_insert_eq. split; [intros _; right; exists h; split; [by left|done]|left; eauto].
    - rewrite lookup_insert_ne by done. setoid_rewrite elem_of_cons. naive_solver. }
  induction hs as [|h hs IH]; intros m ex; cbn [fold_left].
  - intros [= ->] k. split; [by left|]. intros [?|(h & Hh & _)]; [done|by apply elem_of_nil in Hh].
  - unfold extract_step at 2, Header_Set. cbn beta iota. repeat case_match; intros Hf k; try (rewrite extract_error in Hf; done);
      rewrite (IH _ _ Hf); apply Hins.
Qed.

Lemma signed_names_elem `{MapOrder} ex n : n ∈ signed_names ex -> exists k, is_Some (ex !! k) /\ n = lower k.
Proof.
  unfold signed_names, sort_Strings. rewrite merge_sort_Permutation, list_elem_of_fmap. intros ([k v] & -> & Hk). apply elem_of_range_map in Hk. eauto.
Qed.

Lemma extracted_names `{MapOrder} hs r ex c : extractSignedHeaders hs r = inl ex -> c ∈ [";"; newline]%char ->
  Forall (fun h => free c h = true) hs -> Forall (fun n => free c n = true) (signed_names ex).
Proof.
  unfold extractSignedHeaders. destruct (contains hs "host"); [|done]. intros He Hc Hf. apply Forall_forall. intros n Hn.
  apply signed_names_elem in Hn as (k & Hk & ->). rewrite (extract_keys _ _ _ _ He) in Hk. rewrite lower_free by done.
  destruct Hk as [Hk|(h & Hh & ->)]; [by rewrite lookup_empty in Hk; destruct Hk|]. rewrite CanonicalHeaderKey_free by done.
  by apply (proj1 (Forall_forall _ _) Hf).
Qed.

Lemma extracted_not_nil `{MapOrder} hs r ex : extractSignedHeaders hs r = inl ex -> signed_names ex <> [].
Proof.
  unfold extractSignedHeaders. destruct (contains hs "host") eqn:Eh; [|done]. intros He Hn.
  rewrite contains_spec in Eh. apply bool_decide_eq_true in Eh.
  assert (is_Some (ex !! CanonicalHeaderKey "host")) as [v Hv] by (apply (extract_keys _ _ _ _ He); eauto).
  apply elem_of_range_map in Hv. unfold signed_names, sort_Strings in Hn.
  pose proof (merge_sort_Permutation String.le ((fun kv : string * list string => lower kv.1) <$> range_map ex)) as Hp. rewrite Hn in Hp.
  apply Permutation_nil_l in Hp. by destruct (range_map ex); [apply elem_of_nil in Hv|].
Qed.

(** Parsing takes pieces of the header. *)
Lemma for_all_substring p s : for_all p s = true -> forall n m, for_all p (String.substring n m s) = true.
Proof.
  induction s as [|c s IH]; intros Hs n m; [by destruct n, m|]. cbn [for_all] in Hs. apply andb_true_iff in Hs as [Hc Hs].
  destruct n as [|n]; cbn [String.substring]; [|by apply IH]. destruct m as [|m]; [done|]. cbn [for_all]. by rewrite Hc, IH.
Qed.
Lemma for_all_list p s : for_all p s = forallb p (String.list_ascii_of_string s).
Proof. induction s as [|c s IH]; [done|]. cbn [for_all String.list_ascii_of_string forallb]. by rewrite IH. Qed.
Lemma for_all_rev p s : for_all p s = true -> for_all p (string_rev s) = true.
Proof.
  unfold string_rev. rewrite !for_all_list, String.list_ascii_of_string_of_list_ascii, !forallb_forall. intros Hs c Hc. apply Hs. by apply in_rev.
Qed.
Lemma for_all_trim_left p cut fuel : forall s, for_all p s = true -> for_all p (trim_left cut fuel s) = true.
Proof.
  induction fuel as [|fuel IH]; intros s Hs; cbn [trim_left]; [done|]. destruct (List.find _ _); [|done]. by apply IH, for_all_substring.
Qed.
Lemma for_all_TrimSpace p s : for_all p s = true -> for_all p (TrimSpace s) = true.
Proof. intros Hs. by apply for_all_rev, for_all_trim_left, for_all_rev, for_all_trim_left. Qed.
Lemma for_all_TrimPrefix p s t : for_all p s = true -> for_all p (TrimPrefix s t) = true.
Proof. intros Hs. unfold TrimPrefix. case_match; [by apply for_all_substring|done]. Qed.
Lemma for_all_ReplaceAll p c s : for_all p s = true -> for_all p (ReplaceAll c "" s) = true.
Proof.
  induction s as [|a s IH]; [done|]. cbn [for_all ReplaceAll]. rewrite andb_true_iff. intros [Ha Hs]. destruct (Ascii.eqb a c); [by apply IH|].
  cbn [for_all]. by rewrite Ha, IH.
Qed.

Lemma parseSignV4_headers p v4Auth region stype sv : parseSignV4 v4Auth region stype = inl sv -> for_all p v4Auth = true ->
  Forall (fun h => for_all p h = true) (sv_SignedHeaders sv) /\ Forall (fun h => free ";" h = true) (sv_SignedHeaders sv).
Proof.
  unfold parseSignV4. destruct (negb _); [|done]. destruct (String.prefix _ _); [|done].
  destruct (Split "," _) as [|x [|headers [|sg [|]]]] eqn:E; try done. destruct (parseCredentialHeader _ _ _); [|done].
  unfold parseSignedHeader, tagged. destruct (Split "=" (TrimSpace headers)) as [|name [|value [|]]] eqn:Eh; try done.
  case_bool_decide; [|done]. destruct (negb (bool_decide (value = ""))); [|done]. destruct (parseSignature sg); [|done].
  intros [= <-] Hp. cbn [sv_SignedHeaders]. split; [|apply Split_pieces_free]. apply Split_for_all.
  assert (for_all p headers = true) as Hh.
  { apply (for_all_ReplaceAll p " "), (for_all_TrimPrefix p _ signV4Algorithm), for_all_TrimSpace, (Split_for_all p ",") in Hp.
    rewrite E in Hp. by inversion Hp as [|? ? _ Hp']; inversion Hp'. }
  apply for_all_TrimSpace, (Split_for_all p "=") in Hh. rewrite Eh in Hh. by inversion Hh as [|? ? _ Hh']; inversion Hh'.
Qed.

(** ** The hash of the payload *)

(** When a request that names the hash of its payload is accepted, the hash is the one
    that was signed, and the body is compared with it while it is read, except
    in a presigned request with the hash in a header, where it is not compared. *)
Lemma payload_hash_checked {C : Crypto} `{MapOrder} {U : Identity} `{Durations} now now' payload strict md5Err r region sum v vs :
  isReqAuthenticated now now' payload strict md5Err r region serviceS3 = inl sum ->
  content_sha256 r = Some (v :: vs) -> skipContentSha256Cksum strict r = false ->
  reqSignatureV4Verify now now' payload r region serviceS3 = inl tt /\ getContentSha256Cksum payload r serviceS3 = v /\
  if isRequestPresignedSignatureV4 r && negb (bool_decide (is_Some (rq_Form r !! AmzContentSha256))) then sum = ""
  else DecodeString v = Some sum.
Proof.
  unfold isReqAuthenticated, getContentSha256Cksum. intros Hi Hc Hs. rewrite Hs, Hc in *. destruct (reqSignatureV4Verify _ _ _ _ _ _) as [[]|]; [|done].
  destruct md5Err; [done|]. cbn [negb andb] in Hi. rewrite andb_true_r in Hi. split_and!; [done|done|]. unfold content_sha256 in Hc.
  destruct (isRequestPresignedSignatureV4 r); cbn [andb].
  - destruct (rq_Form r !! AmzContentSha256) as [l|]; cbn [negb].
    + injection Hc as ->. rewrite bool_decide_eq_true_2 by done. cbn [negb]. destruct (DecodeString v); [by injection Hi as ->|done].
    + rewrite bool_decide_eq_false_2 by (by intros [? ?]). cbn [negb]. by injection Hi as <-.
  - rewrite Hc in Hi. rewrite bool_decide_eq_true_2 in Hi by done.
    assert (Header_Get (rq_Header r) AmzContentSha256 = v) as Hg by (unfold Header_Get, Values_Get; change (CanonicalHeaderKey AmzContentSha256) with AmzContentSha256; by rewrite Hc).
    rewrite Hg in Hi. destruct (DecodeString v) as [x|]; [|done]. case_bool_decide; [done|]. by injection Hi as ->.
Qed.

(** ** What a signature binds *)

Definition hex_lower_of (c : ascii) : nat := let n := nat_of_ascii c in if (n <? 58)%nat then n - 48 else n - 87.
Lemma hex_lower_back c : ascii_of_nat (16 * hex_lower_of (hex_digit (nat_of_ascii c / 16)) + hex_lower_of (hex_digit (nat_of_ascii c mod 16))) = c.
Proof. each_ascii c. Qed.
Lemma hex_inj s1 : forall s2, hex s1 = hex s2 -> s1 = s2.
Proof.
  induction s1 as [|c s1 IH]; intros [|d s2]; cbn [hex]; try done. intros [= E1 E2 E].
  change (hex_digit (nat_of_ascii c / 16) = hex_digit (nat_of_ascii d / 16)) in E1. change (hex_digit (nat_of_ascii c mod 16) = hex_digit (nat_of_ascii d mod 16)) in E2.
  rewrite <-(hex_lower_back c), <-(hex_lower_back d), E1, E2.
  f_equal. by apply IH.
Qed.

Section Binding.
Context {C : Crypto} {CL : CryptoLaws C} `{MapOrder} {U : Identity}.

Lemma stringToSign_inj c1 c2 t1 t2 scope : getStringToSign c1 t1 scope = getStringToSign c2 t2 scope ->
  Format_iso8601Z t1 = Format_iso8601Z t2 /\ sha256 c1 = sha256 c2.
Proof.
  unfold getStringToSign. intros E. do 2 apply append_inj_l in E. apply append_inj_r in E as [E1 E2].
  - split; [done|]. do 3 apply append_inj_l in E2. by apply hex_inj.
  - by rewrite !length_append, !length_hex, !sha256_length.
Qed.

Lemma checkKeyValid_cred r1 r2 key cred1 o1 cred2 o2 :
  checkKeyValid r1 key = inl (cred1, o1) -> checkKeyValid r2 key = inl (cred2, o2) -> cred1 = cred2.
Proof. unfold checkKeyValid. repeat case_match; congruence. Qed.

Lemma doesSignatureMatch_inv hp r region stype : doesSignatureMatch hp r region stype = inl tt <->
  exists sv ex cred owner t, parseSignV4 (Header_Get (rq_Header r) "Authorization") region stype = inl sv /\
    extractSignedHeaders (sv_SignedHeaders sv) r = inl ex /\ checkKeyValid r (ch_accessKey (sv_Credential sv)) = inl (cred, owner) /\
    request_date r = inl t /\
    sv_Signature sv = request_signature (cr_SecretKey cred) stype r (sv_Credential sv) ex hp (Values_Encode (rq_Form r)) t.
Proof.
  unfold doesSignatureMatch, compareSignatureV4, request_signature. split.
  - destruct (parseSignV4 _ _ _) as [sv|]; [|done]. destruct (extractSignedHeaders _ _) as [ex|] eqn:Ex; [|done].
    destruct (checkKeyValid _ _) as [[cred owner]|] eqn:Ek; [|done]. destruct (request_date r) as [t|]; [|done]. case_bool_decide as E; [|done].
    intros _. by exists sv, ex, cred, owner, t.
  - intros (sv & ex & cred & owner & t & -> & -> & -> & -> & ->). by rewrite bool_decide_eq_true_2.
Qed.

Lemma canonical_request_inj ex1 ex2 hp1 hp2 r1 r2 :
  let line s := free newline s = true in
  let names_ok ex := signed_names ex <> [] /\ Forall (fun n => free ";" n = true) (signed_names ex) /\ Forall line (signed_names ex) in
  names_ok ex1 -> names_ok ex2 -> line hp1 -> line hp2 -> line (rq_Method r1) -> line (rq_Method r2) ->
  getCanonicalRequest ex1 hp1 (Values_Encode (rq_Form r1)) (rq_Path r1) (rq_Method r1) =
  getCanonicalRequest ex2 hp2 (Values_Encode (rq_Form r2)) (rq_Path r2) (rq_Method r2) ->
  rq_Method r1 = rq_Method r2 /\ EncodePath (rq_Path r1) = EncodePath (rq_Path r2) /\
  (forall k, default [] (rq_Form r1 !! k) = default [] (rq_Form r2 !! k)) /\ hp1 = hp2 /\ signed_names ex1 = signed_names ex2 /\
  forall n, n ∈ signed_names ex1 -> canonical_value ex1 n = canonical_value ex2 n.
Proof.
  intros line names_ok (Hn1 & Hs1 & Hl1) (Hn2 & Hs2 & Hl2) Hp1 Hp2 Hm1 Hm2. rewrite !canonical_lines.
  assert (forall ex hp r, names_ok ex -> line hp -> line (rq_Method r) -> Forall line ([rq_Method r; EncodePath (rq_Path r);
    ReplaceAll "+" "%20" (Values_Encode (rq_Form r))] ++ (header_line ex <$> signed_names ex) ++ [""; getSignedHeaders ex; hp])) as Hline.
  { intros ex hp r (_ & _ & Hl) Hp Hm. apply Forall_app. split; [|apply Forall_app; split].
    - repeat constructor; [done|apply EncodePath_line|apply canonical_query_line].
    - apply Forall_fmap. eapply Forall_impl; [exact Hl|]. intros n Hn. unfold compose, header_line, line, free in *. rewrite !for_all_app, Hn.
      cbn [for_all andb]. change (negb (Ascii.eqb ":" newline)) with true. cbn [andb]. apply for_all_join; [done|].
      apply Forall_fmap, Forall_true. intros v. apply trimAll_line.
    - repeat constructor; [|done]. by apply (for_all_join _ ";"). }
  intros E. apply join_inj in E; [|done|done|by apply Hline|by apply Hline]. cbn [app] in E. injection E as Em Ep Eq E.
  assert (length (header_line ex1 <$> signed_names ex1) = length (header_line ex2 <$> signed_names ex2)) as Hlen.
  { apply (f_equal length) in E. rewrite !length_app in E. cbn [length] in E. lia. }
  apply app_inj_1 in E as [El E]; [|exact Hlen]. injection E as Eh Epay.
  assert (signed_names ex1 = signed_names ex2) as Hnames by (by apply (join_inj ";")).
  split_and!; [done|done|by apply canonical_query_inj|done|done|]. intros n [i Hi]%list_elem_of_lookup_1.
  assert ((header_line ex1 <$> signed_names ex1) !! i = (header_line ex2 <$> signed_names ex2) !! i) as Ei by (by rewrite El).
  rewrite !list_lookup_fmap, <-Hnames, Hi in Ei. cbn in Ei. injection Ei as Ei. unfold header_line in Ei. by do 2 apply append_inj_l in Ei.
Qed.

Lemma extracted_ok v4Auth region stype sv r ex : parseSignV4 v4Auth region stype = inl sv -> free newline v4Auth = true ->
  extractSignedHeaders (sv_SignedHeaders sv) r = inl ex ->
  signed_names ex <> [] /\ Forall (fun n => free ";" n = true) (signed_names ex) /\ Forall (fun n => free newline n = true) (signed_names ex).
Proof.
  intros Hp Hl He. destruct (parseSignV4_headers _ _ _ _ _ Hp Hl) as [H1 H2].
  split_and!; [by eapply extracted_not_nil|eapply extracted_names; [done|listed|done]|eapply extracted_names; [done|listed|done]].
Qed.

(** C13: a signature binds the request.  Two requests whose [Authorization] headers have
    the same credential and the same signature are both accepted only if they agree
    on the method, the encoded path, every parameter of the query with all its
    values, the date to the second, the hash of the payload, the names of the signed headers and the
    canonical value of each of them, unless their strings to sign collide under
    the signing key or their canonical requests collide under SHA-256.  (No header,
    method or hash has an end of line, as HTTP ensures.) *)
Theorem signature_binds_request hp1 hp2 r1 r2 region stype sv1 sv2 ex1 ex2 t1 t2 :
  let auth r := Header_Get (rq_Header r) "Authorization" in
  let canonical hp r ex := getCanonicalRequest ex hp (Values_Encode (rq_Form r)) (rq_Path r) (rq_Method r) in
  let toSign hp r ex t sv := getStringToSign (canonical hp r ex) t (credential_getScope (sv_Credential sv)) in
  (forall s, s ∈ [auth r1; auth r2; rq_Method r1; rq_Method r2; hp1; hp2] -> free newline s = true) ->
  doesSignatureMatch hp1 r1 region stype = inl tt -> doesSignatureMatch hp2 r2 region stype = inl tt ->
  parseSignV4 (auth r1) region stype = inl sv1 -> parseSignV4 (auth r2) region stype = inl sv2 ->
  extractSignedHeaders (sv_SignedHeaders sv1) r1 = inl ex1 -> extractSignedHeaders (sv_SignedHeaders sv2) r2 = inl ex2 ->
  request_date r1 = inl t1 -> request_date r2 = inl t2 ->
  sv_Credential sv1 = sv_Credential sv2 -> sv_Signature sv1 = sv_Signature sv2 ->
  (forall key, hmac_sha256 key (toSign hp1 r1 ex1 t1 sv1) = hmac_sha256 key (toSign hp2 r2 ex2 t2 sv2) -> toSign hp1 r1 ex1 t1 sv1 = toSign hp2 r2 ex2 t2 sv2) ->
  (sha256 (canonical hp1 r1 ex1) = sha256 (canonical hp2 r2 ex2) -> canonical hp1 r1 ex1 = canonical hp2 r2 ex2) ->
  rq_Method r1 = rq_Method r2 /\ EncodePath (rq_Path r1) = EncodePath (rq_Path r2) /\
  (forall k, default [] (rq_Form r1 !! k) = default [] (rq_Form r2 !! k)) /\
  Format_iso8601Z t1 = Format_iso8601Z t2 /\ hp1 = hp2 /\ signed_names ex1 = signed_names ex2 /\
  forall n, n ∈ signed_names ex1 -> canonical_value ex1 n = canonical_value ex2 n.
Proof.
  intros auth canonical toSign Hline HM1 HM2 Hp1 Hp2 He1 He2 Ht1 Ht2 Hc Hs Hmac Hsha.
  apply doesSignatureMatch_inv in HM1 as (sv1' & ex1' & cred1 & o1 & t1' & P1 & E1 & K1 & T1 & S1), HM2 as (sv2' & ex2' & cred2 & o2 & t2' & P2 & E2 & K2 & T2 & S2).
  unfold auth in *. rewrite Hp1 in P1. rewrite Hp2 in P2. injection P1 as <-. injection P2 as <-. rewrite He1 in E1. rewrite He2 in E2. injection E1 as <-. injection E2 as <-.
  rewrite Ht1 in T1. rewrite Ht2 in T2. injection T1 as <-. injection T2 as <-. rewrite Hc in K1, S1. pose proof (checkKeyValid_cred _ _ _ _ _ _ _ K1 K2) as ->.
  rewrite S1, S2 in Hs. apply hex_inj in Hs.
  assert (toSign hp1 r1 ex1 t1 sv1 = toSign hp2 r2 ex2 t2 sv2) as Hts.
  { eapply Hmac. unfold toSign, canonical. rewrite Hc. exact Hs. }
  unfold toSign in Hts. rewrite Hc in Hts. apply stringToSign_inj in Hts as [Hf Hh]. apply Hsha in Hh.
  apply canonical_request_inj in Hh as (? & ? & ? & ? & ? & ?); [done|..];
    [eapply extracted_ok, He1; [exact Hp1|]|eapply extracted_ok, He2; [exact Hp2|]|..]; apply Hline; rewrite !elem_of_cons; auto 10.
Qed.
End Binding.

(** ** Requests that are accepted *)

Definition visible (c : ascii) : bool := (33 <=? nat_of_ascii c)%nat && (nat_of_ascii c <=? 126)%nat.
Definition starts_blank (p : string) : bool := match p with EmptyString => false | String a _ => negb (visible a) end.
Definition starts_visible (s : string) : bool := match s with EmptyString => true | String c _ => visible c end.

Lemma find_visible cut s : forallb starts_blank cut = true -> s <> "" -> starts_visible s = true ->
  List.find (fun p => String.prefix p s) cut = None.
Proof.
  intros Hc Hs Hv. destruct s as [|c s]; [done|]. cbn [starts_visible] in Hv. induction cut as [|p cut IH]; [done|]. cbn [List.find forallb] in *.
  apply andb_true_iff in Hc as [Hp Hc]. destruct p as [|a p]; [done|]. cbn [String.prefix starts_blank] in *. destruct (ascii_dec a c) as [->|]; [by rewrite Hv in Hp|by apply IH].
Qed.
Lemma trim_left_visible cut fuel s : forallb starts_blank cut = true -> starts_visible s = true ->
  trim_left cut fuel s = s.
Proof.
  intros Hc Hs. destruct fuel as [|fuel]; [done|]. cbn [trim_left]. destruct (decide (s = "")) as [->|Hne]; [|by rewrite find_visible].
  assert (List.find (fun p => String.prefix p "") cut = None) as ->; [|done]. clear Hs. induction cut as [|[|a p] cut IH]; [done|done|]. cbn [forallb] in Hc. apply andb_true_iff in Hc as [_ Hc]. by apply IH.
Qed.

(** A string without white space at its ends is not trimmed. *)
Lemma TrimSpace_ends s : starts_visible s = true -> starts_visible (string_rev s) = true -> TrimSpace s = s.
Proof.
  intros H1 H2. unfold TrimSpace, trim. rewrite (trim_left_visible spaces _ s) by (done || (vm_compute; reflexivity)).
  rewrite trim_left_visible by (done || (vm_compute; reflexivity)). apply string_rev_rev.
Qed.
Lemma starts_for_all s : for_all visible s = true -> starts_visible s = true.
Proof. destruct s as [|c s]; [done|]. cbn [for_all starts_visible]. by intros [? _]%andb_true_iff. Qed.
Lemma TrimSpace_visible s : for_all visible s = true -> TrimSpace s = s.
Proof. intros Hs. apply TrimSpace_ends; [by apply starts_for_all|by apply starts_for_all, for_all_rev]. Qed.

Lemma string_of_list_app a b : String.string_of_list_ascii (a ++ b) = String.string_of_list_ascii a +:+ String.string_of_list_ascii b.
Proof. induction a as [|c a IH]; [done|]. cbn [app String.string_of_list_ascii]. by rewrite append_cons, IH. Qed.
Lemma string_rev_app s t : string_rev (s +:+ t) = string_rev t +:+ string_rev s.
Proof. unfold string_rev. by rewrite list_ascii_app, rev_app_distr, string_of_list_app. Qed.
Lemma starts_app s t : s <> "" -> for_all visible s = true -> starts_visible (s +:+ t) = true.
Proof. destruct s as [|c s]; [done|]. intros _ Hs. apply starts_for_all in Hs. by rewrite append_cons. Qed.

Lemma TrimSpace_between a m b : a <> "" -> b <> "" -> for_all visible a = true -> for_all visible b = true -> TrimSpace (a +:+ m +:+ b) = a +:+ m +:+ b.
Proof.
  intros Ha Hb Va Vb. apply TrimSpace_ends; [by apply starts_app|]. rewrite !string_rev_app, append_assoc. apply starts_app; [|by apply for_all_rev].
  intros E. apply Hb. by rewrite <-(string_rev_rev b), E.
Qed.
Lemma TrimSpace_lead s : for_all visible s = true -> TrimSpace (String " " s) = s.
Proof.
  intros Hs. unfold TrimSpace, trim. cbn [String.length trim_left].
  assert (List.find (fun p => String.prefix p (String " " s)) spaces = Some " ") as -> by (destruct s; vm_compute; reflexivity).
  change (String.substring (String.length " ") (S (String.length s)) (String " " s)) with (String.substring 0 (S (String.length s)) s).
  rewrite substring_all by lia. rewrite (trim_left_visible spaces) by ((by apply starts_for_all) || (vm_compute; reflexivity)).
  rewrite trim_left_visible by ((by apply starts_for_all, for_all_rev) || (vm_compute; reflexivity)). apply string_rev_rev.
Qed.

(** *** The header of a client *)

Lemma Split_app sep s t : Split sep (s +:+ String sep t) = Split sep s ++ Split sep t.
Proof.
  induction s as [|c s IH]; [apply (Split_sep sep "" t); done|]. rewrite append_cons. cbn [Split]. rewrite IH. destruct (Ascii.eqb c sep); [done|].
  pose proof (Split_not_nil sep s). by destruct (Split sep s).
Qed.
Lemma join_Split sep s : join sep (Split sep s) = s.
Proof.
  induction s as [|c s IH]; [done|]. cbn [Split]. pose proof (Split_not_nil sep s) as Hn. destruct (Ascii.eqb c sep) eqn:E.
  - apply Ascii.eqb_eq in E as ->. destruct (Split sep s) as [|x l]; [done|]. rewrite join_cons, IH. done.
  - destruct (Split sep s) as [|x [|y l]]; [done| |].
    + change (join sep [x]) with x in IH. by rewrite IH.
    + rewrite join_cons, append_cons, <-join_cons, IH. done.
Qed.
Lemma split2_sep sep s t : free sep s = true -> split2 sep (s +:+ String sep t) = (s, Some t).
Proof.
  induction s as [|c s IH].
  - intros _. change ("" +:+ String sep t) with (String sep t). cbn [split2]. by rewrite Ascii.eqb_refl.
  - unfold free. rewrite append_cons. cbn [for_all split2]. rewrite andb_true_iff, negb_true_iff. intros [-> Hs]. by rewrite IH.
Qed.
Lemma ReplaceAll_free c t s : free c s = true -> ReplaceAll c t s = s.
Proof.
  induction s as [|a s IH]; [done|]. unfold free. cbn [for_all ReplaceAll]. rewrite andb_true_iff, negb_true_iff. intros [-> Hs]. by rewrite IH.
Qed.
Lemma visible_no_space s : for_all visible s = true -> free " " s = true.
Proof. apply for_all_impl. intros c. each_ascii c || (destruct c as [[] [] [] [] [] [] [] []]; vm_compute; done). Qed.
Lemma prefix_append p s : String.prefix p (p +:+ s) = true.
Proof. induction p as [|c p IH]; [by destruct s|]. rewrite append_cons. cbn [String.prefix]. by destruct (ascii_dec c c). Qed.
Lemma TrimPrefix_app p s : TrimPrefix (p +:+ s) p = s.
Proof.
  unfold TrimPrefix. rewrite prefix_append. unfold drop_string. rewrite length_append. replace (String.length p + String.length s - String.length p)%nat with (String.length s) by lia.
  induction p as [|c p IH]; [by apply substring_all|]. rewrite append_cons. exact IH.
Qed.

Definition midnight (d : time) : Prop := 0 <= d < year_10000 /\ d mod day_ns = 0.

Lemma Format_yyyymmdd_digits d : 0 <= d < year_10000 -> for_all is_digit (Format_yyyymmdd d) = true.
Proof.
  unfold year_10000. intros Ht. assert (day_ns = 86400000000000) as Hday by reflexivity. unfold Format_yyyymmdd, date_of.
  pose proof (civil_ok (d / day_ns)) as Hc. pose proof (civil_year (d / day_ns)) as Hy. destruct (civil (d / day_ns)) as [[y m] dd].
  destruct Hc as (_ & Hm & Hd). specialize (Hy ltac:(rewrite Hday in *; divs)).
  assert (days_in m y <= 31) as Hd31 by (unfold days_in; repeat case_match; lia).
  unfold print_year. destruct (Z.ltb_spec y 0); [lia|]. destruct (Z.ltb_spec y 10000); [|lia]. unfold pad2. cbn [for_all].
  by rewrite !is_digit_digit by divs.
Qed.
Lemma Parse_Format_yyyymmdd d : midnight d -> Parse_yyyymmdd (Format_yyyymmdd d) = Some d.
Proof.
  unfold midnight, year_10000. intros [Ht Hz]. assert (day_ns = 86400000000000) as Hday by reflexivity. unfold Format_yyyymmdd, date_of, Parse_yyyymmdd, take_date, date_ok.
  pose proof (civil_ok (d / day_ns)) as Hc. pose proof (civil_year (d / day_ns)) as Hy. destruct (civil (d / day_ns)) as [[y m] dd].
  destruct Hc as (Hdays & Hm & Hd). specialize (Hy ltac:(rewrite Hday in *; divs)).
  assert (days_in m y <= 31) as Hd31 by (unfold days_in; repeat case_match; lia).
  unfold print_year. destruct (Z.ltb_spec y 0); [lia|]. destruct (Z.ltb_spec y 10000); [|lia].
  do 4 (rewrite take2_pad2 by divs; next_field). rewrite bool_decide_eq_true_2 by done.
  assert (100 * (y / 100) + y mod 100 = y) as -> by divs.
  destruct (_ && _) eqn:E; [f_equal; rewrite Hdays, Hday in *; divs|]. exfalso. apply not_true_iff_false in E. apply E.
  rewrite !andb_true_iff, !Z.leb_le. repeat split; lia || done.
Qed.

(** Visible characters, without those of [no]. *)
Definition word (no : list ascii) (s : string) : bool := for_all (fun c => visible c && negb (bool_decide (c ∈ no))) s.
Lemma word_visible no s : word no s = true -> for_all visible s = true.
Proof. apply for_all_impl. by intros c [? _]%andb_true_iff. Qed.
Lemma word_free no c s : c ∈ no -> word no s = true -> free c s = true.
Proof.
  intros Hc. apply for_all_impl. intros a [_ Ha]%andb_true_iff. apply negb_true_iff, bool_decide_eq_false in Ha. apply negb_true_iff, Ascii.eqb_neq. by intros ->.
Qed.
Lemma word_app no s t : word no (s +:+ t) = word no s && word no t.
Proof. apply for_all_app. Qed.
Lemma word_weaken no no' s : no' ⊆ no -> word no s = true -> word no' s = true.
Proof.
  intros Hn. apply for_all_impl. intros c [Hv Hc]%andb_true_iff. apply andb_true_iff. split; [done|].
  apply negb_true_iff, bool_decide_eq_false in Hc. apply negb_true_iff, bool_decide_eq_false. set_solver.
Qed.

(** The header [Authorization] as clients write it. *)
Definition client_credential (ch : credentialHeader) : string := ch_accessKey ch +:+ String "/" (credential_getScope ch).
Definition client_authorization (ch : credentialHeader) (hs : list string) (signature : string) : string :=
  signV4Algorithm +:+ (" Credential=" +:+ client_credential ch +:+ ", SignedHeaders=" +:+ join ";" hs +:+ ", Signature=") +:+ signature.

(** What a client may write: an access key of three or more characters, a day, and
    names without the separators. *)
Record credential_ok (ch : credentialHeader) (region : string) (stype : serviceType) : Prop := {
  co_key : word [","%char] (ch_accessKey ch) = true;
  co_valid : IsAccessKeyValid (ch_accessKey ch) = true;
  co_date : midnight (ch_date ch);
  co_region : word [","; "/"]%char (ch_region ch) = true;
  co_same : isValidRegion (ch_region ch) (if bool_decide (region = "") then ch_region ch else region) = true;
  co_service : ch_service ch = service_name stype;
  co_request : ch_request ch = "aws4_request"
}.
Definition names_ok (hs : list string) : Prop := hs <> [] /\ join ";" hs <> "" /\ Forall (fun h => word [","; "="; ";"]%char h = true) hs.

Lemma digits_word no s : for_all is_digit s = true -> (forall c, c ∈ no -> is_digit c = false) -> word no s = true.
Proof.
  intros Hs Hno. eapply for_all_impl; [|exact Hs]. intros c Hc. apply andb_true_iff. split; [clear Hno; revert Hc; destruct c as [[] [] [] [] [] [] [] []]; vm_compute; done|].
  apply negb_true_iff, bool_decide_eq_false. intros Hin. specialize (Hno c Hin). congruence.
Qed.

Lemma parseCredentialHeader_client ch region stype : credential_ok ch region stype ->
  parseCredentialHeader ("Credential=" +:+ client_credential ch) region stype = inl ch /\ word [","%char] (client_credential ch) = true.
Proof.
  intros [Hk Hv Hd Hr Hsame Hs Hq].
  assert (word [","; "/"]%char (Format_yyyymmdd (ch_date ch)) = true) as Hdw.
  { apply digits_word; [apply Format_yyyymmdd_digits, Hd|]. intros c Hc. rewrite !elem_of_cons, elem_of_nil in Hc. by destruct Hc as [->|[->|[]]]. }
  assert (word [","; "/"]%char (service_name stype) = true) as Hsw by (destruct stype; reflexivity).
  assert (credential_getScope ch = join "/" [Format_yyyymmdd (ch_date ch); ch_region ch; ch_service ch; ch_request ch]) as Hsc by reflexivity.
  assert (word [","%char] (client_credential ch) = true) as Hw.
  { unfold client_credential. rewrite word_app, Hk, Hsc. cbn [andb]. unfold word. cbn [for_all]. apply (for_all_join _ "/"); [reflexivity|].
    rewrite Hs, Hq. repeat constructor; try (by apply (word_weaken [","; "/"]%char); [set_solver|]). }
  split; [|exact Hw]. unfold parseCredentialHeader.
  rewrite TrimSpace_visible by (apply (word_visible [","%char]); by rewrite word_app, Hw).
  change ("Credential=" +:+ client_credential ch) with ("Credential" +:+ String "=" (client_credential ch)). rewrite split2_sep by done.
  rewrite bool_decide_eq_true_2 by done. rewrite TrimSpace_visible by (by eapply word_visible).
  assert (Split "/" (client_credential ch) = Split "/" (ch_accessKey ch) ++ [Format_yyyymmdd (ch_date ch); ch_region ch; ch_service ch; ch_request ch]) as ->.
  { unfold client_credential. rewrite Split_app, Hsc, Split_join; [done|done|]. rewrite Hs, Hq.
    repeat constructor; try done; by apply (word_free [","; "/"]%char); [set_solver|]. }
  rewrite length_app. cbn [length]. destruct (Nat.leb_spec 5 (length (Split "/" (ch_accessKey ch)) + 4)) as [_|Hlt].
  2:{ pose proof (Split_not_nil "/" (ch_accessKey ch)). destruct (Split "/" (ch_accessKey ch)); [done|]. cbn [length] in Hlt. lia. }
  replace (length (Split "/" (ch_accessKey ch)) + 4 - 4)%nat with (length (Split "/" (ch_accessKey ch))) by lia.
  rewrite take_app_length, drop_app_length. change (String.concat SlashSeparator) with (join "/"). rewrite join_Split, Hv, Parse_Format_yyyymmdd by done.
  rewrite Hsame, Hs, Hq, !bool_decide_eq_true_2 by done. by destruct ch; cbn in *; subst.
Qed.

Lemma hex_word no s : (forall c, c ∈ no -> visible c = false \/ c ∈ [","; "="]%char) -> word no (hex s) = true.
Proof.
  intros Hno. eapply (for_all_impl (fun c => visible c && negb (bool_decide (c ∈ [","; "="]%char)))).
  - intros c [Hv Hc]%andb_true_iff. rewrite Hv. cbn [andb]. apply negb_true_iff, bool_decide_eq_false. apply negb_true_iff, bool_decide_eq_false in Hc.
    intros Hin. destruct (Hno c Hin) as [E|]; [congruence|done].
  - clear. induction s as [|c s IH]; [done|]. cbn [hex for_all]. rewrite IH, andb_true_r. each_ascii c.
Qed.

Lemma tagged_client tag missing value : word ["="%char] tag = true -> word ["="%char] value = true -> value <> "" ->
  tagged tag missing (tag +:+ String "=" value) = inl value.
Proof.
  intros Ht Hv Hne. unfold tagged. rewrite TrimSpace_visible.
  - rewrite Split_sep, Split_free by (by apply (word_free ["="%char]); [set_solver|]). by rewrite bool_decide_eq_true_2, bool_decide_eq_false_2.
  - rewrite for_all_app, (word_visible _ _ Ht). cbn [for_all andb]. by rewrite (word_visible _ _ Hv).
Qed.

Lemma parseSignV4_client ch hs signature region stype : credential_ok ch region stype -> names_ok hs -> word [","; "="]%char signature = true -> signature <> "" ->
  parseSignV4 (client_authorization ch hs signature) region stype = inl (mkSign ch hs signature).
Proof.
  intros Hch (Hn & Hj & Hhs) Hsw Hsn. destruct (parseCredentialHeader_client ch region stype Hch) as [Hparse Hcw].
  assert (word [","; "="]%char (join ";" hs) = true) as Hjw.
  { apply for_all_join; [done|]. eapply Forall_impl; [exact Hhs|]. intros h. apply word_weaken. set_solver. }
  assert (forall no, no ⊆ [","; "="]%char -> word no (join ";" hs) = true /\ word no signature = true) as Hw2 by (by intros no Hno; split; apply (word_weaken [","; "="]%char)).
  destruct (Hw2 [","%char] ltac:(set_solver)) as [Hjc Hsc]. destruct (Hw2 ["="%char] ltac:(set_solver)) as [Hje Hse].
  pose proof (word_visible _ _ Hjc) as Hjv. pose proof (word_visible _ _ Hsc) as Hsv. pose proof (word_visible _ _ Hcw) as Hcv.
  assert (client_authorization ch hs signature = (signV4Algorithm +:+ String " " ("Credential=" +:+ client_credential ch)) +:+ String "," (" SignedHeaders=" +:+ join ";" hs +:+ ", Signature=" +:+ signature)) as Ha.
  { unfold client_authorization. rewrite !append_assoc. reflexivity. }
  unfold parseSignV4. assert (TrimSpace (client_authorization ch hs signature) = client_authorization ch hs signature) as -> by (by apply TrimSpace_between).
  assert (head (Split "," (client_authorization ch hs signature)) = Some (signV4Algorithm +:+ String " " ("Credential=" +:+ client_credential ch))) as ->.
  { rewrite Ha, Split_sep; [done|]. unfold free. rewrite for_all_app. cbn [for_all]. rewrite for_all_app. fold (free "," (client_credential ch)).
    by rewrite (word_free [","%char] "," (client_credential ch)) by (done || set_solver). }
  change (default "" (Some ?x)) with x. rewrite TrimPrefix_app, TrimSpace_lead by (by rewrite for_all_app, Hcv).
  assert (ReplaceAll " " "" (client_authorization ch hs signature) = signV4Algorithm +:+ ("Credential=" +:+ client_credential ch) +:+ String "," (("SignedHeaders" +:+ String "=" (join ";" hs)) +:+ String "," ("Signature" +:+ String "=" signature))) as ->.
  { unfold client_authorization. rewrite !ReplaceAll_app, (ReplaceAll_free " " "" (client_credential ch)), (ReplaceAll_free " " "" (join ";" hs)), (ReplaceAll_free " " "" signature) by (by apply visible_no_space).
    rewrite !append_assoc. reflexivity. }
  rewrite bool_decide_eq_false_2 by done. cbn [negb]. rewrite prefix_append, TrimPrefix_app, TrimSpace_visible.
  2:{ rewrite !for_all_app. cbn [for_all]. rewrite !for_all_app. cbn [for_all]. rewrite !for_all_app. cbn [for_all]. by rewrite Hcv, Hjv, Hsv. }
  rewrite Split_sep, Split_sep, Split_free.
  - rewrite Hparse. unfold parseSignedHeader, parseSignature. rewrite !tagged_client by done. rewrite Split_join; [done|done|].
    eapply Forall_impl; [exact Hhs|]. intros h. apply word_free. set_solver.
  - unfold free. rewrite for_all_app. cbn [for_all]. fold (free "," signature). by rewrite (word_free [","%char] "," signature) by (done || set_solver).
  - unfold free. rewrite for_all_app. cbn [for_all]. fold (free "," (join ";" hs)). by rewrite (word_free [","%char] "," (join ";" hs)) by (done || set_solver).
  - unfold free. rewrite for_all_app. fold (free "," (client_credential ch)). by rewrite (word_free [","%char] "," (client_credential ch)) by (done || set_solver).
Qed.

(** C14: a properly signed request is accepted.  When a client writes the header
    [Authorization] with its credential, a list of header names and the signature of
    the request under its secret, the server reads them back and accepts the
    request: for every access key without a comma, day, region and names without
    separators, if the named headers are there, the key is valid and the request
    has a date. *)
Theorem signed_request_accepted {C : Crypto} {CL : CryptoLaws C} `{MapOrder} {U : Identity} hp r region stype ch hs ex cred owner t :
  let signature := request_signature (cr_SecretKey cred) stype r ch ex hp (Values_Encode (rq_Form r)) t in
  credential_ok ch region stype -> names_ok hs ->
  Header_Get (rq_Header r) "Authorization" = client_authorization ch hs signature ->
  extractSignedHeaders hs r = inl ex -> checkKeyValid r (ch_accessKey ch) = inl (cred, owner) -> request_date r = inl t ->
  parseSignV4 (Header_Get (rq_Header r) "Authorization") region stype = inl (mkSign ch hs signature) /\
  doesSignatureMatch hp r region stype = inl tt.
Proof.
  intros signature Hch Hhs Ha He Hk Ht.
  assert (parseSignV4 (Header_Get (rq_Header r) "Authorization") region stype = inl (mkSign ch hs signature)) as Hp.
  { rewrite Ha. apply parseSignV4_client; [done|done|apply hex_word; set_solver|].
    intros E. apply (f_equal String.length) in E. unfold signature, request_signature, getSignature in E. by rewrite length_hex, hmac_length in E. }
  split; [exact Hp|]. apply doesSignatureMatch_inv. by exists (mkSign ch hs signature), ex, cred, owner, t.
Qed.

(** ** Examples *)

Section Example.
#[local] Existing Instance toy_crypto.
#[local] Existing Instance toy_crypto_laws.
#[local] Existing Instance toy_identity.
#[local] Existing Instance toy_durations.

(** June 1st, 2022, 12:00. *)
Definition sample_date : time := (days_civil 2022 6 1 * 24 + 12) * hour.
Definition sample_ch : credentialHeader := mkCred "testuser" (days_civil 2022 6 1 * day_ns) "us-east-1" "s3" "aws4_request".

(** A download by a link that is valid for an hour. *)
Definition link_params : header :=
  list_to_map [(AmzAlgorithm, [signV4Algorithm]); (AmzCredential, ["testuser/20220601/us-east-1/s3/aws4_request"]); (AmzDate, ["20220601T120000Z"]);
               (AmzExpires, ["3600"]); (AmzSignedHeaders, ["host"]); ("versionId", ["null"])].
Definition link_signature : string :=
  request_signature "testsecret" serviceS3 (mkRequest "GET" "/bucket/object" "localhost:9000" ∅ ∅ [] 0) sample_ch (list_to_map [("Host", ["localhost:9000"])])
    unsignedPayload (Values_Encode link_params) sample_date.
Definition link_form : header := <[AmzSignature := [link_signature]]> link_params.
Definition link_request : Request := mkRequest "GET" "/bucket/object" "localhost:9000" ∅ link_form [] 0.
Definition link_now : time := sample_date + 59 * minute.


(** A link to upload with a payload hash in a signed header: the signature covers the
    hash, and the body is compared with nothing. *)
Definition put_hash : string := hex (sha256 "content").
Definition put_link_params : header := <[AmzSignedHeaders := ["host;x-amz-content-sha256"]]> link_params.
Definition put_link_extracted : header := list_to_map [("Host", ["localhost:9000"]); (AmzContentSha256, [put_hash])].
Definition put_link_signature : string :=
  request_signature "testsecret" serviceS3 (mkRequest "PUT" "/bucket/object" "localhost:9000" ∅ ∅ [] 0) sample_ch put_link_extracted
    put_hash (Values_Encode put_link_params) sample_date.
Definition put_link_request : Request :=
  mkRequest "PUT" "/bucket/object" "localhost:9000" (list_to_map [(AmzContentSha256, [put_hash])]) (<[AmzSignature := [put_link_signature]]> put_link_params) [] 7.
Lemma presigned_payload_unchecked :
  getContentSha256Cksum "" put_link_request serviceS3 = put_hash /\
  isReqAuthenticated link_now link_now "" true false put_link_request "us-east-1" serviceS3 = inl "".
Proof. split; vm_compute; reflexivity. Qed.

(** The same request, sent with a further header that is not signed. *)
Definition get_form : header := list_to_map [("versionId", ["null"]); ("response-content-type", ["text/plain; charset=utf-8"])].
Definition get_request (agent : string) (auth : list string) : Request :=
  mkRequest "GET" "/bucket/my object" "localhost:9000"
    (list_to_map [("Authorization", auth); ("User-Agent", [agent]); ("X-Amz-Date", ["20220601T120000Z"])]) get_form [] 0.
Definition get_names : list string := ["host"; "x-amz-date"].
Definition get_extracted : header := list_to_map [("Host", ["localhost:9000"]); ("X-Amz-Date", ["20220601T120000Z"])].
Definition get_signature : string :=
  request_signature "testsecret" serviceS3 (get_request "" []) sample_ch get_extracted emptySHA256 (Values_Encode get_form) sample_date.
Definition get_signed (agent : string) : Request := get_request agent [client_authorization sample_ch get_names get_signature].

Lemma sample_credential_ok : credential_ok sample_ch "us-east-1" serviceS3.
Proof. split; try (vm_compute; reflexivity). split; [split|]; vm_compute; done. Qed.
Lemma get_names_ok : names_ok get_names.
Proof. split_and!; [done|done|]. repeat constructor. Qed.

Lemma signed_request_accepted_witness :
  parseSignV4 (Header_Get (rq_Header (get_signed "curl")) "Authorization") "us-east-1" serviceS3 = inl (mkSign sample_ch get_names get_signature) /\
  doesSignatureMatch emptySHA256 (get_signed "curl") "us-east-1" serviceS3 = inl tt.
Proof.
  apply (signed_request_accepted emptySHA256 (get_signed "curl") "us-east-1" serviceS3 sample_ch get_names get_extracted toy_user false sample_date
    sample_credential_ok get_names_ok); vm_compute; reflexivity.
Defined.

Lemma signature_binds_request_witness :
  let r1 := get_signed "curl" in let r2 := get_signed "wget" in
  rq_Method r1 = rq_Method r2 /\ EncodePath (rq_Path r1) = EncodePath (rq_Path r2) /\
  (forall k, default [] (rq_Form r1 !! k) = default [] (rq_Form r2 !! k)) /\
  Format_iso8601Z sample_date = Format_iso8601Z sample_date /\ emptySHA256 = emptySHA256 /\ signed_names get_extracted = signed_names get_extracted /\
  forall n, n ∈ signed_names get_extracted -> canonical_value get_extracted n = canonical_value get_extracted n.
Proof.
  apply (signature_binds_request emptySHA256 emptySHA256 (get_signed "curl") (get_signed "wget") "us-east-1" serviceS3
    (mkSign sample_ch get_names get_signature) (mkSign sample_ch get_names get_signature) get_extracted get_extracted sample_date sample_date);
    [|vm_compute; reflexivity..|intros _ _; reflexivity|intros _; reflexivity].
  intros s Hs. rewrite !elem_of_cons, elem_of_nil in Hs. destruct Hs as [->|[->|[->|[->|[->|[->|[]]]]]]]; vm_compute; reflexivity.
Defined.
End Example.
