(* ===== verification/ChunkedReader.v ===== *)
(** * Streamed uploads with signed chunks ([cmd/streaming-signature-v4.go])

    The body of a streamed upload is a sequence of chunks, each with its size in
    hexadecimal and a signature that covers its bytes and the signature before it;
    the last chunk is empty.  [Read] decodes the body: this file models it with the
    buffer it keeps between calls, and shows that it delivers the bytes of a body
    that was signed as the protocol says, and never a byte of a chunk whose
    signature it has not verified. *)

From Stdlib Require Import Ascii.
From S2P Require Import Prelude FileInfo Quorum Restore HTTPRange ObjectRead XLRead ObjectMeta Calendar SignV4.

(** ** Reading the parts of a chunk *)

Definition errMalformedEncoding : error := ErrNew "malformed chunked encoding".
Definition errChunkTooBig : error := ErrNew "chunk too big: choose chunk size <= 16MiB".
Definition errSignatureMismatch : error := ErrNew "Signature does not match".
Definition maxChunkSize : Z := Z.shiftl 16 20.

(** A computation on the underlying reader. *)
Definition rM (A : Type) : Type := stream -> stream * result A.
Definition rbind {A B} (c : rM A) (k : A -> rM B) : rM B := fun r =>
  match c r with (r, Err e) => (r, Err e) | (r, Ok a) => k a r end.

Declare Scope chunk_scope.
Delimit Scope chunk_scope with chunk.
Notation "'get!' x ':=' c 'in' k" := (rbind c (fun x => k)) (at level 10, x pattern, k at level 200) : chunk_scope.
Local Open Scope chunk_scope.

Definition rret {A} (a : A) : rM A := fun r => (r, Ok a).
Definition rfail {A} (e : error) : rM A := fun r => (r, Err e).

(** [io.EOF] in the middle of the body. *)
Definition unexpected (e : error) : error := if bool_decide (e = EOF) then ErrUnexpectedEOF else e.

Definition ReadByte : rM byte := fun r =>
  match st_data r with
  | [] => (r, Err (st_end r))
  | b :: data => (mkStream data (st_end r), Ok b)
  end.
Definition next_byte : rM byte := fun r => let '(r, b) := ReadByte r in (r, match b with Err e => Err (unexpected e) | Ok b => Ok b end).

Definition byte_Z (b : byte) : Z := Z.of_N (Byte.to_N b).
Definition hex_value (b : byte) : option Z :=
  let z := byte_Z b in
  if (48 <=? z) && (z <=? 57) then Some (z - 48)
  else if (97 <=? z) && (z <=? 102) then Some (z - (97 - 10))
  else if (65 <=? z) && (z <=? 70) then Some (z - (65 - 10))
  else None.

(** The size of a chunk, up to the semicolon. *)
Fixpoint read_size (data : bytes) (end_ : error) (size : Z) : bytes * result Z :=
  match data with
  | [] => ([], Err (unexpected end_))
  | b :: data =>
      if bool_decide (b = Byte.x3b) then (data, Ok size)
      else match hex_value b with
           | None => (data, Err errMalformedEncoding)
           | Some d =>
               let size := Z.lor (Z.shiftl size 4) d in
               if maxChunkSize <? size then (data, Err errChunkTooBig) else read_size data end_ size
           end
  end.
Definition chunk_size : rM Z := fun r => let '(data, size) := read_size (st_data r) (st_end r) 0 in (mkStream data (st_end r), size).

Definition to_bytes (s : string) : bytes := String.list_byte_of_string s.
Definition of_bytes (b : bytes) : string := String.string_of_list_byte b.
Definition signature_tag : bytes := to_bytes "chunk-signature=".

Definition read_full (n : nat) : rM bytes := fun r =>
  let '(r, b, err) := ReadFull r n in (r, match err with None => Ok b | Some e => Err (unexpected e) end).

Definition expect (b : byte) : rM unit := get! a := next_byte in if bool_decide (a = b) then rret tt else rfail errMalformedEncoding.

(** The line before the bytes of a chunk: its size and its signature. *)
Definition chunk_line : rM (Z * bytes) :=
  get! size := chunk_size in
  get! signature := read_full 80 in
  if negb (bool_decide (take 16 signature = signature_tag)) then rfail errMalformedEncoding
  else get! _ := expect Byte.x0d in
       get! _ := expect Byte.x0a in
       rret (size, drop 16 signature).

(** The end of a chunk; the error of the first byte is not looked at. *)
Definition chunk_end : rM unit := fun r =>
  match ReadByte r with
  | (r, Ok b) => if bool_decide (b = Byte.x0d) then expect Byte.x0a r else (r, Err errMalformedEncoding)
  | (r, Err _) => (r, Err errMalformedEncoding)
  end.

(** ** The reader *)

(** [sc_hash] is what was written to the hash since its last reset; after a failed
    read the buffer is what was read of the chunk. *)
Record s3ChunkedReader := mkChunked {
  sc_reader : stream;
  sc_seed : string;
  sc_hash : bytes;
  sc_buffer : bytes;
  sc_offset : nat;
  sc_err : option error
}.

Section Chunked.
Context {C : Crypto} (cred : Credentials) (region : string) (seedDate : time).

Definition chunk_signature (seed : string) (chunk : bytes) : string :=
  getChunkSignature cred seed region seedDate (hex (sha256 (of_bytes chunk))).

(** The return of an error, with the bytes delivered before it. *)
Definition chunk_fails (cr : s3ChunkedReader) (out : bytes) (e : error) : s3ChunkedReader * (bytes * option error) :=
  (mkChunked (sc_reader cr) (sc_seed cr) (sc_hash cr) (sc_buffer cr) (sc_offset cr) (Some e), (out, Some e)).

(** The next chunk, into a buffer of [n] bytes, after the bytes [out]. *)
Definition next_chunk (cr : s3ChunkedReader) (out : bytes) (n : nat) : s3ChunkedReader * (bytes * option error) :=
  let at_ r buffer hash := mkChunked r (sc_seed cr) hash buffer (sc_offset cr) (sc_err cr) in
  match chunk_line (sc_reader cr) with
  | (r, Err e) => chunk_fails (at_ r (sc_buffer cr) (sc_hash cr)) out e
  | (r, Ok (size, signature)) =>
      let '(r, buffer, err) := ReadFull r (Z.to_nat size) in
      let err := if bool_decide (err = Some EOF) && negb (size =? 0) then Some ErrUnexpectedEOF else err in
      match (if bool_decide (err = Some EOF) then None else err) with
      | Some e => chunk_fails (at_ r buffer (sc_hash cr)) out e
      | None =>
          match chunk_end r with
          | (r, Err e) => chunk_fails (at_ r buffer (sc_hash cr)) out e
          | (r, Ok _) =>
              let hash := sc_hash cr ++ buffer in
              let newSignature := chunk_signature (sc_seed cr) hash in
              if negb (compareSignatureV4 (of_bytes signature) newSignature)
              then chunk_fails (at_ r buffer hash) out errSignatureMismatch
              else if size =? 0 then chunk_fails (mkChunked r newSignature [] buffer (sc_offset cr) (sc_err cr)) out EOF
              else (mkChunked r newSignature [] buffer (Nat.min n (length buffer)) (sc_err cr), (out ++ take n buffer, None))
          end
      end
  end.

(** [Read] with a buffer of [n] bytes: the bytes delivered and the error. *)
Definition s3ChunkedReader_Read (cr : s3ChunkedReader) (n : nat) : s3ChunkedReader * (bytes * option error) :=
  if (0 <? sc_offset cr)%nat then
    let rest := drop (sc_offset cr) (sc_buffer cr) in
    if (n <=? length rest)%nat
    then (mkChunked (sc_reader cr) (sc_seed cr) (sc_hash cr) (sc_buffer cr) (sc_offset cr + n) (sc_err cr), (take n rest, None))
    else next_chunk (mkChunked (sc_reader cr) (sc_seed cr) (sc_hash cr) (sc_buffer cr) 0 (sc_err cr)) rest (n - length rest)
  else next_chunk cr [] n.

(** A caller that reads with buffers of the given sizes until an error. *)
Fixpoint read_all (sizes : list nat) (cr : s3ChunkedReader) : bytes * option error :=
  match sizes with
  | [] => ([], None)
  | n :: sizes =>
      match s3ChunkedReader_Read cr n with
      | (_, (out, Some e)) => (out, Some e)
      | (cr, (out, None)) => let '(rest, err) := read_all sizes cr in (out ++ rest, err)
      end
  end.
End Chunked.

(** The reader of a request with its credentials, region and date, which do not
    change: the first signature of the chain is the one of the headers. *)
Definition newSignV4ChunkedReader {C : Crypto} `{MapOrder} {U : Identity} (req : Request) (siteRegion : string) (body : stream)
    : coded (Credentials * string * time * s3ChunkedReader) :=
  (let! (cred, seedSignature, region, seedDate) := calculateSeedSignature req siteRegion in
   inl (cred, region, seedDate, mkChunked body seedSignature [] [] 0 None))%sign.

(** ** The protocol *)

(** The number of a size field, after the digits read so far. *)
Fixpoint size_from (v : Z) (digits : bytes) : option Z :=
  match digits with
  | [] => Some v
  | b :: digits => d ← hex_value b; size_from (v * 16 + d) digits
  end.

Definition crlf : bytes := [Byte.x0d; Byte.x0a].
Definition frame (digits : bytes) (signature : string) (chunk : bytes) : bytes :=
  digits ++ Byte.x3b :: signature_tag ++ to_bytes signature ++ crlf ++ chunk ++ crlf.

(** [signed_body seed chunks body]: the body is the frames of the chunks, each
    signed over the signature before it, starting with [seed]. *)
Inductive signed_body `{Crypto} (cred : Credentials) (region : string) (date : time) : string -> list bytes -> bytes -> Prop :=
| signed_nil seed : signed_body cred region date seed [] []
| signed_cons seed digits chunk chunks body :
    size_from 0 digits = Some (len chunk) -> len chunk <= maxChunkSize ->
    signed_body cred region date (chunk_signature cred region date seed chunk) chunks body ->
    signed_body cred region date seed (chunk :: chunks) (frame digits (chunk_signature cred region date seed chunk) chunk ++ body).

(** ** Facts *)

Lemma hex_value_range b d : hex_value b = Some d -> 0 <= d < 16.
Proof. unfold hex_value. repeat case_match; intros [= <-]; lia. Qed.

Lemma shift_or size d : 0 <= size -> 0 <= d < 16 -> Z.lor (Z.shiftl size 4) d = size * 16 + d.
Proof.
  intros Hs Hd. pose proof (Z.add_lor_land (Z.shiftl size 4) d) as Ha.
  assert (Z.land (Z.shiftl size 4) d = 0) as Hl; [|rewrite Hl, (Z.shiftl_mul_pow2 size 4) in Ha by lia; rewrite Z.shiftl_mul_pow2 by lia; lia]. clear Ha.
  apply Z.bits_inj'. intros i Hi. rewrite Z.land_spec, Z.bits_0. destruct (decide (i < 4)).
  - by rewrite Z.shiftl_spec_low by lia.
  - assert (Z.log2 d < 4). { destruct (decide (d = 0)) as [->|]; [done|]. apply Z.log2_lt_pow2; lia. }
    by rewrite (Z.bits_above_log2 d), andb_false_r by lia.
Qed.

Lemma size_from_mono digits : forall v n, 0 <= v -> size_from v digits = Some n -> v <= n.
Proof.
  induction digits as [|b digits IH]; intros v n Hv; cbn [size_from]; [intros [= <-]; lia|].
  destruct (hex_value b) as [d|] eqn:E; [|done]. cbn [mbind option_bind]. apply hex_value_range in E. intros Hn. apply IH in Hn; lia.
Qed.

Lemma read_size_digits digits : forall v n rest e, 0 <= v -> size_from v digits = Some n -> n <= maxChunkSize ->
  read_size (digits ++ Byte.x3b :: rest) e v = (rest, Ok n).
Proof.
  induction digits as [|b digits IH]; intros v n rest e Hv; cbn [size_from read_size app].
  { intros [= ->] _. by rewrite bool_decide_eq_true_2. }
  destruct (hex_value b) as [d|] eqn:E; [|done]. cbn [mbind option_bind]. pose proof (hex_value_range b d E). intros Hn Hmax.
  rewrite bool_decide_eq_false_2 by (intros ->; by vm_compute in E).
  rewrite shift_or by lia. pose proof (size_from_mono digits (v * 16 + d) n ltac:(lia) Hn). destruct (Z.ltb_spec maxChunkSize (v * 16 + d)); [lia|].
  by apply IH; [lia|..].
Qed.

Lemma read_size_inv data e : forall v rest n, 0 <= v <= maxChunkSize -> read_size data e v = (rest, Ok n) ->
  exists digits, data = digits ++ Byte.x3b :: rest /\ size_from v digits = Some n /\ 0 <= n <= maxChunkSize.
Proof.
  induction data as [|b data IH]; intros v rest n Hv; cbn [read_size]; [done|].
  case_bool_decide as Hb; [intros [= -> ->]; by exists []; subst|].
  destruct (hex_value b) as [d|] eqn:E; [|done]. pose proof (hex_value_range b d E). rewrite shift_or by lia.
  destruct (Z.ltb_spec maxChunkSize (v * 16 + d)); [done|]. intros Hr. destruct (IH (v * 16 + d) rest n ltac:(lia) Hr) as (ds & -> & Hs & Hn).
  exists (b :: ds). cbn [size_from app]. rewrite E. done.
Qed.

Lemma unexpected_not_EOF e : unexpected e <> EOF.
Proof. unfold unexpected. by case_bool_decide. Qed.

Lemma of_to_bytes s : of_bytes (to_bytes s) = s.
Proof. apply String.string_of_list_byte_of_string. Qed.
Lemma to_of_bytes b : to_bytes (of_bytes b) = b.
Proof. apply String.list_byte_of_string_of_list_byte. Qed.
Lemma length_to_bytes s : length (to_bytes s) = String.length s.
Proof. unfold to_bytes, String.list_byte_of_string. rewrite length_map. induction s; cbn; by f_equal. Qed.

Lemma expect_ok b data e : expect b (mkStream (b :: data) e) = (mkStream data e, Ok tt).
Proof. unfold expect, rbind, next_byte. cbn. by rewrite bool_decide_eq_true_2. Qed.
Lemma expect_inv b r r' : expect b r = (r', Ok tt) -> st_data r = b :: st_data r' /\ st_end r' = st_end r.
Proof.
  destruct r as [[|a data] e]; unfold expect, rbind, next_byte; cbn; [done|].
  case_bool_decide; [|done]. intros [= <-]. by subst.
Qed.
Lemma expect_err b r r' e : expect b r = (r', Err e) -> e <> EOF.
Proof.
  destruct r as [[|a data] e']; unfold expect, rbind, next_byte; cbn; [intros [= _ <-]; apply unexpected_not_EOF|].
  case_bool_decide; [done|]. by intros [= _ <-].
Qed.

Section Facts.
Context {C : Crypto} {CL : CryptoLaws C} (cred : Credentials) (region : string) (date : time).
Local Abbreviation sig := (chunk_signature cred region date).
Local Abbreviation next_chunk := (next_chunk cred region date).
Local Abbreviation signed_body := (signed_body cred region date).

Lemma sig_length seed c : length (to_bytes (sig seed c)) = 64%nat.
Proof. unfold chunk_signature, getChunkSignature, getSignature. by rewrite length_to_bytes, length_hex, hmac_length. Qed.

Lemma chunk_line_frame digits n sg rest e : size_from 0 digits = Some n -> n <= maxChunkSize -> length sg = 64%nat ->
  chunk_line (mkStream (digits ++ Byte.x3b :: signature_tag ++ sg ++ crlf ++ rest) e) = (mkStream rest e, Ok (n, sg)).
Proof.
  intros Hs Hn Hl. unfold chunk_line, rbind, chunk_size. cbn [st_data st_end].
  rewrite (read_size_digits digits 0 n) by (done || lia). unfold read_full, ReadFull. cbn [st_data st_end].
  assert (length (signature_tag ++ sg) = 80%nat) as Hl80 by (rewrite length_app, Hl; done).
  rewrite (app_assoc signature_tag). rewrite length_app, Hl80. cbn [Nat.leb Nat.add].
  replace (take 80 ((signature_tag ++ sg) ++ crlf ++ rest)) with (signature_tag ++ sg) by (rewrite <-Hl80; by rewrite take_app_length).
  replace (drop 80 ((signature_tag ++ sg) ++ crlf ++ rest)) with (crlf ++ rest) by (rewrite <-Hl80; by rewrite drop_app_length).
  assert (take 16 (signature_tag ++ sg) = signature_tag) as -> by reflexivity.
  assert (drop 16 (signature_tag ++ sg) = sg) as -> by reflexivity.
  rewrite bool_decide_eq_true_2 by done. cbn [negb crlf app]. by rewrite !expect_ok.
Qed.

Lemma chunk_line_inv r r' n sg : chunk_line r = (r', Ok (n, sg)) -> exists digits,
  st_data r = digits ++ Byte.x3b :: signature_tag ++ sg ++ crlf ++ st_data r' /\ size_from 0 digits = Some n /\
  0 <= n <= maxChunkSize /\ st_end r' = st_end r.
Proof.
  unfold chunk_line, rbind, chunk_size.
  destruct (read_size (st_data r) (st_end r) 0) as [data [size|e]] eqn:Es; [|done].
  apply read_size_inv in Es as (digits & Hd & Hsz & Hn); [|done].
  unfold read_full, ReadFull. cbn [st_data st_end]. destruct (Nat.leb_spec 80 (length data)); [|done].
  case_bool_decide as Ht; [|done]. cbn [negb]. destruct (expect Byte.x0d _) as [r1 [[]|e]] eqn:E1; [|done].
  destruct (expect Byte.x0a r1) as [r2 [[]|e]] eqn:E2; [|done]. intros [= <- <- <-].
  apply expect_inv in E1 as [E1 He1], E2 as [E2 He2]. cbn [st_data st_end] in *. exists digits. split_and!; [|done|lia|lia|congruence].
  rewrite Hd. do 2 f_equal. rewrite <-(take_drop 80 data) at 1. rewrite E1, E2. rewrite <-(take_drop 16 (take 80 data)) at 1.
  by rewrite Ht, <-!app_assoc.
Qed.

Lemma chunk_line_err r r' e : chunk_line r = (r', Err e) -> e <> EOF.
Proof.
  unfold chunk_line, rbind, chunk_size. destruct (read_size (st_data r) (st_end r) 0) as [data [size|e1]] eqn:Es.
  - unfold read_full. destruct (ReadFull _ 80) as [[r1 b] [e1|]]; [intros [= _ <-]; apply unexpected_not_EOF|].
    case_bool_decide; cbn [negb]; [|by intros [= _ <-]].
    destruct (expect Byte.x0d r1) as [r2 [[]|e1]] eqn:E1; [|intros [= _ <-]; by eapply expect_err].
    destruct (expect Byte.x0a r2) as [r3 [[]|e1]] eqn:E2; [done|intros [= _ <-]; by eapply expect_err].
  - intros [= _ <-]. revert Es. generalize 0. induction (st_data r) as [|b d IH]; cbn [read_size]; [intros ? [= _ <-]; apply unexpected_not_EOF|].
    intros v. case_bool_decide; [done|]. destruct (hex_value b); [|by intros [= _ <-]]. case_match; [by intros [= _ <-]|apply IH].
Qed.

Lemma chunk_end_ok data e : chunk_end (mkStream (crlf ++ data) e) = (mkStream data e, Ok tt).
Proof. unfold chunk_end. cbn [ReadByte st_data st_end crlf app]. by rewrite bool_decide_eq_true_2, expect_ok. Qed.

Lemma chunk_end_inv r r' : chunk_end r = (r', Ok tt) -> st_data r = crlf ++ st_data r'.
Proof.
  destruct r as [[|b data] e]; unfold chunk_end; cbn [ReadByte st_data st_end]; [done|].
  case_bool_decide; [|done]. intros E. apply expect_inv in E as [E _]. cbn [st_data] in E. by subst.
Qed.

Lemma chunk_end_err r r' e : chunk_end r = (r', Err e) -> e <> EOF.
Proof.
  destruct r as [[|b data] e']; unfold chunk_end; cbn [ReadByte st_data st_end]; [by intros [= _ <-]|].
  case_bool_decide; [apply expect_err|by intros [= _ <-]].
Qed.

Lemma next_chunk_ok digits chunk seed rest e buf off err out n : size_from 0 digits = Some (len chunk) -> len chunk <= maxChunkSize ->
  next_chunk (mkChunked (mkStream (frame digits (sig seed chunk) chunk ++ rest) e) seed [] buf off err) out n =
  if bool_decide (chunk = []) then (mkChunked (mkStream rest e) (sig seed []) [] [] off (Some EOF), (out, Some EOF))
  else (mkChunked (mkStream rest e) (sig seed chunk) [] chunk (Nat.min n (length chunk)) err, (out ++ take n chunk, None)).
Proof.
  intros Hs Hn. unfold ChunkedReader.next_chunk. cbn [sc_reader sc_seed sc_hash sc_buffer sc_offset sc_err].
  unfold frame. rewrite <-!app_assoc, <-app_comm_cons, <-!app_assoc, (chunk_line_frame digits (len chunk) _ (chunk ++ crlf ++ rest)) by (done || apply sig_length).
  rewrite Nat2Z.id. unfold ReadFull. cbn [st_data st_end]. rewrite length_app. destruct (Nat.leb_spec (length chunk) (length chunk + length (crlf ++ rest))); [|lia].
  rewrite take_app_length, drop_app_length. rewrite !bool_decide_eq_false_2 by done. cbn [andb].
  rewrite chunk_end_ok, of_to_bytes. unfold compareSignatureV4. cbn [app]. rewrite bool_decide_eq_true_2 by done. cbn [negb].
  destruct chunk as [|b chunk]; [done|]. by rewrite bool_decide_eq_false_2.
Qed.

Lemma next_chunk_inv cr out n cr' o err : sc_hash cr = [] -> next_chunk cr out n = (cr', (o, err)) ->
  (exists digits chunk, st_data (sc_reader cr) = frame digits (sig (sc_seed cr) chunk) chunk ++ st_data (sc_reader cr') /\
     size_from 0 digits = Some (len chunk) /\ len chunk <= maxChunkSize /\ sc_seed cr' = sig (sc_seed cr) chunk /\ sc_hash cr' = [] /\
     if bool_decide (chunk = []) then o = out /\ err = Some EOF
     else sc_buffer cr' = chunk /\ sc_offset cr' = Nat.min n (length chunk) /\ o = out ++ take n chunk /\ err = None) \/
  (exists e, err = Some e /\ e <> EOF /\ o = out).
Proof.
  intros Hh. unfold ChunkedReader.next_chunk, chunk_fails.
  destruct (chunk_line (sc_reader cr)) as [r [[size sg]|e]] eqn:El; [|intros [= <- <- <-]; right; exists e; split_and!; [done| |done]; by eapply chunk_line_err].
  apply chunk_line_inv in El as (digits & Hd & Hs & Hn & _).
  unfold ReadFull. destruct (Nat.leb_spec (Z.to_nat size) (length (st_data r))) as [Hl|Hl].
  2:{ generalize (if negb (bool_decide (st_data r = [])) && bool_decide (st_end r = EOF) then ErrUnexpectedEOF else st_end r). intros err0. rewrite (proj2 (Z.eqb_neq size 0)) by lia. cbn [negb]. rewrite andb_true_r.
      repeat (case_bool_decide; try done); intros [= <- <- <-]; right; eexists; split_and!; done || congruence. }
  rewrite !bool_decide_eq_false_2 by done. cbn [andb].
  destruct (chunk_end _) as [r2 [[]|e]] eqn:Ee; [|intros [= <- <- <-]; right; exists e; split_and!; [done| |done]; by eapply chunk_end_err].
  apply chunk_end_inv in Ee. cbn [st_data] in Ee. rewrite Hh. cbn [app]. unfold compareSignatureV4.
  set (chunk := take (Z.to_nat size) (st_data r)) in *. case_bool_decide as Hsig; cbn [negb]; [|intros [= <- <- <-]; right; by exists errSignatureMismatch].
  assert (len chunk = size) as Hlc by (unfold chunk; rewrite length_take; lia).
  assert (sg = to_bytes (sig (sc_seed cr) chunk)) as Hsg by (by rewrite <-Hsig, to_of_bytes).
  assert (st_data r = chunk ++ crlf ++ st_data r2) as Hr by (unfold chunk; rewrite <-Ee; by rewrite take_drop).
  destruct (Z.eqb_spec size 0) as [H0|H0]; intros [= <- <- <-]; left; exists digits, chunk; cbn [sc_reader sc_seed sc_hash sc_buffer sc_offset];
    (split_and!; [rewrite Hd, Hr, Hsg; unfold frame; by rewrite <-!app_assoc, <-app_comm_cons, <-!app_assoc|congruence|lia|done..|]).
  - by rewrite bool_decide_eq_true_2 by (apply length_zero_iff_nil; lia).
  - by rewrite bool_decide_eq_false_2 by (intros Hc; rewrite Hc in Hlc; cbn in Hlc; lia).
Qed.

(** *** Reads *)

(** What a reader holds of the chunk it last verified and has not delivered. *)
Definition pending (cr : s3ChunkedReader) : bytes := if (0 <? sc_offset cr)%nat then drop (sc_offset cr) (sc_buffer cr) else [].

Lemma pending_after r seed h c err n : (0 < n)%nat -> c <> [] -> pending (mkChunked r seed h c (Nat.min n (length c)) err) = drop n c.
Proof.
  intros Hn Hc. assert (0 < length c)%nat by (destruct c; [done|cbn; lia]).
  unfold pending. cbn [sc_offset sc_buffer]. destruct (Nat.ltb_spec 0 (Nat.min n (length c))); [|lia].
  destruct (decide (n <= length c)%nat); [by rewrite Nat.min_l|]. rewrite Nat.min_r by lia. rewrite !drop_ge; done || lia.
Qed.

Lemma signed_app seed cs b cs' b' : signed_body seed cs b -> signed_body (foldl sig seed cs) cs' b' -> signed_body seed (cs ++ cs') (b ++ b').
Proof.
  induction 1 as [|seed digits c cs b Hs Hn Hb IH]; cbn [foldl app]; [done|]. intros Hb'.
  rewrite <-app_assoc. constructor; auto.
Qed.

(** A read either serves from what is pending or goes on to the next chunk. *)
Lemma Read_cases cr n : 
  ((n <= length (pending cr))%nat /\ exists cr', s3ChunkedReader_Read cred region date cr n = (cr', (take n (pending cr), None)) /\
     sc_reader cr' = sc_reader cr /\ sc_seed cr' = sc_seed cr /\ sc_hash cr' = sc_hash cr /\ pending cr' = drop n (pending cr)) \/
  ((length (pending cr) < n \/ n = 0)%nat /\ s3ChunkedReader_Read cred region date cr n =
     next_chunk (mkChunked (sc_reader cr) (sc_seed cr) (sc_hash cr) (sc_buffer cr) 0 (sc_err cr)) (pending cr) (n - length (pending cr))).
Proof.
  unfold s3ChunkedReader_Read, pending. destruct (Nat.ltb_spec 0 (sc_offset cr)) as [Ho|Ho].
  - destruct (Nat.leb_spec n (length (drop (sc_offset cr) (sc_buffer cr)))); [left|right; split; [lia|done]].
    split; [lia|]. eexists. split; [reflexivity|]. cbn [sc_reader sc_seed sc_hash sc_offset sc_buffer]. split_and!; [done..|].
    destruct (Nat.ltb_spec 0 (sc_offset cr + n)); [|lia]. by rewrite drop_drop.
  - right. split; [cbn; lia|]. cbn [length]. rewrite Nat.sub_0_r. destruct cr as [r seed h buf off err]. cbn [sc_offset] in Ho.
    by assert (off = 0%nat) as -> by lia.
Qed.

Lemma Read_inv cr n cr' o err : (0 < n)%nat -> sc_hash cr = [] -> s3ChunkedReader_Read cred region date cr n = (cr', (o, err)) ->
  exists cs body tail, st_data (sc_reader cr) = body ++ tail /\ signed_body (sc_seed cr) cs body /\
    match err with
    | None => Forall (fun c => c <> []) cs /\ st_data (sc_reader cr') = tail /\ sc_seed cr' = foldl sig (sc_seed cr) cs /\ sc_hash cr' = [] /\
              pending cr ++ concat cs = o ++ pending cr'
    | Some e => o = pending cr /\ cs = if bool_decide (e = EOF) then [[]] else []
    end.
Proof.
  intros Hn Hh HR. destruct (Read_cases cr n) as [[Hl (c & E & Hr & Hs & Hh' & Hp)]|[Hl E]]; rewrite E in HR.
  - injection HR as <- <- <-. exists [], [], (st_data (sc_reader cr)). split_and!; [done|constructor|done|by rewrite Hr|done|congruence|].
    by rewrite Hp, app_nil_r, take_drop.
  - apply next_chunk_inv in HR as [(digits & c & Hd & Hs & Hm & Hsd & Hh' & Hc)|(e & -> & He & ->)]; [| |exact Hh].
    + cbn [sc_reader sc_seed] in Hd, Hsd. exists [c], (frame digits (sig (sc_seed cr) c) c), (st_data (sc_reader cr')).
      split_and!; [exact Hd|rewrite <-(app_nil_r (frame _ _ _)); by repeat constructor|]. case_bool_decide as Hc0.
      * destruct Hc as [-> ->]. subst c. by rewrite bool_decide_eq_true_2.
      * destruct Hc as (Hb & Ho & -> & ->). split_and!; [by constructor|done|done|done|]. cbn [concat]. rewrite app_nil_r, <-app_assoc. f_equal.
        destruct cr' as [r' sd' h' b' o' e']. cbn [sc_buffer sc_offset] in Hb, Ho. subst b' o'. rewrite pending_after by (done || lia). by rewrite take_drop.
    + exists [], [], (st_data (sc_reader cr)). split_and!; [done|constructor|done|]. by rewrite bool_decide_eq_false_2.
Qed.

Lemma read_all_inv sizes : forall cr out err, Forall (fun n => 0 < n)%nat sizes -> sc_hash cr = [] ->
  read_all cred region date sizes cr = (out, err) ->
  exists cs body tail, st_data (sc_reader cr) = body ++ tail /\ signed_body (sc_seed cr) cs body /\ out `prefix_of` pending cr ++ concat cs /\
    (err = Some EOF -> out = pending cr ++ concat cs /\ exists init, cs = init ++ [[]] /\ Forall (fun c => c <> []) init).
Proof.
  induction sizes as [|n sizes IH]; intros cr out err HF Hh; cbn [read_all].
  { intros [= <- <-]. exists [], [], (st_data (sc_reader cr)). split_and!; [done|constructor|apply prefix_nil|done]. }
  apply Forall_cons in HF as [Hn HF]. destruct (s3ChunkedReader_Read cred region date cr n) as [cr' [o err1]] eqn:ER.
  apply Read_inv in ER as (cs & body & tail & Hd & Hb & Hm); [|done..]. destruct err1 as [e|].
  - intros [= <- <-]. destruct Hm as [-> ->]. exists (if bool_decide (e = EOF) then [[]] else []), body, tail. split_and!; [done|done|by apply prefix_app_r|].
    intros [= ->]. rewrite bool_decide_eq_true_2 by done. cbn [concat app]. split; [by rewrite app_nil_r|]. by exists [].
  - destruct Hm as (Hne & Ht & Hs & Hh' & Hp). destruct (read_all cred region date sizes cr') as [rest err2] eqn:ER. intros [= <- <-].
    apply IH in ER as (cs' & body' & tail' & Hd' & Hb' & Hpre & Heof); [|done..]. rewrite Hs in Hb'.
    exists (cs ++ cs'), (body ++ body'), tail'. assert (pending cr ++ concat (cs ++ cs') = o ++ pending cr' ++ concat cs') as -> by (by rewrite concat_app, app_assoc, Hp, <-app_assoc). split_and!.
    + by rewrite Hd, <-Ht, Hd', app_assoc.
    + by eapply signed_app.
    + by apply prefix_app.
    + intros He. destruct (Heof He) as [-> (init & -> & Hi)]. split; [done|]. exists (cs ++ init). by rewrite app_assoc, Forall_app.
Qed.

Lemma signed_cons_inv seed c cs body : signed_body seed (c :: cs) body -> exists digits rest, size_from 0 digits = Some (len c) /\
  len c <= maxChunkSize /\ body = frame digits (sig seed c) c ++ rest /\ signed_body (sig seed c) cs rest.
Proof. inversion 1; subst. eauto 10. Qed.

Lemma read_all_ok sizes : forall r seed buf off err cs body tail e, Forall (fun n => 0 < n)%nat sizes ->
  let cr := mkChunked r seed [] buf off err in
  r = mkStream (body ++ tail) e -> signed_body seed (cs ++ [[]]) body -> Forall (fun c => c <> []) cs ->
  (length (pending cr ++ concat cs) < length sizes)%nat ->
  read_all cred region date sizes cr = (pending cr ++ concat cs, Some EOF).
Proof.
  induction sizes as [|n sizes IH]; intros r seed buf off err cs body tail e HF cr -> Hb Hcs Hl; cbn [read_all length] in *; [lia|].
  apply Forall_cons in HF as [Hn HF]. destruct (Read_cases cr n) as [[Hle ([r' sd' h' b' o' e'] & E & Hr & Hs & Hh' & Hp)]|[Hlt E]]; rewrite E.
  - cbn [sc_reader sc_seed sc_hash cr] in Hr, Hs, Hh'. subst r' sd' h'. rewrite length_app in Hl.
    rewrite (IH _ seed b' o' e' cs body tail e HF eq_refl Hb Hcs); rewrite Hp.
    + by rewrite app_assoc, take_drop.
    + rewrite length_app, length_drop. lia.
  - destruct Hlt as [Hlt|]; [|lia]. destruct cs as [|c cs].
    + apply signed_cons_inv in Hb as (digits & rest & Hs & Hm & -> & Hb). unfold cr at 1 2 3 4 5. cbn [sc_reader sc_seed sc_hash sc_buffer sc_err].
      rewrite <-app_assoc, next_chunk_ok by done. rewrite bool_decide_eq_true_2 by done. by rewrite app_nil_r.
    + apply signed_cons_inv in Hb as (digits & rest & Hs & Hm & -> & Hb). apply Forall_cons in Hcs as [Hc Hcs].
      unfold cr at 1 2 3 4 5. cbn [sc_reader sc_seed sc_hash sc_buffer sc_err]. rewrite <-app_assoc, next_chunk_ok by done. rewrite bool_decide_eq_false_2 by done.
      set (m := (n - length (pending cr))%nat). rewrite (IH _ _ _ _ _ cs rest tail e HF eq_refl Hb Hcs); rewrite pending_after by (done || lia).
      * cbn [concat]. by rewrite <-app_assoc, (app_assoc (take m c)), take_drop.
      * cbn [concat] in Hl. rewrite !length_app, length_drop in *. assert (0 < length c)%nat by (destruct c; [done|cbn; lia]). lia.
Qed.
End Facts.

(** ** The chunks of a request *)

Section Requests.
Context {C : Crypto} {CL : CryptoLaws C} `{MapOrder} {U : Identity}.

(** The headers of a streamed upload are signed: [sv] is what the header
    [Authorization] says, and its signature is the one of the user's secret. *)
Definition signed_headers (req : Request) (siteRegion : string) (sv : signValues) (cred : Credentials) (date : time) : Prop :=
  parseSignV4 (Header_Get (rq_Header req) "Authorization") siteRegion serviceS3 = inl sv /\
  request_date req = inl date /\
  (exists owner, checkKeyValid req (ch_accessKey (sv_Credential sv)) = inl (cred, owner)) /\
  exists extracted, extractSignedHeaders (sv_SignedHeaders sv) req = inl extracted /\
    sv_Signature sv = request_signature (cr_SecretKey cred) serviceS3 req (sv_Credential sv) extracted streamingContentSHA256
                        (Values_Encode (rq_Form req)) date.

Lemma new_reader_inv req siteRegion body cred region date cr :
  newSignV4ChunkedReader req siteRegion body = inl (cred, region, date, cr) ->
  exists sv, signed_headers req siteRegion sv cred date /\ region = ch_region (sv_Credential sv) /\ cr = mkChunked body (sv_Signature sv) [] [] 0 None.
Proof.
  unfold newSignV4ChunkedReader, calculateSeedSignature, signed_headers, request_signature.
  destruct (parseSignV4 _ _ _) as [sv|]; [|done]. case_bool_decide; [|done].
  destruct (extractSignedHeaders _ _) as [ex|] eqn:Ex; [|done]. destruct (checkKeyValid _ _) as [[cr0 owner]|] eqn:Ek; [|done].
  destruct (request_date req) as [t|]; [|done]. unfold compareSignatureV4. case_bool_decide as Hs; [|done].
  intros [= <- <- <- <-]. exists sv. rewrite Hs. eauto 12.
Qed.

(** C12: a streamed upload is delivered.  When the headers of the request are accepted
    and the body is a sequence of chunks of up to 16 MiB, the last and only the last
    one empty, each signed over the signature before it and the first over that of
    the header, then a caller that keeps reading into buffers that are not empty
    gets exactly the bytes of the chunks and [io.EOF], at the latest after one read
    for every byte and one more, whatever follows the body. *)
Theorem streamed_upload_delivered req siteRegion body tail e cred region date cr sizes :
  newSignV4ChunkedReader req siteRegion (mkStream (body ++ tail) e) = inl (cred, region, date, cr) ->
  Forall (fun n => 0 < n)%nat sizes ->
  forall sv cs, signed_headers req siteRegion sv cred date ->
  signed_body cred region date (sv_Signature sv) (cs ++ [[]]) body -> Forall (fun c => c <> []) cs ->
  (length (concat cs) < length sizes)%nat ->
  read_all cred region date sizes cr = (concat cs, Some EOF).
Proof.
  intros Hnew HF sv cs [Hsv _] Hb Hcs Hl. apply new_reader_inv in Hnew as (sv' & [Hsv' _] & _ & ->).
  rewrite Hsv in Hsv'. injection Hsv' as <-. by apply (read_all_ok cred region date sizes _ _ [] 0%nat None cs body tail e).
Qed.

(** C11: a streamed upload is authentic.  Whatever bytes arrive as the body of a request
    and however they are read, the request has a valid signature under the secret of
    its access key, and every byte that is delivered, before an error too, belongs
    to a chunk at the front of the body that is signed, over the signature before
    it, in an unbroken chain from the signature of the header; [io.EOF] is returned only
    after all chunks up to an empty signed one. *)
Theorem streamed_upload_authentic req siteRegion data e cred region date cr sizes out err :
  newSignV4ChunkedReader req siteRegion (mkStream data e) = inl (cred, region, date, cr) ->
  Forall (fun n => 0 < n)%nat sizes ->
  read_all cred region date sizes cr = (out, err) ->
  exists sv cs body tail, signed_headers req siteRegion sv cred date /\ region = ch_region (sv_Credential sv) /\
    data = body ++ tail /\ signed_body cred region date (sv_Signature sv) cs body /\ out `prefix_of` concat cs /\
    (err = Some EOF -> out = concat cs /\ exists init, cs = init ++ [[]] /\ Forall (fun c => c <> []) init).
Proof.
  intros Hnew HF HR. apply new_reader_inv in Hnew as (sv & Hsv & -> & ->).
  apply read_all_inv in HR as (cs & body & tail & HR); [|done..]. by exists sv, cs, body, tail.
Qed.
End Requests.

(** A read into an empty buffer loses a chunk: the chunk is verified and dropped,
    and the next read goes on after it. *)
Lemma empty_read_loses_chunk {C : Crypto} {CL : CryptoLaws C} cred region date seed e c1 c2 n d1 d2 rest :
  c1 <> [] -> c2 <> [] -> size_from 0 d1 = Some (len c1) -> size_from 0 d2 = Some (len c2) -> len c1 <= maxChunkSize -> len c2 <= maxChunkSize ->
  let s1 := chunk_signature cred region date seed c1 in
  let s2 := chunk_signature cred region date s1 c2 in
  let cr := mkChunked (mkStream (frame d1 s1 c1 ++ frame d2 s2 c2 ++ rest) e) seed [] [] 0 None in
  read_all cred region date [0%nat; n] cr = (take n c2, None).
Proof.
  intros H1 H2 Hd1 Hd2 Hm1 Hm2 s1 s2 cr. cbn [read_all]. unfold s3ChunkedReader_Read at 1. unfold cr, s1, s2. change ((0 <? sc_offset _)%nat) with false at 1. cbv iota.
  rewrite next_chunk_ok by done. rewrite bool_decide_eq_false_2 by done. unfold s3ChunkedReader_Read. change ((0 <? sc_offset _)%nat) with false. cbv iota.
  rewrite next_chunk_ok by done. rewrite bool_decide_eq_false_2 by done. by rewrite !app_nil_r.
Qed.

(** ** An upload *)

Section Example.
#[local] Existing Instance toy_crypto.
#[local] Existing Instance toy_crypto_laws.
#[local] Existing Instance toy_identity.

(** June 1st, 2022, 12:00. *)
Definition upload_date : time := (days_civil 2022 6 1 * 24 + 12) * hour.
Definition upload_request (signature : string) : Request :=
  mkRequest "PUT" "/bucket/object" "localhost:9000"
    (list_to_map [("Authorization", ["AWS4-HMAC-SHA256 Credential=testuser/20220601/us-east-1/s3/aws4_request, SignedHeaders=host;x-amz-content-sha256;x-amz-date, Signature=" +:+ signature]);
                  ("X-Amz-Content-Sha256", [streamingContentSHA256]); ("X-Amz-Date", ["20220601T120000Z"])]) ∅ [] 0.
Definition upload_cred : credentialHeader := mkCred "testuser" (days_civil 2022 6 1 * day_ns) "us-east-1" "s3" "aws4_request".
Definition upload_extracted : header :=
  list_to_map [("Host", ["localhost:9000"]); ("X-Amz-Content-Sha256", [streamingContentSHA256]); ("X-Amz-Date", ["20220601T120000Z"])].
Definition upload_seed : string :=
  request_signature "testsecret" serviceS3 (upload_request "") upload_cred upload_extracted streamingContentSHA256 "" upload_date.
Definition upload_sv : signValues := mkSign upload_cred ["host"; "x-amz-content-sha256"; "x-amz-date"] upload_seed.

Definition upload_chunk : bytes := to_bytes "hello, world".
Definition upload_s1 : string := chunk_signature toy_user "us-east-1" upload_date upload_seed upload_chunk.
Definition upload_s2 : string := chunk_signature toy_user "us-east-1" upload_date upload_s1 [].
Definition upload_body : bytes := frame (to_bytes "c") upload_s1 upload_chunk ++ frame (to_bytes "0") upload_s2 [].

Lemma upload_signed : signed_headers (upload_request upload_seed) "us-east-1" upload_sv toy_user upload_date.
Proof.
  split_and!; [vm_compute; reflexivity..|exists false; vm_compute; reflexivity|].
  exists upload_extracted. split; vm_compute; reflexivity.
Qed.
Lemma upload_chunks : signed_body toy_user "us-east-1" upload_date upload_seed [upload_chunk; []] upload_body.
Proof.
  apply (signed_cons toy_user "us-east-1" upload_date upload_seed (to_bytes "c") upload_chunk [[]] (frame (to_bytes "0") upload_s2 [])); [done..|].
  rewrite <-(app_nil_r (frame _ upload_s2 [])). apply (signed_cons toy_user "us-east-1" upload_date upload_s1 (to_bytes "0") [] [] []); [done..|constructor].
Qed.

Definition upload_reader (body : bytes) : s3ChunkedReader := mkChunked (mkStream body EOF) upload_seed [] [] 0 None.
Lemma upload_accepted body :
  newSignV4ChunkedReader (upload_request upload_seed) "us-east-1" (mkStream body EOF) = inl (toy_user, "us-east-1", upload_date, upload_reader body).
Proof.
  unfold newSignV4ChunkedReader.
  assert (calculateSeedSignature (upload_request upload_seed) "us-east-1" = inl (toy_user, upload_seed, "us-east-1", upload_date)) as -> by (vm_compute; reflexivity).
  reflexivity.
Qed.

Lemma streamed_upload_delivered_witness :
  read_all toy_user "us-east-1" upload_date (replicate 20 5%nat) (upload_reader (upload_body ++ to_bytes "more")) = (upload_chunk, Some EOF).
Proof.
  refine (streamed_upload_delivered (upload_request upload_seed) "us-east-1" upload_body (to_bytes "more") EOF toy_user "us-east-1" upload_date
    (upload_reader (upload_body ++ to_bytes "more")) (replicate 20 5%nat) (upload_accepted _) _ upload_sv [upload_chunk] upload_signed upload_chunks _ _).
  - apply Forall_replicate. lia.
  - by repeat constructor.
  - vm_compute. lia.
Defined.

(** The second chunk has the signature of another one. *)
Definition tampered_body : bytes := frame (to_bytes "c") upload_s1 upload_chunk ++ frame (to_bytes "1") upload_s1 (to_bytes "x").
Lemma streamed_upload_authentic_witness :
  exists sv cs body tail, signed_headers (upload_request upload_seed) "us-east-1" sv toy_user upload_date /\
    "us-east-1" = ch_region (sv_Credential sv) /\ tampered_body = body ++ tail /\
    signed_body toy_user "us-east-1" upload_date (sv_Signature sv) cs body /\ upload_chunk `prefix_of` concat cs /\
    (Some errSignatureMismatch = Some EOF -> upload_chunk = concat cs /\ exists init, cs = init ++ [[]] /\ Forall (fun c => c <> []) init).
Proof.
  apply (streamed_upload_authentic (upload_request upload_seed) "us-east-1" tampered_body EOF toy_user "us-east-1" upload_date
    (upload_reader tampered_body) (replicate 20 5%nat) upload_chunk (Some errSignatureMismatch) (upload_accepted _)).
  - apply Forall_replicate. lia.
  - vm_compute. reflexivity.
Defined.
End Example.

