(* ===== verification/Topology.v ===== *)
(** * Erasure sets ([cmd/endpoint-ellipses.go], [internal/config/storageclass],
    [cmd/format-erasure.go], [cmd/erasure-sets.go])

    How the drives on the command line become erasure sets, how many parity drives a
    set has, how the [format.json] of the drives says which drive is where, and
    which set an object belongs to.  The ellipses package that expands patterns,
    UUIDs and SipHash are parameters. *)

From Stdlib Require Import Ascii.
From S2P Require Import Prelude FileInfo Quorum Restore HTTPRange Distribution ObjectRead XLRead ObjectMeta Calendar SignV4.

(** ** Set sizes ([cmd/endpoint-ellipses.go]) *)

(** The third-party package: a pattern is a list of parts with the values of each. *)
Record Pattern := mkPattern { pt_Prefix : string; pt_Suffix : string; pt_Seq : list string }.
Abbreviation ArgPattern := (list Pattern).
Class Ellipses := {
  HasEllipses : list string -> bool;
  FindEllipsesPatterns : string -> result ArgPattern;
  Expand : ArgPattern -> list (list string)
}.

(** The number of strings a pattern stands for. *)
Definition pattern_size (p : ArgPattern) : Z := foldr (fun p n => len (pt_Seq p) * n) 1 p.

(** Expanding a pattern that was found gives every choice of values, which fit in
    memory. *)
Class EllipsesLaws (E : Ellipses) := {
  expand_size : forall arg p, FindEllipsesPatterns arg = Ok p -> len (Expand p) = pattern_size p;
  expand_fits : forall arg p, FindEllipsesPatterns arg = Ok p -> pattern_size p < 2 ^ 63
}.

(** The errors of the configuration, without their messages. *)
Definition ErrInvalidNumberOfErasureEndpoints : error := ErrNew "Invalid total number of endpoints for erasure mode".
Definition ErrInvalidErasureSetSize : error := ErrNew "Invalid erasure set size".
Definition ErrInvalidErasureEndpoints : error := ErrNew "Invalid endpoint(s) in erasure mode".

Definition setSizes : list Z := [2; 3; 4; 5; 6; 7; 8; 9; 10; 11; 12; 13; 14; 15; 16].

(** The loop of the greatest common divisor; [y] decreases. *)
Fixpoint gcd (fuel : nat) (x y : Z) : Z :=
  match fuel with
  | O => x
  | S fuel => if y =? 0 then x else gcd fuel y (x mod y)
  end.
Definition getDivisibleSize (totalSizes : list Z) : Z :=
  match totalSizes with
  | [] => 0
  | result :: rest => fold_left (fun result y => gcd (S (Z.to_nat y)) result y) rest result
  end.

Definition isValidSetSize (count : Z) : bool := (2 <=? count) && (count <=? 16).

Definition common_step (divisibleSize : Z) (acc : Z * Z) (cnt : Z) : Z * Z :=
  let '(prevD, setSize) := acc in
  if divisibleSize mod cnt =? 0 then
    let d := divisibleSize / cnt in
    if d <=? prevD then (d, cnt) else (prevD, setSize)
  else (prevD, setSize).
Definition commonSetDriveCount (divisibleSize : Z) (setCounts : list Z) : Z :=
  if divisibleSize <? default 0 (last setCounts) then divisibleSize
  else (fold_left (common_step divisibleSize) setCounts (divisibleSize / default 0 (head setCounts), 0)).2.

(** The variable [symmetry] after the loops over the patterns: each part assigns it. *)
Definition symmetry (argPatterns : list ArgPattern) (ss : Z) : bool :=
  fold_left (fun _ p => if ss <? len (pt_Seq p) then len (pt_Seq p) mod ss =? 0 else ss mod len (pt_Seq p) =? 0)
    (concat argPatterns) false.

Definition possibleSetCountsWithSymmetry `{MapOrder} (setCounts : list Z) (argPatterns : option (list ArgPattern)) : list Z :=
  let newSetCounts : gmap Z unit :=
    fold_left (fun m ss => match m !! ss with
                           | Some _ => m
                           | None => if match argPatterns with None => true | Some ps => symmetry ps ss end then <[ss := tt]> m else m
                           end) setCounts ∅ in
  merge_sort Z.le ((range_map newSetCounts).*1).

Definition possibleSetCounts (setSize : Z) : list Z := filter (fun s => setSize mod s = 0) setSizes.

(** The sizes of the sets of each argument, and whether
    [globalCustomErasureDriveCount] is set. *)
Definition getSetIndexes `{MapOrder} (args : list string) (totalSizes : list Z) (customSetDriveCount : Z)
    (argPatterns : option (list ArgPattern)) : bool * result (list (list Z)) :=
  if (length totalSizes =? 0)%nat || (length args =? 0)%nat then (false, Err errInvalidArgument)
  else if existsb (fun totalSize => (totalSize <? 2) || (totalSize <? customSetDriveCount)) totalSizes
  then (false, Err ErrInvalidNumberOfErasureEndpoints)
  else
    let commonSize := getDivisibleSize totalSizes in
    let setCounts := possibleSetCounts commonSize in
    if (length setCounts =? 0)%nat then (false, Err ErrInvalidNumberOfErasureEndpoints)
    else
      let indexes setSize :=
        if negb (isValidSetSize setSize) then Err ErrInvalidNumberOfErasureEndpoints
        else Ok ((fun totalSize => replicate (Z.to_nat (totalSize / setSize)) setSize) <$> totalSizes) in
      if 0 <? customSetDriveCount then
        if existsb (fun ss => ss =? customSetDriveCount) setCounts then (true, indexes customSetDriveCount)
        else (false, Err ErrInvalidErasureSetSize)
      else
        let setCounts := possibleSetCountsWithSymmetry setCounts argPatterns in
        if (length setCounts =? 0)%nat then (false, Err ErrInvalidNumberOfErasureEndpoints)
        else (false, indexes (commonSetDriveCount commonSize setCounts)).

Record endpointSet := mkEndpointSet { es_argPatterns : list ArgPattern; es_endpoints : list string; es_setIndexes : list (list Z) }.

Definition getEndpoints `{Ellipses} (s : endpointSet) : list string :=
  if negb (length (es_endpoints s) =? 0)%nat then es_endpoints s
  else argPattern ← es_argPatterns s; String.concat "" <$> Expand argPattern.

(** Cutting the endpoints; [None] is the panic on a slice bound. *)
Fixpoint cut_sets (endpoints : list string) (sizes : list Z) : option (list (list string)) :=
  match sizes with
  | [] => Some []
  | n :: sizes =>
      if n <=? len endpoints then
        sets ← cut_sets (slice_from endpoints n) sizes; Some (slice_to endpoints n :: sets)
      else None
  end.
Definition Get `{Ellipses} (s : endpointSet) : option (list (list string)) := cut_sets (getEndpoints s) (concat (es_setIndexes s)).

Definition getTotalSizes (argPatterns : list ArgPattern) : list Z :=
  (fun argPattern => fold_left (fun totalSize p => (totalSize * len (pt_Seq p)) mod 2 ^ 64) argPattern 1) <$> argPatterns.

Fixpoint find_patterns `{Ellipses} (args : list string) : result (list ArgPattern) :=
  match args with
  | [] => Ok []
  | arg :: args =>
      match FindEllipsesPatterns arg with
      | Err _ => Err ErrInvalidErasureEndpoints
      | Ok p => match find_patterns args with Err e => Err e | Ok ps => Ok (p :: ps) end
      end
  end.
Definition parseEndpointSet `{Ellipses} `{MapOrder} (customSetDriveCount : Z) (args : list string) : bool * result endpointSet :=
  match find_patterns args with
  | Err e => (false, Err e)
  | Ok argPatterns =>
      match getSetIndexes args (getTotalSizes argPatterns) customSetDriveCount (Some argPatterns) with
      | (custom, Err _) => (custom, Err ErrInvalidErasureEndpoints)
      | (custom, Ok setIndexes) => (custom, Ok (mkEndpointSet argPatterns [] setIndexes))
      end
  end.

Fixpoint all_unique (seen : gset string) (args : list string) : bool :=
  match args with
  | [] => true
  | arg :: args => if bool_decide (arg ∈ seen) then false else all_unique ({[arg]} ∪ seen) args
  end.

(** [driveCount] is the value of [MINIO_ERASURE_SET_DRIVE_COUNT]; [None] is a panic. *)
Definition GetAllSets `{Ellipses} `{MapOrder} (driveCount : string) (args : list string) : option (bool * result (list (list string))) :=
  match (if bool_decide (driveCount = "") then Some 0 else (fun n => n mod 2 ^ 64) <$> ParseInt driveCount) with
  | None => Some (false, Err ErrInvalidErasureSetSize)
  | Some customSetDriveCount =>
      let '(custom, s) :=
        if negb (HasEllipses args) then
          match (if (1 <? length args)%nat then getSetIndexes args [len args] customSetDriveCount None else (false, Ok [[len args]])) with
          | (custom, Err e) => (custom, Err e)
          | (custom, Ok setIndexes) => (custom, Ok (mkEndpointSet [] args setIndexes))
          end
        else parseEndpointSet customSetDriveCount args in
      match s with
      | Err e => Some (custom, Err e)
      | Ok s =>
          setArgs ← Get s;
          if all_unique ∅ (concat setArgs) then Some (custom, Ok setArgs) else Some (custom, Err ErrInvalidErasureEndpoints)
      end
  end.

(** ** Parity ([internal/config/storageclass/storage-class.go]) *)

Definition RRS : string := "REDUCED_REDUNDANCY".
Definition ErrStorageClassValue : error := ErrNew "Invalid storage class value".
Definition errParity : error := ErrNew "storage class parity out of range".

(** The parities of the two classes. *)
Record SCConfig := mkConfig { cf_Standard : Z; cf_RRS : Z }.

Definition parseStorageClass (storageClassEnv : string) : result Z :=
  match Split ":" storageClassEnv with
  | [scheme; parity] =>
      if negb (bool_decide (scheme = "EC")) then Err ErrStorageClassValue
      else match ParseInt parity with
           | None => Err ErrStorageClassValue
           | Some parityDisks => if parityDisks <? 0 then Err ErrStorageClassValue else Ok parityDisks
           end
  | _ => Err ErrStorageClassValue
  end.

Definition StorageClass_String (parity : Z) : string := if negb (parity =? 0) then "EC:" +:+ Itoa parity else "".

Definition minParityDisks : Z := 0.
Definition defaultRRSParity : Z := 1.

Definition ValidateParity (ssParity setDriveCount : Z) : option error :=
  if (0 <? ssParity) && (ssParity <? minParityDisks) then Some errParity
  else if Z.quot setDriveCount 2 <? ssParity then Some errParity
  else None.

Definition validateParity (ssParity rrsParity setDriveCount : Z) : option error :=
  if (0 <? ssParity) && (ssParity <? minParityDisks) then Some errParity
  else if (0 <? rrsParity) && (rrsParity <? minParityDisks) then Some errParity
  else if Z.quot setDriveCount 2 <? ssParity then Some errParity
  else if Z.quot setDriveCount 2 <? rrsParity then Some errParity
  else if (0 <? ssParity) && (0 <? rrsParity) && (ssParity <? rrsParity) then Some errParity
  else None.

Definition GetParityForSC (c : SCConfig) (sc : string) : Z :=
  if bool_decide (TrimSpace sc = RRS) then cf_RRS c else cf_Standard c.

Definition DefaultParityBlocks (drive : Z) : Z :=
  if drive =? 1 then 0
  else if (drive =? 3) || (drive =? 2) then 1
  else if (drive =? 4) || (drive =? 5) then 2
  else if (drive =? 6) || (drive =? 7) then 3
  else 4.

(** [ssc] and [rrsc] are the values of the environment or the configuration,
    [keysErr] the result of [config.CheckValidKeys]. *)
Definition LookupConfig (keysErr : option error) (ssc rrsc : string) (setDriveCount : Z) : result SCConfig :=
  let class s := if negb (bool_decide (s = "")) then parseStorageClass s else Ok 0 in
  match keysErr with
  | Some e => Err e
  | None =>
      match class ssc with
      | Err e => Err e
      | Ok standard =>
          match class rrsc with
          | Err e => Err e
          | Ok rrs =>
              let rrs := if (rrs =? 0) && bool_decide (rrsc = "") then defaultRRSParity else rrs in
              let standard := if (standard =? 0) && bool_decide (ssc = "") then DefaultParityBlocks setDriveCount else standard in
              match validateParity standard rrs setDriveCount with Some e => Err e | None => Ok (mkConfig standard rrs) end
          end
      end
  end.

(** [cmd/format-erasure.go]: the error is dropped with the configuration. *)
Definition ecDrivesNoConfig (ssc rrsc : string) (setDriveCount : Z) : Z :=
  let sc := match LookupConfig None ssc rrsc setDriveCount with Ok c => c | Err _ => mkConfig 0 0 end in
  let ecDrives := GetParityForSC sc STANDARD in
  if ecDrives <? 0 then DefaultParityBlocks setDriveCount else ecDrives.

(** [cmd/config-current.go]: the configuration of all pools, given the drives per set of
    each: the one of the last is stored when all are valid. *)
Fixpoint apply_storage_class (ssc rrsc : string) (globalStorageClass : SCConfig) (setDriveCounts : list Z) : SCConfig :=
  match setDriveCounts with
  | [] => globalStorageClass
  | n :: rest =>
      match LookupConfig None ssc rrsc n with
      | Err _ => globalStorageClass
      | Ok sc => apply_storage_class ssc rrsc (if (length rest =? 0)%nat then sc else globalStorageClass) rest
      end
  end.

(** [newErasureServerPools]: the default parity of all pools. *)
Fixpoint common_parity (ssc rrsc : string) (commonParityDrives : Z) (drivesPerSet : list Z) : result Z :=
  match drivesPerSet with
  | [] => Ok commonParityDrives
  | n :: rest =>
      let commonParityDrives := if commonParityDrives =? 0 then ecDrivesNoConfig ssc rrsc n else commonParityDrives in
      match ValidateParity commonParityDrives n with
      | Some e => Err e
      | None => common_parity ssc rrsc commonParityDrives rest
      end
  end.

(** ** Formats ([cmd/format-erasure.go]) *)

Definition formatMetaVersionV1 : string := "1".
Definition formatBackendErasure : string := "xl".
Definition formatBackendErasureSingle : string := "xl-single".
Definition formatErasureVersionV3 : string := "3".
Definition formatErasureVersionV2DistributionAlgoV1 : string := "CRCMOD".
Definition formatErasureVersionV3DistributionAlgoV2 : string := "SIPMOD".
Definition formatErasureVersionV3DistributionAlgoV3 : string := "SIPMOD+PARITY".
Definition offlineDiskUUID : string := "ffffffff-ffff-ffff-ffff-ffffffffffff".

Record formatErasureV3 := mkFormat {
  fm_Version : string;
  fm_Format : string;
  fm_ID : string;
  fe_Version : string;
  fe_This : string;
  fe_Sets : list (list string);
  fe_DistributionAlgo : string
}.
Definition with_This (f : formatErasureV3) (this : string) : formatErasureV3 :=
  mkFormat (fm_Version f) (fm_Format f) (fm_ID f) (fe_Version f) this (fe_Sets f) (fe_DistributionAlgo f).

Definition Drives (f : formatErasureV3) : Z := fold_left (fun drives s => (drives + len s)%int64) (fe_Sets f) 0.

(** [uuid] gives the identifiers [mustGetUUID] makes, in order. *)
Definition newFormatErasureV3 (uuid : nat -> string) (numSets setLen : nat) : formatErasureV3 :=
  mkFormat formatMetaVersionV1 (if (setLen =? 1)%nat then formatBackendErasureSingle else formatBackendErasure) (uuid 0%nat)
    formatErasureVersionV3 "" ((fun i => (fun j => uuid (1 + i * setLen + j)%nat) <$> seq 0 setLen) <$> seq 0 numSets)
    formatErasureVersionV3DistributionAlgoV3.

Definition shouldInitErasureDisks (errs : list (option error)) : bool := countErrs errs (Some errUnformattedDisk) =? len errs.
Definition quorumUnformattedDisks (errs : list (option error)) : bool := Z.quot (len errs) 2 + 1 <=? countErrs errs (Some errUnformattedDisk).

Definition errFormat : error := ErrNew "Unsupported backend format found".
Definition checkFormatErasureValue (f : formatErasureV3) : option error :=
  if negb (bool_decide (fm_Version f = formatMetaVersionV1)) then Some errFormat
  else if negb (bool_decide (fm_Format f = formatBackendErasure)) && negb (bool_decide (fm_Format f = formatBackendErasureSingle)) then Some errFormat
  else if negb (bool_decide (fe_Version f = formatErasureVersionV3)) then Some errFormat
  else None.

Definition errOtherDeployment : error := ErrNew "disk is already being used in another erasure deployment".
Definition errSetDriveCount : error := ErrNew "disk is already formatted with another number of drives per erasure set".
(** [None] is the panic on a format without sets; [custom] is
    [globalCustomErasureDriveCount] and [total] the number of formats. *)
Fixpoint check_values (custom : bool) (setDriveCount total : Z) (formats : list (option formatErasureV3)) : option (option error) :=
  match formats with
  | [] => Some None
  | None :: rest => check_values custom setDriveCount total rest
  | Some f :: rest =>
      match checkFormatErasureValue f with
      | Some e => Some (Some e)
      | None =>
          first ← head (fe_Sets f);
          if negb (total =? (len (fe_Sets f) * len first)%int64) then Some (Some errOtherDeployment)
          else if custom && negb (len first =? setDriveCount) then Some (Some errSetDriveCount)
          else check_values custom setDriveCount total rest
      end
  end.
Definition checkFormatErasureValues (custom : bool) (formats : list (option formatErasureV3)) (setDriveCount : Z) : option (option error) :=
  check_values custom setDriveCount (len formats) formats.

Fixpoint deployment_id (sets : list (list string)) (deploymentID : string) (formats : list (option formatErasureV3)) : result string :=
  match formats with
  | [] => Ok deploymentID
  | None :: rest => deployment_id sets deploymentID rest
  | Some f :: rest =>
      if bool_decide (fm_ID f = "") then deployment_id sets deploymentID rest
      else if bool_decide (fe_Sets f = sets) then
        if bool_decide (deploymentID = "") then deployment_id sets (fm_ID f) rest
        else if negb (bool_decide (deploymentID = fm_ID f)) then Err (ErrWrap 0 "Deployment IDs do not match" errCorruptedFormat)
        else deployment_id sets deploymentID rest
      else deployment_id sets deploymentID rest
  end.
Definition formatErasureGetDeploymentID (refFormat : formatErasureV3) (formats : list (option formatErasureV3)) : result string :=
  deployment_id (fe_Sets refFormat) "" formats.

Definition getFormatErasureInQuorum `{MapOrder} (formats : list (option formatErasureV3)) : result formatErasureV3 :=
  let formatCountMap : gmap Z nat :=
    fold_left (fun m f => match f with None => m | Some f => <[Drives f := S (default 0%nat (m !! Drives f))]> m end) formats ∅ in
  let '(maxDrives, maxCount) :=
    fold_left (fun '(maxDrives, maxCount) '(drives, count) => if (maxCount <? count)%nat then (drives, count) else (maxDrives, maxCount))
      (range_map formatCountMap) (0, 0%nat) in
  if maxDrives =? 0 then Err errErasureReadQuorum
  else if Z.of_nat maxCount <? Z.quot (len formats) 2 then Err errErasureReadQuorum
  else match List.find (fun f => match f with None => false | Some f => Drives f =? maxDrives end) formats with
       | Some (Some f) => Ok (with_This f "")
       | _ => Err errErasureReadQuorum
       end.

Definition errInconsistentDisk : error := StorageErr "inconsistent disk found".
Definition errSetsCount : error := ErrNew "Expected number of sets".
Definition errSetSize : error := ErrNew "Each set should be of same size".
Definition errSetUUID : error := ErrWrap 0 "UUID on positions do not match" errInconsistentDisk.
Definition errDiskID : error := ErrNew "Disk ID not found in any disk sets".

Fixpoint check_sets (reference sets : list (list string)) : option error :=
  match reference, sets with
  | r :: reference, s :: sets =>
      if negb (length r =? length s)%nat then Some errSetSize
      else if negb (bool_decide (r = s)) then Some errSetUUID
      else check_sets reference sets
  | _, _ => None
  end.
Definition formatErasureV3Check (reference format : formatErasureV3) : option error :=
  if negb (length (fe_Sets reference) =? length (fe_Sets format))%nat then Some errSetsCount
  else match check_sets (fe_Sets reference) (fe_Sets format) with
       | Some e => Some e
       | None => if existsb (existsb (fun id => bool_decide (fe_This format = id))) (fe_Sets format) then None else Some errDiskID
       end.

Definition formatErasureV3ThisEmpty (formats : list (option formatErasureV3)) : bool :=
  existsb (fun f => match f with
                    | None => false
                    | Some f => if (1 <? length (fe_Sets f))%nat then false else bool_decide (fe_This f = "")
                    end) formats.

(** ** Where a drive belongs ([cmd/erasure-sets.go]) *)

Definition errDiskOffline : error := ErrNew "diskID is offline".
Definition errDiskIDNotFound : error := ErrNew "diskID not found".

(** The positions [(i, j)] that are looked at, with the panic on a short row. *)
Fixpoint find_in_row (row : list string) (id : string) (j : Z) (n : nat) : option (option Z) :=
  match n with
  | O => Some None
  | S n => match row with
           | [] => None
           | x :: row => if bool_decide (x = id) then Some (Some j) else find_in_row row id (j + 1) n
           end
  end.
Fixpoint find_in_sets (sets : list (list string)) (width : nat) (id : string) (i : Z) : option (result (Z * Z)) :=
  match sets with
  | [] => Some (Err errDiskIDNotFound)
  | row :: sets =>
      match find_in_row row id 0 width with
      | None => None
      | Some (Some j) => Some (Ok (i, j))
      | Some None => find_in_sets sets width id (i + 1)
      end
  end.
Definition find_place (refFormat : formatErasureV3) (id : string) : option (result (Z * Z)) :=
  find_in_sets (fe_Sets refFormat) (length (default [] (head (fe_Sets refFormat)))) id 0.

Definition findDiskIndexByDiskID (refFormat : formatErasureV3) (diskID : string) : option (result (Z * Z)) :=
  if bool_decide (diskID = "") then Some (Err errDiskNotFound)
  else if bool_decide (diskID = offlineDiskUUID) then Some (Err errDiskOffline)
  else find_place refFormat diskID.

Definition findDiskIndex (refFormat format : formatErasureV3) : option (result (Z * Z)) :=
  match formatErasureV3Check refFormat format with
  | Some e => Some (Err e)
  | None => if bool_decide (fe_This format = offlineDiskUUID) then Some (Err errDiskOffline) else find_place refFormat (fe_This format)
  end.

(** [initFormatErasure]: the formats of the drives, in order. *)
Definition drive_format (format : formatErasureV3) (deploymentID distributionAlgo : string) (this : string) : formatErasureV3 :=
  mkFormat (fm_Version format) (fm_Format format) (if negb (bool_decide (deploymentID = "")) then deploymentID else fm_ID format)
    (fe_Version format) this (fe_Sets format) (if negb (bool_decide (distributionAlgo = "")) then distributionAlgo else fe_DistributionAlgo format).
Definition init_formats (uuid : nat -> string) (setCount setDriveCount : nat) (deploymentID distributionAlgo : string) : list formatErasureV3 :=
  let format := newFormatErasureV3 uuid setCount setDriveCount in
  drive_format format deploymentID distributionAlgo <$> concat (fe_Sets format).
Definition initFormatErasure `{MapOrder} (uuid : nat -> string) (setCount setDriveCount : nat) (deploymentID distributionAlgo : string)
    (saveErr : option error) : result formatErasureV3 :=
  match saveErr with
  | Some e => Err e
  | None => getFormatErasureInQuorum (Some <$> init_formats uuid setCount setDriveCount deploymentID distributionAlgo)
  end.

(** [newHealFormatSets]: the formats to write on the drives that lost theirs; [None]
    is a panic on an index. *)
Definition heal_format (refFormat : formatErasureV3) (this : string) : formatErasureV3 :=
  mkFormat (fm_Version refFormat) (fm_Format refFormat) (fm_ID refFormat) (fe_Version refFormat) this (fe_Sets refFormat) (fe_DistributionAlgo refFormat).
Definition heal_row (refFormat : formatErasureV3) (setDriveCount : nat) (errs : list (option error)) (i : nat) (row : list string)
    : option (list (option formatErasureV3)) :=
  fold_left (fun acc '(j, this) =>
      row ← acc; err ← errs !! (i * setDriveCount + j)%nat;
      if errors_Is err (Some errUnformattedDisk)
      then if (j <? setDriveCount)%nat then Some (<[j := Some (heal_format refFormat this)]> row) else None
      else Some row)
    (imap pair row) (Some (replicate setDriveCount None)).
Definition newHealFormatSets (refFormat : formatErasureV3) (setCount setDriveCount : nat) (errs : list (option error))
    : option (list (list (option formatErasureV3))) :=
  if (setCount <? length (fe_Sets refFormat))%nat then None
  else rows ← mapM id (imap (heal_row refFormat setDriveCount errs) (fe_Sets refFormat));
       Some (rows ++ replicate (setCount - length (fe_Sets refFormat)) []).

(** ** Which set an object belongs to *)

Definition crcHashMod (key : string) (cardinality : Z) : Z :=
  if cardinality <=? 0 then -1 else crc32_ieee key mod (cardinality mod 2 ^ 32).

(** SipHash of the two halves of the deployment identifier. *)
Class SipHash := { siphash : Z -> Z -> string -> Z }.
Definition little_endian (b : bytes) : Z := foldr (fun x n => Z.of_N (Byte.to_N x) + 256 * n) 0 b.
Definition sipHashMod `{SipHash} (key : string) (cardinality : Z) (id : bytes) : Z :=
  if cardinality <=? 0 then -1
  else siphash (little_endian (take 8 id)) (little_endian (take 8 (drop 8 id))) key mod cardinality.

Definition hashKey `{SipHash} (algo key : string) (cardinality : Z) (id : bytes) : Z :=
  if bool_decide (algo = formatErasureVersionV2DistributionAlgoV1) then crcHashMod key cardinality
  else if bool_decide (algo = formatErasureVersionV3DistributionAlgoV2) || bool_decide (algo = formatErasureVersionV3DistributionAlgoV3)
  then sipHashMod key cardinality id
  else -1.

(** [None] is the panic on the index. *)
Definition getHashedSet {A} `{SipHash} (algo : string) (sets : list A) (deploymentID : bytes) (input : string) : option A :=
  go_get sets (hashKey algo input (len sets) deploymentID).

(** ** Facts about set sizes *)

Lemma gcd_spec fuel : forall x y, 0 <= x -> 0 <= y < Z.of_nat fuel -> gcd fuel x y = Z.gcd x y.
Proof.
  induction fuel as [|fuel IH]; intros x y Hx Hy; [lia|]. cbn [gcd]. destruct (Z.eqb_spec y 0) as [->|Hne].
  - rewrite Z.gcd_0_r, Z.abs_eq by lia. done.
  - pose proof (Z.mod_pos_bound x y ltac:(lia)). rewrite IH by lia. rewrite (Z.gcd_comm x y), (Z.gcd_comm y). apply Z.gcd_mod. lia.
Qed.

Lemma getDivisibleSize_spec totals : totals <> [] -> Forall (fun t => 0 < t) totals ->
  0 < getDivisibleSize totals /\ forall m, (m | getDivisibleSize totals) <-> Forall (fun t => (m | t)) totals.
Proof.
  destruct totals as [|t totals]; [done|]. intros _ Hf. apply Forall_cons in Hf as [Ht Hf]. cbn [getDivisibleSize].
  revert t Ht. induction Hf as [|u totals Hu Hf IH]; intros t Ht; cbn [fold_left].
  - split; [done|]. intros m. rewrite Forall_cons. split; [by split|by intros [? _]].
  - rewrite gcd_spec by lia. destruct (IH (Z.gcd t u)) as [IH1 IH2].
    { pose proof (Z.gcd_nonneg t u). assert (Z.gcd t u <> 0) by (intros E; apply Z.gcd_eq_0 in E; lia). lia. }
    split; [done|]. intros m. rewrite IH2, !Forall_cons.
    assert ((m | Z.gcd t u) <-> (m | t) /\ (m | u)) as ->; [|tauto]. split.
    + intros Hm. split; etrans; [exact Hm|apply Z.gcd_divide_l|exact Hm|apply Z.gcd_divide_r].
    + intros [? ?]. by apply Z.gcd_greatest.
Qed.

Lemma sorted_setSizes : Sorted Z.lt setSizes.
Proof. repeat constructor. Qed.

Lemma filter_sorted {A} (R : A -> A -> Prop) `{!Transitive R} (P : A -> Prop) `{forall x, Decision (P x)} l : Sorted R l -> Sorted R (filter P l).
Proof.
  intros Hs. apply StronglySorted_Sorted. apply Sorted_StronglySorted in Hs; [|done]. induction Hs as [|x l Hs IH Hx]; [constructor|].
  rewrite filter_cons. case_decide; [|done]. constructor; [done|]. apply Forall_forall. intros y [_ Hy]%list_elem_of_filter. by apply (proj1 (Forall_forall _ _) Hx).
Qed.

Lemma sorted_lt_le (l : list Z) : Sorted Z.lt l -> Sorted Z.le l.
Proof. induction 1 as [|x l Hs IH Hd]; constructor; [done|]. destruct Hd; constructor; lia. Qed.
Lemma sorted_lt_NoDup (l : list Z) : Sorted Z.lt l -> NoDup l.
Proof.
  intros Hs. apply Sorted_StronglySorted in Hs; [|intros x y z; lia]. induction Hs as [|x l Hs IH Hx]; constructor; [|done].
  intros Hin. apply (proj1 (Forall_forall _ _) Hx) in Hin. lia.
Qed.

(** The map and the sort give back the counts that are symmetric, in order. *)
Lemma possibleSetCountsWithSymmetry_spec `{MapOrder} setCounts pats : Sorted Z.lt setCounts ->
  possibleSetCountsWithSymmetry setCounts pats = filter (fun ss => match pats with None => true | Some ps => symmetry ps ss end = true) setCounts.
Proof.
  intros Hs. unfold possibleSetCountsWithSymmetry. set (ok := fun ss => match pats with None => true | Some ps => symmetry ps ss end).
  assert (forall l (m : gmap Z unit) k, is_Some (fold_left (fun m ss => match m !! ss with Some _ => m | None => if ok ss then <[ss := tt]> m else m end) l m !! k) <->
    is_Some (m !! k) \/ k ∈ l /\ ok k = true) as Hfold.
  { induction l as [|x l IH]; intros m k; cbn [fold_left]; [set_solver|]. rewrite IH, elem_of_cons. destruct (m !! x) eqn:Ex.
    - split; [tauto|]. intros [?|[[->|?] ?]]; eauto.
    - destruct (ok x) eqn:Eo.
      + destruct (decide (k = x)) as [->|Hne]; [rewrite lookup_insert_eq|rewrite lookup_insert_ne by done]; intuition eauto.
      + split; [tauto|]. intros [?|[[->|?] ?]]; eauto. congruence. }
  apply (Sorted_unique Z.le).
  - apply Sorted_merge_sort. intros x y. lia.
  - apply sorted_lt_le, filter_sorted; [intros x y z; lia|done].
  - rewrite merge_sort_Permutation. apply NoDup_Permutation; [apply NoDup_range_map|by apply NoDup_filter, sorted_lt_NoDup|].
    intros k. rewrite list_elem_of_filter, list_elem_of_fmap. split.
    + intros ([k' []] & -> & Hk). apply elem_of_range_map in Hk. assert (is_Some (fold_left (fun m ss => match m !! ss with Some _ => m | None => if ok ss then <[ss := tt]> m else m end) setCounts ∅ !! k')) as Hi by eauto.
      apply Hfold in Hi as [Hi|[? ?]]; [by rewrite lookup_empty in Hi; destruct Hi|done].
    + intros [Hk Hin]. assert (is_Some (fold_left (fun m ss => match m !! ss with Some _ => m | None => if ok ss then <[ss := tt]> m else m end) setCounts ∅ !! k)) as Hi by (apply Hfold; auto).
      destruct Hi as [[] Hi]. exists (k, tt). split; [done|]. by apply elem_of_range_map.
Qed.

(** Counts in order that all divide: the loop takes the last. *)
Lemma common_fold d l : forall prevD setSize, 0 < d -> Sorted Z.lt l -> Forall (fun c => 0 < c /\ (c | d) /\ d / c <= prevD) l ->
  (fold_left (common_step d) l (prevD, setSize)).2 = default setSize (last l).
Proof.
  induction l as [|c l IH]; intros prevD setSize Hd Hs Hf; [done|]. apply Forall_cons in Hf as [(Hc & Hdiv & Hle) Hf]. cbn [fold_left].
  unfold common_step at 2. rewrite (proj2 (Z.eqb_eq _ 0)) by (by apply Z.mod_divide; [lia|]). rewrite (proj2 (Z.leb_le _ _) Hle).
  apply Sorted_StronglySorted in Hs; [|intros x y z; lia]. inversion Hs as [|? ? Hs' Hx]; subst.
  rewrite IH; [by destruct l as [|? ?]; [|rewrite !last_cons_cons; destruct (last _) eqn:El; [|apply last_None in El]]|done|by apply StronglySorted_Sorted|].
  apply Forall_forall. intros x Hin. apply (proj1 (Forall_forall _ _) Hf) in Hin as Hx'. apply (proj1 (Forall_forall _ _) Hx) in Hin.
  destruct Hx' as (? & ? & _). split_and!; [done|done|]. apply Z.div_le_compat_l; lia.
Qed.

Lemma last_elem {A} (l : list A) x : last l = Some x -> x ∈ l.
Proof. intros Hl. apply last_Some in Hl as [l' ->]. set_solver. Qed.

Lemma last_greatest (l : list Z) n : Sorted Z.lt l -> last l = Some n -> forall m, m ∈ l -> m <= n.
Proof.
  intros Hs [l' ->]%last_Some m Hm. apply elem_of_app in Hm as [Hm|Hm]; [|apply list_elem_of_singleton in Hm; lia].
  apply Sorted_StronglySorted in Hs; [|intros x y z; lia]. induction l' as [|x l' IH]; [by apply elem_of_nil in Hm|]. inversion Hs as [|? ? Hs' Hx]; subst.
  apply elem_of_cons in Hm as [->|Hm]; [|by apply IH]. 
  assert (n ∈ l' ++ [n]) as Hn by set_solver. apply (proj1 (Forall_forall _ _) Hx) in Hn. lia.
Qed.

Lemma commonSetDriveCount_spec d l n : 0 < d -> Sorted Z.lt l -> Forall (fun c => 0 < c /\ (c | d)) l -> last l = Some n -> commonSetDriveCount d l = n.
Proof.
  intros Hd Hs Hf Hl. unfold commonSetDriveCount. rewrite Hl. change (default 0 (Some n)) with n.
  assert (n ∈ l) as Hn by (by apply last_elem). destruct (proj1 (Forall_forall _ _) Hf n Hn) as [Hp Hdiv].
  apply Z.divide_pos_le in Hdiv as Hle; [|done]. rewrite (proj2 (Z.ltb_ge d n)) by lia. rewrite common_fold; [by rewrite Hl|done|done|].
  apply Forall_forall. intros c Hc. destruct (proj1 (Forall_forall _ _) Hf c Hc) as [? ?]. split_and!; [done|done|].
  destruct l as [|c0 l]; [by apply elem_of_nil in Hc|]. change (default 0 (head (c0 :: l))) with c0.
  destruct (proj1 (Forall_forall _ _) Hf c0) as [? ?]; [by left|].
  apply Z.div_le_compat_l; [lia|]. split; [lia|]. apply Sorted_StronglySorted in Hs; [|intros x y z; lia]. inversion Hs as [|? ? ? Hx]; subst.
  apply elem_of_cons in Hc as [->|Hc]; [lia|]. apply (proj1 (Forall_forall _ _) Hx) in Hc. lia.
Qed.

(** A count that suits the arguments: it divides all sizes and is symmetric. *)
Definition suits (totals : list Z) (pats : option (list ArgPattern)) (m : Z) : Prop :=
  m ∈ setSizes /\ Forall (fun t => (m | t)) totals /\ match pats with None => True | Some ps => symmetry ps m = true end.

Lemma setSizes_bounds m : m ∈ setSizes <-> 2 <= m <= 16.
Proof.
  unfold setSizes. rewrite !elem_of_cons, elem_of_nil. lia.
Qed.

Lemma getSetIndexes_spec `{MapOrder} args totals c pats custom idx : getSetIndexes args totals c pats = (custom, Ok idx) ->
  exists n, 2 <= n <= 16 /\ Forall (fun t => (n | t)) totals /\ totals <> [] /\ Forall (fun t => 2 <= t) totals /\
    idx = (fun t => replicate (Z.to_nat (t / n)) n) <$> totals /\
    if 0 <? c then n = c else suits totals pats n /\ forall m, suits totals pats m -> m <= n.
Proof.
  unfold getSetIndexes. destruct (Nat.eqb_spec (length totals) 0) as [|Hnil]; [done|]. destruct (Nat.eqb_spec (length args) 0); [done|]. cbn [orb].
  destruct (existsb _ totals) eqn:Ee; [done|]. assert (Forall (fun t => 2 <= t) totals) as H2.
  { apply Forall_forall. intros t Ht. destruct (Z.leb_spec 2 t) as [|Hlt]; [done|]. exfalso. apply not_true_iff_false in Ee. apply Ee, existsb_exists.
    exists t. split; [by apply list_elem_of_In|]. by rewrite (proj2 (Z.ltb_lt t 2)). }
  assert (totals <> []) as Hne by (by intros ->).
  destruct (getDivisibleSize_spec totals Hne) as [Hd Hdiv]; [eapply Forall_impl; [exact H2|]; intros; cbn in *; lia|].
  set (d := getDivisibleSize totals) in *. assert (forall m, m ∈ possibleSetCounts d <-> m ∈ setSizes /\ Forall (fun t => (m | t)) totals) as Hps.
  { intros m. unfold possibleSetCounts. rewrite list_elem_of_filter, <-Hdiv, setSizes_bounds. split; intros [? ?]; (split; [|]); try done; by apply Z.mod_divide; [lia|]. }
  assert (Sorted Z.lt (possibleSetCounts d)) as Hsort by (apply filter_sorted; [intros x y z; lia|apply sorted_setSizes]).
  destruct (Nat.eqb_spec (length (possibleSetCounts d)) 0); [done|]. destruct (0 <? c) eqn:Ec.
  - destruct (existsb _ (possibleSetCounts d)) eqn:Ex; [|done]. apply existsb_exists in Ex as (m & Hm & ->%Z.eqb_eq). apply list_elem_of_In, Hps in Hm as [Hm Hf].
    apply setSizes_bounds in Hm. unfold isValidSetSize. rewrite (proj2 (Z.leb_le 2 c)), (proj2 (Z.leb_le c 16)) by lia. cbn [andb negb]. intros [= _ <-]. by exists c.
  - rewrite possibleSetCountsWithSymmetry_spec by done. set (l := filter _ (possibleSetCounts d)).
    assert (forall m, m ∈ l <-> suits totals pats m) as Hl.
    { intros m. unfold l, suits. rewrite list_elem_of_filter, Hps. destruct pats; intuition. }
    assert (Sorted Z.lt l) as Hls by (apply filter_sorted; [intros x y z; lia|done]).
    destruct (Nat.eqb_spec (length l) 0) as [|Hlne]; [done|]. destruct (last l) as [best|] eqn:Elast; [|apply last_None in Elast; by rewrite Elast in Hlne].
    assert (Forall (fun c => 0 < c /\ (c | d)) l) as Hfl.
    { apply Forall_forall. intros m Hm. apply Hl in Hm as (Hm & Hf & _). apply setSizes_bounds in Hm. split; [lia|by apply Hdiv]. }
    rewrite (commonSetDriveCount_spec d l best) by done. pose proof (last_elem _ _ Elast) as Hin. apply Hl in Hin as Hsuit. destruct Hsuit as (Hm & Hf & Hsym).
    pose proof (proj1 (setSizes_bounds best) Hm). unfold isValidSetSize. rewrite (proj2 (Z.leb_le 2 best)), (proj2 (Z.leb_le best 16)) by lia. cbn [andb negb]. intros [= _ <-].
    exists best. split_and!; [lia|lia|done|done|done|done|done|]. intros m Hsm. apply (last_greatest l best Hls Elast). by apply Hl.
Qed.

Lemma cut_sets_ok n sizes : forall endpoints, 0 <= n -> Forall (fun s => s = n) sizes -> len endpoints = n * len sizes ->
  exists sets, cut_sets endpoints sizes = Some sets /\ concat sets = endpoints /\ Forall (fun s => len s = n) sets /\ length sets = length sizes.
Proof.
  induction sizes as [|s sizes IH]; intros endpoints Hn Hf Hl; cbn [cut_sets length] in *.
  - exists []. assert (endpoints = []) as -> by (apply length_zero_iff_nil; lia). done.
  - apply Forall_cons in Hf as [-> Hf]. rewrite (proj2 (Z.leb_le _ _)) by nia.
    destruct (IH (slice_from endpoints n)) as (sets & -> & Hc & Hs & Hls); [done|done|unfold slice_from; rewrite length_drop; nia|].
    exists (slice_to endpoints n :: sets). cbn [mbind option_bind concat length]. split_and!; [done| | |by rewrite Hls].
    + rewrite Hc. apply take_drop.
    + constructor; [|done]. unfold slice_to. rewrite length_take. nia.
Qed.

Lemma indexes_cut n totals : 0 < n -> Forall (fun t => (n | t)) totals -> Forall (fun t => 2 <= t) totals ->
  let sizes := concat ((fun t => replicate (Z.to_nat (t / n)) n) <$> totals) in
  Forall (fun s => s = n) sizes /\ n * len sizes = foldr Z.add 0 totals.
Proof.
  intros Hn Hd H2. induction totals as [|t totals IH]; cbn [fmap list_fmap concat foldr]; [split; [done|cbn; lia]|].
  apply Forall_cons in Hd as [[q ->] Hd], H2 as [Ht H2]. destruct (IH Hd H2) as [IH1 IH2]. split.
  - apply Forall_app. split; [by apply Forall_replicate|done].
  - rewrite length_app, length_replicate, Z.div_mul by lia. cbn [fmap] in IH2. rewrite Nat2Z.inj_add, Z.mul_add_distr_l, IH2, Z2Nat.id by nia. lia.
Qed.

Lemma total_wrap p : forall a, fold_left (fun totalSize p => (totalSize * len (pt_Seq p)) mod 2 ^ 64) p a mod 2 ^ 64 = (a * pattern_size p) mod 2 ^ 64.
Proof.
  induction p as [|x p IH]; intros a; cbn [fold_left pattern_size foldr]; [by rewrite Z.mul_1_r|].
  rewrite IH. fold (pattern_size p). rewrite Z.mul_mod_idemp_l by done. f_equal. lia.
Qed.

Lemma pattern_size_nonneg p : 0 <= pattern_size p.
Proof. induction p as [|x p IH]; cbn [pattern_size foldr]; [lia|]. fold (pattern_size p). nia. Qed.

Section Sets.
Context {E : Ellipses} {L : EllipsesLaws E} `{MapOrder}.

Lemma find_patterns_found args : forall ps, find_patterns args = Ok ps -> Forall (fun p => exists arg, FindEllipsesPatterns arg = Ok p) ps.
Proof.
  induction args as [|arg args IH]; intros ps; cbn [find_patterns]; [by intros [= <-]|].
  destruct (FindEllipsesPatterns arg) as [p|] eqn:Ep; [|done]. destruct (find_patterns args) as [ps'|]; [|done]. intros [= <-]. constructor; [by exists arg|by apply IH].
Qed.

Lemma getTotalSizes_spec args ps : find_patterns args = Ok ps -> getTotalSizes ps = pattern_size <$> ps.
Proof.
  intros Hps%find_patterns_found. unfold getTotalSizes. apply list_fmap_ext. intros i p Hp. destruct (Forall_lookup_1 _ _ _ _ Hps Hp) as [arg Ha].
  pose proof (expand_fits arg p Ha). pose proof (pattern_size_nonneg p).
  pose proof (total_wrap p 1) as Hw. rewrite Z.mul_1_l, (Z.mod_small (pattern_size p)) in Hw by lia. rewrite <-Hw. symmetry. apply Z.mod_small.
  destruct p as [|x p _] using rev_ind; [cbn; lia|]. rewrite fold_left_app. cbn [fold_left]. apply Z.mod_pos_bound. done.
Qed.

(** The endpoints that the arguments stand for, and how many each. *)
Definition expanded (args : list string) : list string :=
  if HasEllipses args
  then match find_patterns args with Ok ps => p ← ps; String.concat "" <$> Expand p | Err _ => [] end
  else args.
Definition arg_sizes (args : list string) : list Z :=
  if HasEllipses args
  then match find_patterns args with Ok ps => pattern_size <$> ps | Err _ => [] end
  else [len args].
Definition arg_patterns (args : list string) : option (list ArgPattern) :=
  if HasEllipses args then match find_patterns args with Ok ps => Some ps | Err _ => None end else None.
(** The number of drives per set that is asked for; [0] is none. *)
Definition asked (driveCount : string) : option Z :=
  if bool_decide (driveCount = "") then Some 0 else (fun n => n mod 2 ^ 64) <$> ParseInt driveCount.

Lemma length_expanded args ps : find_patterns args = Ok ps -> len (p ← ps; String.concat "" <$> Expand p) = foldr Z.add 0 (pattern_size <$> ps).
Proof.
  intros Hps%find_patterns_found. induction Hps as [|p ps [arg Ha] Hps IH]; [done|]. cbn [mbind list_bind fmap list_fmap foldr]. rewrite length_app, Nat2Z.inj_add, IH, length_fmap, (expand_size arg) by done. done.
Qed.

Lemma all_unique_NoDup l : forall seen, all_unique seen l = true <-> NoDup l /\ forall x, x ∈ l -> x ∉ seen.
Proof.
  induction l as [|x l IH]; intros seen; cbn [all_unique]; [split; [split; [constructor|set_solver]|done]|].
  case_bool_decide as Hx; [split; [done|intros [_ Hn]; destruct (Hn x); [by left|done]]|]. rewrite IH, NoDup_cons. set_solver.
Qed.

Lemma cut_of_indexes sn args c pats custom idx endpoints : getSetIndexes args sn c pats = (custom, Ok idx) -> len endpoints = foldr Z.add 0 sn ->
  exists n sets, 2 <= n <= 16 /\ cut_sets endpoints (concat idx) = Some sets /\ concat sets = endpoints /\ Forall (fun s => len s = n) sets /\ sets <> [] /\
    if 0 <? c then n = c else suits sn pats n /\ forall m, suits sn pats m -> m <= n.
Proof.
  intros Hi Hlen. apply getSetIndexes_spec in Hi as (n & Hn & Hd & Hne & H2 & -> & Hc). destruct (indexes_cut n sn) as [Hs1 Hs2]; [lia|done|done|].
  destruct (cut_sets_ok n _ endpoints ltac:(lia) Hs1) as (sets & Hcut & Hcat & Hf & Hl); [lia|]. exists n, sets. split_and!; [lia|lia|done|done|done| |done].
  intros ->. destruct sn as [|t sn]; [done|]. apply Forall_cons in H2 as [Ht H2]. cbn [foldr] in Hlen. cbn in Hcat. subst endpoints. cbn [length] in Hlen.
  assert (0 <= foldr Z.add 0 sn) by (clear - H2; induction H2; cbn [foldr]; lia). lia.
Qed.

(** C17: the drives of a pool are cut into erasure sets.  For any arguments with more
    than one drive [GetAllSets] ends without a panic, and when it accepts them every
    set has the same number of drives, between 2 and 16, the sets are the endpoints
    the arguments stand for in their order, no endpoint occurs twice, and the size is
    the one that was asked for, or else the greatest that divides the number of
    endpoints of every argument and is symmetric to the (last) pattern. *)
Theorem GetAllSets_partition driveCount args : HasEllipses args = true \/ (1 < length args)%nat ->
  exists custom r, GetAllSets driveCount args = Some (custom, r) /\
    forall sets, r = Ok sets -> exists n c, 2 <= n <= 16 /\ sets <> [] /\ Forall (fun s => len s = n) sets /\ concat sets = expanded args /\
      NoDup (expanded args) /\ asked driveCount = Some c /\
      if 0 <? c then n = c
      else suits (arg_sizes args) (arg_patterns args) n /\ forall m, suits (arg_sizes args) (arg_patterns args) m -> m <= n.
Proof.
  intros Hargs. unfold GetAllSets. fold (asked driveCount). destruct (asked driveCount) as [c|]; [|eexists _, _; split; [reflexivity|done]].
  unfold expanded, arg_sizes, arg_patterns, parseEndpointSet, Get, getEndpoints. destruct (HasEllipses args) eqn:He; cbn [negb].
  - destruct (find_patterns args) as [ps|e] eqn:Eps; [|eexists _, _; split; [reflexivity|done]]. rewrite (getTotalSizes_spec args) by done.
    destruct (getSetIndexes args (pattern_size <$> ps) c (Some ps)) as [custom [idx|e]] eqn:Ei; [|eexists _, _; split; [reflexivity|done]].
    cbn [es_endpoints es_argPatterns es_setIndexes length Nat.eqb negb].
    destruct (cut_of_indexes _ _ _ _ _ _ (p ← ps; String.concat "" <$> Expand p) Ei (length_expanded args ps Eps)) as (n & sets & Hn & -> & Hcat & Hf & Hne & Hc).
    cbn [mbind option_bind]. rewrite Hcat. destruct (all_unique ∅ _) eqn:Eu; eexists _, _; (split; [reflexivity|]); [|done].
    intros ? [= <-]. apply all_unique_NoDup in Eu as [Hnd _]. by exists n, c.
  - destruct Hargs as [|Hl]; [done|]. rewrite (proj2 (Nat.ltb_lt 1 (length args)) Hl).
    destruct (getSetIndexes args [len args] c None) as [custom [idx|e]] eqn:Ei; [|eexists _, _; split; [reflexivity|done]].
    cbn [es_endpoints es_argPatterns es_setIndexes]. rewrite (proj2 (Nat.eqb_neq (length args) 0)) by lia. cbn [negb].
    destruct (cut_of_indexes _ _ _ _ _ _ args Ei) as (n & sets & Hn & -> & Hcat & Hf & Hne & Hc); [cbn [foldr]; lia|].
    cbn [mbind option_bind]. rewrite Hcat. destruct (all_unique ∅ _) eqn:Eu; eexists _, _; (split; [reflexivity|]); [|done].
    intros ? [= <-]. apply all_unique_NoDup in Eu as [Hnd _]. by exists n, c.
Qed.
End Sets.

(** Drives 1 to 12 of two hosts. *)
Definition seq_of (l : list string) : Pattern := mkPattern "" "" l.
Definition toy_hosts : list string := ["1"; "2"].
Definition toy_drives : list string := ["1"; "2"; "3"; "4"; "5"; "6"; "7"; "8"; "9"; "10"; "11"; "12"].
Definition toy_pattern : ArgPattern := [mkPattern "http://host" "" toy_hosts; mkPattern "/drive" "" toy_drives].
Definition toy_ellipses : Ellipses := {|
  HasEllipses args := bool_decide (args = ["http://host{1...2}/drive{1...12}"]);
  FindEllipsesPatterns arg := if bool_decide (arg = "http://host{1...2}/drive{1...12}") then Ok toy_pattern else Err errInvalidArgument;
  Expand ps := foldr (fun p (l : list (list string)) => v ← pt_Seq p; cons (pt_Prefix p +:+ v +:+ pt_Suffix p) <$> l) [[]] ps |}.
Lemma toy_ellipses_laws : EllipsesLaws toy_ellipses.
Proof.
  split; intros arg p; cbn [FindEllipsesPatterns toy_ellipses]; case_bool_decide; [|done| |done]; intros [= <-]; vm_compute; reflexivity.
Qed.

Definition toy_args : list string := ["http://host{1...2}/drive{1...12}"].
Lemma GetAllSets_partition_witness : exists custom r, GetAllSets (H := toy_ellipses) "" toy_args = Some (custom, r) /\
    forall sets, r = Ok sets -> exists n c, 2 <= n <= 16 /\ sets <> [] /\ Forall (fun s => len s = n) sets /\ concat sets = expanded (E := toy_ellipses) toy_args /\
      NoDup (expanded (E := toy_ellipses) toy_args) /\ asked "" = Some c /\
      if 0 <? c then n = c
      else suits (arg_sizes (E := toy_ellipses) toy_args) (arg_patterns (E := toy_ellipses) toy_args) n /\
           forall m, suits (arg_sizes (E := toy_ellipses) toy_args) (arg_patterns (E := toy_ellipses) toy_args) m -> m <= n.
Proof.
  apply (@GetAllSets_partition toy_ellipses toy_ellipses_laws insertion_order "" toy_args). left. vm_compute. reflexivity.
Defined.
(** It has two sets of twelve drives. *)
Example toy_sets : option_map (fun r => match r with (_, Ok sets) => length <$> sets | _ => [] end) (GetAllSets (H := toy_ellipses) "" toy_args) = Some [12%nat; 12%nat].
Proof. vm_compute. reflexivity. Qed.

(** Only the last part of the last pattern decides on symmetry: sets of eight drives
    are taken to be symmetric to three hosts of eight drives. *)
Lemma symmetry_last ps q p ss : concat ps = q ++ [p] ->
  symmetry ps ss = if ss <? len (pt_Seq p) then len (pt_Seq p) mod ss =? 0 else ss mod len (pt_Seq p) =? 0.
Proof. unfold symmetry. intros ->. by rewrite fold_left_app. Qed.
Example asymmetric_sets : symmetry [[seq_of ["1"; "2"; "3"]; seq_of ["1"; "2"; "3"; "4"; "5"; "6"; "7"; "8"]]] 8 = true.
Proof. reflexivity. Qed.

(** ** Facts about parity *)

Lemma parseStorageClass_nonneg s p : parseStorageClass s = Ok p -> 0 <= p.
Proof.
  unfold parseStorageClass. destruct (Split ":" s) as [|a [|b [|]]]; try done. case_match; [done|]. destruct (ParseInt b) as [n|]; [|done].
  destruct (Z.ltb_spec n 0); [done|]. by intros [= <-].
Qed.

Lemma DefaultParityBlocks_range n : 0 <= DefaultParityBlocks n <= 4.
Proof. unfold DefaultParityBlocks. destruct (n =? 1); [lia|]. destruct (_ || _); [lia|]. destruct (_ || _); [lia|]. destruct (_ || _); lia. Qed.

Lemma LookupConfig_inv keysErr ssc rrsc n c : 1 <= n -> LookupConfig keysErr ssc rrsc n = Ok c ->
  0 <= cf_Standard c <= n / 2 /\ 0 <= cf_RRS c <= n / 2 /\ (0 < cf_Standard c -> cf_RRS c <= cf_Standard c).
Proof.
  intros Hn. unfold LookupConfig. destruct keysErr; [done|].
  destruct (if negb (bool_decide (ssc = "")) then parseStorageClass ssc else Ok 0) as [st|] eqn:Es; [|done].
  destruct (if negb (bool_decide (rrsc = "")) then parseStorageClass rrsc else Ok 0) as [rr|] eqn:Er; [|done].
  assert (0 <= st /\ 0 <= rr) as [Hst Hrr].
  { split; [destruct (negb (bool_decide (ssc = "")))|destruct (negb (bool_decide (rrsc = "")))]; try (by eapply parseStorageClass_nonneg); simplify_eq; lia. }
  set (rrs := if (rr =? 0) && bool_decide (rrsc = "") then defaultRRSParity else rr). assert (0 <= rrs) by (unfold rrs, defaultRRSParity; destruct (_ && _); lia).
  set (standard := if (st =? 0) && bool_decide (ssc = "") then DefaultParityBlocks n else st).
  assert (0 <= standard).
  { pose proof (DefaultParityBlocks_range n). unfold standard. destruct ((st =? 0) && bool_decide (ssc = "")); lia. }
  clearbody rrs standard.
  unfold validateParity, minParityDisks. rewrite Z.quot_div_nonneg by lia.
  destruct (Z.ltb_spec 0 standard); destruct (Z.ltb_spec standard 0); destruct (Z.ltb_spec 0 rrs); destruct (Z.ltb_spec rrs 0); destruct (Z.ltb_spec (n / 2) standard); destruct (Z.ltb_spec (n / 2) rrs);
    destruct (Z.ltb_spec standard rrs); cbn [andb]; intros E; try done; injection E as <-; cbn [cf_Standard cf_RRS]; lia.
Qed.



Lemma apply_storage_class_last ssc rrsc g counts n : Forall (fun m => exists c, LookupConfig None ssc rrsc m = Ok c) (counts ++ [n]) ->
  Ok (apply_storage_class ssc rrsc g (counts ++ [n])) = LookupConfig None ssc rrsc n.
Proof.
  revert g. induction counts as [|m counts IH]; intros g; cbn [app apply_storage_class]; rewrite Forall_cons; intros [[c ->] Hf]; [done|].
  rewrite IH by done. done.
Qed.

(** Pools of different sizes.  When the configuration is valid for the sets of every
    pool, the parity of the last pool is stored for all of them.  With the defaults
    and a pool of sets of 4 drives to which one of sets of 16 is added, the stored
    parity is 4, although the pools were started with a common parity of 2: the
    write quorum of the objects of the first pool, with 2 data and 2 parity blocks,
    falls from 3 drives to 2, half of the set, so that updates of the two halves
    both succeed. *)
Theorem pool_parity_faults :
  (forall ssc rrsc g counts n, Forall (fun m => exists c, LookupConfig None ssc rrsc m = Ok c) (counts ++ [n]) ->
     Ok (apply_storage_class ssc rrsc g (counts ++ [n])) = LookupConfig None ssc rrsc n) /\
  common_parity "" "" 0 [4; 16] = Ok 2 /\
  let sc g counts := GetParityForSC (apply_storage_class "" "" g counts) in
  let stored := [sample_meta t7 false 1; sample_meta t7 false 2; sample_meta t7 false 3; sample_meta t7 false 4] in
  forall g, sc g [4] "" = 2 /\ sc g [4; 16] "" = 4 /\
    objectQuorumFromMeta (sc g [4]) false stored [None; None; None; None] 2 = Some (Ok (2, 3)) /\
    objectQuorumFromMeta (sc g [4; 16]) false stored [None; None; None; None] 2 = Some (Ok (2, 2)).
Proof. split; [exact apply_storage_class_last|]. split; [reflexivity|]. intros sc stored g. by vm_compute. Qed.

(** ** Facts about formats *)

Lemma find_in_row_skip row id : forall j n, id ∉ row -> (n <= length row)%nat -> find_in_row row id j n = Some None.
Proof.
  induction row as [|x row IH]; intros j n Hx Hn; destruct n as [|n]; cbn [find_in_row length] in *; [done|lia|done|].
  apply not_elem_of_cons in Hx as [Hx Hr]. rewrite bool_decide_eq_false_2 by congruence. apply IH; [done|lia].
Qed.
Lemma find_in_row_at row id : forall j j0 n, NoDup row -> row !! j = Some id -> (j < n)%nat -> find_in_row row id j0 n = Some (Some (j0 + Z.of_nat j)).
Proof.
  induction row as [|x row IH]; intros j j0 n Hnd Hj Hn; [done|]. destruct n as [|n]; [lia|]. apply NoDup_cons in Hnd as [Hx Hnd]. cbn [find_in_row].
  destruct j as [|j]; cbn in Hj; [injection Hj as ->; rewrite bool_decide_eq_true_2 by done; do 2 f_equal; lia|].
  rewrite bool_decide_eq_false_2 by (intros ->; apply Hx; by eapply list_elem_of_lookup_2). rewrite (IH j) by (done || lia). do 2 f_equal. lia.
Qed.
Lemma find_in_sets_at sets width id : forall i i0 j row, NoDup (concat sets) -> Forall (fun r => length r = width) sets ->
  sets !! i = Some row -> row !! j = Some id -> find_in_sets sets width id i0 = Some (Ok (i0 + Z.of_nat i, Z.of_nat j)).
Proof.
  induction sets as [|r sets IH]; intros i i0 j row Hnd Hw Hi Hj; [done|]. apply Forall_cons in Hw as [Hr Hw]. cbn [concat] in Hnd.
  apply NoDup_app in Hnd as (Hnr & Hdis & Hnd). cbn [find_in_sets]. destruct i as [|i]; cbn in Hi.
  - injection Hi as ->. rewrite (find_in_row_at row id j) by (done || (rewrite <-Hr; by eapply lookup_lt_Some)). do 3 f_equal; lia.
  - assert (id ∈ concat sets) as Hin by (apply list_elem_of_In, in_concat; exists row; split; apply list_elem_of_In; by eapply list_elem_of_lookup_2).
    rewrite find_in_row_skip by ((intros Hx; by apply (Hdis id)) || lia). rewrite (IH i (i0 + 1) j row) by done. do 3 f_equal; lia.
Qed.

Lemma check_sets_same sets : check_sets sets sets = None.
Proof. induction sets as [|r sets IH]; cbn [check_sets]; [done|]. by rewrite Nat.eqb_refl, bool_decide_eq_true_2. Qed.

Lemma existsb_concat (p : string -> bool) l : existsb (existsb p) l = existsb p (concat l).
Proof. induction l as [|x l IH]; [done|]. cbn [existsb concat]. by rewrite existsb_app, IH. Qed.

Section Formats.
Context `{MapOrder} (uuid : nat -> string) (setCount setDriveCount : nat) (deploymentID distributionAlgo : string).
Local Abbreviation total := (setCount * setDriveCount)%nat.

(** What the format of every drive has in common. *)
Definition base_format : formatErasureV3 := drive_format (newFormatErasureV3 uuid setCount setDriveCount) deploymentID distributionAlgo "".
Definition disk_id (x : nat) : string := uuid (1 + x)%nat.

Lemma concat_sets : concat (fe_Sets base_format) = disk_id <$> seq 0 total.
Proof.
  cbn [base_format drive_format newFormatErasureV3 fe_Sets]. generalize setCount at 1 2. intros k. unfold disk_id.
  induction k as [|k IH]; [done|]. rewrite seq_S, fmap_app, concat_app, IH. cbn [fmap list_fmap concat Nat.add]. rewrite app_nil_r.
  replace (S k * setDriveCount)%nat with (k * setDriveCount + setDriveCount)%nat by lia. rewrite seq_app, fmap_app. f_equal. cbn [Nat.add].
  apply list_eq. intros j. rewrite !list_lookup_fmap. destruct (decide (j < setDriveCount)%nat).
  - rewrite !lookup_seq_lt by done. cbn. repeat f_equal; lia.
  - rewrite !lookup_seq_ge by lia. done.
Qed.
Lemma sets_width : Forall (fun r => length r = setDriveCount) (fe_Sets base_format).
Proof. apply Forall_fmap, Forall_true. intros i. cbn. by rewrite length_fmap, length_seq. Qed.
Lemma sets_lookup i j : (i < setCount)%nat -> (j < setDriveCount)%nat ->
  exists row, fe_Sets base_format !! i = Some row /\ row !! j = Some (disk_id (i * setDriveCount + j)).
Proof.
  intros Hi Hj. exists ((fun j => uuid (1 + i * setDriveCount + j)%nat) <$> seq 0 setDriveCount). split.
  - cbn [base_format drive_format newFormatErasureV3 fe_Sets]. by rewrite list_lookup_fmap, lookup_seq_lt by done.
  - by rewrite list_lookup_fmap, lookup_seq_lt by done.
Qed.
Lemma init_formats_eq : init_formats uuid setCount setDriveCount deploymentID distributionAlgo = (fun x => with_This base_format (disk_id x)) <$> seq 0 total.
Proof.
  unfold init_formats. pose proof concat_sets as Hc. cbn [base_format drive_format fe_Sets] in Hc. rewrite Hc, <-list_fmap_compose. done.
Qed.

Lemma Drives_base this : Z.of_nat total < 2 ^ 63 -> Drives (with_This base_format this) = Z.of_nat total.
Proof.
  intros Ht. unfold Drives. cbn [with_This fe_Sets]. pose proof concat_sets as Hc. apply (f_equal length) in Hc. rewrite length_fmap, length_seq in Hc.
  assert (forall l a, 0 <= a -> a + len (concat l) < 2 ^ 63 ->
    fold_left (fun drives (s : list string) => (drives + len s)%int64) l a = a + len (concat l)) as Hf.
  { induction l as [|s l IH]; intros a Ha Hl; cbn [fold_left concat] in *; [cbn; lia|]. rewrite length_app in *. unfold add64. rewrite wrap64_id by (unfold int64_range; lia).
    rewrite IH by lia. lia. }
  rewrite Hf by lia. lia.
Qed.

Definition is_Some_b {A} (x : option A) : bool := match x with Some _ => true | None => false end.

(** The formats that could be read: those of some of the drives. *)
Definition readable (seen : list (option formatErasureV3)) : Prop :=
  length seen = total /\ forall x f, seen !! x = Some (Some f) -> f = with_This base_format (disk_id x).

Lemma quorum_map d (seen : list (option formatErasureV3)) : forall (m : gmap Z nat) c, (forall f, Some f ∈ seen -> Drives f = d) ->
  m = (if (c =? 0)%nat then ∅ else {[d := c]}) ->
  let c' := (c + count is_Some_b seen)%nat in
  fold_left (fun (m : gmap Z nat) f => match f with None => m | Some f => <[Drives f := S (default 0%nat (m !! Drives f))]> m end) seen m
  = if (c' =? 0)%nat then ∅ else {[d := c']}.
Proof.
  induction seen as [|[f|] seen IH]; intros m c Hd ->; cbn [fold_left].
  - cbn. by rewrite Nat.add_0_r.
  - rewrite (Hd f) by (by left). rewrite count_cons. cbn [is_Some_b Nat.add]. rewrite (IH _ (S c)).
    + cbn zeta. by replace (c + S (count is_Some_b seen))%nat with (S c + count is_Some_b seen)%nat by lia.
    + intros g Hg. apply Hd. by right.
    + cbn [Nat.eqb]. destruct (Nat.eqb_spec c 0) as [->|]; [by rewrite lookup_empty|]. rewrite lookup_singleton_eq. apply insert_singleton_eq.
  - rewrite count_cons. cbn [is_Some_b Nat.add]. apply IH; [|done]. intros g Hg. apply Hd. by right.
Qed.

Lemma range_map_singleton (d : Z) (c : nat) : range_map ({[d := c]} : gmap Z nat) = [(d, c)].
Proof. unfold range_map. rewrite map_to_list_singleton. apply Permutation_singleton_r, range_order_perm. Qed.

Lemma seen_Drives seen : Z.of_nat total < 2 ^ 63 -> readable seen -> forall f, Some f ∈ seen -> Drives f = Z.of_nat total /\ with_This f "" = base_format.
Proof.
  intros Ht [_ Hs] f Hf. apply list_elem_of_lookup in Hf as [x Hx]. rewrite (Hs x f Hx). split; [by apply Drives_base|done].
Qed.

Lemma format_in_quorum seen : (0 < total)%nat -> Z.of_nat total < 2 ^ 63 -> readable seen -> (0 < count is_Some_b seen)%nat ->
  Z.of_nat total / 2 <= Z.of_nat (count is_Some_b seen) -> getFormatErasureInQuorum seen = Ok base_format.
Proof.
  intros H0 Ht Hr Hpos Hq. pose proof (seen_Drives seen Ht Hr) as Hd. unfold getFormatErasureInQuorum.
  rewrite (quorum_map (Z.of_nat total) seen ∅ 0) by (done || intros f Hf; by apply Hd). cbn [Nat.add].
  rewrite (proj2 (Nat.eqb_neq (count is_Some_b seen) 0)) by lia. rewrite range_map_singleton. cbn [fold_left]. rewrite (proj2 (Nat.ltb_lt 0 _) Hpos).
  rewrite (proj2 (Z.eqb_neq _ 0)) by lia. rewrite (proj1 Hr), Z.quot_div_nonneg, (proj2 (Z.ltb_ge _ _)) by lia.
  clear Hq Hr. induction seen as [|[f|] seen IH]; cbn [List.find].
  - cbn in Hpos. lia.
  - destruct (Hd f) as [-> Hb]; [by left|]. rewrite Z.eqb_refl. by rewrite Hb.
  - apply IH; [|intros g Hg; apply Hd; by right]. rewrite count_cons in Hpos. cbn [is_Some_b Nat.add] in Hpos. done.
Qed.

Context (Hid : forall x y, (x <= total)%nat -> (y <= total)%nat -> uuid x = uuid y -> x = y).
Context (Hne : forall x, (x <= total)%nat -> uuid x <> "" /\ uuid x <> offlineDiskUUID).

Lemma NoDup_ids : NoDup (concat (fe_Sets base_format)).
Proof.
  rewrite concat_sets. apply NoDup_fmap_2_strong; [|apply NoDup_seq]. intros x y Hx Hy E. apply elem_of_seq in Hx, Hy. unfold disk_id in E. apply Hid in E; lia.
Qed.

Lemma find_place_at i j : (i < setCount)%nat -> (j < setDriveCount)%nat ->
  find_place base_format (disk_id (i * setDriveCount + j)) = Some (Ok (Z.of_nat i, Z.of_nat j)).
Proof.
  intros Hi Hj. destruct (sets_lookup i j Hi Hj) as (row & Hrow & Hx). unfold find_place.
  assert (length (default [] (head (fe_Sets base_format))) = setDriveCount) as ->.
  { pose proof sets_width as Hw. destruct (fe_Sets base_format) as [|r sets]; [done|]. by apply Forall_cons in Hw as [Hw _]. }
  rewrite (find_in_sets_at _ _ _ i 0 j row) by (apply NoDup_ids || apply sets_width || done). done.
Qed.

Lemma disk_id_ok i j : (i < setCount)%nat -> (j < setDriveCount)%nat ->
  disk_id (i * setDriveCount + j) <> "" /\ disk_id (i * setDriveCount + j) <> offlineDiskUUID /\ disk_id (i * setDriveCount + j) ∈ concat (fe_Sets base_format).
Proof.
  intros Hi Hj. assert (i * setDriveCount + j < total)%nat by nia. destruct (Hne (1 + (i * setDriveCount + j))) as [H1 H2]; [lia|]. split_and!; [exact H1|exact H2|].
  rewrite concat_sets. apply list_elem_of_fmap. eexists. split; [reflexivity|]. apply elem_of_seq. lia.
Qed.

Lemma findDiskIndex_at i j : (i < setCount)%nat -> (j < setDriveCount)%nat ->
  findDiskIndex base_format (with_This base_format (disk_id (i * setDriveCount + j))) = Some (Ok (Z.of_nat i, Z.of_nat j)) /\
  findDiskIndexByDiskID base_format (disk_id (i * setDriveCount + j)) = Some (Ok (Z.of_nat i, Z.of_nat j)).
Proof.
  intros Hi Hj. destruct (disk_id_ok i j Hi Hj) as (H1 & H2 & H3). unfold findDiskIndex, findDiskIndexByDiskID, formatErasureV3Check.
  cbn [with_This fe_Sets fe_This]. fold base_format. rewrite Nat.eqb_refl, check_sets_same, existsb_concat.
  assert (existsb (fun id => bool_decide (disk_id (i * setDriveCount + j) = id)) (concat (fe_Sets base_format)) = true) as ->.
  { apply existsb_exists. eexists. split; [by apply list_elem_of_In|]. by apply bool_decide_eq_true. }
  cbn [negb]. rewrite !bool_decide_eq_false_2 by done. by rewrite !find_place_at.
Qed.

Lemma check_values_ok custom seen : (0 < setCount)%nat -> Z.of_nat total < 2 ^ 63 ->
  (forall f, Some f ∈ seen -> exists this, f = with_This base_format this) -> check_values custom (Z.of_nat setDriveCount) (Z.of_nat total) seen = Some None.
Proof.
  intros Hk Ht. induction seen as [|[f|] seen IH]; intros Hs; cbn [check_values]; [done| |by apply IH; intros g Hg; apply Hs; right].
  destruct (Hs f) as [this ->]; [by left|]. assert (checkFormatErasureValue (with_This base_format this) = None) as ->.
  { unfold checkFormatErasureValue. cbn [with_This base_format drive_format newFormatErasureV3 fm_Version fm_Format fe_Version]. by destruct (setDriveCount =? 1)%nat. }
  cbn [with_This fe_Sets]. pose proof sets_width as Hw. assert (length (fe_Sets base_format) = setCount) as Hl by (cbn; by rewrite length_fmap, length_seq).
  destruct (fe_Sets base_format) as [|r sets] eqn:E; [cbn in Hl; lia|]. apply Forall_cons in Hw as [Hr _]. cbn [head mbind option_bind]. rewrite Hr, Hl.
  unfold mul64. rewrite wrap64_id by (unfold int64_range; nia). rewrite <-Nat2Z.inj_mul, Z.eqb_refl, Z.eqb_refl. cbn [negb]. rewrite andb_false_r.
  apply IH. intros g Hg. apply Hs. by right.
Qed.

Lemma deployment_id_ok seen : (0 < total)%nat -> (forall f, Some f ∈ seen -> exists this, f = with_This base_format this) ->
  forall id, id = "" \/ id = fm_ID base_format ->
  deployment_id (fe_Sets base_format) id seen = Ok (if (0 <? count is_Some_b seen)%nat then fm_ID base_format else id).
Proof.
  intros H0 Hs. assert (fm_ID base_format <> "") as Hbase.
  { cbn [base_format drive_format newFormatErasureV3 fm_ID]. case_bool_decide; cbn [negb]; [apply Hne; lia|done]. }
  induction seen as [|[f|] seen IH]; intros id Hidc; cbn [deployment_id]; [done| |].
  - destruct (Hs f) as [this ->]; [by left|]. cbn [with_This fm_ID fe_Sets]. rewrite bool_decide_eq_false_2, bool_decide_eq_true_2 by done. rewrite count_cons. cbn [is_Some_b Nat.add Nat.ltb Nat.leb].
    assert (forall g, Some g ∈ seen -> exists this, g = with_This base_format this) as Hs' by (intros g Hg; apply Hs; by right).
    destruct Hidc as [->| ->].
    + rewrite bool_decide_eq_true_2 by done. rewrite (IH Hs' (fm_ID base_format)) by auto. by case_match.
    + rewrite bool_decide_eq_false_2 by done. rewrite bool_decide_eq_true_2 by done. cbn [negb]. rewrite (IH Hs' (fm_ID base_format)) by auto. by case_match.
  - rewrite count_cons. cbn [is_Some_b Nat.add]. apply IH; [|done]. intros g Hg. apply Hs. by right.
Qed.

(** The format to write on the drive at a place, when it lost its own. *)
Definition healed (ref : formatErasureV3) (errs : list (option error)) (i j : nat) (this : string) : option formatErasureV3 :=
  match errs !! (i * setDriveCount + j)%nat with
  | Some err => if errors_Is err (Some errUnformattedDisk) then Some (heal_format ref this) else None
  | None => None
  end.

Lemma heal_row_ok ref errs i row : (length row <= setDriveCount)%nat -> (i * setDriveCount + length row <= length errs)%nat ->
  heal_row ref setDriveCount errs i row = Some (imap (healed ref errs i) row ++ replicate (setDriveCount - length row) None).
Proof.
  unfold heal_row. induction row as [|this row IH] using rev_ind; intros Hn He; [cbn; by rewrite Nat.sub_0_r|].
  rewrite length_app in *. cbn [length] in *. rewrite !imap_app, fold_left_app, IH by lia.
  assert (exists err, errs !! (i * setDriveCount + length row)%nat = Some err) as [err Herr] by (apply lookup_lt_is_Some; lia).
  assert (imap (fun n => healed ref errs i (length row + n)%nat) [this] = [if errors_Is err (Some errUnformattedDisk) then Some (heal_format ref this) else None]) as ->.
  { cbn [imap]. unfold healed. by rewrite Nat.add_0_r, Herr. }
  cbn [imap fold_left]. rewrite Nat.add_0_r, Herr. cbn [mbind option_bind].
  assert (setDriveCount - length row = S (setDriveCount - (length row + 1)))%nat as -> by lia. cbn [replicate]. destruct (errors_Is err _).
  - rewrite (proj2 (Nat.ltb_lt _ _)) by lia. f_equal. rewrite insert_app_r_alt by (rewrite length_imap; lia). rewrite length_imap, Nat.sub_diag. cbn. by rewrite <-app_assoc.
  - by rewrite <-app_assoc.
Qed.
End Formats.

Lemma count_fmap_Some {A} (l : list A) : count is_Some_b (Some <$> l) = length l.
Proof. induction l as [|x l IH]; [done|]. cbn [fmap list_fmap]. rewrite count_cons. cbn [is_Some_b length]. by rewrite <-IH. Qed.

Lemma heal_all ref setCount setDriveCount errs : Forall (fun r => length r = setDriveCount) (fe_Sets ref) -> length (fe_Sets ref) = setCount ->
  length errs = (setCount * setDriveCount)%nat ->
  exists heal, newHealFormatSets ref setCount setDriveCount errs = Some heal /\
    forall i row, fe_Sets ref !! i = Some row -> exists hrow, heal !! i = Some hrow /\
      forall j this, row !! j = Some this -> hrow !! j = Some (healed setDriveCount ref errs i j this).
Proof.
  intros Hw Hl He. unfold newHealFormatSets. rewrite Hl, Nat.ltb_irrefl, Nat.sub_diag.
  assert (mapM id (imap (heal_row ref setDriveCount errs) (fe_Sets ref)) = Some (imap (fun i row => imap (healed setDriveCount ref errs i) row) (fe_Sets ref))) as ->.
  { apply mapM_Some. apply Forall2_same_length_lookup_2; [by rewrite !length_imap|]. intros i x y Hx Hy. rewrite list_lookup_imap in Hx. rewrite list_lookup_imap in Hy.
    destruct (fe_Sets ref !! i) as [row|] eqn:Er; [|done]. cbn in Hx, Hy. injection Hx as <-. injection Hy as <-.
    pose proof (Forall_lookup_1 _ _ _ _ Hw Er) as Hr. cbn in Hr. apply lookup_lt_Some in Er.
    unfold id. rewrite heal_row_ok by nia. rewrite Hr, Nat.sub_diag. cbn [replicate]. by rewrite app_nil_r. }
  cbn [mbind option_bind replicate]. eexists. split; [reflexivity|]. intros i row Hi. rewrite app_nil_r, list_lookup_imap, Hi. eexists. split; [reflexivity|].
  intros j this Hj. by rewrite list_lookup_imap, Hj.
Qed.

(** C18: drives keep their places.  After [initFormatErasure] wrote the formats of
    [setCount] sets of [setDriveCount] drives, as long as at least half of the drives, and one, can be read,
    [getFormatErasureInQuorum] returns the same reference format, the formats pass
    the checks and agree on the deployment, every drive is found at the place it was
    given, and the format that is written on a replaced drive is exactly the one
    that was lost. *)
Theorem formats_place_drives `{MapOrder} uuid setCount setDriveCount deploymentID distributionAlgo custom seen errs :
  let total := (setCount * setDriveCount)%nat in
  let formats := init_formats uuid setCount setDriveCount deploymentID distributionAlgo in
  (forall x y, (x <= total)%nat -> (y <= total)%nat -> uuid x = uuid y -> x = y) ->
  (forall x, (x <= total)%nat -> uuid x <> "" /\ uuid x <> offlineDiskUUID) ->
  (0 < total)%nat -> Z.of_nat total < 2 ^ 63 ->
  length seen = total -> (forall x f, seen !! x = Some (Some f) -> formats !! x = Some f) ->
  (0 < count is_Some_b seen)%nat -> Z.of_nat total / 2 <= Z.of_nat (count is_Some_b seen) -> length errs = total ->
  exists ref heal,
    initFormatErasure uuid setCount setDriveCount deploymentID distributionAlgo None = Ok ref /\
    getFormatErasureInQuorum seen = Ok ref /\
    checkFormatErasureValues custom seen (Z.of_nat setDriveCount) = Some None /\
    formatErasureGetDeploymentID ref seen = Ok (fm_ID ref) /\
    newHealFormatSets ref setCount setDriveCount errs = Some heal /\
    forall i j, (i < setCount)%nat -> (j < setDriveCount)%nat -> exists f row err,
      formats !! (i * setDriveCount + j)%nat = Some f /\
      findDiskIndex ref f = Some (Ok (Z.of_nat i, Z.of_nat j)) /\
      findDiskIndexByDiskID ref (fe_This f) = Some (Ok (Z.of_nat i, Z.of_nat j)) /\
      errs !! (i * setDriveCount + j)%nat = Some err /\ heal !! i = Some row /\
      row !! j = Some (if errors_Is err (Some errUnformattedDisk) then Some f else None).
Proof.
  intros total formats Hid Hne H0 Ht Hlen Hseen Hpos Hq Herrs. set (base := base_format uuid setCount setDriveCount deploymentID distributionAlgo).
  assert (formats = (fun x => with_This base (disk_id uuid x)) <$> seq 0 total) as Hf by apply init_formats_eq.
  assert (readable uuid setCount setDriveCount deploymentID distributionAlgo seen) as Hr.
  { split; [done|]. intros x f Hx. apply Hseen in Hx. rewrite Hf, list_lookup_fmap in Hx. destruct (seq 0 total !! x) as [y|] eqn:Ey; [|done].
    apply lookup_seq in Ey as [-> _]. injection Hx as <-. done. }
  assert (forall f, Some f ∈ seen -> exists this, f = with_This base this) as Hthis.
  { intros f [x Hx]%list_elem_of_lookup. exists (disk_id uuid x). by apply Hr. }
  destruct (heal_all base setCount setDriveCount errs) as (heal & Hheal & Hrows).
  { apply sets_width. } { cbn. by rewrite length_fmap, length_seq. } { done. }
  exists base, heal. split_and!.
  - unfold initFormatErasure. fold formats. apply format_in_quorum; [done|done|..].
    + split; [rewrite Hf, !length_fmap, length_seq; done|]. intros x f Hx. rewrite list_lookup_fmap, Hf, list_lookup_fmap in Hx.
      destruct (seq 0 total !! x) as [y|] eqn:Ey; [|done]. apply lookup_seq in Ey as [-> _]. by injection Hx as <-.
    + rewrite count_fmap_Some, Hf, length_fmap, length_seq. done.
    + rewrite count_fmap_Some, Hf, length_fmap, length_seq. apply Z.div_le_upper_bound; lia.
  - by apply format_in_quorum.
  - unfold checkFormatErasureValues. rewrite Hlen. apply (check_values_ok uuid setCount setDriveCount deploymentID distributionAlgo); [unfold total in H0; nia|done|done].
  - pose proof (deployment_id_ok uuid setCount setDriveCount deploymentID distributionAlgo Hne seen H0 Hthis "" (or_introl eq_refl)) as Hdep.
    rewrite (proj2 (Nat.ltb_lt 0 _) Hpos) in Hdep. exact Hdep.
  - done.
  - intros i j Hi Hj. assert (i * setDriveCount + j < total)%nat as Hx by (unfold total; nia).
    assert (exists err, errs !! (i * setDriveCount + j)%nat = Some err) as [err Herr] by (apply lookup_lt_is_Some; lia).
    destruct (sets_lookup uuid setCount setDriveCount deploymentID distributionAlgo i j Hi Hj) as (row & Hrow & Hj'). destruct (Hrows i row Hrow) as (hrow & Hh & Hat).
    destruct (findDiskIndex_at uuid setCount setDriveCount deploymentID distributionAlgo Hid Hne i j Hi Hj) as [H1 H2].
    exists (with_This base (disk_id uuid (i * setDriveCount + j))), hrow, err. split_and!; [|exact H1|exact H2|done|done|].
    + rewrite Hf, list_lookup_fmap, lookup_seq_lt by done. done.
    + rewrite (Hat j _ Hj'). unfold healed. by rewrite Herr.
Qed.


Definition toy_uuid (c : string) (n : nat) : string := c +:+ Itoa (Z.of_nat n).

Lemma toy_uuid_inj x y : (x <= 8)%nat -> (y <= 8)%nat -> toy_uuid "a" x = toy_uuid "a" y -> x = y.
Proof. intros Hx Hy. do 9 (destruct x as [|x]; [do 9 (destruct y as [|y]; [done|]); lia|]). lia. Qed.
Lemma toy_uuid_ok x : (x <= 8)%nat -> toy_uuid "a" x <> "" /\ toy_uuid "a" x <> offlineDiskUUID.
Proof. intros Hx. do 9 (destruct x as [|x]; [done|]). lia. Qed.

(** Two sets of four drives, of which four can be read and one is new. *)
Definition toy_formats : list formatErasureV3 := init_formats (toy_uuid "a") 2 4 "" "".
Definition toy_seen : list (option formatErasureV3) := imap (fun x f => if (x <? 4)%nat then Some f else None) toy_formats.
Definition toy_errs : list (option error) := [None; None; None; None; Some errUnformattedDisk; Some errDiskNotFound; Some errDiskNotFound; Some errDiskNotFound].

Lemma formats_place_drives_witness : exists ref heal,
    initFormatErasure (toy_uuid "a") 2 4 "" "" None = Ok ref /\ getFormatErasureInQuorum toy_seen = Ok ref /\
    checkFormatErasureValues true toy_seen 4 = Some None /\ formatErasureGetDeploymentID ref toy_seen = Ok (fm_ID ref) /\
    newHealFormatSets ref 2 4 toy_errs = Some heal /\
    forall i j, (i < 2)%nat -> (j < 4)%nat -> exists f row err,
      toy_formats !! (i * 4 + j)%nat = Some f /\ findDiskIndex ref f = Some (Ok (Z.of_nat i, Z.of_nat j)) /\
      findDiskIndexByDiskID ref (fe_This f) = Some (Ok (Z.of_nat i, Z.of_nat j)) /\
      toy_errs !! (i * 4 + j)%nat = Some err /\ heal !! i = Some row /\ row !! j = Some (if errors_Is err (Some errUnformattedDisk) then Some f else None).
Proof.
  apply (formats_place_drives (toy_uuid "a") 2 4 "" "" true toy_seen toy_errs);
    [exact toy_uuid_inj|exact toy_uuid_ok|lia|lia|reflexivity| |vm_compute; lia|vm_compute; done|reflexivity].
  intros x f Hx. unfold toy_seen in Hx. rewrite list_lookup_imap in Hx. change (toy_formats !! x = Some f). destruct (toy_formats !! x) as [g|]; [|done].
  change (Some (if (x <? 4)%nat then Some g else None) = Some (Some f)) in Hx. destruct (x <? 4)%nat; congruence.
Defined.

(** The quorum counts drives, not formats: a drive of another deployment with as many
    drives that comes first is taken as the reference, and the three drives of the
    deployment do not match it. *)
Lemma foreign_format_wins :
  let own := init_formats (toy_uuid "a") 1 4 "" "" in
  let foreign := init_formats (toy_uuid "b") 1 4 "" "" in
  let seen := Some <$> (take 1 foreign ++ drop 1 own) in
  exists ref, getFormatErasureInQuorum seen = Ok ref /\ fm_ID ref = "b0" /\
    Forall (fun f => findDiskIndex ref f = Some (Err errSetUUID)) (drop 1 own).
Proof. eexists. split; [vm_compute; reflexivity|]. split; [reflexivity|]. repeat constructor. Qed.

(** An object always has a set, if the algorithm is known. *)
Lemma getHashedSet_total {A} `{SipHash} algo (sets : list A) id input : sets <> [] -> len sets < 2 ^ 32 ->
  algo ∈ [formatErasureVersionV2DistributionAlgoV1; formatErasureVersionV3DistributionAlgoV2; formatErasureVersionV3DistributionAlgoV3] ->
  is_Some (getHashedSet algo sets id input).
Proof.
  intros Hs Hl Ha. assert (0 < len sets) as Hpos by (destruct sets; [done|cbn [length]; lia]).
  assert (0 <= hashKey algo input (len sets) id < len sets) as Hr.
  { assert (crcHashMod input (len sets) = crc32_ieee input mod len sets /\ exists k, sipHashMod input (len sets) id = k mod len sets) as [Hc [k Hk]].
    { unfold crcHashMod, sipHashMod. rewrite (proj2 (Z.leb_gt (len sets) 0)) by lia. rewrite (Z.mod_small (len sets)) by lia. eauto. }
    unfold hashKey. rewrite !elem_of_cons, elem_of_nil in Ha. rewrite Hc, Hk.
    destruct Ha as [->|[->|[->|[]]]]; cbn; by apply Z.mod_pos_bound. }
  unfold getHashedSet, go_get. rewrite (proj2 (Z.ltb_ge _ 0)) by lia. apply lookup_lt_is_Some. lia.
Qed.
