(* ===== verification/Lifecycle.v ===== *)
(** * Bucket lifecycle ([internal/bucket/lifecycle])

    A bucket's lifecycle configuration is a list of rules that say when versions of
    objects expire, when they move to a remote tier, and how many noncurrent
    versions are kept.  This file models the configuration, its validation, the
    filtering of rules and the action the configuration asks for on a version
    ([ComputeAction]), with the predictions sent to clients.

    Parameters: [ParseObjectTags] of the tagging library, the random UUIDs of
    [validateID], and the clock: the readings of one evaluation are one instant
    [now]. *)

From Stdlib Require Import Ascii.
From S2P Require Import Prelude.

(** ** Errors

    [lifecycle.Errorf] makes a value compared by the identity of the error inside;
    the first argument tells apart the ones with the same text. *)

Definition errLifecycleTooManyRules := Errorf 100 "Lifecycle configuration allows a maximum of 1000 rules".
Definition errLifecycleNoRule := Errorf 101 "Lifecycle configuration should have at least one rule".
Definition errLifecycleDuplicateID := Errorf 102 "Lifecycle configuration has rule with the same ID. Rule ID must be unique.".
Definition errXMLNotWellFormed := Errorf 103 "The XML you provided was not well-formed or did not validate against our published schema".
Definition errInvalidRuleID := Errorf 104 "ID length is limited to 255 characters".
Definition errEmptyRuleStatus := Errorf 105 "Status should not be empty".
Definition errInvalidRuleStatus := Errorf 106 "Status must be set to either Enabled or Disabled".
Definition errLifecycleInvalidDays := Errorf 108 "Days must be positive integer when used with Expiration".
Definition errLifecycleInvalidExpiration := Errorf 109 "Exactly one of Days (positive integer) or Date (positive ISO 8601 format) should be present inside Expiration.".
Definition errLifecycleInvalidDeleteMarker := Errorf 110 "Delete marker cannot be specified with Days or Date in a Lifecycle Expiration Policy".
Definition errInvalidFilter := Errorf 112 "Filter must have exactly one of Prefix, Tag, or And specified".
Definition errDuplicateTagKey := Errorf 113 "Duplicate Tag Keys are not allowed".
Definition errInvalidTagKey := Errorf 114 "The TagKey you have provided is invalid".
Definition errInvalidTagValue := Errorf 115 "The TagValue you have provided is invalid".
Definition errTransitionInvalid := Errorf 120 "Exactly one of Days (0 or greater) or Date (positive ISO 8601 format) should be present in Transition.".

(** ** Data *)

Definition TransitionComplete : string := "complete".
Definition Enabled : string := "Enabled".
Definition Disabled : string := "Disabled".

Inductive Action :=
| NoneAction
| DeleteAction
| DeleteVersionAction
| TransitionAction
| TransitionVersionAction
| DeleteRestoredAction
| DeleteRestoredVersionAction.

#[global] Instance Action_eq_dec : EqDecision Action.
Proof. solve_decision. Defined.

Record Prefix := mkPrefix { pf_string : string; pf_set : bool }.

Record Tag := mkTag { tg_Key : string; tg_Value : string }.

Record And := mkAnd { an_Prefix : Prefix; an_Tags : list Tag }.

Record Filter := mkFilter {
  fl_set : bool;
  fl_Prefix : Prefix;
  fl_And : And;
  fl_andSet : bool;
  fl_Tag : Tag;
  fl_tagSet : bool;
  fl_cachedTags : option (gmap string string)
}.

Record ExpireDeleteMarker := mkDM { dm_val : bool; dm_set : bool }.

Record Expiration := mkExpiration {
  ex_Days : Z;
  ex_Date : time;
  ex_DeleteMarker : ExpireDeleteMarker;
  ex_set : bool
}.

Record Transition := mkTransition {
  tn_Days : Z;
  tn_Date : time;
  tn_StorageClass : string;
  tn_set : bool
}.

Record NoncurrentVersionExpiration := mkNCExpiration {
  ne_NoncurrentDays : Z;
  ne_NewerNoncurrentVersions : Z;
  ne_set : bool
}.

Record NoncurrentVersionTransition := mkNCTransition {
  nt_NoncurrentDays : Z;
  nt_StorageClass : string;
  nt_set : bool
}.

Record Rule := mkRule {
  ru_ID : string;
  ru_Status : string;
  ru_Filter : Filter;
  ru_Prefix : Prefix;
  ru_Expiration : Expiration;
  ru_Transition : Transition;
  ru_NoncurrentVersionExpiration : NoncurrentVersionExpiration;
  ru_NoncurrentVersionTransition : NoncurrentVersionTransition
}.

Record Lifecycle := mkLifecycle { lc_Rules : list Rule }.

Record ObjectOpts := mkOpts {
  oo_Name : string;
  oo_UserTags : string;
  oo_ModTime : time;
  oo_VersionID : string;
  oo_IsLatest : bool;
  oo_DeleteMarker : bool;
  oo_NumVersions : Z;
  oo_SuccessorModTime : time;
  oo_TransitionStatus : string;
  oo_RestoreOngoing : bool;
  oo_RestoreExpires : time
}.

(** ** Tags, prefixes and filters *)

(** The number of bytes of the first rune of a string, [utf8.DecodeRuneInString]:
    a byte that starts no valid encoding is a rune of its own. *)
Definition in_range (lo hi : nat) (c : ascii) : bool :=
  (lo <=? nat_of_ascii c)%nat && (nat_of_ascii c <=? hi)%nat.

Definition rune_size (c : ascii) (s : string) : nat :=
  let cont := in_range 128 191 in
  let second := if in_range 224 224 c then in_range 160 191
                else if in_range 237 237 c then in_range 128 159
                else if in_range 240 240 c then in_range 144 191
                else if in_range 244 244 c then in_range 128 143
                else cont in
  match s with
  | String c1 s1 =>
      if in_range 194 223 c then (if second c1 then 2 else 1)%nat
      else match s1 with
           | String c2 s2 =>
               if in_range 224 239 c then (if second c1 && cont c2 then 3 else 1)%nat
               else match s2 with
                    | String c3 _ =>
                        if in_range 240 244 c && second c1 && cont c2 && cont c3 then 4%nat else 1%nat
                    | EmptyString => 1%nat
                    end
           | EmptyString => 1%nat
           end
  | EmptyString => 1%nat
  end.

(** [skip] counts the bytes left of the rune being read. *)
Fixpoint rune_count (skip : nat) (s : string) : Z :=
  match s with
  | EmptyString => 0
  | String c s =>
      match skip with
      | S skip => rune_count skip s
      | O => 1 + rune_count (rune_size c s - 1) s
      end
  end.
Definition RuneCountInString (s : string) : Z := rune_count 0 s.

Definition Tag_String (t : Tag) : string := tg_Key t +:+ "=" +:+ tg_Value t.
Definition Tag_IsEmpty (t : Tag) : bool := bool_decide (tg_Key t = "").

Definition Tag_Validate (t : Tag) : option error :=
  if (Z.of_nat (String.length (tg_Key t)) =? 0) || (128 <? RuneCountInString (tg_Key t)) then Some errInvalidTagKey
  else if 256 <? RuneCountInString (tg_Value t) then Some errInvalidTagValue
  else None.

Definition Prefix_String (p : Prefix) : string := pf_string p.

Definition And_isEmpty (a : And) : bool := (len (an_Tags a) =? 0) && negb (pf_set (an_Prefix a)).

(** The loop of [ContainsDuplicateTag], with the keys met so far. *)
Fixpoint duplicate_tag (x : gset string) (ts : list Tag) : bool :=
  match ts with
  | [] => false
  | t :: ts => if bool_decide (tg_Key t ∈ x) then true else duplicate_tag ({[tg_Key t]} ∪ x) ts
  end.
Definition ContainsDuplicateTag (a : And) : bool := duplicate_tag ∅ (an_Tags a).

(** The first error of a list of checks, tried in order. *)
Fixpoint first_error (es : list (option error)) : option error :=
  match es with
  | [] => None
  | Some e :: _ => Some e
  | None :: es => first_error es
  end.

Definition And_Validate (a : And) : option error :=
  let emptyPrefix := negb (pf_set (an_Prefix a)) in
  let emptyTags := len (an_Tags a) =? 0 in
  if emptyPrefix && emptyTags then None
  else if emptyPrefix && negb emptyTags || negb emptyPrefix && emptyTags then Some errXMLNotWellFormed
  else if ContainsDuplicateTag a then Some errDuplicateTagKey
  else first_error (Tag_Validate <$> an_Tags a).

Definition Filter_IsEmpty (f : Filter) : bool := negb (fl_set f).

Definition Filter_Validate (f : Filter) : option error :=
  if Filter_IsEmpty f then Some errXMLNotWellFormed
  else
    let tag := negb (Tag_IsEmpty (fl_Tag f)) in
    first_error [
      (if negb (And_isEmpty (fl_And f)) then
         if pf_set (fl_Prefix f) then Some errInvalidFilter
         else if tag then Some errInvalidFilter
         else And_Validate (fl_And f)
       else None);
      (if pf_set (fl_Prefix f) then if tag then Some errInvalidFilter else None else None);
      (if tag then
         if pf_set (fl_Prefix f) then Some errInvalidFilter
         else Tag_Validate (fl_Tag f)
       else None)].

(** [tags.ParseObjectTags] and [ToMap] of the tagging library. *)
Class ObjectTags := {
  ParseObjectTags : string -> result (gmap string string)
}.

(** The map [TestTags] builds: a later tag replaces an earlier one with its key. *)
Definition tag_cache (ts : list Tag) : gmap string string :=
  fold_left (fun cache t => if Tag_IsEmpty t then cache else <[tg_Key t := tg_Value t]> cache) ts ∅.

(** The assignment to [f.cachedTags] is made on a copy of the filter and is lost. *)
Definition TestTags `{MapOrder} `{ObjectTags} (f : Filter) (userTags : string) : bool :=
  let cachedTags := match fl_cachedTags f with
                    | None => tag_cache (an_Tags (fl_And f) ++ [fl_Tag f])
                    | Some cache => cache
                    end in
  if bool_decide (cachedTags = ∅) then true
  else match ParseObjectTags userTags with
       | Err _ => false
       | Ok tagsMap =>
           if bool_decide (tagsMap = ∅) then false
           else existsb (fun kv => bool_decide (tagsMap !! kv.1 = Some kv.2)) (range_map cachedTags)
       end.

(** ** When an action is due

    [time.Duration(days+1) * 24 * time.Hour] is 64-bit arithmetic; [Truncate]
    rounds down to a multiple of a day since the zero time. *)

Definition day : Z := 24 * hour.

Definition ExpectedExpiryTime (modTime : time) (days : Z) : time :=
  if days =? 0 then modTime
  else
    let t := modTime + ((days + 1) * 24 * hour)%int64 in
    t - t mod day.

(** ** Expiration and transition *)

Definition Expiration_IsDaysNull (e : Expiration) : bool := ex_Days e =? 0.
Definition Expiration_IsDateNull (e : Expiration) : bool := time_IsZero (ex_Date e).
Definition Expiration_IsNull (e : Expiration) : bool := Expiration_IsDaysNull e && Expiration_IsDateNull e.

Definition Expiration_Validate (e : Expiration) : option error :=
  if negb (ex_set e) then None
  else if (negb (Expiration_IsDaysNull e) || negb (Expiration_IsDateNull e)) && dm_set (ex_DeleteMarker e) then
    Some errLifecycleInvalidDeleteMarker
  else if negb (dm_set (ex_DeleteMarker e)) && Expiration_IsDaysNull e && Expiration_IsDateNull e then
    Some errXMLNotWellFormed
  else if negb (Expiration_IsDaysNull e) && negb (Expiration_IsDateNull e) then Some errLifecycleInvalidExpiration
  else None.

Definition Transition_IsEnabled (t : Transition) : bool := tn_set t.
Definition Transition_IsDateNull (t : Transition) : bool := time_IsZero (tn_Date t).
Definition Transition_IsNull (t : Transition) : bool := bool_decide (tn_StorageClass t = "").

Definition Transition_Validate (t : Transition) : option error :=
  if negb (tn_set t) then None
  else if negb (Transition_IsDateNull t) && (0 <? tn_Days t) then Some errTransitionInvalid
  else if bool_decide (tn_StorageClass t = "") then Some errXMLNotWellFormed
  else None.

(** [None] is the second result [false]. *)
Definition Transition_NextDue (t : Transition) (obj : ObjectOpts) : option time :=
  if negb (oo_IsLatest obj) || Transition_IsNull t then None
  else if negb (Transition_IsDateNull t) then Some (tn_Date t)
  else if tn_Days t =? 0 then Some (oo_ModTime obj)
  else Some (ExpectedExpiryTime (oo_ModTime obj) (tn_Days t)).

Definition NCExpiration_IsDaysNull (n : NoncurrentVersionExpiration) : bool := ne_NoncurrentDays n =? 0.
Definition NCExpiration_IsNull (n : NoncurrentVersionExpiration) : bool :=
  NCExpiration_IsDaysNull n && (ne_NewerNoncurrentVersions n =? 0).

Definition NCExpiration_Validate (n : NoncurrentVersionExpiration) : option error :=
  if negb (ne_set n) then None
  else
    let val := ne_NoncurrentDays n in
    if (val =? 0) && (ne_NewerNoncurrentVersions n =? 0) then Some errXMLNotWellFormed
    else if (val <? 0) || (ne_NewerNoncurrentVersions n <? 0) then Some errXMLNotWellFormed
    else None.

Definition NCTransition_IsNull (n : NoncurrentVersionTransition) : bool := bool_decide (nt_StorageClass n = "").

Definition NCTransition_Validate (n : NoncurrentVersionTransition) : option error :=
  if negb (nt_set n) then None
  else if bool_decide (nt_StorageClass n = "") then Some errXMLNotWellFormed
  else None.

Definition NCTransition_NextDue (n : NoncurrentVersionTransition) (obj : ObjectOpts) : option time :=
  if oo_IsLatest obj || bool_decide (nt_StorageClass n = "") then None
  else if nt_NoncurrentDays n =? 0 then Some (oo_SuccessorModTime obj)
  else Some (ExpectedExpiryTime (oo_SuccessorModTime obj) (nt_NoncurrentDays n)).

(** ** Rules *)

(** [newID] is what [getNewUUID] returns; the new identifier is stored in a copy of
    the rule and lost. *)
Definition validateID (newID : result string) (r : Rule) : option error :=
  let IDLen := Z.of_nat (String.length (ru_ID r)) in
  if IDLen =? 0 then match newID with Ok _ => None | Err e => Some e end
  else if 255 <? IDLen then Some errInvalidRuleID
  else None.

Definition validateStatus (r : Rule) : option error :=
  if Z.of_nat (String.length (ru_Status r)) =? 0 then Some errEmptyRuleStatus
  else if negb (bool_decide (ru_Status r = Enabled)) && negb (bool_decide (ru_Status r = Disabled)) then
    Some errInvalidRuleStatus
  else None.

Definition validatePrefixAndFilter (r : Rule) : option error :=
  if negb (pf_set (ru_Prefix r)) && Filter_IsEmpty (ru_Filter r) ||
     pf_set (ru_Prefix r) && negb (Filter_IsEmpty (ru_Filter r)) then Some errXMLNotWellFormed
  else if negb (pf_set (ru_Prefix r)) then Filter_Validate (ru_Filter r)
  else None.

Definition GetPrefix (r : Rule) : string :=
  let p := Prefix_String (ru_Prefix r) in
  if negb (bool_decide (p = "")) then p else
  let p := Prefix_String (fl_Prefix (ru_Filter r)) in
  if negb (bool_decide (p = "")) then p else
  let p := Prefix_String (an_Prefix (fl_And (ru_Filter r))) in
  if negb (bool_decide (p = "")) then p else "".

(** The tags of [And], written to a buffer. *)
Definition Rule_Tags (r : Rule) : string :=
  if negb (Tag_IsEmpty (fl_Tag (ru_Filter r))) then Tag_String (fl_Tag (ru_Filter r))
  else if negb (len (an_Tags (fl_And (ru_Filter r))) =? 0) then
    fold_left (fun buf t => (if bool_decide (buf = "") then buf else buf +:+ "&") +:+ Tag_String t)
      (an_Tags (fl_And (ru_Filter r))) ""
  else "".

Definition Rule_Validate (newID : result string) (r : Rule) : option error :=
  first_error [
    validateID newID r;
    validateStatus r;
    Expiration_Validate (ru_Expiration r);
    NCExpiration_Validate (ru_NoncurrentVersionExpiration r);
    validatePrefixAndFilter r;
    Transition_Validate (ru_Transition r);
    NCTransition_Validate (ru_NoncurrentVersionTransition r);
    if negb (ex_set (ru_Expiration r)) && negb (tn_set (ru_Transition r)) &&
       negb (ne_set (ru_NoncurrentVersionExpiration r)) && negb (nt_set (ru_NoncurrentVersionTransition r))
    then Some errXMLNotWellFormed else None].

(** ** The configuration *)

Definition HasTransition (lc : Lifecycle) : bool :=
  existsb (fun rule => Transition_IsEnabled (ru_Transition rule)) (lc_Rules lc).

(** The loop that looks for a rule with the identifier of an earlier one. *)
Fixpoint duplicate_id (rules : list Rule) : bool :=
  match rules with
  | [] => false
  | r :: otherRules => existsb (fun o => bool_decide (ru_ID r = ru_ID o)) otherRules || duplicate_id otherRules
  end.

(** [newIDs i] is the UUID drawn for the [i]-th rule. *)
Definition Lifecycle_Validate (newIDs : nat -> result string) (lc : Lifecycle) : option error :=
  if 1000 <? len (lc_Rules lc) then Some errLifecycleTooManyRules
  else if len (lc_Rules lc) =? 0 then Some errLifecycleNoRule
  else first_error (imap (fun i => Rule_Validate (newIDs i)) (lc_Rules lc) ++
                    [if duplicate_id (lc_Rules lc) then Some errLifecycleDuplicateID else None]).

(** One rule of the loop of [HasActiveRules]. *)
Definition active_rule (now : time) (prefix : string) (recursive : bool) (rule : Rule) : bool :=
  if bool_decide (ru_Status rule = Disabled) then false
  else if negb (bool_decide (prefix = "")) && negb (bool_decide (GetPrefix rule = "")) &&
          (if recursive
           then negb (String.prefix (GetPrefix rule) prefix) && negb (String.prefix prefix (GetPrefix rule))
           else negb (String.prefix (GetPrefix rule) prefix)) then false
  else if 0 <? ne_NoncurrentDays (ru_NoncurrentVersionExpiration rule) then true
  else if 0 <? ne_NewerNoncurrentVersions (ru_NoncurrentVersionExpiration rule) then true
  else if negb (NCTransition_IsNull (ru_NoncurrentVersionTransition rule)) then true
  else if Expiration_IsNull (ru_Expiration rule) && Transition_IsNull (ru_Transition rule) then false
  else if negb (Expiration_IsDateNull (ru_Expiration rule)) && (ex_Date (ru_Expiration rule) <? now) then true
  else if negb (Expiration_IsDaysNull (ru_Expiration rule)) then true
  else if negb (Transition_IsDateNull (ru_Transition rule)) && (tn_Date (ru_Transition rule) <? now) then true
  else negb (Transition_IsNull (ru_Transition rule)).

Definition HasActiveRules (now : time) (lc : Lifecycle) (prefix : string) (recursive : bool) : bool :=
  existsb (active_rule now prefix recursive) (lc_Rules lc).

Section Evaluation.
Context `{MapOrder} `{ObjectTags}.

(** What the loop of [FilterActionableRules] appends for one rule. *)
Definition actionable (obj : ObjectOpts) (rule : Rule) : list Rule :=
  if bool_decide (ru_Status rule = Disabled) then []
  else if negb (String.prefix (GetPrefix rule) (oo_Name obj)) then []
  else if dm_val (ex_DeleteMarker (ru_Expiration rule)) then [rule]
  else if negb (NCExpiration_IsDaysNull (ru_NoncurrentVersionExpiration rule)) then [rule]
  else if 0 <? ne_NewerNoncurrentVersions (ru_NoncurrentVersionExpiration rule) then [rule]
  else if negb (NCTransition_IsNull (ru_NoncurrentVersionTransition rule)) then [rule]
  else (if TestTags (ru_Filter rule) (oo_UserTags obj) then [rule] else []) ++
       (if negb (Transition_IsNull (ru_Transition rule)) then [rule] else []).

Definition FilterActionableRules (lc : Lifecycle) (obj : ObjectOpts) : list Rule :=
  if bool_decide (oo_Name obj = "") then []
  else concat (actionable obj <$> lc_Rules lc).

Definition ExpiredObjectDeleteMarker (o : ObjectOpts) : bool := oo_DeleteMarker o && (oo_NumVersions o =? 1).

(** A noncurrent version: it has an identifier and a successor. *)
Definition noncurrent (obj : ObjectOpts) : bool :=
  negb (bool_decide (oo_VersionID obj = "")) && negb (oo_IsLatest obj) &&
  negb (time_IsZero (oo_SuccessorModTime obj)).

Definition restore_action (obj : ObjectOpts) : Action :=
  if negb (bool_decide (oo_VersionID obj = "")) then DeleteRestoredVersionAction else DeleteRestoredAction.

(** One rule of the loop of [ComputeAction]: the action returned at once, or the
    action so far. *)
Definition rule_action (now : time) (obj : ObjectOpts) (rule : Rule) (action : Action) : Action + Action :=
  let days := ex_Days (ru_Expiration rule) in
  let ne := ru_NoncurrentVersionExpiration rule in
  if ExpiredObjectDeleteMarker obj && dm_val (ex_DeleteMarker (ru_Expiration rule)) then inl DeleteVersionAction
  else if ExpiredObjectDeleteMarker obj && negb (Expiration_IsDaysNull (ru_Expiration rule)) &&
          (ExpectedExpiryTime (oo_ModTime obj) days <? now) then inl DeleteVersionAction
  else if negb (NCExpiration_IsDaysNull ne) && negb (oo_IsLatest obj) && (0 <? ne_NewerNoncurrentVersions ne) then
    inr action
  else if negb (NCExpiration_IsDaysNull ne) && noncurrent obj &&
          (ExpectedExpiryTime (oo_SuccessorModTime obj) (ne_NoncurrentDays ne) <? now) then inl DeleteVersionAction
  else if negb (NCTransition_IsNull (ru_NoncurrentVersionTransition rule)) && noncurrent obj &&
          negb (oo_DeleteMarker obj) && negb (bool_decide (oo_TransitionStatus obj = TransitionComplete)) &&
          match NCTransition_NextDue (ru_NoncurrentVersionTransition rule) obj with
          | Some due => due <? now
          | None => false
          end then inl TransitionVersionAction
  else if bool_decide (oo_VersionID obj = "") || oo_IsLatest obj && negb (oo_DeleteMarker obj) then
    if negb (Expiration_IsDateNull (ru_Expiration rule)) && (ex_Date (ru_Expiration rule) <? now) then inl DeleteAction
    else if Expiration_IsDateNull (ru_Expiration rule) && negb (Expiration_IsDaysNull (ru_Expiration rule)) &&
            (ExpectedExpiryTime (oo_ModTime obj) days <? now) then inl DeleteAction
    else
      let restored := negb (time_IsZero (oo_RestoreExpires obj)) && (oo_RestoreExpires obj <? now) in
      let action :=
        if negb (bool_decide (oo_TransitionStatus obj = TransitionComplete)) then
          let action := match Transition_NextDue (ru_Transition rule) obj with
                        | Some due => if due <? now then TransitionAction else action
                        | None => action
                        end in
          if restored then restore_action obj else action
        else action in
      inr (if restored then restore_action obj else action)
  else inr action.

Fixpoint compute_loop (now : time) (obj : ObjectOpts) (rules : list Rule) (action : Action) : Action :=
  match rules with
  | [] => action
  | rule :: rules =>
      match rule_action now obj rule action with
      | inl action => action
      | inr action => compute_loop now obj rules action
      end
  end.

Definition ComputeAction (now : time) (lc : Lifecycle) (obj : ObjectOpts) : Action :=
  if time_IsZero (oo_ModTime obj) then NoneAction
  else compute_loop now obj (FilterActionableRules lc obj) NoneAction.

(** ** Predictions *)

(** One rule of the loop of [PredictExpiryTime], on the final rule identifier and
    date. *)
Definition earlier (best : string * time) (id : string) (t : time) : string * time :=
  if time_IsZero best.2 || (t <? best.2) then (id, t) else best.

Fixpoint predict_expiry (obj : ObjectOpts) (rules : list Rule) (best : string * time) : string * time :=
  match rules with
  | [] => best
  | rule :: rules =>
      let ne := ru_NoncurrentVersionExpiration rule in
      let ex := ru_Expiration rule in
      if negb (oo_IsLatest obj) && (0 <? ne_NewerNoncurrentVersions ne) then predict_expiry obj rules best
      else if negb (NCExpiration_IsDaysNull ne) && negb (oo_IsLatest obj) && negb (bool_decide (oo_VersionID obj = "")) then
        (ru_ID rule, ExpectedExpiryTime (oo_SuccessorModTime obj) (ne_NoncurrentDays ne))
      else
        let best := if negb (Expiration_IsDateNull ex) then earlier best (ru_ID rule) (ex_Date ex) else best in
        let best := if negb (Expiration_IsDaysNull ex)
                    then earlier best (ru_ID rule) (ExpectedExpiryTime (oo_ModTime obj) (ex_Days ex)) else best in
        predict_expiry obj rules best
  end.

Definition PredictExpiryTime (lc : Lifecycle) (obj : ObjectOpts) : string * time :=
  if oo_DeleteMarker obj then ("", 0)
  else predict_expiry obj (FilterActionableRules lc obj) ("", 0).

Definition PredictTransitionTime (lc : Lifecycle) (obj : ObjectOpts) : string * time :=
  if oo_DeleteMarker obj then ("", 0)
  else if bool_decide (oo_TransitionStatus obj = TransitionComplete) then ("", 0)
  else fold_left (fun best rule =>
         let best := match Transition_NextDue (ru_Transition rule) obj with
                     | Some due => earlier best (ru_ID rule) due
                     | None => best
                     end in
         match NCTransition_NextDue (ru_NoncurrentVersionTransition rule) obj with
         | Some due => earlier best (ru_ID rule) due
         | None => best
         end) (FilterActionableRules lc obj) ("", 0).

Fixpoint transition_tier (obj : ObjectOpts) (rules : list Rule) : string :=
  match rules with
  | [] => ""
  | rule :: rules =>
      if oo_IsLatest obj && negb (bool_decide (tn_StorageClass (ru_Transition rule) = "")) then
        tn_StorageClass (ru_Transition rule)
      else if negb (oo_IsLatest obj) && negb (bool_decide (nt_StorageClass (ru_NoncurrentVersionTransition rule) = "")) then
        nt_StorageClass (ru_NoncurrentVersionTransition rule)
      else transition_tier obj rules
  end.
Definition TransitionTier (lc : Lifecycle) (obj : ObjectOpts) : string :=
  transition_tier obj (FilterActionableRules lc obj).

(** The rule identifier, the days and the limit. *)
Definition limit_step (acc : string * Z * Z) (rule : Rule) : string * Z * Z :=
  let '(ruleID, days, lim) := acc in
  let ne := ru_NoncurrentVersionExpiration rule in
  if ne_NewerNoncurrentVersions ne =? 0 then acc
  else
    let lim := if (lim =? 0) || (lim <? ne_NewerNoncurrentVersions ne) then ne_NewerNoncurrentVersions ne else lim in
    let ndays := ne_NoncurrentDays ne in
    if (days =? 0) || (ndays <? days) then (ru_ID rule, ndays, lim) else (ruleID, days, lim).
Definition NoncurrentVersionsExpirationLimit (lc : Lifecycle) (obj : ObjectOpts) : string * Z * Z :=
  fold_left limit_step (FilterActionableRules lc obj) ("", 0, 0).
End Evaluation.

(** ** Specifications *)

(** What a rule asks for on a version at [now].  [Days] and [Date] are due once
    the expected time has passed. *)
Definition expires (now : time) (obj : ObjectOpts) (ex : Expiration) : Prop :=
  if Expiration_IsDateNull ex then ex_Days ex <> 0 /\ ExpectedExpiryTime (oo_ModTime obj) (ex_Days ex) < now
  else ex_Date ex < now.

Definition is_current (obj : ObjectOpts) : Prop :=
  oo_VersionID obj = "" \/ oo_IsLatest obj = true /\ oo_DeleteMarker obj = false.

Inductive due (now : time) (obj : ObjectOpts) (rule : Rule) : Action -> Prop :=
| due_marker :
    oo_DeleteMarker obj = true -> oo_NumVersions obj = 1 ->
    dm_val (ex_DeleteMarker (ru_Expiration rule)) = true \/
    ex_Days (ru_Expiration rule) <> 0 /\ ExpectedExpiryTime (oo_ModTime obj) (ex_Days (ru_Expiration rule)) < now ->
    due now obj rule DeleteVersionAction
| due_noncurrent :
    noncurrent obj = true -> ne_NoncurrentDays (ru_NoncurrentVersionExpiration rule) <> 0 ->
    ne_NewerNoncurrentVersions (ru_NoncurrentVersionExpiration rule) <= 0 ->
    ExpectedExpiryTime (oo_SuccessorModTime obj) (ne_NoncurrentDays (ru_NoncurrentVersionExpiration rule)) < now ->
    due now obj rule DeleteVersionAction
| due_noncurrent_transition t :
    noncurrent obj = true -> oo_DeleteMarker obj = false -> oo_TransitionStatus obj <> TransitionComplete ->
    NCTransition_NextDue (ru_NoncurrentVersionTransition rule) obj = Some t -> t < now ->
    due now obj rule TransitionVersionAction
| due_expiry :
    is_current obj -> expires now obj (ru_Expiration rule) -> due now obj rule DeleteAction
| due_transition t :
    is_current obj -> oo_TransitionStatus obj <> TransitionComplete ->
    Transition_NextDue (ru_Transition rule) obj = Some t -> t < now ->
    due now obj rule TransitionAction
| due_restore :
    is_current obj -> oo_RestoreExpires obj <> 0 -> oo_RestoreExpires obj < now ->
    due now obj rule (restore_action obj).

(** A rule that is switched on and whose prefix covers the object. *)
Definition applies (lc : Lifecycle) (obj : ObjectOpts) (rule : Rule) : Prop :=
  rule ∈ lc_Rules lc /\ ru_Status rule <> Disabled /\
  String.prefix (GetPrefix rule) (oo_Name obj) = true.

Lemma is_current_bool obj :
  bool_decide (oo_VersionID obj = "") || oo_IsLatest obj && negb (oo_DeleteMarker obj) = true <-> is_current obj.
Proof.
  unfold is_current. rewrite orb_true_iff, andb_true_iff, negb_true_iff, bool_decide_eq_true. done.
Qed.

Lemma time_IsZero_false t : time_IsZero t = false <-> t <> 0.
Proof. unfold time_IsZero. apply bool_decide_eq_false. Qed.

(** A rule returns at once only what is due, and changes the action so far only to
    what is due. *)
Lemma rule_action_due now obj rule action :
  match rule_action now obj rule action with
  | inl a => due now obj rule a /\ a <> NoneAction
  | inr a => a = action \/ due now obj rule a
  end.
Proof.
  unfold rule_action. cbv zeta.
  destruct (ExpiredObjectDeleteMarker obj && dm_val _) eqn:E1.
  { unfold ExpiredObjectDeleteMarker in E1. btrue. split; [|done]. apply due_marker; [done|lia|by left]. }
  destruct (ExpiredObjectDeleteMarker obj && _ && _) eqn:E2.
  { unfold ExpiredObjectDeleteMarker, Expiration_IsDaysNull in E2. btrue. split; [|done].
    apply due_marker; [done|lia|right; lia]. }
  destruct (negb _ && negb (oo_IsLatest obj) && _) eqn:E3; [by left|].
  destruct (negb _ && noncurrent obj && _) eqn:E4.
  { btrue. split; [|done]. unfold NCExpiration_IsDaysNull in *. apply due_noncurrent; [done|lia| |lia].
    destruct (oo_IsLatest obj) eqn:El; [unfold noncurrent in *; rewrite El in *; btrue; done|].
    rewrite (proj2 (Z.eqb_neq _ _)) in E3 by lia. cbn in E3. lia. }
  destruct (negb _ && noncurrent obj && _ && _ && _) eqn:E5.
  { btrue. split; [|done]. destruct (NCTransition_NextDue _ _) as [t|] eqn:Et; [|done].
    eapply due_noncurrent_transition; [done|done|by eapply bool_decide_eq_false_1|done|lia]. }
  destruct (_ || _) eqn:Ec; [|by left]. apply is_current_bool in Ec.
  destruct (negb (Expiration_IsDateNull _) && _) eqn:E6.
  { btrue. split; [|done]. apply due_expiry; [done|]. unfold expires. destruct (Expiration_IsDateNull _); [done|lia]. }
  destruct (Expiration_IsDateNull _ && _ && _) eqn:E7.
  { btrue. split; [|done]. apply due_expiry; [done|]. unfold expires, Expiration_IsDaysNull in *.
    destruct (Expiration_IsDateNull _); [lia|done]. }
  clear E1 E2 E3 E4 E5 E6 E7.
  destruct (negb (time_IsZero _) && _) eqn:Er.
  { btrue. right. assert (due now obj rule (restore_action obj)); [|done].
    apply due_restore; [done|by apply time_IsZero_false|lia]. }
  destruct (negb (bool_decide _)) eqn:Et; [|by left]. btrue. apply bool_decide_eq_false in Et.
  destruct (Transition_NextDue _ _) as [t|] eqn:Ed; [|by left]. destruct (Z.ltb_spec t now); [|by left].
  right. by eapply due_transition.
Qed.

Lemma compute_loop_due now obj rules action :
  compute_loop now obj rules action = action \/
  exists rule, rule ∈ rules /\ due now obj rule (compute_loop now obj rules action).
Proof.
  revert action. induction rules as [|rule rules IH]; intros action; [by left|]. cbn [compute_loop].
  pose proof (rule_action_due now obj rule action) as Hr. destruct (rule_action _ _ _ _) as [a|a].
  { destruct Hr. right. exists rule. split; [left|done]. }
  destruct (IH a) as [->|(r & ? & ?)]; [|right; exists r; split; [by right|done]].
  destruct Hr as [->|?]; [by left|]. right. exists rule. split; [left|done].
Qed.

Lemma actionable_applies `{MapOrder} `{ObjectTags} obj rule r :
  r ∈ actionable obj rule -> r = rule /\ ru_Status rule <> Disabled /\ String.prefix (GetPrefix rule) (oo_Name obj) = true.
Proof.
  unfold actionable. destruct (bool_decide_reflect (ru_Status rule = Disabled)); [set_solver|].
  destruct (String.prefix _ _); cbn [negb]; [|set_solver].
  repeat (case_match; cbn [app]; rewrite ?elem_of_cons, ?elem_of_nil); naive_solver.
Qed.

Lemma FilterActionableRules_applies `{MapOrder} `{ObjectTags} lc obj rule :
  rule ∈ FilterActionableRules lc obj -> applies lc obj rule.
Proof.
  unfold FilterActionableRules. destruct (bool_decide _); [set_solver|].
  rewrite list_elem_of_In, in_concat. setoid_rewrite <-list_elem_of_In.
  intros (l & Hl & Hr). apply list_elem_of_fmap in Hl as (r & -> & ?).
  apply actionable_applies in Hr as (-> & ? & ?). done.
Qed.

(** The actions that end the evaluation. *)
Definition final_action (a : Action) : bool :=
  match a with DeleteAction | DeleteVersionAction | TransitionVersionAction => true | _ => false end.

Lemma rule_action_final now obj rule action a :
  rule_action now obj rule action = inl a -> final_action a = true.
Proof. unfold rule_action. cbv zeta. repeat (case_match; try (by intros [= <-]); try done). Qed.

(** A rule that asks for a deletion ends the evaluation, unless it is skipped
    because it limits the number of noncurrent versions. *)
Lemma rule_action_deletes now obj rule action a :
  due now obj rule a -> a = DeleteAction \/ a = DeleteVersionAction ->
  oo_IsLatest obj = true \/ ne_NewerNoncurrentVersions (ru_NoncurrentVersionExpiration rule) <= 0 ->
  exists a', rule_action now obj rule action = inl a'.
Proof.
  intros Hd Ha Hs. unfold rule_action. cbv zeta.
  destruct (ExpiredObjectDeleteMarker obj && dm_val _) eqn:E1; [eauto|].
  destruct (ExpiredObjectDeleteMarker obj && _ && _) eqn:E2; [eauto|].
  destruct (negb _ && negb (oo_IsLatest obj) && _) eqn:E3; [btrue; destruct Hs; [congruence|lia]|].
  destruct (negb _ && noncurrent obj && _) eqn:E4; [eauto|].
  destruct (negb _ && noncurrent obj && _ && _ && _) eqn:E5; [eauto|].
  inversion Hd as [Hm Hn He|Hn Hy Hw He|?|Hc He|?|? ? ? Hr]; subst; try (by destruct Ha).
  - assert (ExpiredObjectDeleteMarker obj = true) as Hx by (unfold ExpiredObjectDeleteMarker; rewrite Hm; lia).
    rewrite Hx in *. unfold Expiration_IsDaysNull in E2. cbn [andb] in E1, E2. destruct He as [?|[? ?]]; [congruence|lia].
  - rewrite Hn in E4. unfold NCExpiration_IsDaysNull in E4. lia.
  - clear E1 E2 E3 E4 E5. rewrite (proj2 (is_current_bool obj) Hc). unfold expires, Expiration_IsDaysNull in *.
    destruct (Expiration_IsDateNull _); cbn [negb andb].
    + destruct (negb _ && _) eqn:E; [eauto|lia].
    + destruct (_ <? _) eqn:E; [eauto|lia].
  - unfold restore_action in Ha. by destruct (negb _), Ha.
Qed.

Lemma compute_loop_deletes now obj rules action rule a :
  rule ∈ rules -> due now obj rule a -> a = DeleteAction \/ a = DeleteVersionAction ->
  oo_IsLatest obj = true \/ ne_NewerNoncurrentVersions (ru_NoncurrentVersionExpiration rule) <= 0 ->
  final_action (compute_loop now obj rules action) = true.
Proof.
  intros Hr Hd Ha Hs. revert action. induction rules as [|r rules IH]; [by apply elem_of_nil in Hr|].
  intros action. cbn [compute_loop]. apply elem_of_cons in Hr as [<-|Hr].
  - destruct (rule_action_deletes now obj rule action a) as [a' E]; [done..|]. rewrite E. by eapply rule_action_final.
  - destruct (rule_action now obj r action) as [a'|a'] eqn:E; [by eapply rule_action_final|by apply IH].
Qed.

(** C26: the lifecycle acts exactly when something is due.  An action other than
    none is asked for by an enabled rule of the configuration whose prefix covers
    the object and which is due for that version at that time: nothing is deleted
    or moved early, a current version is not deleted by a rule for noncurrent ones,
    and a delete marker goes only when it is the last version.  Conversely a version
    that an actionable rule wants deleted is not left alone, unless the rule limits
    the number of noncurrent versions and the version is one of those. *)
Theorem ComputeAction_due `{MapOrder} `{ObjectTags} now lc obj :
  (ComputeAction now lc obj <> NoneAction ->
   exists rule, applies lc obj rule /\ due now obj rule (ComputeAction now lc obj)) /\
  (forall rule a, rule ∈ FilterActionableRules lc obj -> oo_ModTime obj <> 0 ->
     due now obj rule a -> a = DeleteAction \/ a = DeleteVersionAction ->
     oo_IsLatest obj = true \/ ne_NewerNoncurrentVersions (ru_NoncurrentVersionExpiration rule) <= 0 ->
     final_action (ComputeAction now lc obj) = true).
Proof.
  unfold ComputeAction. split.
  - destruct (time_IsZero _); [done|]. intros Hne.
    destruct (compute_loop_due now obj (FilterActionableRules lc obj) NoneAction) as [?|(rule & Hr & ?)]; [done|].
    exists rule. split; [by apply FilterActionableRules_applies|done].
  - intros rule a Hr Hm. rewrite (proj2 (time_IsZero_false _) Hm). by apply compute_loop_deletes.
Qed.

(** ** The due time *)

(** The due time of a number of days.  For every number of days up to 106750
    the expected time is a midnight, later than the given time by more than the
    days and by at most one day more; zero days are due at once.  From 106751 days
    on the 64-bit duration overflows: the version is due before it was written. *)
Theorem ExpectedExpiryTime_bounds modTime days :
  (0 < days <= 106750 ->
   let t := ExpectedExpiryTime modTime days in
   t mod day = 0 /\ modTime + days * day < t <= modTime + (days + 1) * day) /\
  (days = 0 -> ExpectedExpiryTime modTime days = modTime) /\
  (106751 <= days < 213502 -> ExpectedExpiryTime modTime days < modTime).
Proof.
  assert (day = 86400000000000) as Hday by reflexivity. unfold ExpectedExpiryTime. split; [|split].
  - intros Hd. rewrite (proj2 (Z.eqb_neq days 0)) by lia. cbv zeta.
    assert (((days + 1) * 24 * hour)%int64 = (days + 1) * day) as ->.
    { change hour with 3600000000000. int64_exact. lia. }
    set (t := modTime + _). pose proof (Z.mod_pos_bound t day ltac:(lia)).
    rewrite (Z.div_mod t day) at 1 by lia. rewrite Z.add_simpl_r. rewrite Z.mul_comm, Z.mod_mul by lia.
    split; [done|]. unfold t in *. rewrite Hday in *. lia.
  - intros ->. done.
  - intros Hd. rewrite (proj2 (Z.eqb_neq days 0)) by lia. cbv zeta.
    assert (((days + 1) * 24 * hour)%int64 = (days + 1) * day - 2 ^ 64) as ->.
    { change hour with 3600000000000. unfold mul64, add64.
      rewrite (wrap64_id (days + 1)) by (unfold int64_range; lia). rewrite (wrap64_id (_ * 24)) by (unfold int64_range; lia).
      unfold wrap64.
      rewrite <-(Z.mod_unique_pos _ (2 ^ 64) 1 ((days + 1) * 24 * 3600000000000 - 2 ^ 63)) by lia. rewrite Hday. lia. }
    set (t := modTime + _). pose proof (Z.mod_pos_bound t day ltac:(lia)). unfold t in *. rewrite Hday in *. lia.
Qed.

(** ** Well-formed configurations *)

Definition wf_tag (t : Tag) : Prop :=
  tg_Key t <> "" /\ RuneCountInString (tg_Key t) <= 128 /\ RuneCountInString (tg_Value t) <= 256.

Definition wf_and (a : And) : Prop :=
  pf_set (an_Prefix a) = true /\ an_Tags a <> [] /\ NoDup (tg_Key <$> an_Tags a) /\ Forall wf_tag (an_Tags a).

(** One of a prefix, a tag and a conjunction, or none, which selects every object. *)
Inductive wf_filter (f : Filter) : Prop :=
| wf_filter_and : pf_set (fl_Prefix f) = false -> tg_Key (fl_Tag f) = "" -> wf_and (fl_And f) -> wf_filter f
| wf_filter_prefix : And_isEmpty (fl_And f) = true -> tg_Key (fl_Tag f) = "" -> wf_filter f
| wf_filter_tag : And_isEmpty (fl_And f) = true -> pf_set (fl_Prefix f) = false -> wf_tag (fl_Tag f) -> wf_filter f.

(** Exactly one of a number of days, a date and the delete marker flag. *)
Definition wf_expiration (e : Expiration) : Prop :=
  match Expiration_IsDaysNull e, Expiration_IsDateNull e, dm_set (ex_DeleteMarker e) with
  | false, true, false | true, false, false | true, true, true => True
  | _, _, _ => False
  end.

Record wf_rule (r : Rule) : Prop := {
  wr_ID : (String.length (ru_ID r) <= 255)%nat;
  wr_Status : ru_Status r = Enabled \/ ru_Status r = Disabled;
  wr_select : pf_set (ru_Prefix r) = true /\ fl_set (ru_Filter r) = false \/
              pf_set (ru_Prefix r) = false /\ fl_set (ru_Filter r) = true /\ wf_filter (ru_Filter r);
  wr_expiration : ex_set (ru_Expiration r) = true -> wf_expiration (ru_Expiration r);
  wr_transition : tn_set (ru_Transition r) = true ->
    tn_StorageClass (ru_Transition r) <> "" /\ (tn_Date (ru_Transition r) = 0 \/ tn_Days (ru_Transition r) <= 0);
  wr_ncexpiration : ne_set (ru_NoncurrentVersionExpiration r) = true ->
    0 <= ne_NoncurrentDays (ru_NoncurrentVersionExpiration r) /\
    0 <= ne_NewerNoncurrentVersions (ru_NoncurrentVersionExpiration r) /\
    NCExpiration_IsNull (ru_NoncurrentVersionExpiration r) = false;
  wr_nctransition : nt_set (ru_NoncurrentVersionTransition r) = true ->
    nt_StorageClass (ru_NoncurrentVersionTransition r) <> "";
  wr_action : ex_set (ru_Expiration r) || tn_set (ru_Transition r) ||
    ne_set (ru_NoncurrentVersionExpiration r) || nt_set (ru_NoncurrentVersionTransition r) = true
}.

Definition wf_lifecycle (lc : Lifecycle) : Prop :=
  1 <= len (lc_Rules lc) <= 1000 /\ NoDup (ru_ID <$> lc_Rules lc) /\ Forall wf_rule (lc_Rules lc).

Lemma first_error_None es : first_error es = None <-> Forall (fun e => e = None) es.
Proof.
  induction es as [|[e|] es IH]; cbn; [done| |]; rewrite ?Forall_cons, ?IH; naive_solver.
Qed.

Lemma string_length_0 s : (Z.of_nat (String.length s) =? 0) = bool_decide (s = "").
Proof. destruct s; [done|]. rewrite bool_decide_eq_false_2 by done. done. Qed.

Lemma Tag_Validate_wf t : Tag_Validate t = None <-> wf_tag t.
Proof.
  unfold Tag_Validate, wf_tag. rewrite string_length_0.
  bdestruct; cbn [orb]; split; intros; try done; destruct_and?; try congruence; try lia; done.
Qed.

Lemma duplicate_tag_spec x ts : duplicate_tag x ts = false <-> NoDup (tg_Key <$> ts) /\ forall t, t ∈ ts -> tg_Key t ∉ x.
Proof.
  revert x. induction ts as [|t ts IH]; intros x; csimpl.
  { split; [intros _; split; [constructor|set_solver]|done]. }
  rewrite NoDup_cons. case_bool_decide as Hx.
  { split; [done|]. intros [_ Hn]. exfalso. apply (Hn t); [left|done]. }
  rewrite IH. setoid_rewrite list_elem_of_fmap. split.
  - intros [Hnd Hn]. split; [split; [|done]|].
    + intros (u & Hu & Hin). specialize (Hn u Hin). set_solver.
    + intros u Hu. apply elem_of_cons in Hu as [->|Hu]; [done|]. specialize (Hn u Hu). set_solver.
  - intros [[Ht Hnd] Hn]. split; [done|]. intros u Hu. specialize (Hn u ltac:(by right)).
    intros [Heq|?]%elem_of_union; [|done]. apply Ht. exists u. set_solver.
Qed.

Lemma And_Validate_wf a : And_isEmpty a = false -> And_Validate a = None <-> wf_and a.
Proof.
  unfold And_isEmpty, And_Validate, wf_and. intros He.
  assert ((len (an_Tags a) =? 0) = bool_decide (an_Tags a = [])) as Hl by (destruct (an_Tags a); [done|by cbn]).
  rewrite Hl in *. destruct (pf_set (an_Prefix a)), (bool_decide_reflect (an_Tags a = [])); try done; cbn [negb andb orb].
  - split; naive_solver.
  - destruct (ContainsDuplicateTag a) eqn:Ed; unfold ContainsDuplicateTag in Ed.
    + split; [done|]. intros (_ & _ & Hnd & _). rewrite (proj2 (duplicate_tag_spec ∅ _)) in Ed; [done|]. split; [done|set_solver].
    + apply duplicate_tag_spec in Ed as [Hnd _]. rewrite first_error_None, Forall_fmap.
      split; [intros Hv; repeat split; [done..|]|intros (_ & _ & _ & Hv)];
        (eapply Forall_impl; [exact Hv|]; intros t Ht; by apply Tag_Validate_wf).
  - split; naive_solver.
Qed.

Lemma Filter_Validate_wf f : fl_set f = true -> Filter_Validate f = None <-> wf_filter f.
Proof.
  intros Hs. unfold Filter_Validate, Filter_IsEmpty, Tag_IsEmpty. rewrite Hs. cbn [negb].
  rewrite first_error_None, !Forall_cons. unfold Tag_IsEmpty.
  destruct (And_isEmpty (fl_And f)) eqn:Ea; cbn [negb].
  - destruct (pf_set (fl_Prefix f)) eqn:Ep, (bool_decide_reflect (tg_Key (fl_Tag f) = "")) as [Et|Et]; cbn [negb].
    1,3: (split; [intros _; by apply wf_filter_prefix|by repeat split]).
    + split; [naive_solver|]. intros [Hp Hk _|_ Hk|_ Hp _]; congruence.
    + rewrite Tag_Validate_wf. split; [intros (_ & _ & ? & _); by apply wf_filter_tag|].
      intros [_ Hk _|_ Hk|_ _ Hk]; [congruence|congruence|naive_solver].
  - assert (wf_filter f <-> pf_set (fl_Prefix f) = false /\ tg_Key (fl_Tag f) = "" /\ wf_and (fl_And f)) as ->.
    { split; [intros [|Ha _|Ha _ _]; [done|congruence..]|intros (? & ? & ?); by apply wf_filter_and]. }
    rewrite <-And_Validate_wf by done.
    destruct (pf_set (fl_Prefix f)), (bool_decide_reflect (tg_Key (fl_Tag f) = "")); cbn [negb]; naive_solver.
Qed.

Lemma duplicate_id_spec rules : duplicate_id rules = false <-> NoDup (ru_ID <$> rules).
Proof.
  induction rules as [|r rules IH]; csimpl; [split; [constructor|done]|].
  rewrite NoDup_cons, orb_false_iff, IH, list_elem_of_fmap.
  assert (existsb (fun o => bool_decide (ru_ID r = ru_ID o)) rules = false <-> ~ exists o, ru_ID r = ru_ID o /\ o ∈ rules) as ->; [|done].
  rewrite <-not_true_iff_false, existsb_exists. setoid_rewrite <-list_elem_of_In. setoid_rewrite bool_decide_eq_true.
  naive_solver.
Qed.

Lemma Expiration_Validate_wf e : Expiration_Validate e = None <-> (ex_set e = true -> wf_expiration e).
Proof.
  unfold Expiration_Validate, wf_expiration.
  destruct (ex_set e), (Expiration_IsDaysNull e), (Expiration_IsDateNull e), (dm_set (ex_DeleteMarker e));
    cbn [negb andb orb]; naive_solver.
Qed.

Lemma Transition_Validate_wf t : Transition_Validate t = None <->
  (tn_set t = true -> tn_StorageClass t <> "" /\ (tn_Date t = 0 \/ tn_Days t <= 0)).
Proof.
  unfold Transition_Validate, Transition_IsDateNull, time_IsZero. destruct (tn_set t); cbn [negb]; [|naive_solver].
  bdestruct; cbn [negb andb]; split; intros Hv; try done; try (destruct (Hv eq_refl) as [? [?|?]]; [congruence|lia]);
    try (destruct (Hv eq_refl); congruence); intros _; split; (done || (by left) || (right; lia)).
Qed.

Lemma NCExpiration_Validate_wf n : NCExpiration_Validate n = None <->
  (ne_set n = true -> 0 <= ne_NoncurrentDays n /\ 0 <= ne_NewerNoncurrentVersions n /\ NCExpiration_IsNull n = false).
Proof.
  unfold NCExpiration_Validate, NCExpiration_IsNull, NCExpiration_IsDaysNull. destruct (ne_set n); cbn [negb]; [|naive_solver].
  destruct (_ && _) eqn:E; [split; [done|intros Hv; destruct (Hv eq_refl) as (_ & _ & ?); congruence]|].
  bdestruct; cbn [orb andb] in *; split; try done; intros Hv; try (specialize (Hv eq_refl)); intros; repeat split; lia.
Qed.

Lemma NCTransition_Validate_wf n : NCTransition_Validate n = None <-> (nt_set n = true -> nt_StorageClass n <> "").
Proof.
  unfold NCTransition_Validate. destruct (nt_set n); cbn [negb]; [|naive_solver]. case_bool_decide; naive_solver.
Qed.

Lemma validatePrefixAndFilter_wf r : validatePrefixAndFilter r = None <->
  pf_set (ru_Prefix r) = true /\ fl_set (ru_Filter r) = false \/
  pf_set (ru_Prefix r) = false /\ fl_set (ru_Filter r) = true /\ wf_filter (ru_Filter r).
Proof.
  unfold validatePrefixAndFilter, Filter_IsEmpty. destruct (pf_set _), (fl_set _) eqn:Ef; cbn [negb andb orb].
  - naive_solver.
  - naive_solver.
  - rewrite Filter_Validate_wf by done. naive_solver.
  - naive_solver.
Qed.

Lemma Rule_Validate_wf newID r : (exists id, newID = Ok id) -> Rule_Validate newID r = None <-> wf_rule r.
Proof.
  intros [id ->]. unfold Rule_Validate. rewrite first_error_None, !Forall_cons.
  rewrite Expiration_Validate_wf, NCExpiration_Validate_wf, validatePrefixAndFilter_wf, Transition_Validate_wf, NCTransition_Validate_wf.
  assert (validateID (Ok id) r = None <-> (String.length (ru_ID r) <= 255)%nat) as ->.
  { unfold validateID. destruct (_ =? 0) eqn:E0; [split; [lia|done]|]. destruct (255 <? _) eqn:E; split; try done; lia. }
  assert (validateStatus r = None <-> ru_Status r = Enabled \/ ru_Status r = Disabled) as ->.
  { unfold validateStatus, Enabled, Disabled. rewrite string_length_0. bdestruct; cbn [negb andb]; intuition congruence. }
  assert (forall b1 b2 b3 b4, (if negb b1 && negb b2 && negb b3 && negb b4 then Some errXMLNotWellFormed else None) = None <->
    b1 || b2 || b3 || b4 = true) as Hb by (by intros [] [] [] []).
  rewrite Hb. split; [intros (? & ? & ? & ? & ? & ? & ? & ? & _); by constructor|]. intros []. by repeat (split; [done|]).
Qed.

(** C30: validation accepts exactly the well-formed configurations.  [Validate]
    returns no error if and only if there are between 1 and 1000 rules with distinct
    identifiers of at most 255 bytes, each enabled or disabled, each selecting
    objects either by a prefix or by a filter with at most one of prefix, tag and
    conjunction, with valid and distinct tags, and each asking for at least one
    action whose parameters are complete and do not conflict. *)
Theorem Lifecycle_Validate_exact newIDs lc : (forall i, exists id, newIDs i = Ok id) ->
  Lifecycle_Validate newIDs lc = None <-> wf_lifecycle lc.
Proof.
  intros Hids. unfold Lifecycle_Validate, wf_lifecycle.
  destruct (Z.ltb_spec 1000 (len (lc_Rules lc))); [split; [done|lia]|].
  destruct (Z.eqb_spec (len (lc_Rules lc)) 0); [split; [done|lia]|].
  rewrite first_error_None, Forall_app, Forall_singleton, <-duplicate_id_spec.
  assert (Forall (fun e => e = None) (imap (fun i => Rule_Validate (newIDs i)) (lc_Rules lc)) <-> Forall wf_rule (lc_Rules lc)) as ->.
  { rewrite !Forall_lookup. setoid_rewrite list_lookup_imap. split.
    - intros Hv i r Hi. apply (Rule_Validate_wf (newIDs i)); [done|]. apply (Hv i). by rewrite Hi.
    - intros Hw i e Hi. destruct (lc_Rules lc !! i) as [r|] eqn:E; [|done]. injection Hi as <-.
      apply Rule_Validate_wf; [done|]. by apply (Hw i). }
  destruct (duplicate_id _); split; [naive_solver|naive_solver|intros [? _]|intros (_ & _ & ?)]; repeat split; lia || done.
Qed.

(** ** Predictions come true *)

(** Rules as validation leaves them, with days in the range of a duration. *)
Definition sane_expiration (ex : Expiration) : Prop :=
  (ex_Days ex = 0 \/ ex_Date ex = 0) /\ 0 <= ex_Days ex <= 106750 /\ 0 <= ex_Date ex.

Lemma ExpectedExpiryTime_pos modTime days : 0 < modTime -> 0 <= days <= 106750 -> 0 < ExpectedExpiryTime modTime days.
Proof.
  intros Hm Hd. destruct (decide (days = 0)) as [->|]; [done|].
  unfold ExpectedExpiryTime. rewrite (proj2 (Z.eqb_neq days 0)) by done. cbv zeta.
  assert (day = 86400000000000) as Hday by reflexivity.
  assert (((days + 1) * 24 * hour)%int64 = (days + 1) * day) as ->.
  { change hour with 3600000000000. int64_exact. lia. }
  pose proof (Z.mod_pos_bound (modTime + (days + 1) * day) day ltac:(lia)). rewrite Hday in *. lia.
Qed.

Definition past (t now : time) : Prop := t <> 0 /\ t < now.

Lemma earlier_past best id t now : 0 <= best.2 -> 0 < t ->
  (past (earlier best id t).2 now <-> past best.2 now \/ t < now) /\ 0 <= (earlier best id t).2.
Proof.
  unfold past, earlier, time_IsZero. destruct best as [i b]; cbn [snd]. intros. bdestruct; cbn [orb snd]; lia.
Qed.

(** One round of [predict_expiry] for a current version. *)
Lemma predict_step obj ex best id now : 0 < oo_ModTime obj -> sane_expiration ex -> 0 <= best.2 ->
  let best1 := if negb (Expiration_IsDateNull ex) then earlier best id (ex_Date ex) else best in
  let best2 := if negb (Expiration_IsDaysNull ex)
               then earlier best1 id (ExpectedExpiryTime (oo_ModTime obj) (ex_Days ex)) else best1 in
  (past best2.2 now <-> past best.2 now \/ expires now obj ex) /\ 0 <= best2.2.
Proof.
  intros Hm (Hex & Hd & Ht) Hb. cbv zeta. unfold expires, Expiration_IsDateNull, Expiration_IsDaysNull, time_IsZero.
  pose proof (ExpectedExpiryTime_pos (oo_ModTime obj) (ex_Days ex) Hm Hd).
  bdestruct; cbn [negb]; [tauto| | |lia].
  - destruct (earlier_past best id (ExpectedExpiryTime (oo_ModTime obj) (ex_Days ex)) now) as [Hi ?]; [lia..|]. rewrite Hi. tauto.
  - destruct (earlier_past best id (ex_Date ex) now) as [Hi ?]; [lia..|]. rewrite Hi. tauto.
Qed.

Lemma predict_expiry_past obj rules best now :
  oo_IsLatest obj = true -> 0 < oo_ModTime obj -> Forall (fun r => sane_expiration (ru_Expiration r)) rules -> 0 <= best.2 ->
  past (predict_expiry obj rules best).2 now <->
  past best.2 now \/ exists r, r ∈ rules /\ expires now obj (ru_Expiration r).
Proof.
  intros Hl Hm Hs. revert best. induction Hs as [|r rules Hr Hs IH]; intros best Hb; cbn [predict_expiry].
  { split; [by left|]. intros [?|(r & Hr & _)]; [done|by apply elem_of_nil in Hr]. }
  rewrite Hl. cbn [negb andb]. rewrite andb_false_r. cbn [andb].
  destruct (predict_step obj (ru_Expiration r) best (ru_ID r) now Hm Hr Hb) as [Hp Hz].
  rewrite IH, Hp by exact Hz. setoid_rewrite elem_of_cons. naive_solver.
Qed.

Lemma predict_expiry_id obj rules best :
  oo_IsLatest obj = true ->
  predict_expiry obj rules best = best \/ (predict_expiry obj rules best).1 ∈ ru_ID <$> rules.
Proof.
  intros Hl. revert best. induction rules as [|r rules IH]; intros best; cbn [predict_expiry fmap list_fmap]; [by left|].
  rewrite Hl. cbn [negb andb]. rewrite andb_false_r. cbn [andb]. rewrite elem_of_cons.
  match goal with |- predict_expiry _ _ ?b = _ \/ _ => destruct (IH b) as [->|?]; [|tauto] end.
  unfold earlier. repeat (case_match; try (right; left; done); try (by left)).
Qed.

(** For a current version only an expiration ends the evaluation with a deletion. *)
Lemma compute_loop_current now obj rules :
  oo_IsLatest obj = true -> oo_DeleteMarker obj = false ->
  compute_loop now obj rules NoneAction = DeleteAction <-> exists r, r ∈ rules /\ expires now obj (ru_Expiration r).
Proof.
  intros Hl Hd. assert (noncurrent obj = false) as Hn by (unfold noncurrent; rewrite Hl; by rewrite andb_false_r).
  destruct (compute_loop_due now obj rules NoneAction) as [Heq|(r' & Hr' & Hdue)].
  - rewrite Heq. split; [done|]. intros (r & Hr & He).
    pose proof (compute_loop_deletes now obj rules NoneAction r DeleteAction Hr
      (due_expiry _ _ _ (or_intror (conj Hl Hd)) He) (or_introl eq_refl) (or_introl Hl)) as Hf.
    by rewrite Heq in Hf.
  - split.
    + intros Hc. rewrite Hc in Hdue. exists r'. split; [done|]. inversion Hdue as [| | |? He| |? ? ? Hrest]; [done|].
      unfold restore_action in Hrest. by destruct (negb _).
    + intros (r & Hr & He).
      pose proof (compute_loop_deletes now obj rules NoneAction r DeleteAction Hr
        (due_expiry _ _ _ (or_intror (conj Hl Hd)) He) (or_introl eq_refl) (or_introl Hl)) as Hf.
      destruct Hdue; try done; [congruence..|]. unfold restore_action in Hf. by destruct (negb _).
Qed.

(** The expiry announced to clients is the one that happens.  For the latest
    version of an object [PredictExpiryTime] names a rule of the configuration that
    applies, and at every later time [ComputeAction] deletes the object exactly when
    the announced time has passed; when no time is announced it is never deleted. *)
Theorem PredictExpiryTime_exact `{MapOrder} `{ObjectTags} lc obj now :
  oo_IsLatest obj = true -> oo_DeleteMarker obj = false -> 0 < oo_ModTime obj ->
  Forall (fun r => sane_expiration (ru_Expiration r)) (lc_Rules lc) ->
  let '(id, t) := PredictExpiryTime lc obj in
  (ComputeAction now lc obj = DeleteAction <-> t <> 0 /\ t < now) /\
  (t <> 0 -> exists rule, applies lc obj rule /\ ru_ID rule = id).
Proof.
  intros Hl Hd Hm Hs. destruct (PredictExpiryTime lc obj) as [id t] eqn:Ep. unfold PredictExpiryTime in Ep. rewrite Hd in Ep.
  unfold ComputeAction. rewrite (proj2 (time_IsZero_false _)) by lia.
  assert (Forall (fun r => sane_expiration (ru_Expiration r)) (FilterActionableRules lc obj)) as Hs'.
  { rewrite Forall_forall in *. intros r Hr. apply Hs. by apply FilterActionableRules_applies in Hr as [? _]. }
  split.
  - rewrite compute_loop_current by done.
    pose proof (predict_expiry_past obj _ ("", 0) now Hl Hm Hs' ltac:(done)) as Hp. rewrite Ep in Hp. cbn [snd] in Hp.
    fold (past t now). rewrite Hp. unfold past. naive_solver.
  - intros Ht. destruct (predict_expiry_id obj (FilterActionableRules lc obj) ("", 0) Hl) as [He|He]; rewrite Ep in He.
    { injection He as -> ->. done. }
    apply list_elem_of_fmap in He as (r & Hid & Hr). exists r. split; [by apply FilterActionableRules_applies|done].
Qed.

(** ** Tags *)

Lemma TestTags_spec `{MapOrder} `{ObjectTags} f userTags : fl_cachedTags f = None ->
  TestTags f userTags = true <->
  let cache := tag_cache (an_Tags (fl_And f) ++ [fl_Tag f]) in
  cache = ∅ \/ exists m k v, ParseObjectTags userTags = Ok m /\ cache !! k = Some v /\ m !! k = Some v.
Proof.
  intros Hc. unfold TestTags. rewrite Hc. cbv zeta. case_bool_decide as He; [tauto|].
  destruct (ParseObjectTags userTags) as [m|e]; [|naive_solver].
  assert (existsb (fun kv => bool_decide (m !! kv.1 = Some kv.2)) (range_map (tag_cache (an_Tags (fl_And f) ++ [fl_Tag f]))) = true <->
    exists k v, tag_cache (an_Tags (fl_And f) ++ [fl_Tag f]) !! k = Some v /\ m !! k = Some v) as Hx.
  { rewrite existsb_exists. setoid_rewrite <-list_elem_of_In. split.
    - intros ([k v] & Hin & Hb). apply elem_of_range_map in Hin. apply bool_decide_eq_true in Hb. by exists k, v.
    - intros (k & v & Hin & Hb). exists (k, v). rewrite elem_of_range_map. split; [done|by rewrite bool_decide_eq_true_2]. }
  case_bool_decide as Hm; [|rewrite Hx; naive_solver].
  split; [done|]. intros [?|(m' & k & v & Hp & _ & Hv)]; [done|]. injection Hp as <-. subst m. by rewrite lookup_empty in Hv.
Qed.

(** ** Faults *)

Definition no_prefix : Prefix := mkPrefix "" false.
Definition no_filter : Filter := mkFilter true no_prefix (mkAnd no_prefix []) false (mkTag "" "") false None.
Definition tag_filter (k v : string) : Filter := mkFilter true no_prefix (mkAnd no_prefix []) false (mkTag k v) true None.
Definition expire_days (n : Z) : Expiration := mkExpiration n 0 (mkDM false false) true.
Definition expire_markers : Expiration := mkExpiration 0 0 (mkDM true true) true.
Definition no_transition : Transition := mkTransition 0 0 "" false.
Definition no_nctransition : NoncurrentVersionTransition := mkNCTransition 0 "" false.
Definition no_ncexpiration : NoncurrentVersionExpiration := mkNCExpiration 0 0 false.
Definition sample_rule (id : string) (f : Filter) (ex : Expiration) (ne : NoncurrentVersionExpiration) : Rule :=
  mkRule id Enabled f no_prefix ex no_transition ne no_nctransition.
Definition sample_object (t : time) : ObjectOpts := mkOpts "logs/a" "" t "v1" true false 1 0 "" false 0.
Definition sample_marker (t : time) : ObjectOpts := mkOpts "logs/a" "" t "v1" true true 1 0 "" false 0.
Definition sample_ids (i : nat) : result string := Ok "id".

Definition tagged_rule : Rule := sample_rule "r" (tag_filter "class" "temporary") (expire_days 1) (mkNCExpiration 30 0 true).
Definition long_rule : Rule := sample_rule "r" no_filter (expire_days 106751) no_ncexpiration.
Definition marker_rule : Rule := sample_rule "r" no_filter expire_markers no_ncexpiration.
Definition unnamed_rule (n : Z) : Rule := sample_rule "" no_filter (expire_days n) no_ncexpiration.

(** Valid configurations that do not do what they say.  A rule for objects with
    a tag deletes objects without it when it also expires noncurrent versions; a
    filter with several tags accepts an object with one of them; a rule of 106751
    days deletes an object one second after it was written; two rules without an
    identifier are refused although identifiers are generated; and the rule that
    removes delete markers is not taken for active, although it has something to
    do. *)
Theorem lifecycle_faults `{MapOrder} `{ObjectTags} :
  (Lifecycle_Validate sample_ids (mkLifecycle [tagged_rule]) = None /\
   (ParseObjectTags "" = Ok ∅ -> TestTags (ru_Filter tagged_rule) "" = false) /\
   ComputeAction (unix_epoch + 3 * day) (mkLifecycle [tagged_rule]) (sample_object unix_epoch) = DeleteAction) /\
  (forall f userTags m k v, fl_cachedTags f = None -> tag_cache (an_Tags (fl_And f) ++ [fl_Tag f]) !! k = Some v ->
     ParseObjectTags userTags = Ok m -> m !! k = Some v -> TestTags f userTags = true) /\
  (Lifecycle_Validate sample_ids (mkLifecycle [long_rule]) = None /\
   ComputeAction (unix_epoch + second) (mkLifecycle [long_rule]) (sample_object unix_epoch) = DeleteAction) /\
  (forall newIDs n m, (forall i, exists id, newIDs i = Ok id) -> 0 < n -> 0 < m ->
     Lifecycle_Validate newIDs (mkLifecycle [unnamed_rule n; unnamed_rule m]) = Some errLifecycleDuplicateID) /\
  (Lifecycle_Validate sample_ids (mkLifecycle [marker_rule]) = None /\
   forall now, HasActiveRules now (mkLifecycle [marker_rule]) "" true = false /\
     ComputeAction now (mkLifecycle [marker_rule]) (sample_marker unix_epoch) = DeleteVersionAction).
Proof.
  split; [|split; [|split; [|split]]].
  - split; [reflexivity|]. split; [|reflexivity]. intros Hp. apply not_true_is_false. rewrite TestTags_spec by done.
    intros [He|(m & k & v & Hm & _ & Hv)]; [by vm_compute in He|]. rewrite Hp in Hm. injection Hm as <-. by rewrite lookup_empty in Hv.
  - intros f userTags m k v Hc Hk Hm Hv. apply TestTags_spec; [done|]. right. by exists m, k, v.
  - split; [reflexivity|]. unfold ComputeAction, FilterActionableRules. cbn [lc_Rules fmap list_fmap].
    assert (actionable (sample_object unix_epoch) long_rule = [long_rule]) as E.
    { unfold actionable. assert (TestTags (ru_Filter long_rule) (oo_UserTags (sample_object unix_epoch)) = true) as ->; [|reflexivity].
      apply TestTags_spec; [done|]. left. reflexivity. }
    rewrite E. reflexivity.
  - intros newIDs n m Hids Hn Hm. unfold Lifecycle_Validate. cbn [lc_Rules imap app].
    assert (forall i k, 0 < k -> Rule_Validate (newIDs i) (unnamed_rule k) = None) as Hr.
    { intros i k Hk. apply Rule_Validate_wf; [done|]. constructor; [cbn; lia|by left|right| |done..].
      - repeat split. by apply wf_filter_prefix.
      - intros _. unfold wf_expiration, Expiration_IsDaysNull. cbn. by destruct k. }
    cbn [len length]. unfold compose. rewrite !Hr by done. reflexivity.
  - split; [reflexivity|]. intros now. split; reflexivity.
Qed.

(** *** Witnesses *)

#[local] Instance sample_tags : ObjectTags := {|
  ParseObjectTags s := if bool_decide (s = "") then Ok ∅ else Ok {["class" := s]}
|}.

Definition days_rule : Rule := sample_rule "r" no_filter (expire_days 1) no_ncexpiration.

Lemma days_rule_sane : sane_expiration (ru_Expiration days_rule).
Proof. unfold sane_expiration. cbn. lia. Qed.

Lemma ComputeAction_due_witness :
  ComputeAction (unix_epoch + 3 * day) (mkLifecycle [days_rule]) (sample_object unix_epoch) = DeleteAction /\
  (exists rule, applies (mkLifecycle [days_rule]) (sample_object unix_epoch) rule /\
     due (unix_epoch + 3 * day) (sample_object unix_epoch) rule DeleteAction) /\
  final_action (ComputeAction (unix_epoch + 3 * day) (mkLifecycle [days_rule]) (sample_object unix_epoch)) = true.
Proof.
  destruct (ComputeAction_due (unix_epoch + 3 * day) (mkLifecycle [days_rule]) (sample_object unix_epoch)) as [H1 H2].
  split; [reflexivity|]. split; [apply H1; vm_compute; discriminate|].
  apply (H2 days_rule DeleteAction); [left|vm_compute; discriminate| |by left|by left].
  apply due_expiry; [by right|]. unfold expires. vm_compute. split; congruence.
Defined.

Lemma ExpectedExpiryTime_bounds_witness :
  ExpectedExpiryTime (unix_epoch + hour) 1 mod day = 0 /\
  ExpectedExpiryTime unix_epoch 106751 < unix_epoch /\ ExpectedExpiryTime unix_epoch 0 = unix_epoch.
Proof.
  split; [|split].
  - apply (ExpectedExpiryTime_bounds (unix_epoch + hour) 1); lia.
  - apply (ExpectedExpiryTime_bounds unix_epoch 106751); lia.
  - by apply (ExpectedExpiryTime_bounds unix_epoch 0).
Defined.

Lemma Lifecycle_Validate_exact_witness : wf_lifecycle (mkLifecycle [days_rule]).
Proof. apply (Lifecycle_Validate_exact sample_ids); [intros i; by exists "id"|reflexivity]. Defined.

Lemma PredictExpiryTime_exact_witness :
  PredictExpiryTime (mkLifecycle [days_rule]) (sample_object unix_epoch) = ("r", unix_epoch + 2 * day) /\
  ComputeAction (unix_epoch + 3 * day) (mkLifecycle [days_rule]) (sample_object unix_epoch) = DeleteAction.
Proof.
  pose proof (PredictExpiryTime_exact (mkLifecycle [days_rule]) (sample_object unix_epoch) (unix_epoch + 3 * day)
    eq_refl eq_refl ltac:(reflexivity) ltac:(by repeat constructor; apply days_rule_sane)) as Hp.
  assert (PredictExpiryTime (mkLifecycle [days_rule]) (sample_object unix_epoch) = ("r", unix_epoch + 2 * day)) as E by reflexivity.
  rewrite E in Hp. split; [exact E|]. apply Hp. vm_compute. split; congruence.
Defined.

Lemma lifecycle_faults_witness : TestTags (mkFilter true no_prefix (mkAnd no_prefix [mkTag "class" "x"; mkTag "other" "y"]) true
    (mkTag "" "") false None) "x" = true.
Proof. apply (proj1 (proj2 lifecycle_faults) _ "x" {["class" := "x"]} "class" "x"); reflexivity. Defined.
