(* ===== verification/Names.v ===== *)
(** * Names of buckets and objects, and the paths they become

    A request names a bucket and an object; a drive stores the object in a
    directory whose path is made from both.  This file models the checks on names
    ([cmd/object-api-utils.go], [cmd/object-api-input-checks.go], [cmd/utils.go],
    [cmd/generic-handlers.go]) and the way [xlStorage] ([cmd/xl-storage.go]) turns
    them into a path, on Linux, and shows that an accepted name never leaves the
    directory of its bucket and that two names do not share a path, the names with
    the suffix of directory objects apart.

    Parameters: [CheckValidBucketName] of the S3 client library, [GetBucketInfo]
    of the object layer, and [uuid.Parse]. *)

From Stdlib Require Import Ascii.
From S2P Require Import Prelude FileInfo Quorum Distribution Restore HTTPRange ObjectRead XLStorage SignV4 SignCheck Lifecycle.

Local Open Scope go_scope.

(** ** Strings *)

(** [strings.Contains]. *)
Fixpoint Contains (s sub : string) : bool :=
  String.prefix sub s || match s with EmptyString => false | String _ s => Contains s sub end.

(** [utf8.ValidString]; [skip] counts the bytes left of the rune being read. *)
Fixpoint valid_utf8 (skip : nat) (s : string) : bool :=
  match s with
  | EmptyString => true
  | String c s =>
      match skip with
      | S skip => valid_utf8 skip s
      | O => ((nat_of_ascii c <? 128)%nat || (1 <? rune_size c s)%nat) && valid_utf8 (rune_size c s - 1) s
      end
  end.
Definition ValidString (s : string) : bool := valid_utf8 0 s.

Definition last_char (s : string) : option ascii := String.get (String.length s - 1) s.

(** ** Bucket names *)

Definition uitstorReservedBucket : string := "uitstor".

Definition isMinioMetaBucketName (bucket : string) : bool := String.prefix uitstorMetaBucket bucket.
Definition isMinioMetaBucket (bucketName : string) : bool := bool_decide (bucketName = uitstorMetaBucket).
Definition isMinioReservedBucket (bucketName : string) : bool := bool_decide (bucketName = uitstorReservedBucket).

(** The loop over the bytes of a label: [None] on an invalid byte, otherwise
    whether a byte that is not a digit was found. *)
Fixpoint label_loop (isNotNumber : bool) (piece : string) : option bool :=
  match piece with
  | EmptyString => Some isNotNumber
  | String c piece =>
      if in_range 97 122 c || Ascii.eqb c "-" then label_loop true piece
      else if in_range 48 57 c then label_loop isNotNumber piece
      else None
  end.

(** The loop over the labels: [None] for [return false]. *)
Fixpoint pieces_loop (allNumbers : bool) (pieces : list string) : option bool :=
  match pieces with
  | [] => Some allNumbers
  | piece :: pieces =>
      if (Z.of_nat (String.length piece) =? 0) || String.prefix "-" piece ||
         bool_decide (last_char piece = Some "-"%char) then None
      else let? isNotNumber := label_loop false piece in
           pieces_loop (allNumbers && negb isNotNumber) pieces
  end.

Definition IsValidBucketName (bucket : string) : bool :=
  if isMinioMetaBucketName bucket then true
  else if (Z.of_nat (String.length bucket) <? 3) || (63 <? Z.of_nat (String.length bucket)) then false
  else
    let pieces := Split "." bucket in
    match pieces_loop true pieces with
    | None => false
    | Some allNumbers => negb ((len pieces =? 4) && allNumbers)
    end.

(** ** Object names *)

Definition hasBadPathComponent (path : string) : bool :=
  existsb (fun p => bool_decide (TrimSpace p = "..") || bool_decide (TrimSpace p = "."))
          (Split "/" (TrimSpace path)).

Definition IsValidObjectPrefix (object : string) : bool :=
  if hasBadPathComponent object then false
  else if negb (ValidString object) then false
  else if Contains object "//" then false
  else true.

Definition IsValidObjectName (object : string) : bool :=
  if Z.of_nat (String.length object) =? 0 then false
  else if HasSuffix object SlashSeparator then false
  else IsValidObjectPrefix object.

Definition retainSlash (s : string) : string :=
  if bool_decide (s = "") then s else TrimSuffix s SlashSeparator +:+ SlashSeparator.

Definition encodeDirObject (object : string) : string :=
  if HasSuffix object SlashSeparator then TrimSuffix object SlashSeparator +:+ globalDirSuffix else object.

Definition pathClean (p : string) : string :=
  let cp := path_Clean p in if bool_decide (cp = ".") then "" else cp.

Definition trimLeadingSlash (ep : string) : string :=
  if String.prefix "/" ep then
    let ep := if HasSuffix ep "/" && (1 <? Z.of_nat (String.length ep)) then path_Clean ep +:+ SlashSeparator
              else path_Clean ep in
    drop_string 1 ep
  else ep.

Definition unescapeGeneric (p : string) (escapeFn : string -> result string) : result string :=
  let* ep := escapeFn p in Ok (trimLeadingSlash ep).
Definition likelyUnescapeGeneric (p : string) (escapeFn : string -> result string) : string :=
  match unescapeGeneric p escapeFn with Ok ep => ep | Err _ => p end.

(** ** The checks of the object layer *)

(** Errors of the checks: those of [GetBucketInfo] and [ObjectNameInvalid] are
    errors of the object layer. *)
Inductive args_error :=
| LayerErr (e : ObjectErr)
| BucketNameInvalid (g : GenericError)
| ObjectNameTooLong (g : GenericError)
| ObjectNamePrefixAsSlash (g : GenericError)
| InvalidMarkerPrefixCombination (marker prefix : string)
| InvalidUploadIDKeyCombination (uploadIDMarker keyMarker : string)
| MalformedUploadID (uploadID : string).

Definition name_of (bucket object : string) : GenericError := mkGeneric bucket object "".
Definition nameInvalid (bucket object : string) : args_error := LayerErr (ApiErr ObjectNameInvalid (name_of bucket object)).

(** Code that is not in the repository, and the layer below. *)
Class NameServices := {
  CheckValidBucketName : string -> option error;
  CheckValidBucketNameStrict : string -> option error;
  GetBucketInfo : string -> option ObjectErr;
  uuid_Parse : string -> option error
}.

(** What the library documents of a valid bucket name: 3 to 63 letters, digits,
    dots, hyphens, underscores and colons. *)
Definition bucket_byte (c : ascii) : bool :=
  in_range 97 122 c || in_range 65 90 c || in_range 48 57 c || Ascii.eqb c "." || Ascii.eqb c "-" || Ascii.eqb c "_" || Ascii.eqb c ":".
Class NameLaws `{NameServices} : Prop := {
  valid_bucket_name : forall b, CheckValidBucketName b = None ->
    (3 <= String.length b <= 63)%nat /\ for_all bucket_byte b = true
}.

Section Checks.
Context `{NameServices}.

Definition isReservedOrInvalidBucket (bucketEntry : string) (strict : bool) : bool :=
  if bool_decide (bucketEntry = "") then true
  else
    let bucketEntry := TrimSuffix bucketEntry SlashSeparator in
    let err := if strict then CheckValidBucketNameStrict bucketEntry else CheckValidBucketName bucketEntry in
    if bool_decide (is_Some err) then true
    else isMinioMetaBucket bucketEntry || isMinioReservedBucket bucketEntry.

Definition checkBucketAndObjectNames (bucket object : string) : option args_error :=
  if negb (isMinioMetaBucketName bucket) && bool_decide (is_Some (CheckValidBucketName bucket))
  then Some (BucketNameInvalid (mkGeneric bucket "" ""))
  else if Z.of_nat (String.length object) =? 0 then Some (nameInvalid bucket object)
  else if negb (IsValidObjectPrefix object) then Some (nameInvalid bucket object)
  else None.
Definition checkGetObjArgs (bucket object : string) : option args_error := checkBucketAndObjectNames bucket object.
Definition checkDelObjArgs (bucket object : string) : option args_error := checkBucketAndObjectNames bucket object.

Definition checkObjectNameForLengthAndSlash (bucket object : string) : option args_error :=
  if 1024 <? Z.of_nat (String.length object) then Some (ObjectNameTooLong (name_of bucket object))
  else if String.prefix SlashSeparator object then Some (ObjectNamePrefixAsSlash (name_of bucket object))
  else None.

Definition checkBucketExist (bucket : string) : option args_error := LayerErr <$> GetBucketInfo bucket.

Definition checkListObjsArgs (bucket prefix marker : string) : option args_error :=
  match checkBucketExist bucket with
  | Some err => Some err
  | None =>
      if negb (IsValidObjectPrefix prefix) then Some (nameInvalid bucket prefix)
      else if negb (bool_decide (marker = "")) && negb (String.prefix prefix marker)
      then Some (InvalidMarkerPrefixCombination marker prefix)
      else None
  end.

Definition checkListMultipartArgs (bucket prefix keyMarker uploadIDMarker : string) : option args_error :=
  match checkListObjsArgs bucket prefix keyMarker with
  | Some err => Some err
  | None =>
      if negb (bool_decide (uploadIDMarker = "")) then
        if HasSuffix keyMarker SlashSeparator then Some (InvalidUploadIDKeyCombination uploadIDMarker keyMarker)
        else if bool_decide (is_Some (uuid_Parse uploadIDMarker)) then Some (MalformedUploadID uploadIDMarker)
        else None
      else None
  end.

Definition checkObjectArgs (bucket object : string) : option args_error :=
  match checkBucketExist bucket with
  | Some err => Some err
  | None =>
      match checkObjectNameForLengthAndSlash bucket object with
      | Some err => Some err
      | None => if negb (IsValidObjectName object) then Some (nameInvalid bucket object) else None
      end
  end.

Definition checkPutObjectArgs (bucket object : string) : option args_error :=
  match checkBucketExist bucket with
  | Some err => Some err
  | None =>
      match checkObjectNameForLengthAndSlash bucket object with
      | Some err => Some err
      | None =>
          if (Z.of_nat (String.length object) =? 0) || negb (IsValidObjectPrefix object)
          then Some (nameInvalid bucket object) else None
      end
  end.
End Checks.

(** ** Paths on a drive *)

Definition isValidVolname (volname : string) : bool := negb (Z.of_nat (String.length volname) <? 3).

(** The loop over the runes of a path; [skip] counts the bytes left of the rune
    being read.  A backslash changes nothing, on Linux. *)
Fixpoint path_length_loop (skip : nat) (count : Z) (s : string) : option error :=
  match s with
  | EmptyString => None
  | String c s =>
      match skip with
      | S skip => path_length_loop skip count s
      | O =>
          if Ascii.eqb c "/" then path_length_loop 0 0 s
          else if Ascii.eqb c "\" then path_length_loop (rune_size c s - 1) count s
          else if 255 <? count + 1 then Some errFileNameTooLong
          else path_length_loop (rune_size c s - 1) (count + 1) s
      end
  end.
Definition checkPathLength (pathName : string) : option error :=
  if bool_decide (pathName = ".") || bool_decide (pathName = "..") || bool_decide (pathName = "/")
  then Some errFileAccessDenied else path_length_loop 0 0 pathName.

Definition getVolDir (diskPath volume : string) : result string :=
  if bool_decide (volume = "") || bool_decide (volume = ".") || bool_decide (volume = "..")
  then Err errVolumeNotFound else Ok (pathJoin [diskPath; volume]).

(** The file [ReadAll] opens, or the error it returns before. *)
Definition ReadAll_path (diskPath volume path : string) : result string :=
  let* volumeDir := getVolDir diskPath volume in
  let filePath := pathJoin [volumeDir; path] in
  match checkPathLength filePath with Some err => Err err | None => Ok filePath end.

(** The metadata file of an object: the pools encode its name, the drive looks for
    the file below it. *)
Definition meta_path (diskPath bucket object : string) : result string :=
  ReadAll_path diskPath bucket (pathJoin [encodeDirObject object; xlStorageFormatFile]).

(** * Components of a path *)

(** A name that stands for itself in a path. *)
Definition plain (c : string) : Prop := c <> "" /\ c <> "." /\ c <> ".." /\ free "/" c = true.
Definition nodots (s : string) : Prop := Forall (fun c => c <> "." /\ c <> "..") (Split "/" s).
(** The components of a path, and the absolute path of a list of components. *)
Definition comps (s : string) : list string := filter (fun c => c <> "") (Split "/" s).
Definition rooted (l : list string) : string := String "/" (join "/" l).

(** ** Suffixes *)

Lemma substring_app_r t x : forall n, String.substring (String.length t) n (t +:+ x) = String.substring 0 n x.
Proof. induction t as [|c t IH]; intros n; [done|]. rewrite append_cons. cbn [String.length String.substring]. apply IH. Qed.
Lemma substring_app_l t x : String.substring 0 (String.length t) (t +:+ x) = t.
Proof.
  induction t as [|c t IH]; [by destruct x|]. rewrite append_cons. cbn [String.length String.substring]. by rewrite IH.
Qed.
Lemma substring_split s : forall k, (k <= String.length s)%nat ->
  s = String.substring 0 k s +:+ String.substring k (String.length s - k) s.
Proof.
  induction s as [|c s IH]; intros [|k] Hk; cbn [String.length String.substring] in *; [done|lia| |].
  - rewrite Nat.sub_0_r. cbn [String.substring]. by rewrite substring_all by lia.
  - rewrite append_cons. f_equal. apply IH. lia.
Qed.

Lemma HasSuffix_app t x : HasSuffix (t +:+ x) x = true.
Proof.
  unfold HasSuffix. rewrite length_append. replace (String.length t + String.length x - String.length x)%nat with (String.length t) by lia.
  rewrite substring_app_r, substring_all, bool_decide_eq_true_2 by (done || lia). rewrite andb_true_r. apply Nat.leb_le. lia.
Qed.
Lemma TrimSuffix_app t x : TrimSuffix (t +:+ x) x = t.
Proof.
  unfold TrimSuffix. rewrite HasSuffix_app, length_append. replace (String.length t + String.length x - String.length x)%nat with (String.length t) by lia.
  apply substring_app_l.
Qed.
Lemma HasSuffix_inv s x : HasSuffix s x = true -> exists t, s = t +:+ x.
Proof.
  unfold HasSuffix. intros [Hl Hs]%andb_true_iff. apply Nat.leb_le in Hl. apply bool_decide_eq_true in Hs.
  exists (String.substring 0 (String.length s - String.length x) s). rewrite <-Hs at 2.
  rewrite (substring_split s (String.length s - String.length x)) at 1 by lia. do 2 f_equal. lia.
Qed.

(** ** Splitting *)

Lemma Split_first sep s : exists x l, Split sep s = x :: l /\
  forall a, free sep a = true -> Split sep (a +:+ s) = (a +:+ x) :: l.
Proof.
  destruct (Split sep s) as [|x l] eqn:E; [by destruct (Split_not_nil sep s)|]. exists x, l. split; [done|].
  intros a. induction a as [|c a IH]; [done|]. unfold free. rewrite !append_cons. cbn [for_all Split].
  rewrite andb_true_iff, negb_true_iff. intros [-> Ha]. by rewrite IH.
Qed.
Lemma Split_last sep s : exists l x, Split sep s = l ++ [x] /\
  forall b, free sep b = true -> Split sep (s +:+ b) = l ++ [x +:+ b].
Proof.
  induction s as [|c s (l & x & E & IH)].
  - exists [], "". split; [done|]. intros b Hb. by apply Split_free.
  - destruct (Ascii.eqb c sep) eqn:Ec.
    + exists ("" :: l), x. split; [cbn [Split]; by rewrite Ec, E|]. intros b Hb. rewrite append_cons. cbn [Split]. by rewrite Ec, IH.
    + destruct l as [|y l].
      * exists [], (String c x). split; [cbn [Split]; by rewrite Ec, E|]. intros b Hb. rewrite append_cons. cbn [Split]. by rewrite Ec, IH.
      * exists (String c y :: l), x. split; [cbn [Split]; by rewrite Ec, E|]. intros b Hb. rewrite append_cons. cbn [Split]. by rewrite Ec, IH.
Qed.
Lemma join_app sep l1 l2 : l1 <> [] -> l2 <> [] -> join sep (l1 ++ l2) = join sep l1 +:+ String sep (join sep l2).
Proof.
  intros H1 H2. induction l1 as [|x l1 IH]; [done|]. destruct l1 as [|y l1].
  - destruct l2 as [|y l2]; [done|]. done.
  - change ((x :: y :: l1) ++ l2) with (x :: y :: (l1 ++ l2)). rewrite !join_cons. change (y :: l1 ++ l2) with ((y :: l1) ++ l2).
    rewrite IH by done. by rewrite append_assoc, append_cons.
Qed.

(** ** Cleaning *)

Lemma path_elements_Split s : forall cur, path_elements cur s = match Split "/" s with x :: l => (cur +:+ x) :: l | [] => [] end.
Proof.
  induction s as [|c s IH]; intros cur; cbn [path_elements Split]; [by rewrite append_nil_r|].
  destruct (Ascii.eqb c "/").
  - rewrite IH, append_nil_r. by destruct (Split "/" s).
  - rewrite IH. pose proof (Split_not_nil "/" s). destruct (Split "/" s); [done|]. by rewrite append_assoc.
Qed.
Lemma clean_fold r l : Forall (fun c => c <> "." /\ c <> "..") l -> forall acc,
  fold_left (clean_element r) l acc = rev (filter (fun c => c <> "") l) ++ acc.
Proof.
  induction 1 as [|c l [H1 H2] _ IH]; intros acc; [done|]. cbn [fold_left]. rewrite IH. unfold clean_element.
  rewrite (bool_decide_eq_false_2 (c = ".")), (bool_decide_eq_false_2 (c = "..")), orb_false_r by done.
  destruct (decide (c = "")) as [->|Hc].
  - by rewrite bool_decide_eq_true_2, filter_cons_False by tauto.
  - rewrite bool_decide_eq_false_2, filter_cons_True by done. cbn [rev]. by rewrite <-app_assoc.
Qed.
Lemma join_nil_inv sep l : Forall (fun c => c <> "") l -> join sep l = "" -> l = [].
Proof. destruct l as [|x [|y l]]; intros Hf; [done| |]; inversion Hf; [done|]. rewrite join_cons. by destruct x. Qed.

Lemma comps_nonempty s : Forall (fun c => c <> "") (comps s).
Proof. apply Forall_forall. intros c Hc. by apply list_elem_of_filter in Hc as [? _]. Qed.
Lemma path_Clean_nodots s : nodots s ->
  path_Clean s = if String.prefix "/" s then rooted (comps s) else if decide (comps s = []) then "." else join "/" (comps s).
Proof.
  intros Hs. unfold path_Clean. rewrite path_elements_Split. destruct (Split "/" s) as [|x l] eqn:E; [by destruct (Split_not_nil "/" s)|].
  change ("" +:+ x) with x. unfold nodots in Hs. rewrite E in Hs. rewrite clean_fold by done. rewrite app_nil_r, rev_involutive.
  unfold comps, rooted, join. rewrite E. destruct (String.prefix "/" s); [done|].
  pose proof (comps_nonempty s) as Hne. unfold comps in Hne. rewrite E in Hne.
  destruct (decide _) as [->|Hc]; [done|]. rewrite bool_decide_eq_false_2; [done|]. intros Hj. apply Hc, (join_nil_inv "/"); done.
Qed.

(** ** Joining *)

Lemma plain_nodot c : plain c -> c <> "." /\ c <> "..".
Proof. unfold plain. tauto. Qed.
Lemma Forall_plain s : nodots s -> Forall plain (comps s).
Proof.
  intros Hs. apply Forall_forall. intros c Hc. apply list_elem_of_filter in Hc as [Hne Hc]. unfold nodots in Hs.
  rewrite Forall_forall in Hs. specialize (Hs c Hc) as [? ?]. pose proof (Split_pieces_free "/" s) as Hf. rewrite Forall_forall in Hf.
  repeat split; auto.
Qed.
Lemma Split_plain l : l <> [] -> Forall plain l -> Split "/" (join "/" l) = l.
Proof. intros Hl Hp. apply Split_join; [done|]. eapply Forall_impl; [exact Hp|]. by intros c (_ & _ & _ & ?). Qed.
Lemma filter_plain l : Forall plain l -> filter (fun c => c <> "") l = l.
Proof. intros Hp. induction Hp as [|c l Hc _ IH]; [done|]. rewrite filter_cons_True by apply Hc. by rewrite IH. Qed.
Lemma Split_rooted l : l <> [] -> Forall plain l -> Split "/" (rooted l) = "" :: l.
Proof. intros Hl Hp. unfold rooted. cbn [Split]. by rewrite Split_plain. Qed.
Lemma comps_join l : l <> [] -> Forall plain l -> comps (join "/" l) = l.
Proof. intros Hl Hp. unfold comps. rewrite Split_plain by done. by apply filter_plain. Qed.
Lemma comps_rooted l : Forall plain l -> comps (rooted l) = l.
Proof.
  intros Hp. destruct (decide (l = [])) as [->|Hl]; [done|]. unfold comps. rewrite Split_rooted by done.
  rewrite filter_cons_False by tauto. by apply filter_plain.
Qed.
Lemma nodots_join l : Forall plain l -> nodots (join "/" l).
Proof.
  intros Hp. unfold nodots. destruct (decide (l = [])) as [->|Hl]; [by repeat constructor|]. rewrite Split_plain by done.
  eapply Forall_impl; [exact Hp|]. apply plain_nodot.
Qed.
Lemma nodots_rooted l : Forall plain l -> nodots (rooted l).
Proof. intros Hp. unfold nodots, rooted. cbn [Split]. constructor; [done|]. by apply nodots_join. Qed.
Lemma rooted_inj l1 l2 : Forall plain l1 -> Forall plain l2 -> rooted l1 = rooted l2 -> l1 = l2.
Proof. intros H1 H2 E. by rewrite <-(comps_rooted l1), <-(comps_rooted l2), E. Qed.

Lemma comps_slash a b : comps (a +:+ String "/" b) = comps a ++ comps b.
Proof. unfold comps. by rewrite Split_app, filter_app. Qed.
Lemma nodots_slash a b : nodots a -> nodots b -> nodots (a +:+ String "/" b).
Proof. unfold nodots. rewrite Split_app. apply Forall_app_2. Qed.

(** A path has no slash at its end when its last component is a name. *)
Lemma Split_suffix s : HasSuffix s "/" = true -> exists l, Split "/" s = l ++ [""].
Proof. intros [t ->]%HasSuffix_inv. exists (Split "/" t). by rewrite Split_app. Qed.
Lemma no_suffix s l x : Split "/" s = l ++ [x] -> x <> "" -> HasSuffix s "/" = false.
Proof. intros E Hx. apply not_true_is_false. intros [k Ek]%Split_suffix. rewrite E in Ek. by apply app_inj_tail in Ek as [_ ->]. Qed.

(** Joining with a second path that ends in a name. *)
Lemma pathJoin_two a b : nodots a -> nodots b -> comps b <> [] -> HasSuffix b "/" = false ->
  let l := comps a ++ comps b in
  pathJoin [a; b] = if String.prefix "/" (if decide (a = "") then b else a) then rooted l else join "/" l.
Proof.
  intros Ha Hb Hc Hs. assert (b <> "") as Hb0 by (by intros ->). unfold pathJoin, SlashSeparator. cbn [last]. rewrite Hs, append_nil_r. unfold path_Join.
  destruct (decide (a = "")) as [->|Ha0].
  - rewrite filter_cons_False, filter_cons_True by tauto. change (filter _ []) with (@nil string). cbv zeta. change (String.concat "/" [b]) with b.
    rewrite path_Clean_nodots by done. destruct (String.prefix "/" b); [done|]. rewrite decide_False by done. done.
  - rewrite !filter_cons_True by done. change (filter _ []) with (@nil string). cbv zeta. change (String.concat "/" [a; b]) with (a +:+ String "/" b).
    rewrite path_Clean_nodots, comps_slash by (by apply nodots_slash). destruct a as [|c a]; [done|]. rewrite append_cons.
    change (String.prefix "/" (String c (a +:+ String "/" b))) with (if ascii_dec "/" c then String.prefix "" (a +:+ String "/" b) else false).
    change (String.prefix "/" (String c a)) with (if ascii_dec "/" c then String.prefix "" a else false).
    destruct (ascii_dec "/" c); [by destruct a|]. rewrite decide_False; [done|]. by destruct (comps (String c a)).
Qed.

(** ** Trimming keeps the dots *)

(** Bytes that are neither a dot nor a slash. *)
Definition blank_byte (c : ascii) : bool := negb (Ascii.eqb c "/") && negb (Ascii.eqb c ".").

Lemma prefix_substring p : forall s, String.prefix p s = true ->
  s = p +:+ String.substring (String.length p) (String.length s) s.
Proof.
  induction p as [|c p IH]; intros s Hp; [change ("" +:+ ?x) with x; by rewrite substring_all|].
  destruct s as [|d s]; [done|]. cbn [String.prefix] in Hp. destruct (ascii_dec c d) as [->|]; [|done].
  rewrite append_cons. cbn [String.length String.substring]. f_equal. rewrite (IH s Hp) at 1. f_equal.
  assert (String.length p <= String.length s)%nat as Hl by (rewrite (IH s Hp), length_append; lia).
  assert (forall t k n m, (String.length t <= k + n)%nat -> (String.length t <= k + m)%nat -> String.substring k n t = String.substring k m t) as Hsub.
  { clear. induction t as [|c t IHt]; intros [|k] [|n] [|m] H1 H2; cbn [String.length String.substring] in *; try done; try lia;
      first [apply IHt; lia|f_equal; apply IHt; lia]. }
  apply Hsub; lia.
Qed.
Lemma trim_left_app cut fuel : Forall (fun p => for_all blank_byte p = true) cut -> forall s,
  exists a, s = a +:+ trim_left cut fuel s /\ for_all blank_byte a = true.
Proof.
  intros Hc. induction fuel as [|fuel IH]; intros s; cbn [trim_left]; [by exists ""|].
  destruct (List.find _ cut) as [p|] eqn:E; [|by exists ""]. apply List.find_some in E as [Hin Hp].
  apply list_elem_of_In in Hin. rewrite Forall_forall in Hc. destruct (IH (String.substring (String.length p) (String.length s) s)) as (a & Ha & Hb).
  exists (p +:+ a). split; [|rewrite for_all_app, Hb, (Hc p); done]. rewrite append_assoc, <-Ha. by apply prefix_substring.
Qed.
Lemma spaces_blank : Forall (fun p => for_all blank_byte p = true) spaces /\ Forall (fun p => for_all blank_byte p = true) (string_rev <$> spaces).
Proof. split; apply Forall_forall; intros p Hp; apply list_elem_of_In in Hp; revert p Hp; apply forallb_forall; vm_compute; reflexivity. Qed.
Lemma TrimSpace_app s : exists a b, s = a +:+ TrimSpace s +:+ b /\ for_all blank_byte a = true /\ for_all blank_byte b = true.
Proof.
  unfold TrimSpace, trim. destruct spaces_blank as [H1 H2].
  destruct (trim_left_app spaces (String.length s) H1 s) as (a & Ha & Hb). set (m := trim_left spaces (String.length s) s) in *.
  destruct (trim_left_app _ (String.length m) H2 (string_rev m)) as (b & Hm & Hb'). set (m' := trim_left (string_rev <$> spaces) _ _) in *.
  exists a, (string_rev b). split_and!; [|done|by apply for_all_rev]. rewrite Ha at 1. f_equal.
  rewrite <-(string_rev_rev m), Hm. apply string_rev_app.
Qed.

Definition dots (c : string) : Prop := c = "." \/ c = "..".
Lemma dots_blank c a x : dots c -> for_all blank_byte a = true -> c = a +:+ x \/ c = x +:+ a -> c = x.
Proof.
  intros Hc Ha E. assert (for_all (fun d => Ascii.eqb d ".") c = true) as Hd by (by destruct Hc as [-> | ->]).
  assert (for_all (fun d => Ascii.eqb d ".") a = true) as Hd' by (destruct E as [-> | ->]; rewrite for_all_app in Hd; by apply andb_true_iff in Hd as [? ?]).
  destruct a as [|d a]; [rewrite append_nil_r in E; by destruct E|]. cbn [for_all] in *. apply andb_true_iff in Ha as [Ha _], Hd' as [Hd' _].
  unfold blank_byte in Ha. rewrite Hd', andb_false_r in Ha. done.
Qed.
Lemma blank_free a : for_all blank_byte a = true -> free "/" a = true.
Proof. apply for_all_impl. intros c. unfold blank_byte. by intros [? _]%andb_true_iff. Qed.
Lemma dots_lead c a s : dots c -> for_all blank_byte a = true -> c ∈ Split "/" (a +:+ s) -> c ∈ Split "/" s.
Proof.
  intros Hc Ha. destruct (Split_first "/" s) as (x & l & -> & ->); [|by apply blank_free]. rewrite !elem_of_cons.
  intros [E|]; [left|by right]. eapply dots_blank; eauto.
Qed.
Lemma dots_trail c b s : dots c -> for_all blank_byte b = true -> c ∈ Split "/" (s +:+ b) -> c ∈ Split "/" s.
Proof.
  intros Hc Hb. destruct (Split_last "/" s) as (l & x & -> & ->); [|by apply blank_free]. rewrite !elem_of_app, !list_elem_of_singleton.
  intros [|E]; [by left|right]. eapply dots_blank; eauto.
Qed.
Lemma good_nodots path : hasBadPathComponent path = false -> nodots path.
Proof.
  intros Hb. apply Forall_forall. intros c Hc. assert (~ dots c) as Hd; [|unfold dots in Hd; tauto]. intros Hd.
  destruct (TrimSpace_app path) as (a & b & E & Ha & Hb'). rewrite E in Hc. apply dots_lead, dots_trail in Hc; try done.
  apply not_true_iff_false in Hb. apply Hb. unfold hasBadPathComponent. apply existsb_exists. exists c. split; [by apply list_elem_of_In|].
  by destruct Hd as [-> | ->]; vm_compute.
Qed.

(** ** Directory objects *)

Lemma nodots_encode object : nodots object -> nodots (encodeDirObject object).
Proof.
  unfold encodeDirObject, SlashSeparator. destruct (HasSuffix object "/") eqn:E; [|done]. apply HasSuffix_inv in E as [t ->]. rewrite TrimSuffix_app.
  unfold nodots. rewrite Split_app. destruct (Split_last "/" t) as (l & x & Ex & ->); [|done]. rewrite Ex. intros Hf. apply Forall_app in Hf as [Hf _].
  apply Forall_app in Hf as [Hf _]. apply Forall_app. split; [done|]. constructor; [|done].
  split; intros Hx; apply (f_equal String.length) in Hx; rewrite length_append in Hx; cbn [String.length globalDirSuffix] in Hx; lia.
Qed.

(** The name a listing shows is the name that was given. *)
Lemma dir_object_roundtrip object : HasSuffix object globalDirSuffix = false -> decodeDirObject (encodeDirObject object) = object.
Proof.
  intros Hs. unfold encodeDirObject, decodeDirObject. destruct (HasSuffix object SlashSeparator) eqn:E.
  - apply HasSuffix_inv in E as [t ->]. by rewrite TrimSuffix_app, HasSuffix_app, TrimSuffix_app.
  - by rewrite Hs.
Qed.
Lemma encodeDirObject_cases object : encodeDirObject object = object \/ exists t, object = t +:+ "/" /\ encodeDirObject object = t +:+ globalDirSuffix.
Proof.
  unfold encodeDirObject, SlashSeparator. destruct (HasSuffix object "/") eqn:E; [|by left]. right. apply HasSuffix_inv in E as [t ->].
  exists t. by rewrite TrimSuffix_app.
Qed.

Lemma append_inj_tail s t x : s +:+ x = t +:+ x -> s = t.
Proof. intros E. by apply append_inj_r in E as [? _]. Qed.
(** Two names are stored under one name only as a directory object and its form
    on the drives. *)
Lemma encodeDirObject_inj o1 o2 : encodeDirObject o1 = encodeDirObject o2 ->
  o1 = o2 \/ exists t, (o1 = t +:+ "/" /\ o2 = t +:+ globalDirSuffix) \/ (o2 = t +:+ "/" /\ o1 = t +:+ globalDirSuffix).
Proof.
  destruct (encodeDirObject_cases o1) as [-> |(t1 & -> & ->)], (encodeDirObject_cases o2) as [-> |(t2 & -> & ->)]; intros E; eauto 6.
  left. by apply append_inj_tail in E as ->.
Qed.

(** ** Runes and the length of names *)

Lemma slash_not_cont lo hi : (128 <= lo)%nat -> in_range lo hi "/" = false.
Proof. intros Hlo. unfold in_range. apply andb_false_iff. left. apply Nat.leb_gt. change (nat_of_ascii "/") with 47%nat. lia. Qed.

Ltac rune_cases H :=
  repeat case_match; cbn [String.length]; try lia; rewrite ?H, ?andb_false_r in *; (done || lia || idtac).

(** A rune never reaches past a slash. *)
Lemma rune_size_first c s x l : Split "/" s = x :: l ->
  rune_size c s = rune_size c x /\ (rune_size c x - 1 <= String.length x)%nat.
Proof.
  assert (forall d, Ascii.eqb d "/" = true -> forall lo hi, (128 <= lo)%nat -> in_range lo hi d = false) as Hno.
  { intros d ->%Ascii.eqb_eq. apply slash_not_cont. }
  unfold rune_size. destruct s as [|c1 s]; [intros [= <- <-]; cbn; lia|]. cbn [Split]. destruct (Ascii.eqb c1 "/") eqn:E1.
  { intros [= <- <-]. pose proof (Hno _ E1) as H1. rune_cases H1. }
  destruct s as [|c2 s]; [intros [= <- <-]; cbn [String.length]; repeat case_match; lia|]. cbn [Split]. destruct (Ascii.eqb c2 "/") eqn:E2.
  { intros [= <- <-]. pose proof (Hno _ E2) as H1. rune_cases H1. }
  destruct s as [|c3 s]; [intros [= <- <-]; cbn [String.length]; repeat case_match; lia|]. cbn [Split]. destruct (Ascii.eqb c3 "/") eqn:E3.
  { intros [= <- <-]. pose proof (Hno _ E3) as H1. rune_cases H1. }
  pose proof (Split_not_nil "/" s). destruct (Split "/" s) as [|y k]; [done|]. intros [= <- <-]. cbn [String.length]. repeat case_match; lia.
Qed.

(** The runes of a name, backslashes apart. *)
Fixpoint name_runes (skip : nat) (s : string) : Z :=
  match s with
  | EmptyString => 0
  | String c s =>
      match skip with
      | S skip => name_runes skip s
      | O => (if Ascii.eqb c "\" then 0 else 1) + name_runes (rune_size c s - 1) s
      end
  end.
(** A name of at most 255 of them. *)
Definition short (c : string) : bool := name_runes 0 c <=? 255.

Lemma name_runes_bounds s : forall skip, 0 <= name_runes skip s <= rune_count skip s.
Proof.
  induction s as [|c s IH]; intros [|skip]; cbn [name_runes rune_count]; [lia|lia| |apply IH].
  pose proof (IH (rune_size c s - 1)%nat). destruct (Ascii.eqb c _); lia.
Qed.
(** A name of at most 255 characters is short enough. *)
Lemma short_name c : RuneCountInString c <= 255 -> short c = true.
Proof. unfold short, RuneCountInString. intros Hc. apply Z.leb_le. pose proof (name_runes_bounds c 0). lia. Qed.

(** The loop of [checkPathLength] measures every component. *)
Lemma path_length_loop_spec s : forall skip cnt x l, Split "/" s = x :: l -> (skip <= String.length x)%nat -> 0 <= cnt <= 255 ->
  path_length_loop skip cnt s = if (cnt + name_runes skip x <=? 255) && forallb short l then None else Some errFileNameTooLong.
Proof.
  induction s as [|c s IH]; intros skip cnt x l E Hs Hc.
  - injection E as <- <-. cbn [path_length_loop forallb]. assert (name_runes skip "" = 0) as -> by (by destruct skip).
    rewrite andb_true_r, (proj2 (Z.leb_le _ _)) by lia. done.
  - cbn [Split] in E. destruct (Split "/" s) as [|y k] eqn:Es; [by destruct (Split_not_nil "/" s)|]. destruct (Ascii.eqb c "/") eqn:Ec.
    + injection E as <- <-. destruct skip; [|cbn in Hs; lia]. cbn [path_length_loop name_runes]. rewrite Ec, (IH 0%nat 0 y k) by (done || lia).
      rewrite (proj2 (Z.leb_le (cnt + 0) 255)) by lia. cbn [andb forallb]. done.
    + injection E as <- <-. destruct skip as [|skip]; cbn [path_length_loop name_runes].
      * destruct (rune_size_first c s y k Es) as [Hr Hl]. rewrite Ec, Hr. pose proof (name_runes_bounds y (rune_size c y - 1)%nat).
        destruct (Ascii.eqb c "\"); [rewrite (IH _ _ y k) by (done || lia); by rewrite Z.add_0_l|].
        destruct (Z.ltb_spec 255 (cnt + 1)); [rewrite (proj2 (Z.leb_gt _ _)) by lia; done|].
        rewrite (IH _ _ y k) by (done || lia). by rewrite Z.add_assoc.
      * apply IH; [done| |done]. cbn [String.length] in Hs. lia.
Qed.
Lemma checkPathLength_rooted l : l <> [] -> Forall plain l ->
  checkPathLength (rooted l) = if forallb short l then None else Some errFileNameTooLong.
Proof.
  intros Hl Hp. unfold checkPathLength. rewrite !bool_decide_eq_false_2
    by first [done|intros E; apply (f_equal comps) in E; by rewrite comps_rooted in E].
  cbn [orb]. rewrite (path_length_loop_spec _ 0 0 "" l) by first [lia|by rewrite Split_rooted|cbn; lia]. done.
Qed.

(** [checkPathLength] accepts exactly the paths, other than those that name a
    directory by itself, whose components all have at most 255 runes that are not backslashes. *)
Lemma checkPathLength_exact path : checkPathLength path = None <->
  ~ dots path /\ path <> "/" /\ Forall (fun c => name_runes 0 c <= 255) (Split "/" path).
Proof.
  unfold checkPathLength, dots. destruct (Split "/" path) as [|x l] eqn:E; [by destruct (Split_not_nil "/" path)|].
  rewrite (path_length_loop_spec _ 0 0 x l) by (done || lia). change (0 + name_runes 0 x <=? 255) with (short x).
  change (short x && forallb short l) with (forallb short (x :: l)).
  assert (forallb short (x :: l) = true <-> Forall (fun c => name_runes 0 c <= 255) (x :: l)) as Hs.
  { rewrite forallb_forall, Forall_forall. setoid_rewrite list_elem_of_In. unfold short. by setoid_rewrite Z.leb_le. }
  bdestruct; cbn [orb]; destruct (forallb short (x :: l)); naive_solver.
Qed.

(** ** The path of an object *)

Definition object_comps (es : list string) (bucket object : string) : list string :=
  es ++ bucket :: comps (encodeDirObject object) ++ [xlStorageFormatFile].

Lemma plain_meta : plain xlStorageFormatFile.
Proof. by unfold plain, xlStorageFormatFile. Qed.
Lemma object_comps_plain es bucket object : Forall plain es -> plain bucket -> nodots object -> Forall plain (object_comps es bucket object).
Proof.
  intros He Hb Ho. apply Forall_app. split; [done|]. constructor; [done|]. apply Forall_app. split; [by apply Forall_plain, nodots_encode|].
  constructor; [apply plain_meta|done].
Qed.
Lemma plain_single b : plain b -> nodots b /\ comps b = [b] /\ HasSuffix b "/" = false.
Proof.
  intros Hb. assert (Split "/" b = [b]) as E by (apply Split_free; apply Hb). unfold nodots, comps. rewrite E.
  split_and!; [constructor; [by apply plain_nodot|done]|by rewrite filter_cons_True by apply Hb|by apply (no_suffix _ [] b); [done|apply Hb]].
Qed.
Lemma getVolDir_plain es bucket : Forall plain es -> plain bucket -> getVolDir (rooted es) bucket = Ok (rooted (es ++ [bucket])).
Proof.
  intros He Hb. destruct (plain_single bucket Hb) as (H1 & H2 & H3). unfold getVolDir.
  destruct Hb as (? & ? & ? & ?). rewrite !bool_decide_eq_false_2 by done. cbn [orb].
  rewrite pathJoin_two; [|by apply nodots_rooted|done|by rewrite H2|done]. cbv zeta. rewrite decide_False by done.
  rewrite comps_rooted, H2 by done. unfold rooted at 1. by destruct (join "/" es).
Qed.

(** Within an object's directory. *)
Lemma inner_path object : nodots object ->
  let p := pathJoin [object; xlStorageFormatFile] in
  nodots p /\ comps p = comps object ++ [xlStorageFormatFile] /\ HasSuffix p "/" = false.
Proof.
  intros Ho. destruct (plain_single _ plain_meta) as (H1 & H2 & H3). set (l := comps object ++ [xlStorageFormatFile]).
  assert (Forall plain l) as Hp by (apply Forall_app; split; [by apply Forall_plain|constructor; [apply plain_meta|done]]).
  assert (l <> []) as Hl by (unfold l; by destruct (comps object)).
  cbv zeta. rewrite pathJoin_two, H2 by (done || by rewrite H2). cbv zeta. fold l. destruct (String.prefix _ _).
  - split_and!; [by apply nodots_rooted|by apply comps_rooted|]. by apply (no_suffix _ ("" :: comps object) xlStorageFormatFile); [rewrite Split_rooted|].
  - split_and!; [by apply nodots_join|by apply comps_join|]. by apply (no_suffix _ (comps object) xlStorageFormatFile); [rewrite Split_plain|].
Qed.

Lemma meta_path_plain es bucket object : Forall plain es -> plain bucket -> nodots object ->
  let cs := object_comps es bucket object in
  meta_path (rooted es) bucket object = if forallb short cs then Ok (rooted cs) else Err errFileNameTooLong.
Proof.
  intros He Hb Ho. destruct (inner_path (encodeDirObject object)) as (H1 & H2 & H3); [by apply nodots_encode|].
  pose proof (object_comps_plain es bucket object He Hb Ho) as Hp. cbv zeta.
  unfold meta_path, ReadAll_path. rewrite getVolDir_plain by done. cbn [result_bind].
  assert (Forall plain (es ++ [bucket])) as Hv by (apply Forall_app; split; [done|by constructor]).
  rewrite pathJoin_two; [|by apply nodots_rooted|done|rewrite H2; by intros [_ [=]]%app_nil|done]. cbv zeta. rewrite decide_False by done.
  rewrite comps_rooted, H2 by done. assert ((es ++ [bucket]) ++ comps (encodeDirObject object) ++ [xlStorageFormatFile] = object_comps es bucket object) as ->
    by (unfold object_comps; by rewrite <-app_assoc).
  assert (String.prefix "/" (rooted (es ++ [bucket])) = true) as -> by (unfold rooted; by destruct (join "/" _)).
  assert (object_comps es bucket object <> []) as Hne by (unfold object_comps; intros [_ [=]]%app_nil).
  rewrite checkPathLength_rooted by done. by destruct (forallb short _).
Qed.

(** ** Names that are accepted *)

Lemma valid_prefix_nodots object : IsValidObjectPrefix object = true -> nodots object.
Proof. unfold IsValidObjectPrefix. destruct (hasBadPathComponent object) eqn:E; [done|]. intros _. by apply good_nodots. Qed.

Lemma Contains_mid sub a b : Contains (a +:+ sub +:+ b) sub = true.
Proof.
  induction a as [|c a IH].
  - change ("" +:+ ?x) with x. pose proof (prefix_append sub b) as Hp. destruct (sub +:+ b); cbn [Contains]; by rewrite Hp.
  - rewrite append_cons. cbn [Contains]. rewrite IH. apply orb_true_r.
Qed.
(** Without two slashes in a row, only the first and the last component can be
    empty. *)
Lemma no_double_slash s l1 l2 : Contains s "//" = false -> Split "/" s = l1 ++ "" :: l2 -> l1 = [] \/ l2 = [].
Proof.
  intros Hc E. destruct l1 as [|x l1]; [by left|]. destruct l2 as [|y l2]; [by right|]. exfalso. apply not_true_iff_false in Hc. apply Hc.
  rewrite <-(join_Split "/" s), E, join_app by done. rewrite join_cons.
  change (String "/" ("" +:+ String "/" (join "/" (y :: l2)))) with ("//" +:+ join "/" (y :: l2)). apply Contains_mid.
Qed.
Lemma Split_head_empty s l : Split "/" s = "" :: l -> s = "" \/ String.prefix "/" s = true.
Proof.
  destruct s as [|c s]; [by left|]. cbn [Split]. destruct (Ascii.eqb c "/") eqn:E.
  - intros _. right. apply Ascii.eqb_eq in E as ->. by destruct s.
  - by destruct (Split "/" s).
Qed.

Section Accepted.
Context `{NameServices}.

Lemma checkPutObjectArgs_inv bucket object : checkPutObjectArgs bucket object = None ->
  nodots object /\ object <> "" /\ String.prefix "/" object = false /\ Contains object "//" = false.
Proof.
  unfold checkPutObjectArgs, checkObjectNameForLengthAndSlash, SlashSeparator. destruct (checkBucketExist bucket); [done|].
  destruct (Z.ltb _ _); [done|]. destruct (String.prefix "/" object); [done|]. destruct (Z.eqb_spec (Z.of_nat (String.length object)) 0) as [|Hl]; [done|].
  destruct (IsValidObjectPrefix object) eqn:E; [|done]. intros _. split_and!; [by apply valid_prefix_nodots|by intros ->|done|].
  unfold IsValidObjectPrefix in E. destruct (hasBadPathComponent object), (ValidString object), (Contains object "//"); done.
Qed.

(** No component of the stored name of an accepted object is empty. *)
Lemma put_components bucket object : checkPutObjectArgs bucket object = None ->
  comps (encodeDirObject object) = Split "/" (encodeDirObject object).
Proof.
  intros (_ & Hne & Hp & Hc)%checkPutObjectArgs_inv.
  assert (forall l1 l2, Split "/" object = l1 ++ "" :: l2 -> l2 = []) as Hlast.
  { intros l1 l2 E. destruct (no_double_slash _ _ _ Hc E) as [-> | ->]; [|done]. apply Split_head_empty in E. destruct E as [->|E]; [done|congruence]. }
  assert (forall l, (forall l1 l2, l <> l1 ++ "" :: l2) -> filter (fun c => c <> "") l = l) as Hfull.
  { clear. induction l as [|c l IH]; intros Hl; [done|]. rewrite filter_cons_True by (intros ->; by apply (Hl [] l)).
    rewrite IH; [done|]. intros l1 l2 ->. by apply (Hl (c :: l1) l2). }
  unfold comps. apply Hfull. intros l1 l2. unfold encodeDirObject, SlashSeparator. destruct (HasSuffix object "/") eqn:E.
  - apply HasSuffix_inv in E as [t ->]. rewrite TrimSuffix_app. destruct (Split_last "/" t) as (l & x & Ex & ->); [|done]. intros E.
    rewrite Split_app, Ex, <-app_assoc in Hlast. destruct l2 as [|y l2 _] using rev_ind.
    + apply app_inj_tail in E as [_ E]. by destruct x.
    + rewrite app_comm_cons, app_assoc in E. apply app_inj_tail in E as [-> _].
      specialize (Hlast l1 (l2 ++ [x] ++ [""])). rewrite <-app_assoc in Hlast. specialize (Hlast eq_refl). by apply app_nil in Hlast as [_ ?].
  - intros Es. pose proof (Hlast l1 l2 Es) as ->. apply not_true_iff_false in E. apply E.
    rewrite <-(join_Split "/" object), Es. destruct l1 as [|x l1]; [apply Split_head_empty in Es; destruct Es as [->|Es]; [done|congruence]|].
    rewrite join_app by done. apply HasSuffix_app.
Qed.

(** C21: Two names accepted for writing have their metadata at one path of a drive
    only if they name the same bucket and the same object, or one is a directory
    object, with a slash at its end, and the other is spelled like the form in
    which directory objects are stored; the path is the bucket and that form below
    the drive. *)
Theorem accepted_names_distinct es b1 o1 b2 o2 p : Forall plain es -> plain b1 -> plain b2 ->
  checkPutObjectArgs b1 o1 = None -> checkPutObjectArgs b2 o2 = None ->
  meta_path (rooted es) b1 o1 = Ok p -> meta_path (rooted es) b2 o2 = Ok p ->
  p = rooted (es ++ [b1; encodeDirObject o1; "xl.meta"]) /\ b1 = b2 /\
  (o1 = o2 \/ exists t, (o1 = t +:+ "/" /\ o2 = t +:+ globalDirSuffix) \/ (o2 = t +:+ "/" /\ o1 = t +:+ globalDirSuffix)).
Proof.
  intros He H1 H2 A1 A2. pose proof (checkPutObjectArgs_inv _ _ A1) as (D1 & _). pose proof (checkPutObjectArgs_inv _ _ A2) as (D2 & _).
  rewrite !meta_path_plain by done. destruct (forallb _ _); [|done]. intros [= <-]. destruct (forallb _ _); [|done]. intros [= E].
  split.
  - unfold object_comps. rewrite (put_components _ _ A1). unfold rooted. f_equal.
    assert (forall x l, join "/" (x :: Split "/" l ++ ["xl.meta"]) = join "/" [x; l; "xl.meta"]) as Hj.
    { intros x l. rewrite app_comm_cons, (join_app "/" (x :: Split "/" l) ["xl.meta"]) by done. pose proof (Split_not_nil "/" l) as Hn.
      pose proof (join_Split "/" l) as Hl. destruct (Split "/" l) as [|y k]; [done|]. rewrite join_cons, Hl. by rewrite append_assoc, append_cons. }
    destruct es as [|e es]; [apply Hj|]. rewrite !(join_app "/" (e :: es)) by done. by rewrite Hj.
  - apply (f_equal (String "/")), rooted_inj in E; [|by apply object_comps_plain..]. unfold object_comps in E. apply app_inv_head in E. injection E as -> E.
    apply app_inj_tail in E as [E _]. split; [done|]. apply encodeDirObject_inj. rewrite (put_components _ _ A1), (put_components _ _ A2) in E.
    by rewrite <-(join_Split "/" (encodeDirObject o1)), <-E, join_Split.
Qed.
End Accepted.

Section Confined.
Context `{NameLaws}.

Lemma bucket_plain bucket : CheckValidBucketName bucket = None -> plain bucket.
Proof.
  intros [[Hl _] Hb]%valid_bucket_name. repeat split; try (by intros ->; cbn in Hl; lia).
  eapply for_all_impl; [|exact Hb]. intros c Hc. rewrite negb_true_iff. destruct (Ascii.eqb c "/") eqn:E; [|done].
  apply Ascii.eqb_eq in E as ->. vm_compute in Hc. done.
Qed.

(** C20: Reading or deleting an object under an accepted bucket name, the names of
    the system's buckets apart, and an accepted object name looks for its metadata
    exactly at the components of both below the drive, none of them empty, [.] or
    [..]: the path never leaves the directory of the bucket, and it is refused
    exactly when a component has more than 255 characters, backslashes apart. *)
Theorem accepted_names_confined es bucket object : Forall plain es ->
  isMinioMetaBucketName bucket = false -> checkBucketAndObjectNames bucket object = None ->
  let cs := object_comps es bucket object in
  Forall plain cs /\
  meta_path (rooted es) bucket object = if forallb short cs then Ok (rooted cs) else Err errFileNameTooLong.
Proof.
  intros He Hm Hk. unfold checkBucketAndObjectNames in Hk. rewrite Hm in Hk. cbn [negb andb] in Hk.
  destruct (CheckValidBucketName bucket) eqn:Hb; [by rewrite bool_decide_eq_true_2 in Hk|]. rewrite bool_decide_eq_false_2 in Hk by (by intros [? ?]).
  destruct (_ =? 0); [done|]. destruct (IsValidObjectPrefix object) eqn:Ho; [|done]. apply bucket_plain in Hb. apply valid_prefix_nodots in Ho.
  split; [by apply object_comps_plain|by apply meta_path_plain].
Qed.
End Confined.

(** ** Bucket names of the repository's own check *)

Lemma label_loop_bytes piece : forall b r, label_loop b piece = Some r -> for_all bucket_byte piece = true.
Proof.
  induction piece as [|c piece IH]; intros b r; [done|]. cbn [label_loop for_all]. unfold bucket_byte at 1.
  destruct (in_range 97 122 c); cbn [orb andb]; [apply IH|]. destruct (Ascii.eqb c "-"); [rewrite !orb_true_r; apply IH|]. cbn [orb].
  destruct (in_range 48 57 c); [rewrite !orb_true_r; apply IH|done].
Qed.
Lemma pieces_loop_bytes pieces : forall b r, pieces_loop b pieces = Some r -> Forall (fun p => for_all bucket_byte p = true) pieces.
Proof.
  induction pieces as [|p pieces IH]; intros b r; [done|]. cbn [pieces_loop]. destruct (_ || _ || _); [done|].
  destruct (label_loop false p) eqn:E; [|done]. cbn [mbind option_bind]. intros Hr. constructor; [by eapply label_loop_bytes|by eapply IH].
Qed.
Lemma IsValidBucketName_bytes b : isMinioMetaBucketName b = false -> IsValidBucketName b = true ->
  (3 <= String.length b <= 63)%nat /\ for_all bucket_byte b = true.
Proof.
  intros Hm. unfold IsValidBucketName. rewrite Hm. destruct (Z.ltb_spec (Z.of_nat (String.length b)) 3); [done|].
  destruct (Z.ltb_spec 63 (Z.of_nat (String.length b))); [done|]. cbn [orb]. destruct (pieces_loop true (Split "." b)) eqn:E; [|done].
  intros _. split; [lia|]. apply pieces_loop_bytes in E. rewrite <-(join_Split "." b). by apply for_all_join.
Qed.

(** Services in which that check takes the place of the library's. *)
Definition sample_check (b : string) : option error :=
  if negb (isMinioMetaBucketName b) && IsValidBucketName b then None else Some (ErrNew "Bucket name contains invalid characters").
#[export] Instance sample_names : NameServices := {|
  CheckValidBucketName := sample_check; CheckValidBucketNameStrict := sample_check;
  GetBucketInfo _ := None; uuid_Parse _ := None |}.
#[export] Instance sample_name_laws : NameLaws.
Proof.
  split. intros b. cbn [CheckValidBucketName sample_names]. unfold sample_check. destruct (isMinioMetaBucketName b) eqn:E; [done|].
  destruct (IsValidBucketName b) eqn:Eb; [|done]. intros _. by apply IsValidBucketName_bytes.
Qed.

Lemma plain_sample c : forallb (fun d => negb (bool_decide (c = d))) [""; "."; ".."] && free "/" c = true -> plain c.
Proof.
  unfold plain. cbn [forallb]. rewrite !andb_true_iff, !negb_true_iff, !bool_decide_eq_false. tauto.
Qed.

Lemma accepted_names_confined_witness :
  meta_path "/d1" "my-bucket" "/a/b/" = Ok "/d1/my-bucket/a/b__XLDIR__/xl.meta".
Proof.
  destruct (accepted_names_confined ["d1"] "my-bucket" "/a/b/") as [_ E].
  - constructor; [by apply plain_sample|done].
  - reflexivity.
  - vm_compute. reflexivity.
  - change (rooted ["d1"]) with "/d1" in E. rewrite E. vm_compute. reflexivity.
Defined.

Lemma accepted_names_distinct_witness :
  "/d1/b/x/y__XLDIR__/xl.meta" = rooted ["d1"; "b"; "x/y__XLDIR__"; "xl.meta"] /\ "b" = "b" /\
  ("x/y/" = "x/y__XLDIR__" \/ exists t, ("x/y/" = t +:+ "/" /\ "x/y__XLDIR__" = t +:+ globalDirSuffix) \/
     ("x/y__XLDIR__" = t +:+ "/" /\ "x/y/" = t +:+ globalDirSuffix)).
Proof.
  apply (accepted_names_distinct ["d1"] "b" "x/y/" "b" "x/y__XLDIR__");
    first [by apply plain_sample|constructor; [by apply plain_sample|done]|vm_compute; reflexivity].
Defined.

(** ** Names that go wrong *)

(** A bucket name that starts like the system's bucket is accepted whatever
    follows, and can leave the drive. *)
Lemma meta_prefix_escapes :
  let bucket := ".uitstor.sys/../../etc" in
  IsValidBucketName bucket = true /\ checkGetObjArgs bucket "passwd" = None /\
  meta_path "/d1" bucket "passwd" = Ok "/etc/passwd/xl.meta".
Proof. vm_compute. done. Qed.

(** A directory object and the object spelled like its stored form are both
    accepted and share their metadata. *)
Lemma dir_object_collision :
  checkPutObjectArgs "b" "a/" = None /\ checkPutObjectArgs "b" "a__XLDIR__" = None /\
  meta_path "/d1" "b" "a/" = meta_path "/d1" "b" "a__XLDIR__".
Proof. vm_compute. done. Qed.

(** Unescaping does not remove double slashes, nor every slash at the start. *)
Lemma trimLeadingSlash_incomplete :
  trimLeadingSlash "a//b" = "a//b" /\ trimLeadingSlash "//" = "/" /\ trimLeadingSlash "//a//b" = "a/b".
Proof. vm_compute. done. Qed.

(** Backslashes do not count towards the length of a name. *)
Lemma backslashes_not_counted :
  checkPathLength (String.string_of_list_ascii (repeat "\"%char 300)) = None /\
  checkPathLength (String.string_of_list_ascii (repeat "a"%char 256)) = Some errFileNameTooLong.
Proof. vm_compute. done. Qed.
