(* ===== verification/NSLock.v ===== *)
(** * Locks of one node ([cmd/namespace-lock.go], [internal/lsync/lrwmutex.go])

    On a single node the namespace lock of a bucket's objects is a map from
    resources to counted read-write mutexes.  A request locks its paths one after
    the other in sorted order, waiting for each until a time-out, gives back what
    it has when one of them fails, and an entry of the map goes when nobody refers
    to it.  This file models the mutex, the map with the pointers that requests keep
    into it, and requests as threads that interleave at every atomic step: between
    the release of a mutex and the removal of its entry other threads may run.

    The theorems: a resource is never held by a writer and by somebody else, no
    step panics, the map is empty when all requests are done, and requests that
    take their locks in order do not block each other for ever. *)

From Stdlib Require Import Ascii.
From S2P Require Import Prelude FileInfo Quorum Distribution Restore HTTPRange ObjectRead XLStorage SignV4 SignCheck Lifecycle Names.

Local Open Scope go_scope.

(** Go's [int32]. *)
Definition wrap32 (z : Z) : Z := (z + 2 ^ 31) mod 2 ^ 32 - 2 ^ 31.

(** ** The mutex *)

Record LRWMutex := mkMutex { lm_id : string; lm_source : string; lm_isWriteLock : bool; lm_ref : Z }.
Definition NewLRWMutex : LRWMutex := mkMutex "" "" false 0.

Definition lm_lock (lm : LRWMutex) (id source : string) (isWriteLock : bool) : LRWMutex * bool :=
  if isWriteLock then
    if (lm_ref lm =? 0) && negb (lm_isWriteLock lm) then (mkMutex id source true 1, true)
    else (mkMutex id source (lm_isWriteLock lm) (lm_ref lm), false)
  else
    if negb (lm_isWriteLock lm) then (mkMutex id source (lm_isWriteLock lm) (lm_ref lm + 1)%int64, true)
    else (mkMutex id source (lm_isWriteLock lm) (lm_ref lm), false).

Definition lm_unlock (lm : LRWMutex) (isWriteLock : bool) : LRWMutex * bool :=
  if isWriteLock then
    if lm_isWriteLock lm && (lm_ref lm =? 1) then (mkMutex (lm_id lm) (lm_source lm) false 0, true) else (lm, false)
  else
    if negb (lm_isWriteLock lm) then
      if 0 <? lm_ref lm then (mkMutex (lm_id lm) (lm_source lm) (lm_isWriteLock lm) (lm_ref lm - 1)%int64, true)
      else (lm, false)
    else (lm, false).

(** [Unlock] and [RUnlock] panic when there is no such lock. *)
Definition lm_Unlock (lm : LRWMutex) : option LRWMutex :=
  match lm_unlock lm true with (lm, true) => Some lm | _ => None end.
Definition lm_RUnlock (lm : LRWMutex) : option LRWMutex :=
  match lm_unlock lm false with (lm, true) => Some lm | _ => None end.
Definition lm_ForceUnlock (lm : LRWMutex) : LRWMutex := mkMutex (lm_id lm) (lm_source lm) false 0.

(** ** The map

    The entries are reached through pointers, kept in [nm_heap]. *)

Record nsLock := mkNsLock { nl_ref : Z; nl_mutex : LRWMutex }.
Record nsLockMap := mkNsMap { nm_lockMap : gmap string nat; nm_heap : gmap nat nsLock; nm_next : nat }.
(** The map of a single node. *)
Definition newNSLock : nsLockMap := mkNsMap ∅ ∅ 0.

(** The first part of [lock]: the entry of the resource, with a reference more. *)
Definition ns_enter (n : nsLockMap) (resource : string) : nsLockMap * nat :=
  match nm_lockMap n !! resource with
  | Some p =>
      (mkNsMap (<[resource := p]> (nm_lockMap n))
         (alter (fun l => mkNsLock (wrap32 (nl_ref l + 1)) (nl_mutex l)) p (nm_heap n)) (nm_next n), p)
  | None =>
      let p := nm_next n in
      (mkNsMap (<[resource := p]> (nm_lockMap n)) (<[p := mkNsLock (wrap32 (0 + 1)) NewLRWMutex]> (nm_heap n)) (S p), p)
  end.

(** A round of [lockLoop] on an entry. *)
Definition ns_try (n : nsLockMap) (p : nat) (id source : string) (readLock : bool) : option (nsLockMap * bool) :=
  let? l := nm_heap n !! p in
  let '(lm, locked) := lm_lock (nl_mutex l) id source (negb readLock) in
  Some (mkNsMap (nm_lockMap n) (<[p := mkNsLock (nl_ref l) lm]> (nm_heap n)) (nm_next n), locked).

(** A reference less: the end of [unlock], and of [lock] when it failed.  A count
    below zero is critical and stops the program. *)
Definition ns_drop (n : nsLockMap) (resource : string) : option nsLockMap :=
  let? p := nm_lockMap n !! resource in
  let? l := nm_heap n !! p in
  let ref := wrap32 (nl_ref l - 1) in
  let heap := <[p := mkNsLock ref (nl_mutex l)]> (nm_heap n) in
  if ref <? 0 then None
  else Some (mkNsMap (if ref =? 0 then delete resource (nm_lockMap n) else nm_lockMap n) heap (nm_next n)).

(** The release of the mutex in [unlock]. *)
Definition ns_release (n : nsLockMap) (p : nat) (readLock : bool) : option nsLockMap :=
  let? l := nm_heap n !! p in
  let? lm := (if readLock then lm_RUnlock (nl_mutex l) else lm_Unlock (nl_mutex l)) in
  Some (mkNsMap (nm_lockMap n) (<[p := mkNsLock (nl_ref l) lm]> (nm_heap n)) (nm_next n)).

(** ** Requests

    The state of [GetLock] or [GetRLock] of a [localLockInstance], the use of the
    lock and [Unlock] or [RUnlock]: the resources locked so far, the one being
    locked with its entry, and those to come; then the resources to give back. *)
Inductive pc :=
| Locking (done todo : list string)
| Waiting (done : list string) (r : string) (todo : list string) (nsLk : nat)
| Failing (done : list string) (r : string) (todo : list string)
| Holding (paths : list string)
| Unlocking (todo : list string) (granted : bool)
| Dropping (r : string) (todo : list string) (granted : bool)
| Finished (err : option error).

#[export] Instance pc_eq_dec : EqDecision pc.
Proof. solve_decision. Defined.

Record thread := mkThread { th_read : bool; th_opsID : string; th_source : string; th_pc : pc }.

Definition NewNSLock (volume : string) (paths : list string) (opsID source : string) (readLock : bool) : thread :=
  mkThread readLock opsID source (Locking [] ((fun path => pathJoin [volume; path]) <$> sort_Strings paths)).

Definition OperationTimedOut : error := ErrNew "Operation timed out".
Definition lock_error (ctxErr : option error) : error :=
  if bool_decide (ctxErr = Some Canceled) then Canceled else OperationTimedOut.

(** [Run] is the next atomic step; where [GetLock] ends without the lock, it reads
    the error of the context.  [TimeUp] ends the wait for a mutex. *)
Inductive ns_action := Run (ctxErr : option error) | TimeUp.
Inductive outcome := Panic | Stuck | Next (t : thread) (n : nsLockMap).

Definition goto (t : thread) (p : pc) : thread := mkThread (th_read t) (th_opsID t) (th_source t) p.

Definition thread_step (a : ns_action) (t : thread) (n : nsLockMap) : outcome :=
  match a, th_pc t with
  | Run _, Locking done [] => Next (goto t (Holding done)) n
  | Run _, Locking done (r :: todo) =>
      let '(n', p) := ns_enter n r in Next (goto t (Waiting done r todo p)) n'
  | Run _, Waiting done r todo p =>
      match ns_try n p (th_opsID t) (th_source t) (th_read t) with
      | None => Panic
      | Some (n', true) => Next (goto t (Locking (done ++ [r]) todo)) n'
      | Some (n', false) => Next t n'
      end
  | TimeUp, Waiting done r todo p => Next (goto t (Failing done r todo)) n
  | Run _, Failing done r todo =>
      match ns_drop n r with None => Panic | Some n' => Next (goto t (Unlocking done false)) n' end
  | Run _, Holding paths => Next (goto t (Unlocking paths true)) n
  | Run ctxErr, Unlocking [] granted =>
      Next (goto t (Finished (if granted then None else Some (lock_error ctxErr)))) n
  | Run _, Unlocking (r :: todo) granted =>
      match nm_lockMap n !! r with
      | None => Next (goto t (Unlocking todo granted)) n
      | Some p => match ns_release n p (th_read t) with
                  | None => Panic
                  | Some n' => Next (goto t (Dropping r todo granted)) n'
                  end
      end
  | Run _, Dropping r todo granted =>
      match ns_drop n r with None => Panic | Some n' => Next (goto t (Unlocking todo granted)) n' end
  | _, _ => Stuck
  end.

Inductive ns_step : list thread * nsLockMap -> list thread * nsLockMap -> Prop :=
| ns_step_thread ths n i a t t' n' :
    ths !! i = Some t -> thread_step a t n = Next t' n' -> ns_step (ths, n) (<[i := t']> ths, n').

(** A step of a thread that is not a failed attempt. *)
Definition progress (ths : list thread) (n : nsLockMap) : Prop :=
  exists i t t' n', ths !! i = Some t /\ thread_step (Run None) t n = Next t' n' /\ th_pc t' <> th_pc t.

Definition starting (t : thread) : Prop := exists paths, th_pc t = Locking [] paths.
Definition finished (t : thread) : Prop := exists e, th_pc t = Finished e.

(** * Who refers to a resource, and who holds it *)

Definition occ (r : string) (l : list string) : Z := Z.of_nat (count (fun x => bool_decide (x = r)) l).

Definition refs (p : pc) : list string :=
  match p with
  | Locking done _ => done
  | Waiting done r _ _ => r :: done
  | Failing done r _ => r :: done
  | Holding paths => paths
  | Unlocking todo _ => todo
  | Dropping r todo _ => r :: todo
  | Finished _ => []
  end.
Definition holds (p : pc) : list string :=
  match p with
  | Locking done _ => done
  | Waiting done _ _ _ => done
  | Failing done _ _ => done
  | Holding paths => paths
  | Unlocking todo _ => todo
  | Dropping _ todo _ => todo
  | Finished _ => []
  end.
(** The resources a request still works with. *)
Definition weight (t : thread) : Z :=
  match th_pc t with
  | Locking done todo => len done + len todo
  | Waiting done _ todo _ => 1 + len done + len todo
  | Failing done _ _ => 1 + len done
  | p => len (refs p)
  end.

Definition nrefs (r : string) (ths : list thread) : Z := Zsum ((fun t => occ r (refs (th_pc t))) <$> ths).
Definition held_by (b : bool) (r : string) (t : thread) : Z := if Bool.eqb (th_read t) b then occ r (holds (th_pc t)) else 0.
Definition nheld (b : bool) (r : string) (ths : list thread) : Z := Zsum (held_by b r <$> ths).

Lemma occ_cons r x l : occ r (x :: l) = (if bool_decide (x = r) then 1 else 0) + occ r l.
Proof. unfold occ. rewrite count_cons. destruct (bool_decide _); lia. Qed.
Lemma occ_app r l k : occ r (l ++ k) = occ r l + occ r k.
Proof. unfold occ. rewrite count_app. lia. Qed.
Lemma occ_bounds r l : 0 <= occ r l <= len l.
Proof. unfold occ. pose proof (count_le_length (fun x => bool_decide (x = r)) l). lia. Qed.
Lemma occ_in r l : r ∈ l -> 0 < occ r l.
Proof.
  induction l as [|x l IH]; [by intros ?%elem_of_nil|]. rewrite occ_cons, elem_of_cons. pose proof (occ_bounds r l).
  intros [-> |Hr]; [rewrite bool_decide_eq_true_2 by done; lia|]. specialize (IH Hr). destruct (bool_decide _); lia.
Qed.
Lemma occ_pos r l : 0 < occ r l -> r ∈ l.
Proof. unfold occ. intros H. destruct (count_pos (fun x => bool_decide (x = r)) l) as (x & Hx & E); [lia|]. by apply bool_decide_eq_true in E as ->. Qed.

(** Sums over threads when one of them changes. *)
Lemma Zsum_insert {A} (f : A -> Z) l i x y : l !! i = Some x -> Zsum (f <$> <[i := y]> l) = Zsum (f <$> l) - f x + f y.
Proof.
  intros H. rewrite insert_take_drop by (by apply lookup_lt_Some in H). rewrite <-(take_drop_middle l i x H) at 3.
  rewrite !fmap_app, !fmap_cons, !Zsum_app. cbn [Zsum foldr]. unfold Zsum. cbn [foldr]. lia.
Qed.
Lemma Zsum_nonneg {A} (f : A -> Z) l : (forall x, 0 <= f x) -> 0 <= Zsum (f <$> l).
Proof. intros Hf. induction l as [|y l IH]; [cbn; lia|]. rewrite fmap_cons. unfold Zsum in *. cbn [foldr]. specialize (Hf y). lia. Qed.
Lemma Zsum_member {A} (f : A -> Z) l i x : (forall y, 0 <= f y) -> l !! i = Some x -> f x <= Zsum (f <$> l).
Proof.
  intros Hf H. rewrite <-(take_drop_middle l i x H), fmap_app, fmap_cons, Zsum_app.
  pose proof (Zsum_nonneg f (take i l) Hf). pose proof (Zsum_nonneg f (drop (S i) l) Hf). unfold Zsum in *. cbn [foldr]. lia.
Qed.
Lemma Zsum_pos {A} (f : A -> Z) l : 0 < Zsum (f <$> l) -> exists i x, l !! i = Some x /\ 0 < f x.
Proof.
  induction l as [|x l IH]; [cbn; lia|]. rewrite fmap_cons. unfold Zsum in *. cbn [foldr]. intros H.
  destruct (decide (0 < f x)) as [Hx|Hx]; [by exists 0%nat, x|]. destruct IH as (i & y & ? & ?); [lia|]. by exists (S i), y.
Qed.
Lemma Zsum_le {A} (f g : A -> Z) l : (forall x, f x <= g x) -> Zsum (f <$> l) <= Zsum (g <$> l).
Proof. intros H. induction l as [|x l IH]; [done|]. rewrite !fmap_cons. unfold Zsum in *. cbn [foldr]. specialize (H x). lia. Qed.

Lemma held_by_bounds b r t : 0 <= held_by b r t <= occ r (refs (th_pc t)).
Proof.
  unfold held_by. pose proof (occ_bounds r (refs (th_pc t))). destruct (Bool.eqb _ _); [|lia].
  destruct (th_pc t); cbn [holds refs]; rewrite ?occ_cons; split; try apply occ_bounds; repeat case_match; lia.
Qed.
Lemma weight_bounds r t : occ r (refs (th_pc t)) <= weight t.
Proof.
  unfold weight. destruct (th_pc t); cbn [refs]; try apply occ_bounds;
    match goal with |- occ ?r ?l <= _ => pose proof (occ_bounds r l) end; cbn [length] in *; lia.
Qed.
Lemma nrefs_nonneg r ths : 0 <= nrefs r ths.
Proof. apply Zsum_nonneg. intros t. apply occ_bounds. Qed.
Lemma nheld_bounds b r ths : 0 <= nheld b r ths <= nrefs r ths.
Proof. split; [apply Zsum_nonneg|apply Zsum_le]; intros t; apply held_by_bounds. Qed.

(** ** The invariant *)

Definition mutex_ok (lm : LRWMutex) (readers writers : Z) : Prop :=
  if lm_isWriteLock lm then lm_ref lm = 1 /\ writers = 1 /\ readers = 0 else lm_ref lm = readers /\ writers = 0.

(** The entry of a resource counts the requests that refer to it and the holders
    of its mutex; there is one exactly when somebody refers to it. *)
Definition ns_entry_ok (ths : list thread) (n : nsLockMap) (r : string) : Prop :=
  match nm_lockMap n !! r with
  | None => nrefs r ths = 0
  | Some p => 0 < nrefs r ths /\ exists l, nm_heap n !! p = Some l /\ nl_ref l = nrefs r ths /\
      mutex_ok (nl_mutex l) (nheld true r ths) (nheld false r ths)
  end.

Record ns_ok (ths : list thread) (n : nsLockMap) : Prop := {
  ok_entry : forall r, ns_entry_ok ths n r;
  ok_inj : forall r1 r2 p, nm_lockMap n !! r1 = Some p -> nm_lockMap n !! r2 = Some p -> r1 = r2;
  ok_fresh : forall r p, nm_lockMap n !! r = Some p -> (p < nm_next n)%nat;
  ok_wait : forall i t done r todo p, ths !! i = Some t -> th_pc t = Waiting done r todo p -> nm_lockMap n !! r = Some p;
  ok_bound : Zsum (weight <$> ths) < 2 ^ 31
}.

Lemma wrap32_id z : - 2 ^ 31 <= z < 2 ^ 31 -> wrap32 z = z.
Proof. intros H. unfold wrap32. rewrite Z.mod_small by lia. lia. Qed.
Lemma nrefs_bound ths n r : ns_ok ths n -> nrefs r ths < 2 ^ 31.
Proof.
  intros H. pose proof (ok_bound _ _ H). pose proof (Zsum_le (fun t => occ r (refs (th_pc t))) weight ths (weight_bounds r)).
  unfold nrefs. lia.
Qed.

Section Change.
Context (ths : list thread) (i : nat) (t : thread) (Hi : ths !! i = Some t).

Lemma nrefs_goto r p : nrefs r (<[i := goto t p]> ths) = nrefs r ths - occ r (refs (th_pc t)) + occ r (refs p).
Proof. unfold nrefs. by rewrite (Zsum_insert _ _ _ _ _ Hi). Qed.
Lemma nheld_goto b r p : nheld b r (<[i := goto t p]> ths) =
  nheld b r ths + if Bool.eqb (th_read t) b then occ r (holds p) - occ r (holds (th_pc t)) else 0.
Proof. unfold nheld. rewrite (Zsum_insert _ _ _ _ _ Hi). unfold held_by. cbn [th_read th_pc goto]. destruct (Bool.eqb _ _); lia. Qed.

(** What a thread refers to has an entry. *)
Lemma referred r n : ns_ok ths n -> r ∈ refs (th_pc t) -> exists p l, nm_lockMap n !! r = Some p /\ nm_heap n !! p = Some l /\
  0 < nrefs r ths /\ nl_ref l = nrefs r ths /\ mutex_ok (nl_mutex l) (nheld true r ths) (nheld false r ths).
Proof.
  intros H Hr. pose proof (ok_entry _ _ H r) as He. unfold ns_entry_ok in He. destruct (nm_lockMap n !! r) as [p|]; [naive_solver|].
  apply occ_in in Hr. pose proof (Zsum_member (fun t => occ r (refs (th_pc t))) ths i t (fun t => proj1 (occ_bounds _ _)) Hi) as Hm.
  unfold nrefs in He. cbn beta in Hm. lia.
Qed.
Lemma holder_counted r : r ∈ holds (th_pc t) -> 0 < nheld (th_read t) r ths.
Proof.
  intros Hr. apply occ_in in Hr. pose proof (Zsum_member (held_by (th_read t) r) ths i t (fun t => proj1 (held_by_bounds _ _ _)) Hi) as Hm.
  unfold held_by in Hm at 1. rewrite Bool.eqb_reflx in Hm. unfold nheld. lia.
Qed.

(** A change of threads and entries keeps the invariant. *)
Lemma ns_ok_change n n' p' : ns_ok ths n ->
  (forall r, ns_entry_ok (<[i := goto t p']> ths) n' r) ->
  (forall r1 r2 p, nm_lockMap n' !! r1 = Some p -> nm_lockMap n' !! r2 = Some p -> r1 = r2) ->
  (forall r p, nm_lockMap n' !! r = Some p -> (p < nm_next n')%nat) ->
  (forall j u done r todo p, j <> i -> ths !! j = Some u -> th_pc u = Waiting done r todo p -> nm_lockMap n' !! r = Some p) ->
  (forall done r todo p, p' = Waiting done r todo p -> nm_lockMap n' !! r = Some p) ->
  weight (goto t p') <= weight t -> ns_ok (<[i := goto t p']> ths) n'.
Proof.
  intros H He H1 H2 H3 H4 H5. split; [done..| |].
  - intros j u done r todo p Hj Hu. destruct (decide (j = i)) as [->|Hne].
    + rewrite list_lookup_insert_eq in Hj by (by apply lookup_lt_Some in Hi). injection Hj as <-. by eapply H4.
    + rewrite list_lookup_insert_ne in Hj by done. by eapply H3.
  - rewrite (Zsum_insert _ _ _ _ _ Hi). pose proof (ok_bound _ _ H). lia.
Qed.

(** A change that concerns the entry of one resource only. *)
Lemma ns_ok_local n n' p' r : ns_ok ths n ->
  (forall r', r' <> r -> occ r' (refs p') = occ r' (refs (th_pc t)) /\ occ r' (holds p') = occ r' (holds (th_pc t))) ->
  (forall r', r' <> r -> nm_lockMap n' !! r' = nm_lockMap n !! r') ->
  (forall r' q, r' <> r -> nm_lockMap n !! r' = Some q -> nm_heap n' !! q = nm_heap n !! q /\ nm_lockMap n' !! r <> Some q) ->
  (nm_next n <= nm_next n')%nat -> (forall q, nm_lockMap n' !! r = Some q -> (q < nm_next n')%nat) ->
  ns_entry_ok (<[i := goto t p']> ths) n' r ->
  (forall j u done todo q, j <> i -> ths !! j = Some u -> th_pc u = Waiting done r todo q -> nm_lockMap n' !! r = Some q) ->
  (forall done r' todo q, p' = Waiting done r' todo q -> nm_lockMap n' !! r' = Some q) ->
  weight (goto t p') <= weight t -> ns_ok (<[i := goto t p']> ths) n'.
Proof.
  intros H Hocc Hmap Hheap Hnext Hfresh Hr Hwait Hp' Hw. apply (ns_ok_change n); try done.
  - intros r'. destruct (decide (r' = r)) as [->|Hne]; [done|]. pose proof (ok_entry _ _ H r') as He. unfold ns_entry_ok in *.
    destruct (Hocc r' Hne) as [O1 O2]. rewrite Hmap, nrefs_goto, !nheld_goto, O1, O2 by done.
    assert (forall b, nheld b r' ths + (if Bool.eqb (th_read t) b then occ r' (holds (th_pc t)) - occ r' (holds (th_pc t)) else 0) = nheld b r' ths) as Hh
      by (intros b; destruct (Bool.eqb _ b); lia). rewrite !Hh.
    replace (nrefs r' ths - occ r' (refs (th_pc t)) + occ r' (refs (th_pc t))) with (nrefs r' ths) by lia.
    destruct (nm_lockMap n !! r') as [q|] eqn:Eq; [|done]. by rewrite (proj1 (Hheap _ _ Hne Eq)).
  - intros r1 r2 p E1 E2. destruct (decide (r1 = r)) as [->|N1], (decide (r2 = r)) as [->|N2]; [done| | |].
    + rewrite Hmap in E2 by done. by destruct (Hheap _ _ N2 E2).
    + rewrite Hmap in E1 by done. by destruct (Hheap _ _ N1 E1).
    + rewrite Hmap in E1, E2 by done. by eapply (ok_inj _ _ H).
  - intros r' p E. destruct (decide (r' = r)) as [->|Hne]; [by apply Hfresh|]. rewrite Hmap in E by done. pose proof (ok_fresh _ _ H _ _ E). lia.
  - intros j u done r' todo p Hj Hu Hpc. destruct (decide (r' = r)) as [->|Hne]; [by eapply Hwait|]. rewrite Hmap by done. by eapply (ok_wait _ _ H).
Qed.

(** A move that changes neither references nor locks. *)
Lemma ns_ok_move n p' : ns_ok ths n -> refs p' = refs (th_pc t) -> holds p' = holds (th_pc t) ->
  (forall done r todo q, p' <> Waiting done r todo q) -> weight (goto t p') <= weight t -> ns_ok (<[i := goto t p']> ths) n.
Proof.
  intros H Hr Hh Hp Hw. apply (ns_ok_change n); try done; try by apply H.
  - intros r. pose proof (ok_entry _ _ H r) as He. unfold ns_entry_ok in *. rewrite nrefs_goto, !nheld_goto, Hr, Hh.
    assert (forall b, nheld b r ths + (if Bool.eqb (th_read t) b then occ r (holds (th_pc t)) - occ r (holds (th_pc t)) else 0) = nheld b r ths) as Hz
      by (intros b; destruct (Bool.eqb _ b); lia). rewrite !Hz.
    by replace (nrefs r ths - occ r (refs (th_pc t)) + occ r (refs (th_pc t))) with (nrefs r ths) by lia.
  - intros j u done r todo p _ Hu Hpc. by eapply (ok_wait _ _ H).
  - intros done r todo p E. by destruct (Hp done r todo p).
Qed.
End Change.

(** ** Every step keeps it *)

Lemma occ_ne r r' l : r' <> r -> occ r' (r :: l) = occ r' l.
Proof. intros H. rewrite occ_cons, bool_decide_eq_false_2 by congruence. lia. Qed.
Lemma occ_eq r l : occ r (r :: l) = 1 + occ r l.
Proof. rewrite occ_cons, bool_decide_eq_true_2 by done. lia. Qed.

Section Steps.
Context (ths : list thread) (n : nsLockMap) (H : ns_ok ths n) (i : nat) (t : thread) (Hi : ths !! i = Some t).

(** Pointers of other resources. *)
Lemma other_pointer r p r' q : nm_lockMap n !! r = Some p -> r' <> r -> nm_lockMap n !! r' = Some q -> q <> p.
Proof. intros E1 Hne E2 ->. by apply Hne, (ok_inj _ _ H r' r p). Qed.

Lemma enter_ok done r todo : th_pc t = Locking done (r :: todo) -> forall n' p, ns_enter n r = (n', p) ->
  ns_ok (<[i := goto t (Waiting done r todo p)]> ths) n'.
Proof.
  intros Hpc n' p. pose proof (nrefs_bound _ _ r H) as Hb. pose proof (ok_entry _ _ H r) as He. unfold ns_entry_ok in He.
  assert (forall r', r' <> r -> occ r' (refs (Waiting done r todo p)) = occ r' (refs (th_pc t)) /\ occ r' (holds (Waiting done r todo p)) = occ r' (holds (th_pc t))) as Hocc.
  { intros r' Hne. rewrite Hpc. cbn [refs holds]. by rewrite occ_ne. }
  assert (weight (goto t (Waiting done r todo p)) <= weight t) as Hw by (unfold weight; rewrite Hpc; cbn [goto th_pc length]; lia).
  assert (nrefs r (<[i := goto t (Waiting done r todo p)]> ths) = nrefs r ths + 1) as Hn
    by (rewrite (nrefs_goto _ _ _ Hi), Hpc; cbn [refs]; rewrite occ_eq; lia).
  assert (forall b, nheld b r (<[i := goto t (Waiting done r todo p)]> ths) = nheld b r ths) as Hh
    by (intros b; rewrite (nheld_goto _ _ _ Hi), Hpc; cbn [holds]; destruct (Bool.eqb _ _); lia).
  assert (nrefs r ths + 1 < 2 ^ 31) as Hb'.
  { pose proof (Zsum_le (fun t => occ r (refs (th_pc t))) weight (<[i := goto t (Waiting done r todo p)]> ths) (weight_bounds r)) as Hs.
    fold (nrefs r (<[i := goto t (Waiting done r todo p)]> ths)) in Hs. rewrite Hn, (Zsum_insert _ _ _ _ _ Hi) in Hs. pose proof (ok_bound _ _ H). lia. }
  unfold ns_enter. destruct (nm_lockMap n !! r) as [q|] eqn:Eq; intros [= <- <-].
  - destruct He as (Hpos & l & El & Hl & Hm). apply (ns_ok_local ths i t Hi n _ _ r); cbn [nm_lockMap nm_heap nm_next]; try done.
    + intros r' Hne. by rewrite lookup_insert_ne.
    + intros r' q' Hne Eq'. pose proof (other_pointer _ _ _ _ Eq Hne Eq'). rewrite lookup_insert_eq, lookup_alter_ne by done. split; congruence.
    + intros q'. rewrite lookup_insert_eq. intros [= <-]. by apply (ok_fresh _ _ H r).
    + unfold ns_entry_ok. cbn [nm_lockMap nm_heap]. rewrite lookup_insert_eq, lookup_alter_eq, El, Hn, !Hh. split; [lia|].
      eexists. split; [reflexivity|]. cbn [nl_ref nl_mutex]. split; [|done]. rewrite wrap32_id; lia.
    + intros j u d td q' _ Hj Hu. rewrite lookup_insert_eq. rewrite <-Eq. by eapply (ok_wait _ _ H).
    + intros d r' td q' [= <- <- <- <-]. by rewrite lookup_insert_eq.
  - pose proof (nheld_bounds true r ths). pose proof (nheld_bounds false r ths).
    apply (ns_ok_local ths i t Hi n _ _ r); cbn [nm_lockMap nm_heap nm_next]; try done; try lia.
    + intros r' Hne. by rewrite lookup_insert_ne.
    + intros r' q' Hne Eq'. pose proof (ok_fresh _ _ H _ _ Eq'). rewrite lookup_insert_eq, lookup_insert_ne by lia. split; [done|]. intros [= E]. lia.
    + intros q'. rewrite lookup_insert_eq. intros [= <-]. lia.
    + unfold ns_entry_ok. cbn [nm_lockMap nm_heap]. rewrite !lookup_insert_eq, Hn, !Hh. split; [lia|].
      eexists. split; [reflexivity|]. cbn [nl_ref nl_mutex]. split; [rewrite wrap32_id; lia|]. unfold mutex_ok. cbn. lia.
    + intros j u d td q' _ Hj Hu. pose proof (ok_wait _ _ H _ _ _ _ _ _ Hj Hu). congruence.
    + intros d r' td q' [= <- <- <- <-]. by rewrite lookup_insert_eq.
Qed.

Lemma ns_ok_mutex r p l' p' : nm_lockMap n !! r = Some p ->
  let ths' := <[i := goto t p']> ths in
  (forall r', r' <> r -> occ r' (refs p') = occ r' (refs (th_pc t)) /\ occ r' (holds p') = occ r' (holds (th_pc t))) ->
  0 < nrefs r ths' -> nl_ref l' = nrefs r ths' -> mutex_ok (nl_mutex l') (nheld true r ths') (nheld false r ths') ->
  (forall done r' todo q, p' = Waiting done r' todo q -> nm_lockMap n !! r' = Some q) ->
  weight (goto t p') <= weight t -> ns_ok ths' (mkNsMap (nm_lockMap n) (<[p := l']> (nm_heap n)) (nm_next n)).
Proof.
  intros Ep ths' Hocc Hpos Href Hm Hp' Hw. apply (ns_ok_local ths i t Hi n _ _ r); cbn [nm_lockMap nm_heap nm_next]; try done.
  - intros r' q Hne Eq. pose proof (other_pointer _ _ _ _ Ep Hne Eq). rewrite lookup_insert_ne by done. split; congruence.
  - intros q Eq. by apply (ok_fresh _ _ H r).
  - unfold ns_entry_ok. cbn [nm_lockMap nm_heap]. rewrite Ep, lookup_insert_eq. fold ths'. eauto.
  - intros j u done todo q _ Hj Hu. by eapply (ok_wait _ _ H).
Qed.

(** A reference less. *)
Lemma drop_ok r p' : refs (th_pc t) = r :: refs p' -> holds p' = holds (th_pc t) ->
  (forall done r' todo q, p' <> Waiting done r' todo q) -> weight (goto t p') <= weight t ->
  exists n', ns_drop n r = Some n' /\ ns_ok (<[i := goto t p']> ths) n'.
Proof.
  intros Hr Hh Hp' Hw. destruct (referred ths i t Hi r n H) as (p & l & Ep & El & Hpos & Hl & Hm); [rewrite Hr; by left|].
  pose proof (nrefs_bound _ _ r H) as Hb. unfold ns_drop. rewrite Ep. cbn [mbind option_bind]. rewrite El. cbn [mbind option_bind].
  rewrite wrap32_id by lia.
  assert (nrefs r (<[i := goto t p']> ths) = nrefs r ths - 1) as Hn by (rewrite (nrefs_goto _ _ _ Hi), Hr, occ_eq; lia).
  assert (forall b, nheld b r (<[i := goto t p']> ths) = nheld b r ths) as Hhe
    by (intros b; rewrite (nheld_goto _ _ _ Hi), Hh; destruct (Bool.eqb _ _); lia).
  assert (forall r', r' <> r -> occ r' (refs p') = occ r' (refs (th_pc t)) /\ occ r' (holds p') = occ r' (holds (th_pc t))) as Hocc
    by (intros r' Hne; by rewrite Hr, Hh, occ_ne).
  destruct (Z.ltb_spec (nl_ref l - 1) 0) as [|_]; [lia|]. eexists. split; [reflexivity|]. destruct (Z.eqb_spec (nl_ref l - 1) 0) as [E0|E0].
  - apply (ns_ok_local ths i t Hi n _ _ r); cbn [nm_lockMap nm_heap nm_next]; try done.
    + intros r' Hne. by rewrite lookup_delete_ne.
    + intros r' q Hne Eq. pose proof (other_pointer _ _ _ _ Ep Hne Eq). by rewrite lookup_insert_ne, lookup_delete_eq.
    + intros q. by rewrite lookup_delete_eq.
    + unfold ns_entry_ok. cbn [nm_lockMap]. rewrite lookup_delete_eq. lia.
    + intros j u done todo q Hj Hu Hpc. exfalso.
      pose proof (Zsum_member (fun t => occ r (refs (th_pc t))) (<[i := goto t p']> ths) j u (fun t => proj1 (occ_bounds _ _))) as Hs.
      rewrite list_lookup_insert_ne in Hs by done. specialize (Hs Hu). cbn beta in Hs. rewrite Hpc in Hs. cbn [refs] in Hs. rewrite occ_eq in Hs.
      pose proof (occ_bounds r done). unfold nrefs in *. lia.
    + intros done r' todo q E. by destruct (Hp' done r' todo q).
  - apply (ns_ok_mutex r); try done; [lia|cbn [nl_ref]; lia|cbn [nl_mutex]; by rewrite !Hhe|]. intros done r' todo q E. by destruct (Hp' done r' todo q).
Qed.

Lemma lm_lock_ok lm id source w R W lm' b : mutex_ok lm R W -> 0 <= R < 2 ^ 62 -> lm_lock lm id source w = (lm', b) ->
  mutex_ok lm' (if b && negb w then R + 1 else R) (if b && w then W + 1 else W).
Proof.
  unfold mutex_ok, lm_lock. intros Hm HR. destruct lm as [i0 s0 wl ref]; cbn [lm_isWriteLock lm_ref] in *.
  destruct w, wl; cbn [negb andb]; rewrite ?andb_true_r, ?andb_false_r; try (intros [= <- <-]; cbn; lia).
  - destruct (Z.eqb_spec ref 0); intros [= <- <-]; cbn; lia.
  - intros [= <- <-]. cbn [lm_isWriteLock lm_ref andb negb]. unfold add64. rewrite wrap64_id by (unfold int64_range; lia). lia.
Qed.
Lemma lm_unlock_ok lm (w : bool) R W : mutex_ok lm R W -> R < 2 ^ 62 -> (if w then 0 < W else 0 < R) ->
  exists lm', lm_unlock lm w = (lm', true) /\ mutex_ok lm' (if w then R else R - 1) (if w then W - 1 else W).
Proof.
  unfold mutex_ok, lm_unlock. intros Hm HR Hw. destruct lm as [i0 s0 wl ref]; cbn [lm_isWriteLock lm_ref] in *.
  destruct w, wl; try lia; destruct Hm as (-> & Hm).
  - eexists. split; [reflexivity|]. cbn. lia.
  - cbn [negb]. destruct (Z.ltb_spec 0 R); [|lia]. eexists. split; [reflexivity|]. cbn [lm_isWriteLock lm_ref]. unfold sub64.
    rewrite wrap64_id by (unfold int64_range; lia). lia.
Qed.

(** An attempt on the mutex. *)
Lemma try_ok done r todo p : th_pc t = Waiting done r todo p ->
  exists n' b, ns_try n p (th_opsID t) (th_source t) (th_read t) = Some (n', b) /\
    ns_ok (<[i := if b : bool then goto t (Locking (done ++ [r]) todo) else t]> ths) n'.
Proof.
  intros Hpc. destruct (referred ths i t Hi r n H) as (q & l & Eq & El & Hpos & Hl & Hm); [rewrite Hpc; by left|].
  pose proof (ok_wait _ _ H _ _ _ _ _ _ Hi Hpc) as Ep. rewrite Eq in Ep. injection Ep as <-.
  pose proof (nrefs_bound _ _ r H). pose proof (nheld_bounds true r ths). unfold ns_try. rewrite El. cbn [mbind option_bind].
  destruct (lm_lock (nl_mutex l) _ _ _) as [lm' b] eqn:E. exists (mkNsMap (nm_lockMap n) (<[q := mkNsLock (nl_ref l) lm']> (nm_heap n)) (nm_next n)), b. split; [done|].
  apply (lm_lock_ok _ _ _ _ _ _ _ _ Hm) in E; [|lia]. destruct b.
  - assert (nrefs r (<[i := goto t (Locking (done ++ [r]) todo)]> ths) = nrefs r ths) as Hn.
    { rewrite (nrefs_goto _ _ _ Hi), Hpc. cbn [refs]. rewrite occ_app, !occ_eq. change (occ r []) with 0. lia. }
    apply (ns_ok_mutex r); try done; rewrite ?Hn; try done.
    + intros r' Hne. rewrite Hpc. cbn [refs holds]. rewrite !occ_app, !occ_ne by done. change (occ r' []) with 0. lia.
    + cbn [nl_mutex]. rewrite !(nheld_goto _ _ _ Hi), Hpc. cbn [holds]. rewrite occ_app, occ_eq. change (occ r []) with 0.
      destruct (th_read t); cbn [negb andb Bool.eqb] in *;
        [replace (nheld true r ths + _) with (nheld true r ths + 1) by lia|replace (nheld false r ths + (_ - _)) with (nheld false r ths + 1) by lia];
        by rewrite Z.add_0_r.
    + unfold weight. rewrite Hpc. cbn [goto th_pc]. rewrite length_app. cbn [length]. lia.
  - cbn [andb] in E. assert (goto t (th_pc t) = t) as Hg by (by destruct t). rewrite <-Hg at 1.
    assert (<[i := goto t (th_pc t)]> ths = ths) as Hid by (rewrite Hg; by apply list_insert_id).
    apply (ns_ok_mutex r); rewrite ?Hid; try done.
    intros d r' td p' Hp'. by eapply (ok_wait _ _ H).
Qed.

(** The release of a mutex that is held. *)
Lemma release_ok r todo granted : th_pc t = Unlocking (r :: todo) granted ->
  exists p n', nm_lockMap n !! r = Some p /\ ns_release n p (th_read t) = Some n' /\
    ns_ok (<[i := goto t (Dropping r todo granted)]> ths) n'.
Proof.
  intros Hpc. destruct (referred ths i t Hi r n H) as (p & l & Ep & El & Hpos & Hl & Hm); [rewrite Hpc; by left|].
  pose proof (nrefs_bound _ _ r H). pose proof (nheld_bounds true r ths). pose proof (holder_counted ths i t Hi r) as Hh.
  rewrite Hpc in Hh. specialize (Hh ltac:(by left)).
  destruct (lm_unlock_ok _ (negb (th_read t)) _ _ Hm) as (lm' & E & Hm'); [lia|by destruct (th_read t)|].
  exists p, (mkNsMap (nm_lockMap n) (<[p := mkNsLock (nl_ref l) lm']> (nm_heap n)) (nm_next n)).
  split_and!; [done| |].
  - unfold ns_release, lm_RUnlock, lm_Unlock. rewrite El. cbn [mbind option_bind]. destruct (th_read t); cbn [negb] in E; by rewrite E.
  - assert (nrefs r (<[i := goto t (Dropping r todo granted)]> ths) = nrefs r ths) as Hn by (rewrite (nrefs_goto _ _ _ Hi), Hpc; cbn [refs]; lia).
    apply (ns_ok_mutex r); try done; rewrite ?Hn; try done.
    + intros r' Hne. rewrite Hpc. cbn [refs holds]. by rewrite !occ_ne.
    + cbn [nl_mutex]. rewrite !(nheld_goto _ _ _ Hi), Hpc. cbn [holds]. rewrite occ_eq.
      destruct (th_read t); cbn [negb Bool.eqb] in *;
        [replace (nheld true r ths + _) with (nheld true r ths - 1) by lia|replace (nheld false r ths + (_ - _)) with (nheld false r ths - 1) by lia];
        by rewrite Z.add_0_r.
    + unfold weight. rewrite Hpc. cbn [goto th_pc refs]. lia.
Qed.
End Steps.

(** ** Runs *)

Lemma thread_step_ok ths n i a t : ns_ok ths n -> ths !! i = Some t ->
  match thread_step a t n with Panic => False | Stuck => True | Next t' n' => ns_ok (<[i := t']> ths) n' end.
Proof.
  intros H Hi. unfold thread_step. destruct a as [ctxErr|], (th_pc t) as [dn [|r todo]|dn r todo p|dn r todo|paths|[|r todo] granted|r todo granted|err] eqn:Hpc; try exact I.
  - apply ns_ok_move; rewrite ?Hpc; try done. unfold weight. rewrite Hpc. cbn [goto th_pc refs length]. lia.
  - destruct (ns_enter n r) as [n' p] eqn:E. by eapply enter_ok.
  - destruct (try_ok ths n H i t Hi _ _ _ _ Hpc) as (n' & b & -> & Hok). by destruct b.
  - destruct (drop_ok ths n H i t Hi r (Unlocking dn false)) as (n' & -> & Hok); rewrite ?Hpc; try done.
    unfold weight. rewrite Hpc. cbn [goto th_pc refs]. lia.
  - apply ns_ok_move; rewrite ?Hpc; try done. unfold weight. rewrite Hpc. cbn [goto th_pc refs]. lia.
  - apply ns_ok_move; rewrite ?Hpc; try done. unfold weight. rewrite Hpc. cbn [goto th_pc refs]. lia.
  - destruct (release_ok ths n H i t Hi _ _ _ Hpc) as (p & n' & -> & -> & Hok). done.
  - destruct (drop_ok ths n H i t Hi r (Unlocking todo granted)) as (n' & -> & Hok); rewrite ?Hpc; try done.
    unfold weight. rewrite Hpc. cbn [goto th_pc refs length]. lia.
  - apply ns_ok_move; rewrite ?Hpc; try done. unfold weight. rewrite Hpc. cbn [goto th_pc]. lia.
Qed.

Lemma ns_ok_start ths : Forall starting ths -> Zsum (weight <$> ths) < 2 ^ 31 -> ns_ok ths newNSLock.
Proof.
  intros Hs Hw. split; try done.
  - intros r. unfold ns_entry_ok. cbn. unfold nrefs. clear Hw. induction Hs as [|t ths [paths Hp] _ IH]; [done|].
    rewrite fmap_cons. unfold Zsum in *. cbn [foldr]. rewrite IH, Hp. done.
  - intros i t done r todo p Hi Hpc. rewrite Forall_lookup in Hs. destruct (Hs i t Hi) as [paths Hp]. congruence.
Qed.
Lemma ns_ok_step ths n ths' n' : ns_ok ths n -> ns_step (ths, n) (ths', n') -> ns_ok ths' n'.
Proof. intros H Hst. inversion Hst as [? ? i a t t' ? Hi E]; subst. pose proof (thread_step_ok _ _ i a t H Hi) as Hok. by rewrite E in Hok. Qed.
Lemma ns_ok_reachable s s' : ns_ok s.1 s.2 -> rtc ns_step s s' -> ns_ok s'.1 s'.2.
Proof. intros H Hr. induction Hr as [|s [ths n] s' Hst _ IH]; [done|]. apply IH. destruct s. by eapply ns_ok_step. Qed.

(** Two holders of a resource are both readers. *)
Lemma ns_ok_exclusive ths n i j t u r : ns_ok ths n -> i <> j -> ths !! i = Some t -> ths !! j = Some u ->
  r ∈ holds (th_pc t) -> r ∈ holds (th_pc u) -> th_read t = true.
Proof.
  intros H Hij Hi Hj Ht Hu. destruct (th_read t) eqn:Er; [done|exfalso].
  assert (r ∈ refs (th_pc t)) as Hr by (destruct (th_pc t); cbn [holds refs] in *; rewrite ?elem_of_cons; auto).
  destruct (referred _ _ _ Hi r n H Hr) as (p & l & _ & _ & _ & _ & Hm). pose proof (holder_counted _ _ _ Hi r Ht) as Hw. rewrite Er in Hw.
  assert (nheld false r ths = 1 /\ nheld true r ths = 0) as [H1 H0] by (unfold mutex_ok in Hm; destruct (lm_isWriteLock _); lia).
  set (ths' := <[i := goto t (Finished None)]> ths). assert (ths' !! j = Some u) as Hj' by (unfold ths'; by rewrite list_lookup_insert_ne).
  pose proof (holder_counted ths' _ _ Hj' r Hu) as Hh. unfold ths' in Hh. rewrite (nheld_goto _ _ _ Hi), Er in Hh. cbn [holds] in Hh.
  change (occ r []) with 0 in Hh. pose proof (occ_in r _ Ht). destruct (th_read u); cbn [Bool.eqb] in Hh; lia.
Qed.

Lemma ns_ok_finished ths n : ns_ok ths n -> Forall finished ths -> nm_lockMap n = ∅.
Proof.
  intros H Hf. apply map_eq. intros r. rewrite lookup_empty. pose proof (ok_entry _ _ H r) as He. unfold ns_entry_ok in He.
  destruct (nm_lockMap n !! r); [|done]. destruct He as [He _]. exfalso. clear H. apply Zsum_pos in He as (i & t & Hi & Ht).
  rewrite Forall_lookup in Hf. destruct (Hf i t Hi) as [e Hp]. rewrite Hp in Ht. done.
Qed.

(** C23: along every interleaving of requests, retries, time-outs and releases, two
    requests that hold a resource are both readers; no step panics (no release of a
    mutex that is not held, no missing entry, no count of references below zero);
    and once all requests are done the map is empty. *)
Theorem namespace_locks_safe ths0 ths n : Forall starting ths0 -> Zsum (weight <$> ths0) < 2 ^ 31 ->
  rtc ns_step (ths0, newNSLock) (ths, n) ->
  (forall i j t u r, i <> j -> ths !! i = Some t -> ths !! j = Some u ->
     r ∈ holds (th_pc t) -> r ∈ holds (th_pc u) -> th_read t = true /\ th_read u = true) /\
  (forall i a t, ths !! i = Some t -> thread_step a t n <> Panic) /\
  (Forall finished ths -> nm_lockMap n = ∅).
Proof.
  intros Hs Hw Hr. pose proof (ns_ok_reachable (ths0, newNSLock) (ths, n) (ns_ok_start _ Hs Hw) Hr) as H. cbn [fst snd] in H. split_and!.
  - intros i j t u r Hij Hi Hj Ht Hu. split; [by apply (ns_ok_exclusive ths n i j t u r)|by apply (ns_ok_exclusive ths n j i u t r)].
  - intros i a t Hi E. pose proof (thread_step_ok _ _ i a t H Hi) as Hok. by rewrite E in Hok.
  - by apply ns_ok_finished.
Qed.

(** ** Locks in order *)

Definition path_before (x y : string) : Prop := String.le x y /\ x <> y.
Definition ordered (t : thread) : Prop :=
  match th_pc t with
  | Locking done todo => StronglySorted path_before (done ++ todo)
  | Waiting done r todo _ => StronglySorted path_before (done ++ r :: todo)
  | _ => True
  end.

Lemma ordered_step a t n t' n' : ordered t -> thread_step a t n = Next t' n' -> ordered t'.
Proof.
  unfold ordered, thread_step. intros Ho. destruct a as [ctxErr|], (th_pc t) as [dn [|r todo]|dn r todo p|dn r todo|paths|[|r todo] granted|r todo granted|err] eqn:Hpc; try done;
    repeat case_match; try done; intros [= <- <-]; cbn [goto th_pc] in *; rewrite ?Hpc in *; simplify_eq; by rewrite <-?app_assoc.
Qed.

(** The largest of some names. *)
Lemma largest (l : list string) : l <> [] -> exists m, m ∈ l /\ forall x, x ∈ l -> String.le x m.
Proof.
  induction l as [|x l IH]; [done|]. intros _. destruct (decide (l = [])) as [->|Hl].
  - exists x. split; [by left|]. intros y Hy. apply list_elem_of_singleton in Hy as ->. done.
  - destruct (IH Hl) as (m & Hm & Hmax). destruct (total String.le x m) as [Hx|Hx].
    + exists m. split; [by right|]. intros y [-> |Hy]%elem_of_cons; auto.
    + exists x. split; [by left|]. intros y [-> |Hy]%elem_of_cons; [done|]. etrans; [by apply Hmax|done].
Qed.

(** A request that cannot go on waits for a resource that another one holds. *)
Lemma blocked_wait ths n i t : ns_ok ths n -> ths !! i = Some t -> ~ progress ths n -> ~ finished t ->
  exists done r todo p, th_pc t = Waiting done r todo p /\ exists j u, ths !! j = Some u /\ r ∈ holds (th_pc u).
Proof.
  intros H Hi Hnp Hnf. pose proof (thread_step_ok _ _ i (Run None) t H Hi) as Hok.
  assert (forall t' n', thread_step (Run None) t n = Next t' n' -> th_pc t' = th_pc t) as Hstay.
  { intros t' n' E. destruct (pc_eq_dec (th_pc t') (th_pc t)) as [|Hne]; [done|]. exfalso. apply Hnp. by exists i, t, t', n'. }
  unfold thread_step in *. destruct (th_pc t) as [dn [|r todo]|dn r todo p|dn r todo|paths|[|r todo] granted|r todo granted|err] eqn:Hpc;
    try (specialize (Hstay _ _ eq_refl); done).
  - destruct (ns_enter n r). specialize (Hstay _ _ eq_refl). done.
  - exists dn, r, todo, p. split; [done|].
    destruct (referred _ _ _ Hi r n H) as (q & l & Eq & El & _ & _ & Hm); [rewrite Hpc; by left|].
    pose proof (ok_wait _ _ H _ _ _ _ _ _ Hi Hpc) as Ep. rewrite Eq in Ep. injection Ep as <-.
    assert (0 < nheld true r ths \/ 0 < nheld false r ths) as Hheld.
    { clear Hok. unfold ns_try in Hstay. rewrite El in Hstay. cbn [mbind option_bind] in Hstay. unfold lm_lock in Hstay. unfold mutex_ok in Hm.
      pose proof (nheld_bounds true r ths). destruct (th_read t), (lm_isWriteLock _); cbn [negb andb] in Hstay; try lia.
      - specialize (Hstay _ _ eq_refl). done.
      - rewrite andb_true_r in Hstay. destruct (Z.eqb_spec (lm_ref (nl_mutex l)) 0); [specialize (Hstay _ _ eq_refl); done|lia]. }
    unfold nheld in Hheld. destruct Hheld as [Hp|Hp]; apply Zsum_pos in Hp as (j & u & Hj & Hp); exists j, u; (split; [done|]); unfold held_by in Hp;
      destruct (Bool.eqb _ _); try lia; by apply occ_pos.
  - destruct (ns_drop n r); [|done]. specialize (Hstay _ _ eq_refl). done.
  - destruct (nm_lockMap n !! r); [|specialize (Hstay _ _ eq_refl); injection Hstay as E; apply (f_equal length) in E; cbn [length] in E; lia].
    destruct (ns_release n _ _); [|done]. specialize (Hstay _ _ eq_refl). done.
  - destruct (ns_drop n r); [|done]. specialize (Hstay _ _ eq_refl). done.
  - exfalso. apply Hnf. by exists err.
Qed.

#[export] Instance finished_dec t : Decision (finished t).
Proof. unfold finished. destruct (th_pc t) eqn:E; first [left; by eexists|right; by intros [? ?]]. Defined.

(** Requests that lock in order do not wait in a circle: the one that waits for
    the largest resource waits for somebody who can go on. *)
Lemma ordered_progress ths n : ns_ok ths n -> Forall ordered ths -> ~ Forall finished ths -> ~ ~ progress ths n.
Proof.
  intros H Ho Hnf Hnp.
  assert (exists i t, ths !! i = Some t /\ ~ finished t) as (i & t & Hi & Ht).
  { apply not_Forall_Exists, Exists_exists in Hnf as (t & Hin & Ht); [|apply _].
    apply list_elem_of_lookup in Hin as [i Hi]. eauto. }
  set (waits := mjoin ((fun t => match th_pc t with Waiting _ r _ _ => [r] | _ => [] end) <$> ths)).
  assert (forall j u d r td p, ths !! j = Some u -> th_pc u = Waiting d r td p -> r ∈ waits) as Hin.
  { intros j u d r td p Hj Hu. apply list_elem_of_join. exists [r]. split; [by left|]. apply list_elem_of_fmap. exists u. rewrite Hu.
    split; [done|]. by eapply list_elem_of_lookup_2. }
  destruct (blocked_wait _ _ _ _ H Hi Hnp Ht) as (d & r & td & p & Hpc & _).
  destruct (largest waits) as (m & Hm & Hmax); [intros E; pose proof (Hin _ _ _ _ _ _ Hi Hpc) as Hr; rewrite E in Hr; by apply elem_of_nil in Hr|].
  apply list_elem_of_join in Hm as (l & Hml & Hl). apply list_elem_of_fmap in Hl as (u & -> & Hu). apply list_elem_of_lookup in Hu as [j Hj].
  destruct (th_pc u) as [| dn m' tn q | | | | | ] eqn:Hpu; try by apply elem_of_nil in Hml. apply list_elem_of_singleton in Hml as <-.
  destruct (blocked_wait _ _ _ _ H Hj Hnp) as (d' & r' & td' & p' & Hpc' & k & v & Hk & Hv); [intros [e He]; congruence|].
  rewrite Hpu in Hpc'. injection Hpc' as <- <- <- <-.
  destruct (blocked_wait _ _ _ _ H Hk Hnp) as (dv & rv & tv & pv & Hpv & _); [intros [e He]; rewrite He in Hv; by apply elem_of_nil in Hv|].
  rewrite Hpv in Hv. cbn [holds] in Hv. rewrite Forall_lookup in Ho. pose proof (Ho _ _ Hk) as Hov. unfold ordered in Hov. rewrite Hpv in Hov.
  assert (path_before m rv) as [Hle Hne] by (eapply StronglySorted_app_1_elem_of; [exact Hov|done|by left]). apply Hne, (anti_symm String.le); [done|]. by eapply Hmax, Hin.
Qed.

(** ** Every request can finish *)

(** A step without time-outs. *)
Definition run_step (s s' : list thread * nsLockMap) : Prop :=
  exists i t t' n', s.1 !! i = Some t /\ thread_step (Run None) t s.2 = Next t' n' /\ s' = (<[i := t']> s.1, n').

Definition steps_left (t : thread) : Z :=
  match th_pc t with
  | Locking dn todo => 4 * len todo + 2 * len dn + 3
  | Waiting dn _ todo _ => 4 * len todo + 2 * len dn + 6
  | Failing dn _ _ => 2 * len dn + 3
  | Holding paths => 2 * len paths + 2
  | Unlocking todo _ => 2 * len todo + 1
  | Dropping _ todo _ => 2 * len todo + 2
  | Finished _ => 0
  end.
Lemma steps_left_nonneg t : 0 <= steps_left t.
Proof. unfold steps_left. destruct (th_pc t); lia. Qed.
Lemma steps_left_step t n t' n' : thread_step (Run None) t n = Next t' n' -> th_pc t' <> th_pc t -> steps_left t' < steps_left t.
Proof.
  unfold thread_step, steps_left. destruct (th_pc t) as [dn [|r todo]|dn r todo p|dn r todo|paths|[|r todo] granted|r todo granted|err] eqn:Hpc; try done.
  all: try (intros [= <- <-] _; cbn [goto th_pc length]; lia).
  - destruct (ns_enter n r). intros [= <- <-] _. cbn [goto th_pc length]. lia.
  - destruct (ns_try _ _ _ _ _) as [[n0 []]|]; [| |done]; intros [= <- <-]; [|congruence]. intros _. cbn [goto th_pc]. rewrite length_app. cbn [length]. lia.
  - destruct (ns_drop n r); [|done]. intros [= <- <-] _. cbn [goto th_pc]. lia.
  - destruct (nm_lockMap n !! r); [destruct (ns_release _ _ _); [|done]|]; intros [= <- <-] _; cbn [goto th_pc length]; lia.
  - destruct (ns_drop n r); [|done]. intros [= <- <-] _. cbn [goto th_pc]. lia.
Qed.

Definition can_move (n : nsLockMap) (t : thread) : Prop :=
  match thread_step (Run None) t n with Next t' _ => th_pc t' <> th_pc t | _ => False end.
#[export] Instance can_move_dec n t : Decision (can_move n t).
Proof. unfold can_move. destruct (thread_step _ _ _); apply _. Defined.

Lemma progress_Exists ths n : progress ths n <->
  Exists (can_move n) ths.
Proof.
  rewrite Exists_exists. unfold can_move. split.
  - intros (i & t & t' & n' & Hi & E & Hne). exists t. split; [by eapply list_elem_of_lookup_2|by rewrite E].
  - intros (t & Hin & Ht). apply list_elem_of_lookup in Hin as [i Hi]. destruct (thread_step _ _ _) as [| |t' n'] eqn:E; [done..|]. by exists i, t, t', n'.
Qed.
#[export] Instance progress_dec ths n : Decision (progress ths n).
Proof.
  destruct (decide (Exists (can_move n) ths));
    [left|right]; by rewrite progress_Exists.
Defined.

Lemma Forall_ordered_step ths n ths' n' : Forall ordered ths -> ns_step (ths, n) (ths', n') -> Forall ordered ths'.
Proof.
  intros Ho Hst. inversion Hst as [? ? i a t t' ? Hi E]; subst. apply Forall_insert; [done|]. rewrite Forall_lookup in Ho. by eapply ordered_step, E; apply (Ho i).
Qed.

(** From every state of ordered requests there is a run to the end. *)
Lemma ordered_finish k : forall ths n, Zsum (steps_left <$> ths) < Z.of_nat k -> ns_ok ths n -> Forall ordered ths ->
  exists ths' n', rtc run_step (ths, n) (ths', n') /\ Forall finished ths'.
Proof.
  induction k as [|k IH]; intros ths n Hk H Ho; [pose proof (Zsum_nonneg steps_left ths steps_left_nonneg); lia|].
  destruct (decide (Forall finished ths)) as [Hf|Hf]; [by exists ths, n; split; [apply rtc_refl|]|].
  pose proof (dec_stable (ordered_progress _ _ H Ho Hf)) as (i & t & t' & n' & Hi & E & Hne).
  assert (ns_step (ths, n) (<[i := t']> ths, n')) as Hst by (by eapply ns_step_thread).
  destruct (IH (<[i := t']> ths) n') as (ths2 & n2 & Hr & Hf2).
  - rewrite (Zsum_insert _ _ _ _ _ Hi). pose proof (steps_left_step _ _ _ _ E Hne). lia.
  - by eapply ns_ok_step.
  - by eapply Forall_ordered_step.
  - exists ths2, n2. split; [|done]. eapply rtc_l; [|exact Hr]. by exists i, t, t', n'.
Qed.

(** *** The order of [NewNSLock] *)

(** A stored object name: no empty component and no dots. *)
Definition stored_name (path : string) : Prop := nodots path /\ comps path = Split "/" path.

Lemma pathJoin_stored volume path : plain volume -> stored_name path -> pathJoin [volume; path] = volume +:+ String "/" path.
Proof.
  intros Hv [Hp Hc]. destruct (plain_single volume Hv) as (H1 & H2 & _). pose proof (Split_not_nil "/" path) as Hn.
  assert (HasSuffix path "/" = false) as Hs.
  { destruct (Split_last "/" path) as (l & x & E & _). apply (no_suffix _ l x E). pose proof (comps_nonempty path) as Hne. rewrite Hc, E in Hne.
    apply Forall_app in Hne as [_ Hne]. by inversion Hne. }
  rewrite pathJoin_two by (done || by rewrite Hc). rewrite decide_False by apply Hv. cbv zeta.
  assert (String.prefix "/" volume = false) as ->.
  { destruct Hv as (_ & _ & _ & Hf). destruct volume as [|c v]; [done|]. unfold free in Hf. cbn [for_all] in Hf. apply andb_true_iff in Hf as [Hf _].
    apply negb_true_iff, Ascii.eqb_neq in Hf. cbn [String.prefix]. by destruct (Ascii.ascii_dec "/" c). }
  rewrite H2, Hc. change ([volume] ++ Split "/" path) with (volume :: Split "/" path). pose proof (join_Split "/" path) as Hj.
  destruct (Split "/" path); [done|]. by rewrite join_cons, Hj.
Qed.
Lemma le_cons c x y : String.le x y -> String.le (String c x) (String c y).
Proof. unfold String.le, String.leb. cbn [String.compare]. unfold Ascii.compare. by rewrite N.compare_refl. Qed.
Lemma le_append a x y : String.le x y -> String.le (a +:+ x) (a +:+ y).
Proof. intros H. induction a as [|c a IH]; [done|]. rewrite !append_cons. by apply le_cons. Qed.

Lemma NewNSLock_ordered volume paths opsID source readLock : plain volume -> Forall stored_name paths -> NoDup paths ->
  ordered (NewNSLock volume paths opsID source readLock).
Proof.
  intros Hv Hp Hd. unfold ordered, NewNSLock, sort_Strings. cbn [th_pc app].
  pose proof (merge_sort_Permutation String.le paths) as Hperm. pose proof (StronglySorted_merge_sort String.le paths) as Hs.
  rewrite <-Hperm in Hp, Hd. clear Hperm. revert Hp Hd Hs. generalize (merge_sort String.le paths). intros ps Hp Hd Hs. induction Hs as [|x l Hs IH Hx]; [constructor|]. apply Forall_cons in Hp as [Px Pl]. apply NoDup_cons in Hd as [Nx Nl].
  rewrite fmap_cons. constructor; [by apply IH|]. apply Forall_forall. intros y Hy. apply list_elem_of_fmap in Hy as (z & -> & Hz).
  rewrite Forall_forall in Hx, Pl. rewrite !pathJoin_stored by auto. split.
  - by apply le_append, le_cons, Hx.
  - intros E. apply append_inj_l in E. injection E as ->. done.
Qed.

Lemma reachable_ok s s' : rtc ns_step s s' -> ns_ok s.1 s.2 -> Forall ordered s.1 -> ns_ok s'.1 s'.2 /\ Forall ordered s'.1.
Proof.
  induction 1 as [|[l m] [l' m'] s' Hst _ IH]; [done|]. intros H Ho. cbn [fst snd] in *. apply IH; [by eapply ns_ok_step|by eapply Forall_ordered_step].
Qed.
Lemma run_step_ns_step l m l' m' : run_step (l, m) (l', m') -> ns_step (l, m) (l', m').
Proof. intros (i & t & t' & n' & Hi & E & [= -> ->]). by eapply ns_step_thread. Qed.

Definition request (t : thread) : Prop := exists volume paths opsID source readLock,
  t = NewNSLock volume paths opsID source readLock /\ plain volume /\ Forall stored_name paths /\ NoDup paths.

(** C24: requests for different stored names of one bucket each, whatever has been
    done so far, interleaved and timed out in whatever way, never block each other
    for ever: from every state they reach, they can all come to their end without
    another time-out, and the map is then empty. *)
Theorem namespace_locks_live ths0 ths n : Forall request ths0 -> Zsum (weight <$> ths0) < 2 ^ 31 ->
  rtc ns_step (ths0, newNSLock) (ths, n) ->
  exists ths' n', rtc run_step (ths, n) (ths', n') /\ Forall finished ths' /\ nm_lockMap n' = ∅.
Proof.
  intros Hq Hw Hr.
  assert (Forall starting ths0) as Hs by (eapply Forall_impl; [exact Hq|]; intros t (v & ps & o & s & b & -> & _); by eexists).
  assert (Forall ordered ths0) as Ho by (eapply Forall_impl; [exact Hq|]; intros t (v & ps & o & s & b & -> & ? & ? & ?); by apply NewNSLock_ordered).
  destruct (reachable_ok (ths0, newNSLock) (ths, n) Hr (ns_ok_start _ Hs Hw) Ho) as [H Ho']. cbn [fst snd] in *.
  destruct (ordered_finish (S (Z.to_nat (Zsum (steps_left <$> ths)))) ths n) as (ths' & n' & Hr' & Hf); [lia|done..|].
  exists ths', n'. split_and!; [done..|]. eapply ns_ok_finished, Hf. eapply (ns_ok_reachable (ths, n) (ths', n')); [done|].
  eapply rtc_subrel; [|exact Hr']. intros [l m] [l' m']. apply run_step_ns_step.
Qed.

(** ** Samples *)

(** A writer that waits for a reader of one of its two paths. *)
Definition sample_ns_reader : thread := NewNSLock "b" ["x"] "r1" "s" true.
Definition sample_writer : thread := NewNSLock "b" ["y"; "x"] "w1" "s" false.
Fixpoint sample_run (k : list (nat * ns_action)) (s : list thread * nsLockMap) : option (list thread * nsLockMap) :=
  match k with
  | [] => Some s
  | (i, a) :: k => let? t := s.1 !! i in
      match thread_step a t s.2 with Next t' n' => sample_run k (<[i := t']> s.1, n') | _ => None end
  end.
Lemma sample_run_steps k : forall s s', sample_run k s = Some s' -> rtc ns_step s s'.
Proof.
  induction k as [|[i a] k IH]; intros [ths n] s'; cbn [sample_run fst snd]; [intros [= <-]; apply rtc_refl|].
  destruct (ths !! i) as [t|] eqn:Hi; [|done]. cbn [mbind option_bind]. destruct (thread_step a t n) as [| |t' n'] eqn:E; try done.
  intros Hr. eapply rtc_l; [by eapply ns_step_thread|by apply IH].
Qed.
Definition go : ns_action := Run None.
Definition sample_schedule : list (nat * ns_action) :=
  [(0, go); (0, go); (0, go); (1, go); (1, go); (1, go)]%nat.
Definition sample_state : list thread * nsLockMap :=
  default ([], newNSLock) (sample_run sample_schedule ([sample_ns_reader; sample_writer], newNSLock)).

(** The reader holds its lock and the writer waits for it. *)
Lemma sample_state_waits :
  th_pc <$> sample_state.1 = [Holding ["b/x"]; Waiting [] "b/x" ["b/y"] 0%nat].
Proof. vm_compute. reflexivity. Qed.
Lemma sample_reached : rtc ns_step ([sample_ns_reader; sample_writer], newNSLock) sample_state.
Proof. apply (sample_run_steps sample_schedule). vm_compute. reflexivity. Qed.

Lemma namespace_locks_safe_witness :
  thread_step TimeUp (mkThread false "w1" "s" (Waiting [] "b/x" ["b/y"] 0%nat)) sample_state.2 <> Panic.
Proof.
  destruct (namespace_locks_safe [sample_ns_reader; sample_writer] sample_state.1 sample_state.2) as (_ & Hp & _).
  - repeat constructor; by eexists.
  - vm_compute. reflexivity.
  - rewrite <-surjective_pairing. exact sample_reached.
  - apply (Hp 1%nat TimeUp). vm_compute. reflexivity.
Defined.

Lemma sample_stored path : forallb (fun c => negb (bool_decide (c = "") || bool_decide (c = ".") || bool_decide (c = ".."))) (Split "/" path) = true -> stored_name path.
Proof.
  rewrite forallb_forall. intros Hf. assert (forall c, c ∈ Split "/" path -> c <> "" /\ c <> "." /\ c <> "..") as Hc.
  { intros c Hc. apply list_elem_of_In, Hf in Hc. rewrite negb_true_iff, !orb_false_iff, !bool_decide_eq_false in Hc. tauto. }
  split; [apply Forall_forall; intros c Hin; apply Hc in Hin; tauto|]. unfold comps. revert Hc. clear. induction (Split "/" path) as [|c l IH]; intros Hc; [done|].
  rewrite filter_cons_True by (apply Hc; by left). rewrite IH; [done|]. intros d Hd. apply Hc. by right.
Qed.

Lemma sample_request_ok volume paths opsID source readLock :
  forallb (fun d => negb (bool_decide (volume = d))) [""; "."; ".."] && free "/" volume = true ->
  forallb (fun path => forallb (fun c => negb (bool_decide (c = "") || bool_decide (c = ".") || bool_decide (c = ".."))) (Split "/" path)) paths = true ->
  bool_decide (NoDup paths) = true -> request (NewNSLock volume paths opsID source readLock).
Proof.
  intros Hv Hp Hd. exists volume, paths, opsID, source, readLock. split_and!; [done|by apply plain_sample| |by apply bool_decide_eq_true in Hd].
  apply Forall_forall. intros path Hin. apply list_elem_of_In in Hin. rewrite forallb_forall in Hp. by apply sample_stored, Hp.
Qed.

Lemma namespace_locks_live_witness :
  exists ths' n', rtc run_step sample_state (ths', n') /\ Forall finished ths' /\ nm_lockMap n' = ∅.
Proof.
  pose proof sample_reached as Hr. destruct sample_state as [ths n].
  apply (namespace_locks_live [sample_ns_reader; sample_writer] ths n); [|vm_compute; reflexivity|exact Hr].
  apply Forall_cons_2; [apply sample_request_ok; vm_compute; reflexivity|].
  apply Forall_cons_2; [apply sample_request_ok; vm_compute; reflexivity|apply Forall_nil_2].
Defined.
