(* ===== verification/ObjectLock.v ===== *)
(** * Object locking ([internal/bucket/object/lock], [cmd/bucket-object-lock.go])

    A version can be on legal hold, or retained until a date in governance or in
    compliance mode; the bucket can have a default retention.  This file models the
    lock settings, their parsing from headers and metadata, the default retention,
    and the checks made before a version is deleted, overwritten or has its
    retention changed, with the updates of the metadata that follow
    ([PutObjectRetentionHandler], [PutObjectLegalHoldHandler], [PutObjectHandler]).

    Parameters: the clock with its NTP server, the policy decisions of the identity
    system, the decoded XML documents, and the results of [getOpts] and
    [GetObjectInfo]. *)

From Stdlib Require Import Ascii.
From S2P Require Import Prelude Erasure FileInfo Quorum Restore XLMeta XLRead HTTPRange ObjectRead ObjectMeta Calendar.

(** ** Modes and statuses *)

Definition RetGovernance : string := "GOVERNANCE".
Definition RetCompliance : string := "COMPLIANCE".
Definition RetMode_Valid (r : string) : bool := bool_decide (r = RetGovernance) || bool_decide (r = RetCompliance).

Definition LegalHoldOn : string := "ON".
Definition LegalHoldOff : string := "OFF".
Definition LegalHold_Valid (l : string) : bool := bool_decide (l = LegalHoldOn) || bool_decide (l = LegalHoldOff).

Definition ascii_upper (c : ascii) : ascii :=
  if (97 <=? nat_of_ascii c)%nat && (nat_of_ascii c <=? 122)%nat then ascii_of_nat (nat_of_ascii c - 32) else c.

(** [strings.ToUpper], as far as the comparison with ASCII text goes: U+0131 has the
    upper case [I] and U+017F the upper case [S]. *)
Fixpoint ToUpper (s : string) : string :=
  match s with
  | EmptyString => EmptyString
  | String a s1 =>
      match s1 with
      | String b s2 =>
          if is_char a 196 && is_char b 177 then String "I" (ToUpper s2)
          else if is_char a 197 && is_char b 191 then String "S" (ToUpper s2)
          else String (ascii_upper a) (ToUpper s1)
      | EmptyString => String (ascii_upper a) EmptyString
      end
  end.

Definition parseRetMode (modeStr : string) : string :=
  let s := ToUpper modeStr in
  if bool_decide (s = "GOVERNANCE") then RetGovernance
  else if bool_decide (s = "COMPLIANCE") then RetCompliance
  else "".

Definition parseLegalHoldStatus (holdStr : string) : string :=
  let s := ToUpper holdStr in
  if bool_decide (s = "ON") then LegalHoldOn
  else if bool_decide (s = "OFF") then LegalHoldOff
  else "".

(** ** Headers

    The values of a header are a non-empty list: the first and the others. *)

Definition Header := gmap string (string * list string).
Definition header_Get (h : Header) (k : string) : string := default "" (fst <$> h !! k).

Definition AmzObjectLockBypassRetGovernance : string := "X-Amz-Bypass-Governance-Retention".
Definition AmzObjectLockRetainUntilDate : string := "X-Amz-Object-Lock-Retain-Until-Date".
Definition AmzObjectLockMode : string := "X-Amz-Object-Lock-Mode".
Definition AmzObjectLockLegalHold : string := "X-Amz-Object-Lock-Legal-Hold".
Definition AmzBucketReplicationStatus : string := "X-Amz-Replication-Status".

(** [strings.ToLower] of the keys. *)
Definition lower_RetainUntilDate : string := "x-amz-object-lock-retain-until-date".
Definition lower_Mode : string := "x-amz-object-lock-mode".
Definition lower_LegalHold : string := "x-amz-object-lock-legal-hold".

(** ** Errors *)

Definition ErrInvalidRetentionDate : error := ErrNew "date must be provided in ISO 8601 format".
Definition ErrPastObjectLockRetainDate : error := ErrNew "the retain until date must be in the future".
Definition ErrUnknownWORMModeDirective : error := ErrNew "unknown WORM mode directive".
Definition ErrObjectLockInvalidHeaders : error :=
  ErrNew "x-amz-object-lock-retain-until-date and x-amz-object-lock-mode must both be supplied".
Definition ErrMalformedXML : error :=
  ErrNew "the XML you provided was not well-formed or did not validate against our published schema".
Definition errAuthentication : error := ErrNew "Authentication failed, check your access credentials".
Definition errServerNotInitialized : error := ErrNew "Server not initialized, please try again".

(** The codes of [APIErrorCode] that the checks of this file return or tell apart. *)
Inductive APIErrorCode :=
| ErrNone | Err_AccessDenied | Err_ObjectLocked | Err_InvalidBucketObjectLockConfiguration
| Err_InvalidRetentionDate | Err_PastObjectLockRetainDate | Err_UnknownWORMModeDirective
| Err_ObjectLockInvalidHeaders | Err_MalformedXML | Err_ClientDisconnected | Err_OperationTimedOut
| Err_EntityTooLarge | Err_EntityTooSmall | Err_SlowDown | Err_NoSuchBucket | Err_BucketNotEmpty
| Err_BucketAlreadyOwnedByYou | Err_ObjectExistsAsDirectory | Err_NoSuchVersion | Err_MethodNotAllowed
| Err_NoSuchKey | Err_InvalidObjectName | Err_IncompleteBody | Err_NoSuchUpload | Err_StorageFull
| Err_InternalError.

#[global] Instance APIErrorCode_eq_dec : EqDecision APIErrorCode.
Proof. solve_decision. Defined.

(** [toAPIErrorCode] for the errors of the object layer and of object locking;
    [canceled] tells whether the request's context was canceled. *)
Definition toAPIErrorCode (canceled : bool) (err : option ObjectErr) : APIErrorCode :=
  match err with
  | None => ErrNone
  | Some err =>
      if canceled then Err_ClientDisconnected
      else match err with
      | PlainErr e =>
          if bool_decide (e = errDataTooLarge) then Err_EntityTooLarge
          else if bool_decide (e = errDataTooSmall) then Err_EntityTooSmall
          else if bool_decide (e = errAuthentication) then Err_AccessDenied
          else if bool_decide (e = Canceled) || bool_decide (e = DeadlineExceeded) then Err_OperationTimedOut
          else if bool_decide (e = errDiskNotFound) then Err_SlowDown
          else if bool_decide (e = ErrInvalidRetentionDate) then Err_InvalidRetentionDate
          else if bool_decide (e = ErrPastObjectLockRetainDate) then Err_PastObjectLockRetainDate
          else if bool_decide (e = ErrUnknownWORMModeDirective) then Err_UnknownWORMModeDirective
          else if bool_decide (e = ErrObjectLockInvalidHeaders) then Err_ObjectLockInvalidHeaders
          else if bool_decide (e = ErrMalformedXML) then Err_MalformedXML
          else Err_InternalError
      | StorageFull => Err_StorageFull
      | SlowDown => Err_InternalError
      | InvalidUploadID _ _ _ => Err_NoSuchUpload
      | InvalidRangeErr _ _ _ => Err_InternalError
      | ApiErr k _ =>
          match k with
          | BucketNotFound => Err_NoSuchBucket
          | BucketNotEmpty => Err_BucketNotEmpty
          | BucketExists => Err_BucketAlreadyOwnedByYou
          | PrefixAccessDenied => Err_AccessDenied
          | ObjectExistsAsDirectory => Err_ObjectExistsAsDirectory
          | VersionNotFound => Err_NoSuchVersion
          | MethodNotAllowed => Err_MethodNotAllowed
          | ObjectNotFound => Err_NoSuchKey
          | ObjectNameInvalid => Err_InvalidObjectName
          | ObjectTooLarge => Err_EntityTooLarge
          | ObjectTooSmall => Err_EntityTooSmall
          | InsufficientReadQuorum | InsufficientWriteQuorum => Err_SlowDown
          | IncompleteBody => Err_IncompleteBody
          end
      end
  end.

(** ** The clock *)

Record Clock := mkClock {
  ck_ntpServer : string;
  ck_Now : time;
  ck_ntp : string -> result time
}.

Definition UTCNowNTP (c : Clock) : result time :=
  if bool_decide (ck_ntpServer c = "") then Ok (ck_Now c) else ck_ntp c (ck_ntpServer c).

(** ** Retention of a bucket *)

Record Retention := mkRetention {
  re_Mode : string;
  re_Validity : Z;
  re_LockEnabled : bool
}.
Definition zero_Retention : Retention := mkRetention "" 0 false.

Definition Retain (c : Clock) (r : Retention) (created : time) : bool :=
  match UTCNowNTP c with
  | Err _ => true
  | Ok t => t <? created + re_Validity r
  end.

Record DefaultRetention := mkDefault {
  dr_Mode : string;
  dr_Days : option Z;
  dr_Years : option Z
}.

Definition maximumRetentionDays : Z := 36500.
Definition maximumRetentionYears : Z := 100.

(** [DefaultRetention.UnmarshalXML] after the element is decoded. *)
Definition DefaultRetention_check (r : DefaultRetention) : result DefaultRetention :=
  let fail s := Err (Errorf 200 s) in
  if negb (RetMode_Valid (dr_Mode r)) then fail ("unknown retention mode " +:+ dr_Mode r)
  else match dr_Days r, dr_Years r with
  | None, None => fail "either Days or Years must be specified"
  | Some _, Some _ => fail "either Days or Years must be specified, not both"
  | Some days, None =>
      if days =? 0 then fail "Default retention period must be a positive integer value for 'Days'"
      else if maximumRetentionDays <? days then fail ("Default retention period too large for 'Days' " +:+ Itoa days)
      else Ok r
  | None, Some years =>
      if years =? 0 then fail "Default retention period must be a positive integer value for 'Years'"
      else if maximumRetentionYears <? years then fail ("Default retention period too large for 'Years' " +:+ Itoa years)
      else Ok r
  end.

Record Config := mkConfig {
  cf_ObjectLockEnabled : string;
  cf_Rule : option DefaultRetention
}.

(** [Config.UnmarshalXML] after the elements are decoded; the rule's own decoder
    runs first. *)
Definition Config_check (c : Config) : result Config :=
  match cf_Rule c with
  | Some r =>
      match DefaultRetention_check r with
      | Err e => Err e
      | Ok _ => if negb (bool_decide (cf_ObjectLockEnabled c = "Enabled"))
                then Err (Errorf 201 "only 'Enabled' value is allowed to ObjectLockEnabled element") else Ok c
      end
  | None => if negb (bool_decide (cf_ObjectLockEnabled c = "Enabled"))
            then Err (Errorf 201 "only 'Enabled' value is allowed to ObjectLockEnabled element") else Ok c
  end.

(** [None] is the panic when a rule has neither days nor years. *)
Definition ToRetention (c : Clock) (config : Config) : option Retention :=
  let enabled := bool_decide (cf_ObjectLockEnabled config = "Enabled") in
  match cf_Rule config with
  | None => Some (mkRetention "" 0 enabled)
  | Some r =>
      match UTCNowNTP c with
      | Err _ => Some (mkRetention (dr_Mode r) 0 enabled)
      | Ok t =>
          match dr_Days r, dr_Years r with
          | Some days, _ => Some (mkRetention (dr_Mode r) (time_Sub (AddDate t 0 days) t) enabled)
          | None, Some years => Some (mkRetention (dr_Mode r) (time_Sub (AddDate t years 0) t) enabled)
          | None, None => None
          end
      end
  end.

Definition NewObjectLockConfig : Config := mkConfig "Enabled" None.

(** ** Retention and legal hold of a version *)

Definition xmlns : string := "http://s3.amazonaws.com/doc/2006-03-01/".

Record ObjectRetention := mkORet { or_XMLNS : string; or_Mode : string; or_RetainUntilDate : time }.
Definition zero_ObjectRetention : ObjectRetention := mkORet "" "" 0.

Record ObjectLegalHold := mkHold { lh_XMLNS : string; lh_Status : string }.
Definition zero_ObjectLegalHold : ObjectLegalHold := mkHold "" "".

Definition LegalHold_IsEmpty (l : ObjectLegalHold) : bool := negb (LegalHold_Valid (lh_Status l)).

(** [ParseObjectRetention] after the document is decoded. *)
Definition ParseObjectRetention (c : Clock) (decoded : result ObjectRetention) : result ObjectRetention :=
  match decoded with
  | Err e => Err e
  | Ok ret =>
      let valid := RetMode_Valid (or_Mode ret) in
      let zero := time_IsZero (or_RetainUntilDate ret) in
      if negb (bool_decide (or_Mode ret = "")) && negb valid then Err ErrUnknownWORMModeDirective
      else if valid && zero then Err ErrMalformedXML
      else if negb valid && negb zero then Err ErrMalformedXML
      else match UTCNowNTP c with
           | Err _ => Err ErrPastObjectLockRetainDate
           | Ok t => if negb zero && (or_RetainUntilDate ret <? t) then Err ErrPastObjectLockRetainDate else Ok ret
           end
  end.

Definition ParseObjectLegalHold (decoded : result ObjectLegalHold) : result ObjectLegalHold :=
  match decoded with
  | Err e => Err e
  | Ok hold => if negb (LegalHold_Valid (lh_Status hold)) then Err ErrMalformedXML else Ok hold
  end.

Definition IsObjectLockRetentionRequested (h : Header) : bool :=
  bool_decide (is_Some (h !! AmzObjectLockMode)) || bool_decide (is_Some (h !! AmzObjectLockRetainUntilDate)).
Definition IsObjectLockLegalHoldRequested (h : Header) : bool := bool_decide (is_Some (h !! AmzObjectLockLegalHold)).
Definition IsObjectLockGovernanceBypassSet (h : Header) : bool :=
  bool_decide (fold_key (header_Get h AmzObjectLockBypassRetGovernance) = fold_key "true").
Definition IsObjectLockRequested (h : Header) : bool :=
  IsObjectLockLegalHoldRequested h || IsObjectLockRetentionRequested h.

(** The mode and the date, or the error. *)
Definition ParseObjectLockRetentionHeaders (c : Clock) (h : Header) : result (string * time) :=
  let retMode := header_Get h AmzObjectLockMode in
  let dateStr := header_Get h AmzObjectLockRetainUntilDate in
  if bool_decide (retMode = "") || bool_decide (dateStr = "") then Err ErrObjectLockInvalidHeaders
  else
    let rmode := parseRetMode retMode in
    if negb (RetMode_Valid rmode) then Err ErrUnknownWORMModeDirective
    else match Parse_RFC3339 dateStr with
         | Err _ => Err ErrInvalidRetentionDate
         | Ok retDate =>
             match UTCNowNTP c with
             | Err _ => Err ErrPastObjectLockRetainDate
             | Ok t => if retDate <? t then Err ErrPastObjectLockRetainDate else Ok (rmode, retDate)
             end
         end.

Definition ParseObjectLockLegalHoldHeaders (h : Header) : result ObjectLegalHold :=
  match h !! AmzObjectLockLegalHold with
  | Some (holdStatus, _) =>
      let lh := parseLegalHoldStatus holdStatus in
      if negb (LegalHold_Valid lh) then Err ErrUnknownWORMModeDirective else Ok (mkHold xmlns lh)
  | None => Ok zero_ObjectLegalHold
  end.

(** A key in lower case, or else in its canonical case. *)
Definition meta_either (meta : gmap string string) (lower key : string) : option string :=
  match meta !! lower with Some v => Some v | None => meta !! key end.

Definition GetObjectRetentionMeta (meta : gmap string string) : ObjectRetention :=
  match meta_either meta lower_Mode AmzObjectLockMode with
  | None => zero_ObjectRetention
  | Some modeStr =>
      let retainTill := match meta_either meta lower_RetainUntilDate AmzObjectLockRetainUntilDate with
                        | Some tillStr => match Parse_RFC3339 tillStr with Ok t => t | Err _ => 0 end
                        | None => 0
                        end in
      mkORet xmlns (parseRetMode modeStr) retainTill
  end.

Definition GetObjectLegalHoldMeta (meta : gmap string string) : ObjectLegalHold :=
  match meta_either meta lower_LegalHold AmzObjectLockLegalHold with
  | Some holdStr => mkHold xmlns (parseLegalHoldStatus holdStr)
  | None => zero_ObjectLegalHold
  end.

(** The map is copied before a key is deleted, so the argument does not change. *)
Definition FilterObjectLockMetadata (metadata : gmap string string) (filterRetention filterLegalHold : bool) : gmap string string :=
  let legalHold := GetObjectLegalHoldMeta metadata in
  let dst := if negb (LegalHold_Valid (lh_Status legalHold)) || filterLegalHold
             then delete AmzObjectLockLegalHold metadata else metadata in
  let ret := GetObjectRetentionMeta metadata in
  if negb (RetMode_Valid (or_Mode ret)) || filterRetention
  then delete AmzObjectLockRetainUntilDate (delete AmzObjectLockMode dst) else dst.

(** ** Enforcement *)

(** The lookup of the bucket's configuration: [BucketObjectLockConfigNotFound], an
    error, or the configuration. *)
Inductive config_lookup := ConfigNotFound | ConfigErr (e : error) | ConfigFound (c : Config).

(** [None] is a panic. *)
Definition ObjectLockSys_Get (c : Clock) (globalIsGateway objectLayer : bool) (found : config_lookup) : option (result Retention) :=
  if globalIsGateway then Some (if objectLayer then Ok zero_Retention else Err errServerNotInitialized)
  else match found with
       | ConfigNotFound => Some (Ok zero_Retention)
       | ConfigErr e => Some (Err e)
       | ConfigFound config => Ok <$> ToRetention c config
       end.

Definition on_hold (meta : gmap string string) : bool :=
  let lhold := GetObjectLegalHoldMeta meta in
  LegalHold_Valid (lh_Status lhold) && bool_decide (lh_Status lhold = LegalHoldOn).

Definition enforceRetentionForDeletion (c : Clock) (objInfo : ObjectInfo) : bool :=
  if oi_DeleteMarker objInfo then false
  else if on_hold (oi_UserDefined objInfo) then true
  else
    let ret := GetObjectRetentionMeta (oi_UserDefined objInfo) in
    if RetMode_Valid (or_Mode ret) &&
       (bool_decide (or_Mode ret = RetCompliance) || bool_decide (or_Mode ret = RetGovernance)) then
      match UTCNowNTP c with
      | Err _ => true
      | Ok t => t <? or_RetainUntilDate ret
      end
    else false.

(** [locked]: the retention date has not passed, or the time is unknown. *)
Definition before_date (c : Clock) (date : time) : APIErrorCode :=
  match UTCNowNTP c with
  | Err _ => Err_ObjectLocked
  | Ok t => if negb (date <? t) then Err_ObjectLocked else ErrNone
  end.

Definition BypassGovernanceRetentionAction : string := "s3:BypassGovernanceRetention".
Definition GetBucketObjectLockConfigurationAction : string := "s3:GetBucketObjectLockConfiguration".
Definition PutObjectRetentionAction : string := "s3:PutObjectRetention".

(** [optsErr] is the error of [getOpts], [gerr] that of [GetObjectInfo], and
    [checkRequestAuthType] the decision on an action. *)
Definition enforceRetentionBypassForDelete (c : Clock) (canceled : bool) (h : Header)
    (checkRequestAuthType : string -> APIErrorCode) (optsErr : option ObjectErr)
    (oi : ObjectInfo) (gerr : option ObjectErr) : APIErrorCode :=
  match optsErr with
  | Some e => toAPIErrorCode canceled (Some e)
  | None =>
      match gerr with
      | Some e =>
          match e with
          | ApiErr MethodNotAllowed _ =>
              if oi_DeleteMarker oi || negb (bool_decide (oi_VersionPurgeStatus oi = "")) then ErrNone
              else toAPIErrorCode canceled (Some e)
          | ApiErr ObjectNotFound _ | ApiErr VersionNotFound _ => ErrNone
          | _ => toAPIErrorCode canceled (Some e)
          end
      | None =>
          if on_hold (oi_UserDefined oi) then Err_ObjectLocked
          else
            let ret := GetObjectRetentionMeta (oi_UserDefined oi) in
            if RetMode_Valid (or_Mode ret) then
              if bool_decide (or_Mode ret = RetCompliance) then before_date c (or_RetainUntilDate ret)
              else if bool_decide (or_Mode ret = RetGovernance) then
                if negb (IsObjectLockGovernanceBypassSet h) then before_date c (or_RetainUntilDate ret)
                else if negb (bool_decide (checkRequestAuthType BypassGovernanceRetentionAction = ErrNone)) &&
                        negb (bool_decide (checkRequestAuthType GetBucketObjectLockConfigurationAction = ErrNone))
                then Err_AccessDenied else ErrNone
              else ErrNone
            else ErrNone
      end
  end.

Section PutRetention.
(** [IsAllowed action mode date days] is the decision of the identity system with
    the conditions of the request; [relative_days] the number of days of a duration,
    computed in floating point. *)
Context (accessKey : string) (IsAllowed : string -> string -> time -> Z -> bool) (relative_days : Z -> Z).

Definition isPutRetentionAllowed (retDays : Z) (retDate : time) (retMode : string) (byPassSet : bool) : APIErrorCode :=
  if bool_decide (accessKey = "") then Err_AccessDenied
  else
    let byPassSet := if bool_decide (retMode = RetGovernance) && byPassSet
                     then IsAllowed BypassGovernanceRetentionAction retMode retDate retDays else byPassSet in
    let retSet := IsAllowed PutObjectRetentionAction retMode retDate retDays in
    if byPassSet || retSet then ErrNone else Err_AccessDenied.

(** [None] is success. *)
Definition enforceRetentionBypassForPut (c : Clock) (h : Header) (oi : ObjectInfo) (objRetention : ObjectRetention) : option error :=
  let byPassSet := IsObjectLockGovernanceBypassSet h in
  let locked := Some (ErrNew "Object is WORM protected and cannot be overwritten") in
  match UTCNowNTP c with
  | Err _ => locked
  | Ok t =>
      let days := relative_days (time_Sub (or_RetainUntilDate objRetention) t) in
      let allowed byPassSet := match isPutRetentionAllowed days (or_RetainUntilDate objRetention) (or_Mode objRetention) byPassSet with
                               | Err_AccessDenied => Some errAuthentication
                               | _ => None
                               end in
      let ret := GetObjectRetentionMeta (oi_UserDefined oi) in
      if RetMode_Valid (or_Mode ret) then
        if or_RetainUntilDate ret <? t then allowed byPassSet
        else if bool_decide (or_Mode ret = RetGovernance) then
          if negb byPassSet &&
             (negb (bool_decide (or_Mode objRetention = RetGovernance)) || (or_RetainUntilDate objRetention <? or_RetainUntilDate ret))
          then locked else allowed byPassSet
        else if bool_decide (or_Mode ret = RetCompliance) then
          if negb (bool_decide (or_Mode objRetention = RetCompliance)) || (or_RetainUntilDate objRetention <? or_RetainUntilDate ret)
          then locked else allowed false
        else None
      else allowed byPassSet
  end.

Definition ObjectLockRetentionTimestampKey : string := reserved "objectlock-retention-timestamp".
Definition ObjectLockLegalHoldTimestampKey : string := reserved "objectlock-legalhold-timestamp".

(** The metadata [PutObjectRetentionHandler] writes, [now] being the time stamp;
    the replication entries are left out. *)
Definition put_retention (c : Clock) (h : Header) (oi : ObjectInfo) (objRetention : ObjectRetention) (now : string) : result (gmap string string) :=
  match enforceRetentionBypassForPut c h oi objRetention with
  | Some e => Err e
  | None =>
      let ud := oi_UserDefined oi in
      let ud := if RetMode_Valid (or_Mode objRetention)
                then <[lower_RetainUntilDate := Format_RFC3339 (or_RetainUntilDate objRetention)]> (<[lower_Mode := or_Mode objRetention]> ud)
                else <[lower_RetainUntilDate := ""]> (<[lower_Mode := ""]> ud) in
      Ok (<[ObjectLockRetentionTimestampKey := now]> ud)
  end.
End PutRetention.

(** The metadata [PutObjectLegalHoldHandler] writes. *)
Definition put_legal_hold (meta : gmap string string) (hold : ObjectLegalHold) (now : string) : gmap string string :=
  <[ObjectLockLegalHoldTimestampKey := now]> (<[lower_LegalHold := ToUpper (lh_Status hold)]> meta).

(** [cfg] is the bucket's retention, [opts] the result of [getOpts] (its version
    identifier), [info] what [getObjectInfoFn] returns. *)
Definition checkPutObjectLockAllowed (c : Clock) (canceled : bool) (h : Header) (cfg : result Retention)
    (opts : ObjectErr + string) (info : ObjectErr + ObjectInfo)
    (retentionPermErr legalHoldPermErr : APIErrorCode) : string * time * ObjectLegalHold * APIErrorCode :=
  let fail code := ("", 0, zero_ObjectLegalHold, code) in
  let retentionRequested := IsObjectLockRetentionRequested h in
  let legalHoldRequested := IsObjectLockLegalHoldRequested h in
  match cfg with
  | Err _ => fail Err_InvalidBucketObjectLockConfiguration
  | Ok retentionCfg =>
  if negb (re_LockEnabled retentionCfg) then
    fail (if legalHoldRequested || retentionRequested then Err_InvalidBucketObjectLockConfiguration else ErrNone)
  else match opts with
  | inl e => fail (toAPIErrorCode canceled (Some e))
  | inr versionID =>
  let replica := bool_decide (header_Get h AmzBucketReplicationStatus = "REPLICA") in
  (** the settings of the version that is overwritten, or the early return *)
  let existing : (string * time * ObjectLegalHold * APIErrorCode) + (string * time * ObjectLegalHold) :=
    if negb (bool_decide (versionID = "")) && negb replica then
      match info with
      | inl _ => inr ("", 0, zero_ObjectLegalHold)
      | inr objInfo =>
          let r := GetObjectRetentionMeta (oi_UserDefined objInfo) in
          match UTCNowNTP c with
          | Err _ => inl (fail Err_ObjectLocked)
          | Ok t =>
              if bool_decide (or_Mode r = RetCompliance) && (t <? or_RetainUntilDate r) then inl (fail Err_ObjectLocked)
              else
                let legalHold := GetObjectLegalHoldMeta (oi_UserDefined objInfo) in
                if bool_decide (lh_Status legalHold = LegalHoldOn)
                then inl (or_Mode r, or_RetainUntilDate r, legalHold, Err_ObjectLocked)
                else inr (or_Mode r, or_RetainUntilDate r, legalHold)
          end
      end
    else inr ("", 0, zero_ObjectLegalHold) in
  match existing with
  | inl r => r
  | inr (mode, retainDate, legalHold) =>
  (** the error of [getOpts], which is nil here, is returned instead of the error of the header *)
  match (if legalHoldRequested then ParseObjectLockLegalHoldHeaders h else Ok legalHold) with
  | Err _ => (mode, retainDate, zero_ObjectLegalHold, toAPIErrorCode canceled None)
  | Ok legalHold =>
  if retentionRequested then
    match ParseObjectLockLegalHoldHeaders h with
    | Err e => (mode, retainDate, zero_ObjectLegalHold, toAPIErrorCode canceled (Some (PlainErr e)))
    | Ok legalHold =>
        match ParseObjectLockRetentionHeaders c h with
        | Err e => (mode, retainDate, legalHold, toAPIErrorCode canceled (Some (PlainErr e)))
        | Ok (rMode, rDate) =>
            if negb (bool_decide (retentionPermErr = ErrNone)) then (mode, retainDate, legalHold, retentionPermErr)
            else (rMode, rDate, legalHold, ErrNone)
        end
    end
  else if replica then ("", 0, legalHold, ErrNone)
  else if 0 <? re_Validity retentionCfg then
    if negb (bool_decide (retentionPermErr = ErrNone)) then (mode, retainDate, legalHold, retentionPermErr)
    else match UTCNowNTP c with
         | Err _ => (mode, retainDate, legalHold, Err_ObjectLocked)
         | Ok t =>
             if negb legalHoldRequested && re_LockEnabled retentionCfg
             then (re_Mode retentionCfg, t + re_Validity retentionCfg, legalHold, ErrNone)
             else ("", 0, legalHold, ErrNone)
         end
  else (mode, retainDate, legalHold, ErrNone)
  end
  end
  end
  end.

(** The metadata [PutObjectHandler] writes, or the error it answers with. *)
Definition put_lock_metadata (metadata : gmap string string) (checked : string * time * ObjectLegalHold * APIErrorCode) :
    APIErrorCode + gmap string string :=
  let '(retentionMode, retentionDate, legalHold, s3Err) := checked in
  if negb (bool_decide (s3Err = ErrNone)) then inl s3Err
  else
    let metadata := if RetMode_Valid retentionMode
                    then <[lower_RetainUntilDate := Format_iso8601 retentionDate]> (<[lower_Mode := retentionMode]> metadata)
                    else metadata in
    inr (if LegalHold_Valid (lh_Status legalHold) then <[lower_LegalHold := lh_Status legalHold]> metadata else metadata).

(** ** Facts *)

Lemma meta_either_lower meta lower key v : meta !! lower = Some v -> meta_either meta lower key = Some v.
Proof. intros E. unfold meta_either. by rewrite E. Qed.

Lemma retention_meta_of meta mode s : meta !! lower_Mode = Some mode -> meta !! lower_RetainUntilDate = Some s ->
  GetObjectRetentionMeta meta = mkORet xmlns (parseRetMode mode) (match Parse_RFC3339 s with Ok t => t | Err _ => 0 end).
Proof.
  intros Hm Hs. unfold GetObjectRetentionMeta. by rewrite (meta_either_lower _ _ _ _ Hm), (meta_either_lower _ _ _ _ Hs).
Qed.

(** Two metadata maps with the same lock entries have the same settings. *)
Lemma retention_meta_ext m1 m2 :
  (forall k, k ∈ [lower_Mode; AmzObjectLockMode; lower_RetainUntilDate; AmzObjectLockRetainUntilDate] -> m1 !! k = m2 !! k) ->
  GetObjectRetentionMeta m1 = GetObjectRetentionMeta m2.
Proof.
  intros Hk. unfold GetObjectRetentionMeta, meta_either. rewrite !Hk by set_solver. done.
Qed.

(** The retention that [put_retention] stored is read back, in whole seconds. *)
Lemma retention_meta_put ud mode date now : RetMode_Valid mode = true -> 0 <= date < year_10000 ->
  GetObjectRetentionMeta (<[ObjectLockRetentionTimestampKey := now]>
    (<[lower_RetainUntilDate := Format_RFC3339 date]> (<[lower_Mode := mode]> ud))) =
  mkORet xmlns mode (date - date mod second).
Proof.
  intros Hv Hd. rewrite (retention_meta_of _ mode (Format_RFC3339 date)).
  - rewrite (proj1 (proj1 (rfc3339_roundtrip date ltac:(lia)) ltac:(lia))).
    f_equal. unfold RetMode_Valid in Hv. apply orb_true_iff in Hv as [Hv|Hv]; apply bool_decide_eq_true in Hv as ->; reflexivity.
  - rewrite (lookup_insert_ne _ ObjectLockRetentionTimestampKey) by done.
    rewrite (lookup_insert_ne _ lower_RetainUntilDate) by done. apply lookup_insert_eq.
  - rewrite (lookup_insert_ne _ ObjectLockRetentionTimestampKey) by done. apply lookup_insert_eq.
Qed.

(** ** Write once, read many *)

(** Requests on a version before [T]: changes of its retention, by anyone with any
    header and policy, and of its legal hold.  The requested dates have years of
    four digits. *)
Inductive lock_run (T : time) : gmap string string -> gmap string string -> Prop :=
| lock_refl md : lock_run T md md
| lock_retention key allowed days c h oi ret now t md1 md2 :
    UTCNowNTP c = Ok t -> t <= T -> 0 <= or_RetainUntilDate ret < year_10000 ->
    put_retention key allowed days c h oi ret now = Ok md1 ->
    lock_run T md1 md2 -> lock_run T (oi_UserDefined oi) md2
| lock_hold hold now md md2 :
    lock_run T (put_legal_hold md hold now) md2 -> lock_run T md md2.

Definition in_compliance (T : time) (md : gmap string string) : Prop :=
  or_Mode (GetObjectRetentionMeta md) = RetCompliance /\ T <= or_RetainUntilDate (GetObjectRetentionMeta md).

Lemma put_retention_compliance T key allowed days c h oi ret now t md1 :
  T mod second = 0 -> in_compliance T (oi_UserDefined oi) -> UTCNowNTP c = Ok t -> t <= T ->
  0 <= or_RetainUntilDate ret < year_10000 ->
  put_retention key allowed days c h oi ret now = Ok md1 -> in_compliance T md1.
Proof.
  intros HT [Hm Hd] Hc Ht Hr. unfold put_retention, enforceRetentionBypassForPut. rewrite Hc, Hm. cbv zeta.
  change (RetMode_Valid RetCompliance) with true. cbv iota. destruct (Z.ltb_spec (or_RetainUntilDate (GetObjectRetentionMeta (oi_UserDefined oi))) t); [lia|].
  change (bool_decide (RetCompliance = RetGovernance)) with false. change (bool_decide (RetCompliance = RetCompliance)) with true. cbv iota.
  destruct (bool_decide_reflect (or_Mode ret = RetCompliance)) as [Em|]; cbn [negb orb]; [|done].
  destruct (Z.ltb_spec (or_RetainUntilDate ret) (or_RetainUntilDate (GetObjectRetentionMeta (oi_UserDefined oi)))) as [|Hge]; [done|].
  destruct (isPutRetentionAllowed _ _ _ _ _ _); try done; rewrite Em; change (RetMode_Valid RetCompliance) with true; cbv iota;
    intros [= <-]; unfold in_compliance; rewrite retention_meta_put by done; (split; [done|]); cbn [or_RetainUntilDate];
    (assert (second = 1000000000) as Hs by reflexivity); rewrite Hs in *; clear - HT Hd Hge; Z.to_euclidean_division_equations; lia.
Qed.

Lemma put_hold_compliance T md hold now : in_compliance T md -> in_compliance T (put_legal_hold md hold now).
Proof.
  unfold in_compliance. intros Hc. rewrite (retention_meta_ext _ md); [done|].
  intros k Hk. unfold put_legal_hold. rewrite !lookup_insert_ne; [done|..]; intros <-; repeat (apply elem_of_cons in Hk as [Hk|Hk]; [done|]); by apply elem_of_nil in Hk.
Qed.

Lemma lock_run_compliance T md md' : T mod second = 0 -> lock_run T md md' -> in_compliance T md -> in_compliance T md'.
Proof.
  intros HT. induction 1 as [|key allowed days c h oi ret now t md1 md2 Hc Ht Hr Hp _ IH|hold now md md2 _ IH]; intros Hi.
  - done.
  - apply IH. by eapply put_retention_compliance.
  - apply IH. by apply put_hold_compliance.
Qed.

(** What every clock up to [T] says, an unreachable NTP server included. *)
Definition not_after (c : Clock) (T : time) : Prop := forall t, UTCNowNTP c = Ok t -> t <= T.

Lemma before_date_locked c T date : not_after c T -> T <= date -> before_date c date = Err_ObjectLocked.
Proof.
  intros Hc Hd. unfold before_date. destruct (UTCNowNTP c) as [t|e] eqn:E; [|done]. specialize (Hc t E).
  by destruct (Z.ltb_spec date t); [lia|].
Qed.



(** ** The default retention of a bucket *)

(** The least number of days a default retention lasts. *)
Definition least_days (r : DefaultRetention) : Z :=
  match dr_Days r, dr_Years r with
  | Some days, _ => days
  | None, Some years => 365 * years
  | None, None => 0
  end.

Lemma Config_check_rule config r : Config_check config = Ok config -> cf_Rule config = Some r ->
  cf_ObjectLockEnabled config = "Enabled" /\ DefaultRetention_check r = Ok r.
Proof.
  unfold Config_check. intros Hc Hr. rewrite Hr in Hc. destruct (DefaultRetention_check r) as [r'|] eqn:E; [|done].
  destruct (bool_decide_reflect (cf_ObjectLockEnabled config = "Enabled")); [|done]. split; [done|].
  rewrite <-E. unfold DefaultRetention_check in *. repeat case_match; simplify_eq; done.
Qed.

(** The validity of an accepted configuration, with days and years of any calendar. *)
Lemma ToRetention_valid c t config r : Config_check config = Ok config -> cf_Rule config = Some r -> UTCNowNTP c = Ok t ->
  (forall d, dr_Days r = Some d -> 0 <= d) -> (forall y, dr_Years r = Some y -> 0 <= y) ->
  exists re, ToRetention c config = Some re /\ re_LockEnabled re = true /\ re_Mode re = dr_Mode r /\
    RetMode_Valid (dr_Mode r) = true /\ 0 < least_days r /\ least_days r * day_ns <= re_Validity re <= 36600 * day_ns.
Proof.
  intros Hc Hr Ht Hd Hy. destruct (Config_check_rule config r Hc Hr) as [He Hk]. unfold ToRetention. rewrite Hr, Ht, He.
  unfold DefaultRetention_check, maximumRetentionDays, maximumRetentionYears in Hk. cbv zeta in Hk.
  destruct (RetMode_Valid (dr_Mode r)) eqn:Em; [|done]. assert (day_ns = 86400000000000) as Hday by reflexivity. unfold least_days.
  destruct (dr_Days r) as [days|], (dr_Years r) as [years|]; cbn [negb] in Hk; try discriminate Hk.
  - specialize (Hd days eq_refl). destruct (Z.eqb_spec days 0); [discriminate Hk|]. destruct (Z.ltb_spec 36500 days); [discriminate Hk|].
    eexists. repeat split; [lia|..]; cbn [re_Validity]; unfold time_Sub; rewrite AddDate_days, Hday; lia.
  - specialize (Hy years eq_refl). destruct (Z.eqb_spec years 0); [discriminate Hk|]. destruct (Z.ltb_spec 100 years); [discriminate Hk|].
    pose proof (AddDate_years t years Hy). eexists. repeat split; [lia|..]; cbn [re_Validity]; unfold time_Sub; rewrite Hday in *; lia.
Qed.

(** The lock entries that [put_lock_metadata] stored are read back, in whole
    milliseconds. *)
Lemma retention_meta_new md mode date hold md' : RetMode_Valid mode = true -> 0 <= date < year_10000 ->
  put_lock_metadata md (mode, date, hold, ErrNone) = inr md' ->
  GetObjectRetentionMeta md' = mkORet xmlns mode (date - date mod 1000000).
Proof.
  intros Hv Hd. unfold put_lock_metadata. rewrite bool_decide_eq_true_2 by done. rewrite Hv. cbn [negb]. intros [= <-].
  assert (forall m : gmap string string, GetObjectRetentionMeta (if LegalHold_Valid (lh_Status hold) then <[lower_LegalHold := lh_Status hold]> m else m) =
    GetObjectRetentionMeta m) as ->.
  { intros m. destruct (LegalHold_Valid _); [|done]. apply retention_meta_ext. intros k Hk. rewrite lookup_insert_ne; [done|].
    intros <-. repeat (apply elem_of_cons in Hk as [Hk|Hk]; [done|]). by apply elem_of_nil in Hk. }
  rewrite (retention_meta_of _ mode (Format_iso8601 date)).
  - rewrite (proj2 (proj1 (rfc3339_roundtrip date ltac:(lia)) ltac:(lia))).
    f_equal. unfold RetMode_Valid in Hv. apply orb_true_iff in Hv as [Hv|Hv]; apply bool_decide_eq_true in Hv as ->; reflexivity.
  - rewrite (lookup_insert_ne _ lower_RetainUntilDate) by done. apply lookup_insert_eq.
  - apply lookup_insert_eq.
Qed.

(** The default retention of a bucket protects what is written.  When a bucket's
    accepted lock configuration has a default retention, an object written without
    lock headers is stored with its mode and a date at least that many days (365 for
    a year) ahead, to the millisecond, the stored settings read back as such, and up
    to that date requests without the bypass cannot delete the version, nor does the
    lifecycle. *)
Theorem default_retention_protects c t config r canceled h info legalHoldPermErr metadata :
  UTCNowNTP c = Ok t -> 0 <= t < year_10000 - 36600 * day_ns ->
  Config_check config = Ok config -> cf_Rule config = Some r ->
  (forall d, dr_Days r = Some d -> 0 <= d) -> (forall y, dr_Years r = Some y -> 0 <= y) ->
  IsObjectLockRequested h = false -> header_Get h AmzBucketReplicationStatus <> "REPLICA" ->
  exists re md, ToRetention c config = Some re /\
    put_lock_metadata metadata (checkPutObjectLockAllowed c canceled h (Ok re) (inr "") info ErrNone legalHoldPermErr) = inr md /\
    or_Mode (GetObjectRetentionMeta md) = dr_Mode r /\
    t + least_days r * day_ns - 1000000 < or_RetainUntilDate (GetObjectRetentionMeta md) /\
    forall c' t' h' auth oi, UTCNowNTP c' = Ok t' -> t' <= t + least_days r * day_ns - 1000000 ->
      oi_UserDefined oi = md -> IsObjectLockGovernanceBypassSet h' = false -> oi_DeleteMarker oi = false ->
      enforceRetentionBypassForDelete c' canceled h' auth None oi None = Err_ObjectLocked /\
      enforceRetentionForDeletion c' oi = true.
Proof.
  intros Hc Ht Hcfg Hr Hd Hy Hh Hrep.
  destruct (ToRetention_valid c t config r Hcfg Hr Hc Hd Hy) as (re & Hre & Hl & Hm & Hv & Hpos & Hval).
  assert (day_ns = 86400000000000) as Hday by reflexivity.
  assert (checkPutObjectLockAllowed c canceled h (Ok re) (inr "") info ErrNone legalHoldPermErr =
    (dr_Mode r, t + re_Validity re, zero_ObjectLegalHold, ErrNone)) as Hput.
  { unfold IsObjectLockRequested in Hh. apply orb_false_iff in Hh as [H1 H2]. unfold checkPutObjectLockAllowed.
    rewrite H1, H2, Hl, Hm, Hc, (bool_decide_eq_false_2 _ Hrep). cbv zeta.
    destruct (Z.ltb_spec 0 (re_Validity re)); [done|rewrite Hday in *; lia]. }
  destruct (put_lock_metadata metadata (dr_Mode r, t + re_Validity re, zero_ObjectLegalHold, ErrNone)) as [e|md] eqn:Ep.
  { unfold put_lock_metadata in Ep. by rewrite bool_decide_eq_true_2 in Ep by done. }
  exists re, md. rewrite Hput. split; [done|]. split; [exact Ep|].
  pose proof (retention_meta_new metadata _ (t + re_Validity re) _ md Hv ltac:(unfold year_10000 in *; rewrite Hday in *; lia) Ep) as Hg.
  assert (t + least_days r * day_ns - 1000000 < t + re_Validity re - (t + re_Validity re) mod 1000000) as Hlate.
  { pose proof (Z.mod_pos_bound (t + re_Validity re) 1000000 ltac:(lia)). lia. }
  rewrite Hg. cbn [or_Mode or_RetainUntilDate]. split; [done|]. split; [done|].
  intros c' t' h' auth oi Hc' Ht' Hu Hby Hdm. unfold enforceRetentionBypassForDelete, enforceRetentionForDeletion. rewrite Hu, Hdm, Hby.
  clear Hcfg Hr Hput Ep Hc. destruct (on_hold md); [done|]. cbv zeta. rewrite Hg. cbn [or_Mode or_RetainUntilDate negb]. rewrite Hv.
  assert (before_date c' (t + re_Validity re - (t + re_Validity re) mod 1000000) = Err_ObjectLocked) as ->.
  { apply (before_date_locked _ t'); [|lia]. intros t0 Ht0. rewrite Hc' in Ht0. injection Ht0 as <-. lia. }
  rewrite Hc'. unfold RetMode_Valid in Hv. rewrite orb_comm in Hv. rewrite Hv. cbn [andb]. apply orb_true_iff in Hv.
  split; [|lia]. destruct (bool_decide (dr_Mode r = RetCompliance)); [done|]. destruct Hv as [?|Hv]; [done|]. by rewrite Hv.
Qed.

(** ** Faults *)

Definition with_meta (md : gmap string string) : ObjectInfo :=
  mkObjectInfo "b" "o" 1 1 false "" "v1" true false zero_TransitionedObject 0 false "" "" 0 "" "" "" md "" [] false "" "" 1 0.
Definition wall (t : time) : Clock := mkClock "" t (fun _ => Err errParse).
Definition lock_entries (mode date : string) : gmap string string := {[lower_Mode := mode; lower_RetainUntilDate := date]}.
Definition bypass_header : Header := {[AmzObjectLockBypassRetGovernance := ("true", [])]}.
Definition hold_header (s : string) : Header := {[AmzObjectLockLegalHold := (s, [])]}.
Definition bad_hold_header : Header :=
  {[AmzObjectLockLegalHold := ("YES", []); AmzObjectLockMode := ("COMPLIANCE", []);
    AmzObjectLockRetainUntilDate := ("2030-01-01T00:00:00Z", [])]}.

(** Times of 2022 and of 2029, and the retention date asked for in the last year of
    four digits west of Greenwich. *)
Definition in_2022 : time := unix_epoch + 1650000000 * second.
Definition in_2029 : time := unix_epoch + 1880000000 * second.
Definition far_date : time := match Parse_RFC3339 "9999-12-31T23:59:59-12:00" with Ok t => t | Err _ => 0 end.

(** Requests that defeat a lock.  With the bypass header, a user with no
    permission at all removes the governance retention of a version by asking for no
    retention.  A compliance retention extended to December 31, 9999 in a zone west
    of Greenwich is stored with a year of five digits and no longer read: the version
    can be deleted at once.  A request with a malformed legal hold header is accepted
    without its compliance retention; one with a legal hold header, even to switch it
    off and without the permission for it, is stored without the bucket's default
    retention.  The filter that hides lock metadata leaves the keys the server
    writes. *)
Theorem object_lock_faults :
  (let md := lock_entries RetGovernance "2030-01-01T00:00:00Z" in
   ParseObjectRetention (wall in_2022) (Ok zero_ObjectRetention) = Ok zero_ObjectRetention /\
   enforceRetentionBypassForDelete (wall in_2022) false ∅ (fun _ => Err_AccessDenied) None (with_meta md) None = Err_ObjectLocked /\
   match put_retention "user" (fun _ _ _ _ => false) (fun d => d) (wall in_2022) bypass_header (with_meta md) zero_ObjectRetention "now" with
   | Ok md' => enforceRetentionBypassForDelete (wall in_2022) false ∅ (fun _ => Err_AccessDenied) None (with_meta md') None = ErrNone
   | Err _ => False
   end) /\
  (let md := lock_entries RetCompliance "2030-01-01T00:00:00Z" in
   let ret := mkORet xmlns RetCompliance far_date in
   ParseObjectRetention (wall in_2022) (Ok ret) = Ok ret /\
   enforceRetentionBypassForDelete (wall in_2029) false ∅ (fun _ => Err_AccessDenied) None (with_meta md) None = Err_ObjectLocked /\
   match put_retention "user" (fun a _ _ _ => bool_decide (a = PutObjectRetentionAction)) (fun d => d) (wall in_2022) ∅ (with_meta md) ret "now" with
   | Ok md' => enforceRetentionBypassForDelete (wall in_2022) false ∅ (fun _ => Err_AccessDenied) None (with_meta md') None = ErrNone
   | Err _ => False
   end) /\
  checkPutObjectLockAllowed (wall in_2022) false bad_hold_header (Ok (mkRetention RetCompliance day_ns true)) (inr "")
    (inl StorageFull) ErrNone ErrNone = ("", 0, zero_ObjectLegalHold, ErrNone) /\
  checkPutObjectLockAllowed (wall in_2022) false (hold_header "OFF") (Ok (mkRetention RetCompliance day_ns true)) (inr "")
    (inl StorageFull) ErrNone Err_AccessDenied = ("", 0, mkHold xmlns LegalHoldOff, ErrNone) /\
  (let md := lock_entries RetCompliance "2030-01-01T00:00:00Z" in FilterObjectLockMetadata md true true = md).
Proof.
  split; [split; [|split]; vm_compute; reflexivity|].
  split; [split; [|split]; vm_compute; reflexivity|].
  split; [vm_compute; reflexivity|]. split; vm_compute; reflexivity.
Qed.

(** *** Witnesses *)


Lemma default_retention_protects_witness :
  exists re md, ToRetention (wall in_2022) (mkConfig "Enabled" (Some (mkDefault RetCompliance (Some 30) None))) = Some re /\
    put_lock_metadata ∅ (checkPutObjectLockAllowed (wall in_2022) false ∅ (Ok re) (inr "") (inl StorageFull) ErrNone ErrNone) = inr md /\
    enforceRetentionForDeletion (wall (in_2022 + 29 * day_ns)) (with_meta md) = true.
Proof.
  destruct (default_retention_protects (wall in_2022) in_2022 (mkConfig "Enabled" (Some (mkDefault RetCompliance (Some 30) None)))
    (mkDefault RetCompliance (Some 30) None) false ∅ (inl StorageFull) ErrNone ∅) as (re & md & H1 & H2 & _ & _ & H3).
  - vm_compute. reflexivity.
  - split; vm_compute; [discriminate|reflexivity].
  - reflexivity.
  - reflexivity.
  - intros d [= <-]. vm_compute. discriminate.
  - intros y Hy. discriminate Hy.
  - vm_compute. reflexivity.
  - vm_compute. discriminate.
  - exists re, md. split; [exact H1|]. split; [exact H2|].
    apply (H3 (wall (in_2022 + 29 * day_ns)) (in_2022 + 29 * day_ns) ∅ (fun _ => ErrNone) (with_meta md)); try reflexivity.
    vm_compute. discriminate.
Defined.
