(* ===== verification/Scanner.v ===== *)
(** * The scanner's lifecycle actions ([cmd/data-scanner.go])

    The scanner evaluates the lifecycle of a bucket on every version it meets,
    leaves locked versions alone, removes noncurrent versions beyond the configured
    number, and queues expiries and transitions.  This file models
    [evalActionFromLifecycle], [applyLifecycle] and
    [applyNewerNoncurrentVersionLimit] over the lifecycle of [Lifecycle.v] and the
    locks of [ObjectLock.v].  The queues are the tasks returned.  The clock's
    readings in one evaluation are one instant. *)

From S2P Require Import Prelude Erasure FileInfo Quorum Restore XLMeta ObjectRead ObjectMeta Calendar Lifecycle ObjectLock.

(** ** Evaluation *)

Definition ToLifecycleOpts (oi : ObjectInfo) : ObjectOpts :=
  {| oo_Name := oi_Name oi;
     oo_UserTags := oi_UserTags oi;
     oo_ModTime := oi_ModTime oi;
     oo_VersionID := oi_VersionID oi;
     oo_IsLatest := oi_IsLatest oi;
     oo_DeleteMarker := oi_DeleteMarker oi;
     oo_NumVersions := oi_NumVersions oi;
     oo_SuccessorModTime := oi_SuccessorModTime oi;
     oo_TransitionStatus := tr_Status (oi_TransitionedObject oi);
     oo_RestoreOngoing := oi_RestoreOngoing oi;
     oo_RestoreExpires := oi_RestoreExpires oi |}.

Section Scanner.
Context `{MapOrder} `{ObjectTags} `{HttpTime}.

Definition evalActionFromLifecycle (c : Clock) (lc : Lifecycle) (lr : Retention) (obj : ObjectInfo) : Action :=
  let action := ComputeAction (ck_Now c) lc (ToLifecycleOpts obj) in
  match action with
  | DeleteVersionAction | DeleteRestoredVersionAction =>
      if bool_decide (oi_VersionID obj = "") then NoneAction
      else if re_LockEnabled lr && enforceRetentionForDeletion c obj then NoneAction
      else action
  | _ => action
  end.

(** What is put on the queues of the expiry and transition workers. *)
Inductive queued :=
| ExpiryTask (obj : ObjectInfo) (restoredObject applyOnVersion : bool)
| TransitionTask (obj : ObjectInfo).

Definition applyTransitionRule (obj : ObjectInfo) : bool * list queued :=
  if oi_DeleteMarker obj then (false, []) else (true, [TransitionTask obj]).

Definition applyExpiryRule (obj : ObjectInfo) (restoredObject applyOnVersion : bool) : bool * list queued :=
  (true, [ExpiryTask obj restoredObject applyOnVersion]).

Definition applyLifecycleAction (action : Action) (obj : ObjectInfo) : bool * list queued :=
  match action with
  | DeleteVersionAction | DeleteAction => applyExpiryRule obj false (bool_decide (action = DeleteVersionAction))
  | DeleteRestoredAction | DeleteRestoredVersionAction =>
      applyExpiryRule obj true (bool_decide (action = DeleteRestoredVersionAction))
  | TransitionAction | TransitionVersionAction => applyTransitionRule obj
  | NoneAction => (false, [])
  end.

(** [size] is the result of [GetActualSize], [rCfg] the retention of the bucket, the
    zero one when it cannot be read.  Returns whether an action was applied, the
    size, and the tasks. *)
Definition applyLifecycle (c : Clock) (lifeCycle : option Lifecycle) (rCfg : Retention) (oi : ObjectInfo) (size : Z) : bool * Z * list queued :=
  match lifeCycle with
  | None => (false, size, [])
  | Some lc =>
      let action := evalActionFromLifecycle c lc rCfg oi in
      match action with
      | DeleteAction | DeleteVersionAction | DeleteRestoredAction | DeleteRestoredVersionAction =>
          let '(ok, q) := applyLifecycleAction action oi in (ok, 0, q)
      | TransitionAction | TransitionVersionAction =>
          let '(ok, q) := applyLifecycleAction action oi in (ok, size, q)
      | NoneAction => (false, size, [])
      end
  end.

(** ** Too many noncurrent versions *)

Record ObjectToDelete := mkToDelete { td_ObjectName : string; td_VersionID : string }.

(** The metadata map of an entry loses a STANDARD storage class when the entry is
    converted, also in the entry that is kept. *)
Definition converted (fi : FileInfo) : FileInfo := fi_with_Metadata fi (removeStandardStorageClass (fi_Metadata fi)).

(** Whether a version beyond the limit stays. *)
Definition keeps (c : Clock) (bucket path : string) (versioned : bool) (rcfg : Retention) (days : Z) (fi : FileInfo) : bool :=
  let obj := ToObjectInfo fi bucket path versioned in
  re_LockEnabled rcfg && enforceRetentionForDeletion c obj ||
  (ck_Now c <? ExpectedExpiryTime (oi_SuccessorModTime obj) days).

(** The loop over the versions beyond the limit.  [fivs] shares its array with them,
    but a version is stored no further than where it was read. *)
Fixpoint overflow_loop (c : Clock) (bucket path : string) (versioned : bool) (rcfg : Retention) (days : Z)
    (overflow fivs : list FileInfo) (toDel : list ObjectToDelete) : list FileInfo * list ObjectToDelete :=
  match overflow with
  | [] => (fivs, toDel)
  | fi :: overflow =>
      if keeps c bucket path versioned rcfg days fi then
        overflow_loop c bucket path versioned rcfg days overflow (fivs ++ [converted fi]) toDel
      else
        overflow_loop c bucket path versioned rcfg days overflow fivs (toDel ++ [mkToDelete (fi_Name fi) (fi_VersionID fi)])
  end.

Definition name_only (path : string) : ObjectOpts := mkOpts path "" 0 "" false false 0 0 "" false 0.

(** The versions that remain and those queued for deletion; [None] is the panic of
    a slice expression out of range. *)
Definition applyNewerNoncurrentVersionLimit (c : Clock) (lifeCycle : option Lifecycle) (bucket path : string)
    (versioned : bool) (rcfg : Retention) (fivs : list FileInfo) : option (list FileInfo * list ObjectToDelete) :=
  match lifeCycle with
  | None => Some (fivs, [])
  | Some lc =>
      let '(_, days, lim) := NoncurrentVersionsExpirationLimit lc (name_only path) in
      if (lim =? 0) || (len fivs <=? (lim + 1)%int64) then Some (fivs, [])
      else if ((lim + 1)%int64 <? 0) then None
      else Some (overflow_loop c bucket path versioned rcfg days (slice_from fivs (lim + 1)%int64)
                   (slice_to fivs (lim + 1)%int64) [])
  end.
End Scanner.

(** ** Facts *)

Section Facts.
Context `{MapOrder} `{ObjectTags} `{HttpTime}.

Lemma overflow_loop_spec c bucket path versioned rcfg days overflow fivs toDel :
  overflow_loop c bucket path versioned rcfg days overflow fivs toDel =
  (fivs ++ (converted <$> filter (fun fi => keeps c bucket path versioned rcfg days fi = true) overflow),
   toDel ++ ((fun fi => mkToDelete (fi_Name fi) (fi_VersionID fi)) <$>
     filter (fun fi => keeps c bucket path versioned rcfg days fi = false) overflow)).
Proof.
  revert fivs toDel. induction overflow as [|fi l IH]; intros fivs toDel; cbn [overflow_loop].
  { by rewrite !filter_nil, !app_nil_r. }
  rewrite !filter_cons. destruct (keeps _ _ _ _ _ _ fi); rewrite IH.
  - destruct (decide (true = true)); [|done]. destruct (decide (true = false)); [done|]. by rewrite fmap_cons, <-app_assoc.
  - destruct (decide (false = true)); [done|]. destruct (decide (false = false)); [|done]. by rewrite fmap_cons, <-app_assoc.
Qed.

(** The limit is that of the rule that keeps most, and the days are those of a rule
    that applies and limits. *)
Definition limits (lc : Lifecycle) (path : string) (r : Rule) : Prop :=
  r ∈ FilterActionableRules lc (name_only path) /\ ne_NewerNoncurrentVersions (ru_NoncurrentVersionExpiration r) <> 0.

Lemma limit_fold rules (acc : string * Z * Z) :
  (forall r, r ∈ rules -> 0 <= ne_NewerNoncurrentVersions (ru_NoncurrentVersionExpiration r)) -> 0 <= acc.2 ->
  let res := fold_left limit_step rules acc in
  acc.2 <= res.2 /\
  (forall r, r ∈ rules -> ne_NewerNoncurrentVersions (ru_NoncurrentVersionExpiration r) <= res.2) /\
  (res = acc \/ acc.1.2 <> 0 /\ res.1.2 = acc.1.2 \/
   exists r, r ∈ rules /\ ne_NewerNoncurrentVersions (ru_NoncurrentVersionExpiration r) <> 0 /\
     ne_NoncurrentDays (ru_NoncurrentVersionExpiration r) = res.1.2).
Proof.
  revert acc. induction rules as [|r rules IH]; intros [[id days] lim] Hnn Ha; cbn [fold_left].
  { split; [done|]. split; [|by left]. intros r Hr. by apply elem_of_nil in Hr. }
  cbn [snd fst] in *. pose proof (Hnn r ltac:(left)) as Hr.
  destruct (IH (limit_step (id, days, lim) r)) as (Hle & Hmax & Hor).
  { intros r' Hr'. apply Hnn. by right. }
  { unfold limit_step. bdestruct; cbn [snd orb]; lia. }
  assert (lim <= (limit_step (id, days, lim) r).2 /\ ne_NewerNoncurrentVersions (ru_NoncurrentVersionExpiration r) <= (limit_step (id, days, lim) r).2) as [Hl Hn].
  { unfold limit_step. bdestruct; cbn [snd orb]; lia. }
  split; [cbn [snd]; lia|]. split.
  - intros r' Hr'. apply elem_of_cons in Hr' as [->|Hr']; [lia|]. by apply Hmax.
  - assert (limit_step (id, days, lim) r = (id, days, lim) \/
      days <> 0 /\ (limit_step (id, days, lim) r).1.2 = days \/
      ne_NewerNoncurrentVersions (ru_NoncurrentVersionExpiration r) <> 0 /\
      ne_NoncurrentDays (ru_NoncurrentVersionExpiration r) = (limit_step (id, days, lim) r).1.2) as Hs.
    { unfold limit_step. bdestruct; cbn [snd fst orb]; tauto. }
    destruct Hor as [Hor|[[Hz Hor]|(r' & Hr' & Hor)]].
    + rewrite Hor. destruct Hs as [Hs|[Hs|Hs]]; [by left|by right; left|]. right; right. exists r. split; [left|done].
    + rewrite Hor in *. destruct Hs as [Hs|[Hs|Hs]].
      * rewrite Hs in *. by right; left.
      * by right; left.
      * right; right. exists r. split; [left|done].
    + right; right. exists r'. split; [by right|done].
Qed.

Lemma limit_attained rules (acc : string * Z * Z) :
  (fold_left limit_step rules acc).2 = acc.2 \/
  exists r, r ∈ rules /\ ne_NewerNoncurrentVersions (ru_NoncurrentVersionExpiration r) = (fold_left limit_step rules acc).2.
Proof.
  revert acc. induction rules as [|r rules IH]; intros [[id days] lim]; cbn [fold_left]; [by left|].
  destruct (IH (limit_step (id, days, lim) r)) as [Hs|(r' & ? & ?)]; [|right; exists r'; split; [by right|done]].
  rewrite Hs. assert ((limit_step (id, days, lim) r).2 = lim \/
    ne_NewerNoncurrentVersions (ru_NoncurrentVersionExpiration r) = (limit_step (id, days, lim) r).2) as [->|?].
  { unfold limit_step. bdestruct; cbn [snd orb]; tauto. }
  - by left.
  - right. exists r. split; [left|done].
Qed.

Lemma expiration_limit lc path :
  (forall r, r ∈ lc_Rules lc -> 0 <= ne_NewerNoncurrentVersions (ru_NoncurrentVersionExpiration r)) ->
  let '(_, days, lim) := NoncurrentVersionsExpirationLimit lc (name_only path) in
  0 <= lim /\
  (forall r, r ∈ FilterActionableRules lc (name_only path) -> ne_NewerNoncurrentVersions (ru_NoncurrentVersionExpiration r) <= lim) /\
  (lim <> 0 -> exists r, limits lc path r /\ ne_NoncurrentDays (ru_NoncurrentVersionExpiration r) = days).
Proof.
  intros Hnn. unfold NoncurrentVersionsExpirationLimit.
  pose proof (limit_fold (FilterActionableRules lc (name_only path)) ("", 0, 0)) as Hf.
  destruct (fold_left limit_step _ _) as [[id days] lim]. cbn [fst snd] in Hf. destruct Hf as (Hle & Hmax & Hor); [|done|].
  { intros r Hr. apply Hnn. by apply FilterActionableRules_applies in Hr as [? _]. }
  split; [done|]. split; [done|]. intros Hz. destruct Hor as [Hor|[[? _]|(r & Hr & Hn & Hd)]]; [congruence|done|].
  exists r. done.
Qed.
End Facts.


Lemma length_filter_split {A} (p : A -> bool) (l : list A) :
  (length (filter (fun x => p x = true) l) + length (filter (fun x => p x = false) l) = length l)%nat.
Proof.
  induction l as [|x l IH]; [done|]. rewrite !filter_cons. destruct (p x);
    repeat (destruct (decide _); [|done]) || (destruct (decide _); [done|]); cbn [length]; lia.
Qed.

(** C28: the newest noncurrent versions are kept.  The limit on noncurrent versions
    removes nothing that a rule that applies promises to keep: for every rule that
    keeps [n] noncurrent versions, the current version and the [n] newest others stay
    in place.  A version that is removed lies beyond the limit of every rule, is not
    locked, and the days of a rule that limits have passed since its successor was
    written; every other version remains. *)
Theorem newer_noncurrent_kept `{MapOrder} `{ObjectTags} `{HttpTime} c lc bucket path versioned rcfg fivs :
  (forall r, r ∈ lc_Rules lc -> 0 <= ne_NewerNoncurrentVersions (ru_NoncurrentVersionExpiration r) < 2 ^ 63 - 1) ->
  exists kept del, applyNewerNoncurrentVersionLimit c (Some lc) bucket path versioned rcfg fivs = Some (kept, del) /\
    (length kept + length del = length fivs)%nat /\
    (forall r, limits lc path r ->
       take (S (Z.to_nat (ne_NewerNoncurrentVersions (ru_NoncurrentVersionExpiration r)))) fivs `prefix_of` kept) /\
    (forall d, d ∈ del -> exists i fi r, fivs !! i = Some fi /\ d = mkToDelete (fi_Name fi) (fi_VersionID fi) /\
       (forall r', limits lc path r' -> ne_NewerNoncurrentVersions (ru_NoncurrentVersionExpiration r') < Z.of_nat i) /\
       (re_LockEnabled rcfg = true -> enforceRetentionForDeletion c (ToObjectInfo fi bucket path versioned) = false) /\
       limits lc path r /\
       ExpectedExpiryTime (fi_SuccessorModTime fi) (ne_NoncurrentDays (ru_NoncurrentVersionExpiration r)) <= ck_Now c).
Proof.
  intros Hnn. unfold applyNewerNoncurrentVersionLimit.
  pose proof (expiration_limit lc path ltac:(intros r Hr; specialize (Hnn r Hr); lia)) as Hlim.
  destruct (NoncurrentVersionsExpirationLimit lc (name_only path)) as [[id days] lim] eqn:El. destruct Hlim as (H0' & Hmax & Hrule).
  assert (lim < 2 ^ 63 - 1) as Hlt.
  { unfold NoncurrentVersionsExpirationLimit in El.
    destruct (limit_attained (FilterActionableRules lc (name_only path)) ("", 0, 0)) as [Ha|(r & Hr & Ha)]; rewrite El in Ha; cbn [snd] in Ha; [lia|].
    apply FilterActionableRules_applies in Hr as [Hr _]. specialize (Hnn r Hr). lia. }
  assert ((lim + 1)%int64 = lim + 1) as -> by (unfold add64; apply wrap64_id; unfold int64_range; lia).
  destruct ((lim =? 0) || (len fivs <=? lim + 1)) eqn:E.
  - exists fivs, []. split; [done|]. split; [cbn; lia|]. split.
    + intros r _. exists (drop (S (Z.to_nat (ne_NewerNoncurrentVersions (ru_NoncurrentVersionExpiration r)))) fivs). by rewrite take_drop.
    + intros d Hd. by apply elem_of_nil in Hd.
  - apply orb_false_iff in E as [E1 E2]. apply Z.eqb_neq in E1. apply Z.leb_gt in E2.
    destruct (Z.ltb_spec (lim + 1) 0); [lia|]. rewrite overflow_loop_spec. eexists _, _. split; [reflexivity|].
    destruct (Hrule E1) as (r0 & Hr0 & Hdays).
    assert (Z.to_nat (lim + 1) = S (Z.to_nat lim)) as Hs by lia. unfold slice_from, slice_to. rewrite Hs in *. split; [|split].
    + rewrite !length_app, !length_fmap, length_take. cbn [length].
      pose proof (length_filter_split (keeps c bucket path versioned rcfg days) (drop (S (Z.to_nat lim)) fivs)) as Hf.
      rewrite length_drop in Hf. lia.
    + intros r [Hr Hn]. specialize (Hmax r Hr). apply prefix_app_r.
      rewrite <-(take_drop (S (Z.to_nat (ne_NewerNoncurrentVersions (ru_NoncurrentVersionExpiration r)))) (take (S (Z.to_nat lim)) fivs)).
      rewrite take_take, Nat.min_l by lia. by apply prefix_app_r.
    + intros d Hd. cbn [app] in Hd. apply list_elem_of_fmap in Hd as (fi & -> & Hfi). apply list_elem_of_filter in Hfi as [Hk Hfi].
      apply list_elem_of_lookup in Hfi as [j Hj]. rewrite lookup_drop in Hj.
      exists (S (Z.to_nat lim) + j)%nat, fi, r0. split; [done|]. split; [done|]. split.
      { intros r' [Hr' _]. specialize (Hmax r' Hr'). lia. }
      unfold keeps in Hk. cbv zeta in Hk. apply orb_false_iff in Hk as [Hk1 Hk2]. split.
      { intros Hl. by rewrite Hl in Hk1. }
      split; [done|]. rewrite Hdays. apply Z.ltb_ge in Hk2.
      unfold ToObjectInfo in Hk2. cbv zeta in Hk2. repeat case_match; exact Hk2.
Qed.

(** ** Faults *)

Definition keep_rule (id : string) (n days : Z) : Rule :=
  sample_rule id no_filter (mkExpiration 0 0 (mkDM false false) false) (mkNCExpiration days n true).
Definition sample_version (v : string) (succ : time) : FileInfo :=
  match zero_FileInfo with
  | mkFileInfo vo n _ il d ts ton tr tv er dd x1 mt sz md wv meta ps ei mk rs da nv _ fr ix dm =>
    mkFileInfo vo "logs/a" v il d ts ton tr tv er dd x1 mt sz md wv meta ps ei mk rs da nv succ fr ix dm
  end.
Definition sample_versions : list FileInfo :=
  [sample_version "v4" 0; sample_version "v3" (unix_epoch + 3 * day_ns); sample_version "v2" (unix_epoch + 2 * day_ns);
   sample_version "v1" (unix_epoch + day_ns)].

#[local] Instance scanner_tags : ObjectTags := {| ParseObjectTags s := Ok ∅ |}.
#[local] Instance scanner_time : HttpTime := {| http_Format t := ""; http_Parse s := Err errParse |}.

(** The limit of noncurrent versions on valid configurations.  A rule that keeps
    [2^63 - 1] versions makes the scanner panic on the first object; of two rules the
    days of the second count although those of the first pass earlier; and a rule for
    objects with a tag removes versions of objects without it. *)
Theorem newer_noncurrent_faults :
  (Lifecycle_Validate sample_ids (mkLifecycle [keep_rule "a" (2 ^ 63 - 1) 0]) = None /\
   forall fivs, fivs <> [] -> applyNewerNoncurrentVersionLimit (wall in_2022) (Some (mkLifecycle [keep_rule "a" (2 ^ 63 - 1) 0])) "b" "logs/a" true
     zero_Retention fivs = None) /\
  (Lifecycle_Validate sample_ids (mkLifecycle [keep_rule "a" 1 0; keep_rule "b" 1 5]) = None /\
   NoncurrentVersionsExpirationLimit (mkLifecycle [keep_rule "a" 1 0; keep_rule "b" 1 5]) (name_only "logs/a") = ("b", 5, 1)) /\
  (Lifecycle_Validate sample_ids (mkLifecycle [sample_rule "a" (tag_filter "class" "temporary") (mkExpiration 0 0 (mkDM false false) false) (mkNCExpiration 0 1 true)]) = None /\
   snd <$> applyNewerNoncurrentVersionLimit (wall in_2022)
     (Some (mkLifecycle [sample_rule "a" (tag_filter "class" "temporary") (mkExpiration 0 0 (mkDM false false) false) (mkNCExpiration 0 1 true)])) "b" "logs/a" true zero_Retention sample_versions =
   Some [mkToDelete "logs/a" "v2"; mkToDelete "logs/a" "v1"]).
Proof.
  split; [|split].
  - split; [vm_compute; reflexivity|]. intros fivs Hf. unfold applyNewerNoncurrentVersionLimit.
    change (NoncurrentVersionsExpirationLimit _ _) with ("a", 0, 2 ^ 63 - 1). cbv iota beta.
    change (add64 (2 ^ 63 - 1)%Z 1) with (- 2 ^ 63)%Z. change (2 ^ 63 - 1 =? 0) with false. cbn [orb].
    destruct (Z.leb_spec (len fivs) (- 2 ^ 63)); [lia|done].
  - split; vm_compute; reflexivity.
  - split; vm_compute; reflexivity.
Qed.


Lemma newer_noncurrent_kept_witness :
  applyNewerNoncurrentVersionLimit (wall in_2022) (Some (mkLifecycle [keep_rule "a" 2 1])) "b" "logs/a" true zero_Retention sample_versions =
    Some (take 3 sample_versions, [mkToDelete "logs/a" "v1"]) /\
  exists kept del, applyNewerNoncurrentVersionLimit (wall in_2022) (Some (mkLifecycle [keep_rule "a" 2 1])) "b" "logs/a" true zero_Retention sample_versions = Some (kept, del) /\
    (length kept + length del = 4)%nat.
Proof.
  split; [vm_compute; reflexivity|].
  destruct (newer_noncurrent_kept (wall in_2022) (mkLifecycle [keep_rule "a" 2 1]) "b" "logs/a" true zero_Retention sample_versions) as (kept & del & E & Hl & _).
  - intros r Hr. apply list_elem_of_singleton in Hr as ->. cbn. lia.
  - exists kept, del. split; [exact E|exact Hl].
Defined.
